(* ===== verification/_CoqProject ===== *)
-Q . S2P
Prelude.v
Machine.v
Traits.v
Interfaces.v
CommonTypes.v
SafetyStateData.v
Timeout.v
Mocks.v
TwoChain.v
Wire.v
Recovery.v
SafetyHistory.v
Durable.v
RoundState.v
Aggregator.v
PendingVotes.v
RoundManager.v
Cluster.v
CommitSafety.v
CrashCluster.v
QuorumLiveness.v
ClusterLiveness.v
Float64.v
Pacemaker.v
Proposer.v
EpochManager.v
ProposalGenerator.v
Pipeline.v
Network.v
Consensus.v
Typing.v
Runtime.v
Ballots.v
CoordinatorSpec.v
RuntimeSpec.v
StateSync.v
SyncLiveness.v
Reconfig.v
DagTypes.v
DagStore.v
DagOrdering.v
DagDriver.v
DebugFmt.v
Testing.v
UnitTestsSafety.v
UnitTestsVotes.v
UnitTestsRounds.v
UnitTestsLiveness.v
UnitTestsConsensus.v
UnitTestsPipeline.v
UnitTestsDag.v
UnitTestsMocks.v
UnitTestsTraits.v
IntegrationTests.v
CoverageTests.v
CoverageComprehensive.v
