(* ===== verification/Prelude.v ===== *)
(** * A verification library for the aptosbft consensus crates

    The repository has two Rust crates: [consensus-traits] (the interfaces a
    blockchain implements) and [consensus-core] (an AptosBFT / Jolteon style
    consensus over those interfaces, and the beginnings of a DAG consensus).
    The library translates their code to executable definitions, file by file,
    and proves what the operations do, what the reachable states satisfy and
    where the code departs from what its documentation promises.

    ** The parts and how they interact

    A proposal reaches the [Consensus] coordinator (usually through the message
    queue of [Runtime]), runs through the [Pipeline], and is handed to the
    [RoundManager].  The manager keeps the [RoundState], collects votes in
    [PendingVotes] (whose quorum check fills an [Aggregator]), and consults the
    safety rules ([TwoChain], over the state of [SafetyStateData]) before a vote
    or a timeout ([Timeout] has the certificates); [Recovery] persists and
    reloads that state.  The [Pacemaker] times rounds out, [Proposer] elects who
    proposes and [ProposalGenerator] builds the block; [EpochManager] and
    [Reconfig] change epochs and validator sets, [StateSync] catches up with the
    network, [Network] classifies messages.  The DAG side is separate:
    [DagTypes] has the nodes, [DagStore] stores them, [DagOrdering] is the
    ordering framework, and [DagDriver] drives both.

    ** Files and the sources they model (paths below src/)

    - [Prelude]: the outcome and state monads, machine integers, error
      messages ([VerifyError] and [Error] of consensus-traits/src/core.rs), hash
      map iteration, invariants as [preserves]; the hint database and tactics.
    - [Traits]: consensus-traits/src/core.rs, block.rs, safety.rs, one class per
      trait; [Chain] bundles the types and instances of one blockchain.
    - [CommonTypes]: consensus-core/src/types.rs and the enums of
      consensus-traits/src/dag.rs.
    - [SafetyStateData], [TwoChain], [Recovery]: safety_rules/state.rs,
      two_chain.rs, recovery.rs ([Recovery] also has the storage trait).
    - [Timeout]: timeout/two_chain.rs.
    - [Wire]: the types that derive serde's traits, over a format.
    - [DebugFmt]: [Debug] output.
    - [Mocks]: testing/mock_*.rs, the repository's own implementation of the
      traits, on which the witnesses are evaluated.
    - [RoundState], [Aggregator], [PendingVotes], [RoundManager]:
      state/round_state.rs, crypto/signature_aggregator.rs,
      votes/pending_votes.rs, round_manager/mod.rs.
    - [Float64]: the [f64] operations the crate uses.
    - [Pacemaker], [Proposer]: liveness/pacemaker.rs, liveness/proposer.rs and
      consensus-traits/src/proposer.rs.
    - [EpochManager], [ProposalGenerator], [Pipeline], [Network]:
      epoch_manager/mod.rs, proposal/generator.rs, pipeline/mod.rs,
      network/mod.rs.
    - [Consensus], [Runtime], [StateSync], [Reconfig]: consensus/mod.rs,
      runtime.rs, state_sync.rs, reconfig.rs.
    - [DagTypes], [DagStore], [DagOrdering], [DagDriver]: dag/types.rs and
      testing.rs, store.rs, ordering.rs, driver.rs with the traits of
      consensus-traits/src/dag.rs.
    - [Interfaces]: consensus-traits/src/network.rs and storage.rs, the traits
      nothing in the repository calls, as classes with their test instances.

    Compositions of components, which define no code of their own but the
    process around it:
    - [SafetyHistory]: the safety rules against the list of what was voted for,
      certified and timed out.
    - [Durable]: voting with persistence, the protocol documented at
      [persist_safety_state], as a process that crashes and restarts.
    - [Cluster], [CommitSafety]: round managers that exchange votes under one
      verifier: their certificates, and what they commit.
    - [CrashCluster]: the same managers, volatile, over a storage each: crashes at
      any moment, restarts through [load_safety_rules].
    - [QuorumLiveness], [ClusterLiveness], [SyncLiveness]: enough honest votes
      complete a quorum; a cluster can always certify the next block; a
      synchronisation with an honest peer completes.
    - [Typing]: machine-width well-typedness of the coordinator's states.
    - [Machine]: deterministic machines, refinement and projection between them
      as classes, and what they give for any sequence of calls.
    - [Ballots]: the safety rules behind the coordinator, which are never asked.
    - [CoordinatorSpec]: the coordinator against three machines that run side by
      side; [RuntimeSpec]: the runtime against a mailbox.

    The tests, as programs over the model that are run by computation:
    [Testing] has assertions, [UnitTestsSafety] (safety_rules/, timeout/),
    [UnitTestsVotes] (state/, crypto/, votes/), [UnitTestsRounds]
    (round_manager/), [UnitTestsLiveness] (liveness/, epoch_manager/ and
    consensus-traits/src/proposer.rs), [UnitTestsConsensus] (consensus/),
    [UnitTestsPipeline] (pipeline/, network/), [UnitTestsDag] (dag/),
    [UnitTestsMocks] (types.rs, testing/), [UnitTestsTraits] (the other files
    of consensus-traits and proposal/), [IntegrationTests], [CoverageTests] and
    [CoverageComprehensive] (the seven files of consensus-core/tests).

    A Rust struct is a record of the same name and its methods are definitions
    of the same name; where two methods of one file, or a method and a library
    function, share a name the definition has a short prefix ([pv_], [rm_], [rc_],
    [sy_], [dd_], ...).  Getters are the record's projections.

    ** Conventions

    - A method on [&mut self] is a value of [M S E A]: from a state to a state and
      an outcome; the state after an error is the state at the early return.
      An outcome is [Ok], [Err] or [Panic]; overflow in a build with checks,
      [unwrap] of an error, a remainder by zero and [unimplemented!] are [Panic].
    - Unsigned integers are [N] with their width written out.  Both build
      profiles are covered: [OverflowMode] says whether overflow panics or wraps.
      Side conditions such as [is_u64] bound the arguments a Rust caller can pass.
    - An accessor that returns a [&mut] ([safety_rules_mut], [consensus_mut]) is a
      call with an argument: what the borrower does to the part, any function on
      it.
    - An error is its format string with its arguments, so messages stay
      distinguishable without modelling number formatting inside them.
    - A [HashMap] is a [gmap] whose iteration order is a parameter ([HashOrder]):
      results hold for every order.  A [BTreeMap] enumerates in key order.
    - [f64] is the Standard Library's specification float at 53 bits; [powf] is a
      libm function and an argument.  Clocks are arguments too.
    - [Arc] is the identity: the code never mutates behind one.

    ** What the theorems show

    - Safety rules: the reachable states satisfy the protocol's order of rounds
      and no round decreases; the voting, timeout and commit rules are
      characterised on every input, overflow included; what [safe_to_vote]
      checks is weaker than the rule it is named after.
    - Serialization: of the types that derive it, all are read as they were
      written but the timeout certificate, which never verifies again
      ([serialization_loses_the_timeout]).
    - Recovery: what is persisted is what is loaded, over any storage that keeps
      its promise; which reachable states survive the validation.
    - Votes: the store's invariant; [add_vote] on every branch; quorum
      intersection from the code's own quorum check; a completed quorum leaves a
      certificate; when the helper methods agree with the check.
    - Rounds and liveness: the manager's invariant, votes and timeouts on every
      branch, fairness and proportionality of the elections, reputations stay in
      the unit interval in IEEE arithmetic, the back-off schedule.
    - Coordination: lifecycle, outcome of every proposal, the queue is drained in
      arrival order and equivalently to handling messages one at a time; the
      state-sync and reconfiguration protocols as invariants of reachable states.
    - Specifications of the upper layers: the coordinator is the product of its
      lifecycle, its round manager and its pacemaker, none of which hears of the
      others ([coordinator_is_product]); the runtime is a mailbox in front of a
      pacemaker, and the rest of the coordinator is reached only by who borrows
      it through [consensus_mut] ([runtime_is_mailbox]); the coordinator announces votes and never casts one
      ([coordinator_never_votes]).
    - DAG: the store refines a finite map from rounds and authors to node
      statuses, its enumeration is complete and sorted; what driver and anchor
      election do not do.
    - Compositions: the safety state is a function of the history of calls
      ([safety_state_is_history]); votes sent by a process that persists before
      it sends survive any pattern of crashes ([sent_votes_survive_crashes]);
      every certificate in a cluster is backed by a quorum of votes
      ([certificates_are_backed]); no two certificates of one round are for
      different blocks if the faulty power is below the quorum overlap and the
      honest validators do not vote again in the round they last voted in
      ([certificates_agree]), a guard the code lacks: without it four honest
      validators certify two blocks of one round ([honest_fork]); if moreover they
      vote only for proposals whose parent is certified in the round before,
      which [safe_to_vote] takes for granted, all commits lie on one chain
      ([commits_on_one_chain]), and if not, honest validators commit conflicting
      blocks ([conflicting_commits]); both survive any pattern of crashes if votes
      are persisted before they are sent ([agreement_survives_crashes],
      [commits_survive_crashes]), and as the code is, which never persists, one
      restart is enough for a fork ([unpersisted_votes_fork]); the outcome of vote collection does not
      depend on the order of arrival.
    - Termination and progress: quorums, synchronisation and reconfiguration
      complete under the stated conditions ([quorum_is_reached],
      [honest_sync_completes], [reconfiguration_progresses]); the guards that make
      a cluster safe never stop it from certifying a proposal that extends a
      certified block ([cluster_progresses]); a synchronisation whose peer marks
      only its last batch as final stalls instead; the pacemaker of a
      running coordinator ends one round above the highest timeout it heard, so
      two that heard the same highest timeout meet in a round
      ([timeouts_converge]), the stage loop ends ([stage_loop_terminates]);
      well-typed states stay well typed ([coordinator_well_typed]).
    - Conformance: the repository's tests pass on the model in debug and release
      builds and in two iteration orders of the hash maps (the theorems
      [*_unit_tests_pass], one per test file above,
      [integration_tests_pass], [coverage_tests_pass] and
      [comprehensive_coverage_tests_pass]).

    ** Loops and fuel

    Loops over a collection are structural.  The others take fuel and are proved
    to finish within it: the pipeline loop has four stages and fuel 4
    ([process_block_completes]); the runtime's queue and the driver's queue only
    lose elements while they are drained, so their length suffices
    ([pending_loop_eq], [drain_pending_effect]); [ready_blocks] removes a stored
    block per iteration, so the size of the map suffices ([ready_loop_spec]); the
    driver's ordering loop ends with its first, always empty, batch
    ([process_certified_node_effect]).  A synchronisation is a loop of exchanges
    with a peer; one exchange per missing round suffices ([SyncLiveness]).

    ** Not modelled

    Console output, the [Debug] output no test looks at, allocation failure and
    real concurrency (the crates spawn no task: futures are awaited one after the
    other).  Of the tests, those that assert nothing but that a method can be
    called, and three on the [Debug] output of enums.  The binary format of
    serialized values is a library, bincode; the tests that serialize run on a
    fixed-width format instead.
    Cryptography is not part of the crates: signatures and hashes are methods of
    the classes, and may fail.  [quorum_is_reached] follows them on every
    outcome; only [cluster_progresses] assumes that they succeed, on the votes it
    speaks of. *)
From stdpp Require Export prelude gmap strings pretty sorting.
From Stdlib Require Export Lia.
Export Datatypes.

#[global] Open Scope N_scope.
#[global] Set Default Goal Selector "!".

(** ** Outcomes of a Rust call

    A call returns normally with a value, returns the error side of its
    [Result], or panics.  [?] is the bind of this type: it hands an [Err] back
    to the caller, and a panic unwinds through everything. *)
Inductive res (E A : Type) : Type :=
| Ok (a : A)
| Err (e : E)
| Panic.
Arguments Ok {E A} a.
Arguments Err {E A} e.
Arguments Panic {E A}.

#[export] Instance res_ret E : MRet (res E) := λ A a, Ok a.
#[export] Instance res_bind E : MBind (res E) := λ A B f m,
  match m with Ok a => f a | Err e => Err e | Panic => Panic end.
#[export] Instance res_eq_dec E A `{EqDecision E, EqDecision A} :
  EqDecision (res E A).
Proof. solve_decision. Defined.

(** [map_err] of [Result]. *)
Definition map_err {E F A} (f : E → F) (r : res E A) : res F A :=
  match r with Ok a => Ok a | Err e => Err (f e) | Panic => Panic end.

Definition is_ok {E A} (r : res E A) : bool :=
  match r with Ok _ => true | _ => false end.
Definition is_panic {E A} (r : res E A) : bool :=
  match r with Panic => true | _ => false end.

(** ** Methods with a mutable receiver

    [M S E A] is a method on [&mut self] with [self : S]: it yields the state
    it leaves behind together with its outcome.  The state after an error is
    the state at the moment of the early return. *)
Definition M (S E A : Type) : Type := S → S * res E A.

#[export] Instance M_ret S E : MRet (M S E) := λ A a s, (s, Ok a).
#[export] Instance M_bind S E : MBind (M S E) := λ A B f m s,
  match m s with
  | (s', Ok a) => f a s'
  | (s', Err e) => (s', Err e)
  | (s', Panic) => (s', Panic)
  end.

Definition get {S E} : M S E S := λ s, (s, Ok s).
Definition gets {S E A} (f : S → A) : M S E A := λ s, (s, Ok (f s)).
Definition modify {S E} (f : S → S) : M S E unit := λ s, (f s, Ok tt).
Definition throw {S E A} (e : E) : M S E A := λ s, (s, Err e).
Definition lift {S E A} (r : res E A) : M S E A := λ s, (s, r).
(** A call on a field of the receiver. *)
Definition zoom {S T E A} (proj : S → T) (upd : T → S → S) (m : M T E A) :
    M S E A :=
  λ s, let '(t, r) := m (proj s) in (upd t s, r).
(** [ensure!(b, e)]. *)
Definition ensure {S E} (b : bool) (e : E) : M S E unit :=
  if b then mret tt else throw e.
(** [map_err] on the outcome of a method. *)
Definition map_err_m {S E F A} (f : E → F) (m : M S E A) : M S F A :=
  λ s, let '(s', r) := m s in (s', map_err f r).

(** Equations of the monad, the rewriting rules of the proofs below. *)
Section monad_laws.
Context {S E : Type}.
Implicit Types s : S.

Lemma bind_ret {A B} (a : A) (f : A → M S E B) s : (mret a ≫= f) s = f a s.
Proof. done. Qed.
Lemma bind_gets {A B} (g : S → A) (f : A → M S E B) s :
  (gets g ≫= f) s = f (g s) s.
Proof. done. Qed.
Lemma bind_get {B} (f : S → M S E B) s : (get ≫= f) s = f s s.
Proof. done. Qed.
Lemma bind_ensure {B} b e (f : unit → M S E B) s :
  (ensure b e ≫= f) s = if b then f tt s else (s, Err e).
Proof. by destruct b. Qed.
Lemma bind_lift {A B} (r : res E A) (f : A → M S E B) s :
  (lift r ≫= f) s = match r with Ok a => f a s | Err e => (s, Err e) | Panic => (s, Panic) end.
Proof. by destruct r. Qed.
Lemma bind_modify {B} (g : S → S) (f : unit → M S E B) s :
  (modify g ≫= f) s = f tt (g s).
Proof. done. Qed.
Lemma bind_throw {A B} e (f : A → M S E B) s : (throw e ≫= f) s = (s, Err e).
Proof. done. Qed.
Lemma bind_ok {A B} (m : M S E A) (f : A → M S E B) s s' a :
  m s = (s', Ok a) → (m ≫= f) s = f a s'.
Proof. by unfold mbind, M_bind; intros ->. Qed.
Lemma bind_err {A B} (m : M S E A) (f : A → M S E B) s s' e :
  m s = (s', Err e) → (m ≫= f) s = (s', Err e).
Proof. by unfold mbind, M_bind; intros ->. Qed.
Lemma bind_panic {A B} (m : M S E A) (f : A → M S E B) s s' :
  m s = (s', Panic) → (m ≫= f) s = (s', Panic).
Proof. by unfold mbind, M_bind; intros ->. Qed.
Lemma bind_ok_inv {A B} (m : M S E A) (f : A → M S E B) s s'' b :
  (m ≫= f) s = (s'', Ok b) → ∃ s' a, m s = (s', Ok a) ∧ f a s' = (s'', Ok b).
Proof.
  unfold mbind, M_bind. destruct (m s) as [s' [a|e|]]; naive_solver.
Qed.
Lemma lift_ok_inv {A} (r : res E A) s s' a :
  lift r s = (s', Ok a) → s' = s ∧ r = Ok a.
Proof. by intros [= -> ->]. Qed.
Lemma bind_lift_ok_inv {A B} (r : res E A) (f : A → M S E B) s s'' b :
  (lift r ≫= f) s = (s'', Ok b) → ∃ a, r = Ok a ∧ f a s = (s'', Ok b).
Proof. by intros (?&a&[-> ->]%lift_ok_inv&H)%bind_ok_inv; eauto. Qed.
Lemma bind_assoc {A B C} (m : M S E A) (f : A → M S E B) (g : B → M S E C) s :
  ((m ≫= f) ≫= g) s = (m ≫= λ a, f a ≫= g) s.
Proof. unfold mbind, M_bind. by destruct (m s) as [s' [a|e|]]. Qed.
End monad_laws.

(** ** Machine integers

    Unsigned integers are [N]; [w]-bit addition, multiplication and
    subtraction follow the build profile: with overflow checks (the debug
    profile) an overflow panics, without them (release) it wraps.  The two
    profiles are the two values of [overflow_checks], and every definition is
    parametric in it. *)
Class OverflowMode := overflow_checks : bool.
Definition debug_build : OverflowMode := true.
Definition release_build : OverflowMode := false.

Definition bound (w : N) : N := 2 ^ w.
Definition u32_max : N := 2 ^ 32 - 1.
Definition u64_max : N := 2 ^ 64 - 1.
Definition u128_max : N := 2 ^ 128 - 1.
Definition is_u64 (n : N) : Prop := n ≤ u64_max.
#[export] Instance is_u64_dec n : Decision (is_u64 n) := decide (n ≤ u64_max).

Section machine.
Context `{OV : OverflowMode}.

(** The exact result [z] of a [w]-bit operation, [wrapped] when it does not
    fit. *)
Definition narrow {E} (w z : N) : res E N :=
  if decide (z < bound w) then Ok z
  else if overflow_checks then Panic else Ok (z mod bound w).
Definition add_w {E} (w a b : N) : res E N := narrow w (a + b).
Definition mul_w {E} (w a b : N) : res E N := narrow w (a * b).
Definition sub_w {E} (w a b : N) : res E N :=
  if decide (b ≤ a) then Ok (a - b)
  else if overflow_checks then Panic else Ok (a + bound w - b).
Definition add64 {E} (a b : N) : res E N := add_w 64 a b.
Definition sub64 {E} (a b : N) : res E N := sub_w 64 a b.
Definition mul128 {E} (a b : N) : res E N := mul_w 128 a b.
Definition add128 {E} (a b : N) : res E N := add_w 128 a b.
(** [iter.sum()] at [u128], left to right. *)
Fixpoint sum128_from {E} (acc : N) (l : list N) : res E N :=
  match l with
  | [] => Ok acc
  | x :: l => acc' ← add128 acc x; sum128_from acc' l
  end.
Definition sum128 {E} (l : list N) : res E N := sum128_from 0 l.
(** The same at [usize]. *)
Fixpoint sum64_from {E} (acc : N) (l : list N) : res E N :=
  match l with
  | [] => Ok acc
  | x :: l => acc' ← add64 acc x; sum64_from acc' l
  end.
Definition sum64 {E} (l : list N) : res E N := sum64_from 0 l.
End machine.

(** [checked_add]. *)
Definition checked_add64 (a b : N) : option N :=
  if decide (a + b < bound 64) then Some (a + b) else None.
(** [saturating_sub] is truncated subtraction of [N]; [as u8], [as u32]. *)
Definition as_u8 (n : N) : N := n mod bound 8.
Definition as_u32 (n : N) : N := n mod bound 32.

Definition sumN (l : list N) : N := foldr N.add 0 l.
#[global] Arguments sumN : simpl never.
#[global] Arguments bound : simpl never.
#[global] Arguments u64_max : simpl never.

Section machine_lemmas.
Context `{OV : OverflowMode}.

Lemma bound64 : bound 64 = u64_max + 1.
Proof. reflexivity. Qed.
Lemma add_w_ok {E} w a b : a + b < bound w → @add_w _ E w a b = Ok (a + b).
Proof. intros. unfold add_w, narrow. by rewrite decide_True. Qed.
Lemma mul_w_ok {E} w a b : a * b < bound w → @mul_w _ E w a b = Ok (a * b).
Proof. intros. unfold mul_w, narrow. by rewrite decide_True. Qed.
Lemma add64_ok {E} a b : a + b ≤ u64_max → @add64 _ E a b = Ok (a + b).
Proof. intros. apply add_w_ok. rewrite bound64. lia. Qed.
Lemma sub64_ok {E} a b : b ≤ a → @sub64 _ E a b = Ok (a - b).
Proof. intros. unfold sub64, sub_w. by rewrite decide_True. Qed.
Lemma add64_range {E} a b n : @add64 _ E a b = Ok n → is_u64 n.
Proof.
  unfold add64, add_w, narrow, is_u64. rewrite bound64.
  case_decide; [intros [= <-]; lia|].
  destruct overflow_checks; [done|]. intros [= <-].
  assert ((a + b) mod (u64_max + 1) < u64_max + 1) by (by apply N.mod_lt). lia.
Qed.
Lemma add_w_overflow {E} w a b :
  match @add_w _ E w a b with Ok _ => True | Err _ => False
  | Panic => overflow_checks = true end.
Proof. unfold add_w, narrow. case_decide; [done|]. by destruct overflow_checks. Qed.
Lemma add64_not_err {E} a b e : @add64 _ E a b ≠ Err e.
Proof.
  unfold add64, add_w, narrow. case_decide; [done|]. by destruct overflow_checks.
Qed.
Lemma add64_wraps {E} a b :
  overflow_checks = false → @add64 _ E a b = Ok ((a + b) mod bound 64).
Proof.
  intros Ho. unfold add64, add_w, narrow. rewrite Ho.
  case_decide; [by rewrite N.mod_small|done].
Qed.
(** The one overflowing successor of a 64-bit value. *)
Lemma succ64_max {E} : @add64 _ E u64_max 1 = if overflow_checks then Panic else Ok 0.
Proof. reflexivity. Qed.
Lemma succ64_cases {E} a : is_u64 a →
  (a < u64_max ∧ @add64 _ E a 1 = Ok (a + 1)) ∨
  (a = u64_max ∧ @add64 _ E a 1 = if overflow_checks then Panic else Ok 0).
Proof.
  unfold is_u64. intros. destruct (decide (a = u64_max)) as [->|].
  - right. split; [done|apply succ64_max].
  - left. split; [lia|apply add64_ok; lia].
Qed.
Lemma checked_add64_Some a b n :
  checked_add64 a b = Some n ↔ n = a + b ∧ a + b ≤ u64_max.
Proof.
  unfold checked_add64. rewrite bound64.
  case_decide; (split; [intros [= <-]; lia|intros [-> ?]; f_equal; lia])
    || (split; [done|lia]).
Qed.
Lemma checked_add64_None a b : checked_add64 a b = None ↔ u64_max < a + b.
Proof.
  unfold checked_add64. rewrite bound64. case_decide; split; try done; lia.
Qed.

Lemma sumN_nil : sumN [] = 0.
Proof. done. Qed.
Lemma sumN_cons x l : sumN (x :: l) = x + sumN l.
Proof. done. Qed.
Lemma sumN_app l k : sumN (l ++ k) = sumN l + sumN k.
Proof. induction l as [|x l IH]; [done|]. cbn. rewrite !sumN_cons. lia. Qed.
Lemma sumN_elem x l : x ∈ l → x ≤ sumN l.
Proof. induction 1; rewrite sumN_cons; lia. Qed.
#[global] Instance sumN_perm : Proper ((≡ₚ) ==> eq) sumN.
Proof. intros l k. induction 1; rewrite ?sumN_cons; lia. Qed.
Lemma sumN_replicate n x : sumN (replicate n x) = N.of_nat n * x.
Proof. induction n; cbn [replicate]; rewrite ?sumN_cons, ?sumN_nil; lia. Qed.
Lemma sum128_from_ok {E} acc l :
  acc + sumN l < bound 128 → @sum128_from _ E acc l = Ok (acc + sumN l).
Proof.
  revert acc. induction l as [|x l IH]; intros acc; rewrite ?sumN_cons; intros Hl.
  - cbn. rewrite sumN_nil. f_equal; lia.
  - cbn [sum128_from]. unfold add128. rewrite add_w_ok by lia. cbn. rewrite IH by lia. f_equal; lia.
Qed.
Lemma sum64_from_ok {E} acc l :
  acc + sumN l ≤ u64_max → @sum64_from _ E acc l = Ok (acc + sumN l).
Proof.
  revert acc. induction l as [|x l IH]; intros acc; rewrite ?sumN_cons; intros Hl.
  - cbn. rewrite sumN_nil. f_equal; lia.
  - cbn [sum64_from]. rewrite add64_ok by lia. cbn. rewrite IH by lia. f_equal; lia.
Qed.
Lemma sum64_ok {E} l : sumN l ≤ u64_max → @sum64 _ E l = Ok (sumN l).
Proof. intros. unfold sum64. by rewrite sum64_from_ok. Qed.
Lemma sum128_ok {E} l : sumN l < bound 128 → @sum128 _ E l = Ok (sumN l).
Proof. intros. unfold sum128. by rewrite sum128_from_ok. Qed.
End machine_lemmas.

(** ** Weighted lists: the voting power of a list of signers *)
Section weights.
Context {A : Type} (w : A → N).
Definition weight_of (l : list A) : N := sumN (w <$> l).

Lemma weight_of_app l k : weight_of (l ++ k) = weight_of l + weight_of k.
Proof. unfold weight_of. by rewrite fmap_app, sumN_app. Qed.
Lemma weight_of_cons a l : weight_of (a :: l) = w a + weight_of l.
Proof. done. Qed.
#[global] Instance weight_of_perm : Proper ((≡ₚ) ==> eq) weight_of.
Proof. intros l k Hlk. unfold weight_of. by rewrite Hlk. Qed.
Lemma weight_of_submseteq l k : l ⊆+ k → weight_of l ≤ weight_of k.
Proof.
  intros [r ->]%submseteq_Permutation. rewrite weight_of_app. lia.
Qed.
Lemma weight_of_zero l : (∀ a, a ∈ l → w a = 0) → weight_of l = 0.
Proof.
  induction l as [|a l IH]; intros Hl; [done|]. rewrite weight_of_cons.
  rewrite Hl, IH; [done| |left]. intros b Hb. apply Hl. by right.
Qed.

(** Inclusion-exclusion on duplicate-free lists. *)
Lemma weight_of_overlap `{EqDecision A} l k all :
  NoDup l → NoDup k → l ⊆ all → k ⊆ all → NoDup all →
  weight_of l + weight_of k ≤ weight_of all + weight_of (list_intersection l k).
Proof.
  intros Hl Hk Hla Hka Hall.
  assert (Hsplit : l ≡ₚ list_intersection l k ++ list_difference l k).
  { apply NoDup_Permutation; [done| |].
    - apply NoDup_app. split_and!.
      + by apply NoDup_list_intersection.
      + intros x. rewrite list_elem_of_intersection, list_elem_of_difference.
        naive_solver.
      + by apply NoDup_list_difference.
    - intros x. rewrite elem_of_app, list_elem_of_intersection,
        list_elem_of_difference. destruct (decide (x ∈ k)); naive_solver. }
  rewrite Hsplit at 1. rewrite weight_of_app.
  assert (weight_of (list_difference l k) + weight_of k ≤ weight_of all); [|lia].
  rewrite <- weight_of_app. apply weight_of_submseteq, NoDup_submseteq.
  - apply NoDup_app. split_and!; [by apply NoDup_list_difference| |done].
    intros x. rewrite list_elem_of_difference. naive_solver.
  - intros x. rewrite elem_of_app, list_elem_of_difference.
    intros [[? _]|?]; [by apply Hla|by apply Hka].
Qed.
End weights.

(** ** Errors

    An [anyhow] error is kept as the source's format string with the values it
    interpolates; [DKey] is the [{:?}] of a key type. *)
Inductive fmt_arg :=
| DNum (n : N)
| DOpt (o : option N)
| DKey (p : positive)
| DStr (s : string).
Inductive VerifyError :=
| UnknownAuthor
| TooLittleVotingPower (voting_power expected_voting_power : N)
| InvalidSignature
| InvalidAggregatedSignature.
Inductive Error :=
| Msg (fmt : string) (args : list fmt_arg)
| Caused (fmt : string) (cause : Error)
| FromVerify (e : VerifyError).
#[export] Instance fmt_arg_eq_dec : EqDecision fmt_arg.
Proof. solve_decision. Defined.
#[export] Instance VerifyError_eq_dec : EqDecision VerifyError.
Proof. solve_decision. Defined.
#[export] Instance Error_eq_dec : EqDecision Error.
Proof. solve_decision. Defined.

(** ** Hash maps

    A [HashMap] is a [gmap]; the order in which it is iterated is unspecified,
    so every iteration goes through [hm_iter], about which only the law below
    is known. *)
Class HashOrder := {
  hm_iter : ∀ {K A} `{Countable K}, gmap K A → list (K * A);
  hm_iter_perm : ∀ {K A} `{Countable K} (m : gmap K A),
    hm_iter m ≡ₚ map_to_list m;
}.
Definition canonical_order : HashOrder :=
  {| hm_iter _ _ _ _ m := map_to_list m; hm_iter_perm _ _ _ _ m := reflexivity _ |}.
(** The opposite order: a second instance, so that witnesses can show an
    order-independent result under two orders. *)
Definition reversed_order : HashOrder :=
  {| hm_iter _ _ _ _ m := reverse (map_to_list m);
     hm_iter_perm _ _ _ _ m := reverse_Permutation _ |}.

Section hash_maps.
Context `{HO : HashOrder} {K A : Type} `{Countable K}.
Implicit Types m : gmap K A.

Definition hm_keys m : list K := (hm_iter m).*1.
Definition hm_values m : list A := (hm_iter m).*2.
(** [retain]. *)
Definition hm_retain (P : K → bool) m : gmap K A :=
  filter (λ kv : K * A, P kv.1 = true) m.

Lemma hm_iter_NoDup m : NoDup (hm_keys m).
Proof. unfold hm_keys. rewrite hm_iter_perm. apply NoDup_fst_map_to_list. Qed.
Lemma elem_of_hm_iter m k a : (k, a) ∈ hm_iter m ↔ m !! k = Some a.
Proof. rewrite hm_iter_perm. apply elem_of_map_to_list. Qed.
Lemma elem_of_hm_keys m k : k ∈ hm_keys m ↔ is_Some (m !! k).
Proof.
  unfold hm_keys. rewrite list_elem_of_fmap. split.
  - intros ([k' a] & -> & Hin). apply elem_of_hm_iter in Hin. eauto.
  - intros [a Ha]. exists (k, a). by rewrite elem_of_hm_iter.
Qed.
Lemma elem_of_hm_values m a : a ∈ hm_values m ↔ ∃ k, m !! k = Some a.
Proof.
  unfold hm_values. rewrite list_elem_of_fmap. split.
  - intros ([k a'] & -> & Hin). apply elem_of_hm_iter in Hin. eauto.
  - intros [k Hk]. exists (k, a). by rewrite elem_of_hm_iter.
Qed.
Lemma length_hm_iter m : length (hm_iter m) = size m.
Proof. rewrite hm_iter_perm. apply length_map_to_list. Qed.
Lemma lookup_hm_retain P m k :
  hm_retain P m !! k = if P k then m !! k else None.
Proof.
  unfold hm_retain. destruct (P k) eqn:HP.
  - destruct (m !! k) eqn:Hk.
    + by apply map_lookup_filter_Some_2.
    + apply map_lookup_filter_None_2. by left.
  - apply map_lookup_filter_None_2. right. intros ? _. simpl. congruence.
Qed.
Lemma hm_retain_subseteq P m : hm_retain P m ⊆ m.
Proof. apply map_filter_subseteq. Qed.
Lemma hm_retain_true P m : (∀ k, is_Some (m !! k) → P k = true) → hm_retain P m = m.
Proof.
  intros HP. apply map_eq. intros k. rewrite lookup_hm_retain.
  destruct (P k) eqn:E; [done|]. destruct (m !! k) eqn:Hk; [|done].
  rewrite HP in E by eauto. done.
Qed.
End hash_maps.

(** ** Maxima of lists of numbers *)
Fixpoint maxN (l : list N) : N :=
  match l with [] => 0 | x :: l => N.max x (maxN l) end.
Lemma maxN_app l k : maxN (l ++ k) = maxN l `max` maxN k.
Proof. induction l as [|x l IH]; cbn; [lia|]. rewrite IH. lia. Qed.
Lemma maxN_elem l x : x ∈ l → x ≤ maxN l.
Proof. induction 1; cbn; lia. Qed.
Lemma maxN_lt l b : 0 < b → Forall (λ x, x < b) l → maxN l < b.
Proof. intros Hb. induction 1; cbn; lia. Qed.
(** [greatest P m]: [m] is the greatest number with [P]. *)
Definition greatest (P : N → Prop) (m : N) : Prop := P m ∧ ∀ x, P x → x ≤ m.
Lemma greatest_unique P m n : greatest P m → greatest P n → m = n.
Proof. intros [Hm Hm'] [Hn Hn']. apply N.le_antisymm; auto. Qed.

(** ** Reachability: an invariant of the steps is an invariant of the traces *)
Lemma rtc_invariant {A} (R : relation A) (P : A → Prop) x y :
  (∀ x y, P x → R x y → P y) → P x → rtc R x y → P y.
Proof. intros HR Hx. induction 1; eauto. Qed.

(** A schedule of actions that may be refused, and the steps it performs. *)
Definition perform {A S} (act : A → S → option S) (l : list A) (s : S) : option S :=
  foldl (λ s a, s ≫= act a) (Some s) l.
Lemma perform_reachable {A S} (act : A → S → option S) (R : relation S) l s s' :
  (∀ a s s', act a s = Some s' → R s s') → perform act l s = Some s' → rtc R s s'.
Proof.
  intros Hact. unfold perform. revert s'. induction l as [|a l IH] using rev_ind; intros s'.
  - intros [= <-]. apply rtc_refl.
  - rewrite foldl_snoc. intros (s1&H1%IH&H2%Hact)%bind_Some. by eapply rtc_r.
Qed.

(** ** Frame reasoning

    [preserves R m]: every run of [m] relates the state it starts in to the
    state it leaves, whatever its outcome.  For a preorder [R] the combinators
    of the monad compose such facts. *)
Definition preserves {S E A} (R : relation S) (m : M S E A) : Prop :=
  ∀ s, R s (m s).1.
Section preserves.
Context {S E : Type} (R : relation S) `{!PreOrder R}.

Lemma preserves_ret {A} (a : A) : preserves R (mret a : M S E A).
Proof. intros s. reflexivity. Qed.
Lemma preserves_gets {A} (f : S → A) : preserves R (gets f : M S E A).
Proof. intros s. reflexivity. Qed.
Lemma preserves_get : preserves R (get : M S E S).
Proof. intros s. reflexivity. Qed.
Lemma preserves_throw {A} (e : E) : preserves R (throw e : M S E A).
Proof. intros s. reflexivity. Qed.
Lemma preserves_lift {A} (r : res E A) : preserves R (lift r : M S E A).
Proof. intros s. reflexivity. Qed.
Lemma preserves_ensure b (e : E) : preserves R (ensure b e : M S E unit).
Proof. intros s. unfold ensure. destruct b; reflexivity. Qed.
Lemma preserves_modify f : (∀ s, R s (f s)) → preserves R (modify f : M S E unit).
Proof. intros Hf s. apply Hf. Qed.
Lemma preserves_bind {A B} (m : M S E A) (f : A → M S E B) :
  preserves R m → (∀ a, preserves R (f a)) → preserves R (m ≫= f).
Proof.
  intros Hm Hf s. unfold mbind, M_bind. specialize (Hm s).
  destruct (m s) as [s' [a|e|]]; cbn in *; [|done..].
  etrans; [exact Hm|apply Hf].
Qed.
Lemma preserves_if {A} (b : bool) (m n : M S E A) :
  preserves R m → preserves R n → preserves R (if b then m else n).
Proof. by destruct b. Qed.
Lemma preserves_decide {A} (P : Prop) `{Decision P} (m n : M S E A) :
  preserves R m → preserves R n → preserves R (if decide P then m else n).
Proof. by case_decide. Qed.
(** A call on a field preserves what every change of the field preserves. *)
Lemma preserves_zoom {T A} (Q : relation T) (proj : S → T) (upd : T → S → S)
    (m : M T E A) :
  preserves Q m → (∀ s t, Q (proj s) t → R s (upd t s)) →
  preserves R (zoom proj upd m).
Proof.
  intros Hm Hu s. unfold zoom. specialize (Hm (proj s)).
  destruct (m (proj s)) as [t r]; cbn in *. by apply Hu.
Qed.
End preserves.

(** ** Triples

    [sound P m Q]: from a state with [P] the method leaves a state with [P],
    whatever its outcome; a value it returns has [Q]; and it panics at most
    where overflow is checked. *)
Section triples.
Context `{OV : OverflowMode} {S E : Type}.
Implicit Types P : S → Prop.

Definition ok_or_overflow {A} (Q : A → Prop) (r : res E A) : Prop :=
  match r with Ok a => Q a | Err _ => True | Panic => overflow_checks = true end.
Definition sound {A} P (m : M S E A) (Q : A → Prop) : Prop :=
  ∀ s, P s → P (m s).1 ∧ ok_or_overflow Q (m s).2.

Lemma sound_ret {A} P (a : A) (Q : A → Prop) : Q a → sound P (mret a) Q.
Proof. by intros Ha s Hs. Qed.
Lemma sound_throw {A} P (e : E) (Q : A → Prop) : sound P (throw e) Q.
Proof. by intros s Hs. Qed.
Lemma sound_gets {A} P (f : S → A) (Q : A → Prop) :
  (∀ s, P s → Q (f s)) → sound P (gets f) Q.
Proof. intros Hf s Hs. split; [done|]. by apply Hf. Qed.
Lemma sound_get P (Q : S → Prop) : (∀ s, P s → Q s) → sound P get Q.
Proof. intros Hf s Hs. split; [done|]. by apply Hf. Qed.
Lemma sound_modify P f (Q : unit → Prop) :
  Q tt → (∀ s, P s → P (f s)) → sound P (modify f) Q.
Proof. intros HQ Hf s Hs. split; [by apply Hf|done]. Qed.
Lemma sound_lift {A} P (r : res E A) (Q : A → Prop) :
  ok_or_overflow Q r → sound P (lift r) Q.
Proof. by intros Hr s Hs. Qed.
Lemma sound_ensure P b (e : E) (Q : unit → Prop) : Q tt → sound P (ensure b e) Q.
Proof. intros HQ s Hs. unfold ensure. by destruct b. Qed.
Lemma sound_bind {A B} P (m : M S E A) (f : A → M S E B) Q R :
  sound P m Q → (∀ a, Q a → sound P (f a) R) → sound P (m ≫= f) R.
Proof.
  intros Hm Hf s Hs. unfold mbind, M_bind. destruct (Hm s Hs) as [Hp Ho].
  destruct (m s) as [s' [a|e|]]; cbn in *; [by apply Hf|done..].
Qed.
Lemma sound_weaken {A} P (m : M S E A) (Q R : A → Prop) :
  sound P m Q → (∀ a, Q a → R a) → sound P m R.
Proof.
  intros Hm HQ s Hs. destruct (Hm s Hs) as [Hp Ho]. split; [done|].
  destruct (m s).2; cbn in *; auto.
Qed.
Lemma sound_zoom {T A} P (PT : T → Prop) (proj : S → T) (upd : T → S → S)
    (m : M T E A) Q :
  (∀ t, PT t → PT (m t).1 ∧ ok_or_overflow Q (m t).2) →
  (∀ s, P s → PT (proj s)) → (∀ s t, P s → PT t → P (upd t s)) →
  sound P (zoom proj upd m) Q.
Proof.
  intros Hm Hp Hu s Hs. unfold zoom. destruct (Hm (proj s) (Hp s Hs)) as [Ht Ho].
  destruct (m (proj s)) as [t r]; cbn in *. split; [by apply Hu|done].
Qed.
End triples.

(** ** Automation *)

(** Runs a monadic method: unfolds the plumbing and computes. *)
Ltac unfold_monad :=
  unfold mret, mbind, M_ret, M_bind, res_ret, res_bind, get, gets, modify,
    throw, lift, zoom, ensure, map_err_m in *.
Ltac run := unfold_monad; cbn in *.
(** Splits the conditionals and matches of a computation one by one, closing
    the branches that contradict the hypotheses. *)
Ltac split_cases :=
  repeat (case_match || case_decide || case_bool_decide);
  simplify_eq/=; try done.
(** Booleans to propositions, then arithmetic. *)
Ltac nlia :=
  unfold is_u64 in *; pose proof (eq_refl : u64_max = 18446744073709551615); lia.

(** Structural equality up to arithmetic in the leaves. *)
Ltac arith_congruence := repeat first [reflexivity | lia | progress f_equal].

(** Frame goals: decomposes the monadic structure, leaving the calls whose
    frame is specific to the component. *)
Ltac frame :=
  repeat (intros; first
    [ apply preserves_ret; exact _ | apply preserves_gets; exact _
    | apply preserves_get; exact _ | apply preserves_throw; exact _
    | apply preserves_lift; exact _ | apply preserves_ensure; exact _
    | apply preserves_bind; [exact _|..] | apply preserves_if
    | apply preserves_decide ]); intros.

(** Triples: the same decomposition; what a value satisfies is an evar that
    its use decides. *)
Ltac sound_step :=
  first
    [ apply sound_bind with (Q := λ _, True); [|intros ? _]
    | apply sound_ret; exact I | apply sound_throw | apply sound_get; done
    | apply sound_gets; done | apply sound_ensure; exact I ].

Create HintDb consensus.
Create Rewrite HintDb consensus.
#[export] Hint Rewrite @lookup_hm_retain @length_hm_iter : consensus.
#[export] Hint Resolve add64_range : consensus.
