(* ===== verification/Machine.v ===== *)
(** * Machines and refinement between them

    A component seen from outside is a function from a call and a state to a
    state and an answer.  This file has its runs, simulation by an abstraction
    function (checked call by call, lifted to runs, closed under composition) and
    the projection of a run to a part of the state. *)
From S2P Require Import Prelude.

Section trace.
Context {C S O : Type} (step : C → S → S * O).

(** A run on a list of calls: the last state and the answers. *)
Fixpoint trace (l : list C) (s : S) : S * list O :=
  match l with
  | [] => (s, [])
  | k :: l =>
      let '(s1, o) := step k s in
      let '(s2, os) := trace l s1 in (s2, o :: os)
  end.
Lemma trace_cons k l s :
  trace (k :: l) s =
    ((trace l (step k s).1).1, (step k s).2 :: (trace l (step k s).1).2).
Proof. cbn. destruct (step k s) as [s1 o]. cbn. by destruct (trace l s1). Qed.
Lemma trace_app l1 l2 s :
  trace (l1 ++ l2) s =
    ((trace l2 (trace l1 s).1).1, (trace l1 s).2 ++ (trace l2 (trace l1 s).1).2).
Proof.
  revert s. induction l1 as [|k l1 IH]; intros s.
  - cbn. by destruct (trace l2 s).
  - cbn [app]. rewrite !trace_cons, IH. done.
Qed.
Lemma trace_length l s : length (trace l s).2 = length l.
Proof. revert s. induction l as [|k l IH]; intros s; [done|]. rewrite trace_cons. cbn. by rewrite IH. Qed.

(** What every call preserves, runs preserve. *)
Lemma trace_preserves (R : relation S) `{!PreOrder R} l s :
  (∀ k s, k ∈ l → R s (step k s).1) → R s (trace l s).1.
Proof.
  revert s. induction l as [|k l IH]; intros s Hk; [done|]. rewrite trace_cons. cbn.
  etrans; [apply Hk; left|]. apply IH. intros k' s' Hin. apply Hk. by right.
Qed.
End trace.

(** ** Simulation

    [abs] maps the states of the implementation to those of the specification;
    [ok] bounds the calls and [inv n] holds of states that can take [n] more. *)
Class Refines {C S T O : Type} (impl : C → S → S * O) (spec : C → T → T * O)
    (abs : S → T) (ok : C → Prop) (inv : nat → S → Prop) : Prop :=
  refines_step n k s : ok k → inv (Datatypes.S n) s →
    inv n (impl k s).1 ∧ spec k (abs s) = (abs (impl k s).1, (impl k s).2).

Section refines.
Context {C S T O : Type} (impl : C → S → S * O) (spec : C → T → T * O).
Context (abs : S → T) (ok : C → Prop) (inv : nat → S → Prop).

Lemma refines_trace `{!Refines impl spec abs ok inv} l s n :
  Forall ok l → inv (length l + n)%nat s →
  inv n (trace impl l s).1 ∧
  trace spec l (abs s) = (abs (trace impl l s).1, (trace impl l s).2).
Proof.
  intros Hl. revert s. induction Hl as [|k l Hk _ IH]; intros s Hi; [done|].
  destruct (refines_step _ k s Hk Hi) as [Hi' Hs].
  rewrite !trace_cons, Hs. cbn. destruct (IH _ Hi') as [Hn ->]. done.
Qed.
(** The answers of a refinement are those of its specification. *)
Lemma refines_answers `{!Refines impl spec abs ok inv} l s n :
  Forall ok l → inv (length l + n)%nat s →
  (trace impl l s).2 = (trace spec l (abs s)).2.
Proof. intros Hl Hi. by destruct (refines_trace l s n Hl Hi) as [_ ->]. Qed.
End refines.

(** ** Simulation of an open component

    When a caller can reach into the state of the implementation, what the
    specification is told depends on that state. *)
Section inputs.
Context {C D S T O : Type} (impl : C → S → S * O) (spec : D → T → T * O).
Context (input : S → C → D) (abs : S → T) (ok : C → Prop) (inv : S → Prop).

Fixpoint inputs (l : list C) (s : S) : list D :=
  match l with
  | [] => []
  | k :: l => input s k :: inputs l (impl k s).1
  end.
Lemma inputs_trace l s :
  (∀ k s, ok k → inv s → inv (impl k s).1 ∧
     spec (input s k) (abs s) = (abs (impl k s).1, (impl k s).2)) →
  Forall ok l → inv s →
  inv (trace impl l s).1 ∧
  trace spec (inputs l s) (abs s) = (abs (trace impl l s).1, (trace impl l s).2).
Proof.
  intros Hstep Hl. revert s. induction Hl as [|k l Hk _ IH]; intros s Hi; [done|].
  destruct (Hstep k s Hk Hi) as [Hi' Hs]. cbn [inputs]. rewrite !trace_cons, Hs. cbn.
  destruct (IH _ Hi') as [Hn ->]. done.
Qed.
End inputs.

(** Refinements compose. *)
Lemma refines_trans {C S T U O} (f : C → S → S * O) (g : C → T → T * O)
    (h : C → U → U * O) abs1 abs2 ok1 ok2 inv1 inv2 :
  Refines f g abs1 ok1 inv1 → Refines g h abs2 ok2 inv2 →
  Refines f h (abs2 ∘ abs1) (λ k, ok1 k ∧ ok2 k) (λ n s, inv1 n s ∧ inv2 n (abs1 s)).
Proof.
  intros H1 H2 n k s [Hk1 Hk2] [Hi1 Hi2].
  destruct (H1 n k s Hk1 Hi1) as [Hn1 E1]. destruct (H2 n k _ Hk2 Hi2) as [Hn2 E2].
  rewrite E1 in Hn2, E2. cbn in *. by split_and!.
Qed.

(** ** Projection

    A part of the state that moves only with the calls routed to it. *)
Class Projects {C S O A P Q : Type} (step : C → S → S * O) (part : A → P → P * Q)
    (proj : S → P) (route : S → C → option A) : Prop :=
  projects_step k s :
    proj (step k s).1 = match route s k with
                        | Some a => (part a (proj s)).1
                        | None => proj s
                        end.
Section projects.
Context {C S O A P Q : Type} (step : C → S → S * O) (part : A → P → P * Q).
Context (proj : S → P) (route : S → C → option A).

(** The calls of a run that are routed to the part. *)
Fixpoint routed (l : list C) (s : S) : list A :=
  match l with
  | [] => []
  | k :: l => option_list (route s k) ++ routed l (step k s).1
  end.
Lemma projects_trace `{!Projects step part proj route} l s :
  proj (trace step l s).1 = (trace part (routed l s) (proj s)).1.
Proof.
  revert s. induction l as [|k l IH]; intros s; [done|].
  rewrite trace_cons. cbn [fst routed]. rewrite IH, (projects_step (proj := proj)).
  destruct (route s k) as [a|]; [|done]. symmetry. apply (f_equal fst (trace_cons part a _ _)).
Qed.
End projects.
