(* ===== verification/Traits.v ===== *)
(** * The traits of the [consensus-traits] crate

    One class per trait, over its associated types; [Chain] bundles the types
    and trait implementations a blockchain supplies (the type parameters [B],
    [V] and what hangs off them).  A trait method that has a default body is a
    definition over the class.  [ValidatorVerifier] is a record of operations,
    the closure of the trait's methods over [&self], because the code passes
    verifiers as values; [VerifierLaws] states what the trait's documentation
    promises of one. *)
From S2P Require Import Prelude.

(** ** core.rs *)

Class HashTrait (H : Type) := {
  hash_zero : H;
  hash_from_bytes : list N → res Error H;
  hash_as_bytes : H → list N;
}.
Class NodeIdTrait (A : Type) := {
  node_id_from_bytes : list N → res Error A;
  node_id_as_bytes : A → list N;
}.
Class PublicKeyTrait (PK : Type) := {
  pk_to_bytes : PK → list N;
  pk_from_bytes : list N → res Error PK;
}.
(** [VErr] is the associated [VerifyError] type, [Agg] the type
    [Aggregated]. *)
Class SignatureTrait (S PK Agg VErr : Type) := {
  sig_verify : S → list N → PK → res VErr unit;
  sig_to_bytes : S → list N;
  sig_from_bytes : list N → res Error S;
  sig_aggregate : list S → res Error Agg;
}.

(** ** block.rs *)

Class TransactionTrait (Tx H : Type) := {
  tx_hash : Tx → H;
  tx_size : Tx → N;
}.
Class BlockMetadata (MD Node H : Type) := {
  md_epoch : MD → N;
  md_round : MD → N;
  md_author : MD → Node;
  md_parent_id : MD → H;
  md_timestamp : MD → N;
}.
Class QuorumCertificate (QC MD H : Type) := {
  qc_certified_block : QC → MD;
  qc_block_id : QC → H;
  qc_verify : QC → res Error unit;
}.
(** The associated function [from_votes], for the vote type [V] at hand. *)
Class QcFromVotes (QC V Agg : Type) :=
  qc_from_votes : list V → Agg → res Error QC.
(** The default methods [epoch] and [round]. *)
Definition qc_epoch {QC MD Node H H'} `{!BlockMetadata MD Node H}
    `{!QuorumCertificate QC MD H'} (qc : QC) : N :=
  md_epoch (qc_certified_block qc).
Definition qc_round {QC MD Node H H'} `{!BlockMetadata MD Node H}
    `{!QuorumCertificate QC MD H'} (qc : QC) : N :=
  md_round (qc_certified_block qc).

Class BlockTrait (B Tx MD S H : Type) := {
  block_id : B → H;
  block_metadata : B → MD;
  block_transactions : B → list Tx;
  block_signature : B → option S;
  block_parent_id : B → H;
  block_is_genesis : B → bool;
  block_is_nil : B → bool;
  block_verify_signature : B → res Error unit;
  block_new_genesis : B;
}.
Class VoteDataTrait (VD MD : Type) := {
  vd_proposed_block : VD → MD;
  vd_parent_block : VD → MD;
  vd_verify : VD → res Error unit;
}.
Class CommitInfoTrait (CI H : Type) := {
  ci_block_id : CI → H;
  ci_round : CI → N;
  ci_epoch : CI → N;
  ci_version : CI → N;
  ci_timestamp : CI → N;
}.
Class LedgerInfoTrait (L CI H : Type) := {
  li_commit_info : L → CI;
  li_epoch : L → N;
  li_round : L → N;
  li_accumulated_state : L → H;
}.
(** Iterator arguments are the lists they produce. *)
Record ValidatorVerifier (B V Node S Agg : Type) := mkVerifier {
  verify_vote : V → res Error unit;
  verify_block : B → res Error unit;
  get_voting_power : Node → option N;
  total_voting_power : N;
  quorum_voting_power : N;
  check_voting_power : list Node → bool → res VerifyError unit;
  aggregate_signatures : list S → res Error Agg;
}.
Arguments mkVerifier {B V Node S Agg}.
Arguments verify_vote {B V Node S Agg}.
Arguments verify_block {B V Node S Agg}.
Arguments get_voting_power {B V Node S Agg}.
Arguments total_voting_power {B V Node S Agg}.
Arguments quorum_voting_power {B V Node S Agg}.
Arguments check_voting_power {B V Node S Agg}.
Arguments aggregate_signatures {B V Node S Agg}.

Class VoteTrait (V B VD Node L S Agg H : Type) := {
  vote_data : V → VD;
  vote_author : V → Node;
  vote_ledger_info : V → L;
  vote_signature : V → S;
  vote_block_id : V → H;
  vote_round : V → N;
  vote_verify : V → ValidatorVerifier B V Node S Agg → res Error unit;
}.

(** ** safety.rs *)

Class SafetyState (St : Type) := {
  ss_epoch : St → N;
  ss_last_voted_round : St → N;
  ss_one_chain_round : St → N;
  ss_preferred_round : St → N;
  ss_highest_timeout_round : St → N;
}.
Class TimeoutCertificate (TC : Type) := {
  tc_round : TC → N;
  tc_epoch : TC → N;
  tc_highest_qc_round : TC → N;
  tc_highest_tc_round : TC → N;
  tc_verify : TC → res Error unit;
}.
(** [SR] is the implementing type; [&mut self] methods are state methods. *)
Class SafetyRules (SR St TC B QC H : Type) := {
  sr_safe_to_vote : SR → B → option TC → res Error unit;
  sr_safe_to_timeout : SR → N → N → option TC → res Error unit;
  sr_observe_qc : QC → M SR Error unit;
  sr_observe_tc : TC → M SR Error unit;
  sr_state : SR → St;
  sr_should_commit : SR → B → option H;
  sr_record_vote : N → M SR Error unit;
  sr_record_timeout : N → SR → SR;
}.
Inductive CommitDecision (H : Type) := NoCommit | Commit (id : H).
Arguments NoCommit {H}.
Arguments Commit {H} id.
Definition committed_id {H} (d : CommitDecision H) : option H :=
  match d with NoCommit => None | Commit id => Some id end.
Definition is_commit {H} (d : CommitDecision H) : bool :=
  match d with Commit _ => true | _ => false end.

(** ** The types a blockchain supplies *)

Class Chain := {
  Blk : Type; Tx : Type; Meta : Type; BSig : Type; BHash : Type;
  QCert : Type; QHash : Type; MNode : Type; MHash : Type;
  Vot : Type; VData : Type; VMeta : Type; VMNode : Type; VMHash : Type;
  VNode : Type; VSig : Type; VAgg : Type; VHash : Type;
  LInfo : Type; CInfo : Type; LHash : Type;
  VNode_eq :: EqDecision VNode; VNode_countable :: Countable VNode;
  VSig_eq :: EqDecision VSig; VSig_countable :: Countable VSig;
  VHash_eq :: EqDecision VHash; VHash_countable :: Countable VHash;
  chain_metadata :: BlockMetadata Meta MNode MHash;
  chain_qc :: QuorumCertificate QCert Meta QHash;
  chain_from_votes :: QcFromVotes QCert Vot VAgg;
  chain_block :: BlockTrait Blk Tx Meta BSig BHash;
  chain_vmeta :: BlockMetadata VMeta VMNode VMHash;
  chain_vote_data :: VoteDataTrait VData VMeta;
  chain_ledger_info :: LedgerInfoTrait LInfo CInfo LHash;
  chain_vote :: VoteTrait Vot Blk VData VNode LInfo VSig VAgg VHash;
}.
Abbreviation Verifier := (ValidatorVerifier Blk Vot VNode VSig VAgg).
Abbreviation block_round b := (md_round (block_metadata b)).

(** ** What a verifier promises

    [power_of] is the power of a list of signers, unknown ones counting
    nothing.  The law is the documentation of [check_voting_power]: given a set
    of signers it answers whether they meet the quorum threshold, with
    [TooLittleVotingPower] when they do not. *)
Section verifier.
Context {B V Node S Agg : Type}.
Implicit Types vv : ValidatorVerifier B V Node S Agg.

Definition power vv (a : Node) : N := default 0 (get_voting_power vv a).
Definition power_of vv (l : list Node) : N := weight_of (power vv) l.

Class VerifierLaws vv := {
  check_voting_power_quorum : ∀ l, NoDup l →
    check_voting_power vv l true =
      if decide (quorum_voting_power vv ≤ power_of vv l) then Ok tt
      else Err (TooLittleVotingPower (power_of vv l) (quorum_voting_power vv));
  voting_power_u64 : ∀ a p, get_voting_power vv a = Some p → is_u64 p;
}.

Lemma power_of_app vv l k : power_of vv (l ++ k) = power_of vv l + power_of vv k.
Proof. apply weight_of_app. Qed.
Lemma power_of_cons vv a l : power_of vv (a :: l) = power vv a + power_of vv l.
Proof. done. Qed.
#[global] Instance power_of_perm vv : Proper ((≡ₚ) ==> eq) (power_of vv).
Proof. apply weight_of_perm. Qed.
Lemma power_of_submseteq vv l k : l ⊆+ k → power_of vv l ≤ power_of vv k.
Proof. apply weight_of_submseteq. Qed.
Lemma power_of_overlap `{EqDecision Node} vv l k all :
  NoDup l → NoDup k → l ⊆ all → k ⊆ all →  NoDup all →
  power_of vv l + power_of vv k
    ≤ power_of vv all + power_of vv (list_intersection l k).
Proof. apply weight_of_overlap. Qed.
End verifier.
