(* ===== verification/Interfaces.v ===== *)
(** * [consensus-traits/src/network.rs] and the rest of [storage.rs]

    The traits through which an application plugs a network, a validator set
    and an executor into the crates.  Nothing in the repository calls them; the
    only implementations are those of the crate's tests, which are the instances
    below.  Methods on [&self] that reach the outside world are state methods of
    the object they are called on. *)
From S2P Require Import Prelude.
From S2P Require Import Traits.

(** ** network.rs *)

Class ValidatorInfo (Vl Node PK : Type) := {
  vi_id : Vl → Node;
  vi_public_key : Vl → PK;
  vi_voting_power : Vl → N;
}.
Class ValidatorSetTrait (VS Vl Node : Type) := {
  vst_validators : VS → list Vl;
  vst_get_validator : VS → Node → option Vl;
  vst_total_voting_power : VS → res Error N;
  vst_quorum_threshold : VS → res Error N;
}.
(** What the documentation of the methods promises: a lookup finds a validator
    of the set by its id, if there is one. *)
Class ValidatorSetLaws (VS Vl Node PK : Type) `{ValidatorInfo Vl Node PK}
    `{ValidatorSetTrait VS Vl Node} := {
  get_validator_sound : ∀ vs id v, vst_get_validator vs id = Some v →
    v ∈ vst_validators vs ∧ vi_id v = id;
  get_validator_complete : ∀ vs v, v ∈ vst_validators vs →
    is_Some (vst_get_validator vs (vi_id v));
}.

Record BlockRequest := mkBlockRequest { req_block_id : list N }.
Record BlockResponse (B : Type) := mkBlockResponse { resp_block : option B }.
Arguments mkBlockResponse {B}.
Arguments resp_block {B}.
Inductive ConsensusMessage (B V : Type) :=
| CmProposal (b : B)
| CmVote (v : V)
| CmBlockRequest (r : BlockRequest)
| CmBlockResponse (r : BlockResponse B)
| CmNewRound (round : N).
Arguments CmProposal {B V}.
Arguments CmVote {B V}.
Arguments CmBlockRequest {B V}.
Arguments CmBlockResponse {B V}.
Arguments CmNewRound {B V}.

Class ConsensusNetwork (Net B V Node NErr : Type) := {
  send_proposal : Node → B → M Net NErr unit;
  broadcast_proposal : B → M Net NErr unit;
  send_vote_to : Node → V → M Net NErr unit;
  broadcast_vote : V → M Net NErr unit;
  receive_message : M Net NErr (ConsensusMessage B V);
  validator_peers : Net → list Node;
}.

(** ** storage.rs: execution *)

Class StateComputer (SC B LI CErr : Type) := {
  execute_block : B → LI → M SC CErr LI;
  sc_new_epoch : N → LI → M SC CErr LI;
  sync_to_target : LI → M SC CErr LI;
  sync_for_duration : N → M SC CErr LI;
  start_epoch : N → SC → SC;
  end_epoch : SC → SC;
}.
(** Keys and values are byte strings. *)
Class StateView (SV VErr : Type) := {
  sv_get : SV → list N → res VErr (option (list N));
  sv_get_multi : SV → list (list N) → res VErr (list (option (list N)));
}.

(** ** The implementations in the tests *)

Section test_validators.
Context `{OV : OverflowMode}.

Definition TestNodeId_from_bytes (bytes : list N) : res Error (list N) :=
  if decide (length bytes = 32%nat) then Ok bytes else Err (Msg "Invalid length" []).
Definition nt_TestNodeId_hash : HashTrait (list N) := {|
  hash_zero := repeat 0 32; hash_from_bytes := TestNodeId_from_bytes;
  hash_as_bytes h := h;
|}.
Definition nt_TestNodeId_node_id : NodeIdTrait (list N) := {|
  node_id_from_bytes := TestNodeId_from_bytes; node_id_as_bytes h := h;
|}.
Definition nt_TestPublicKey_impl : PublicKeyTrait (list N) := {|
  pk_to_bytes k := k; pk_from_bytes := Ok;
|}.
Record TestValidator := mkTestValidator {
  tv_id : list N;
  tv_public_key : list N;
  tv_stake : N;
}.
#[export] Instance TestValidator_ValidatorInfo :
  ValidatorInfo TestValidator (list N) (list N) := {|
  vi_id := tv_id;
  vi_public_key := tv_public_key;
  vi_voting_power := tv_stake;
|}.
Record TestValidatorSet := mkTestValidatorSet { tvs_validators : list TestValidator }.
Definition tvs_get_validator (vs : TestValidatorSet) (id : list N) :
    option TestValidator :=
  snd <$> list_find (λ v, tv_id v = id) (tvs_validators vs).
(** [iter().map(..).sum()] at [u64]. *)
Definition tvs_total_voting_power (vs : TestValidatorSet) : res Error N :=
  sum64 (tv_stake <$> tvs_validators vs).
Definition mul64 (a b : N) : res Error N := mul_w 64 a b.
Definition tvs_quorum_threshold (vs : TestValidatorSet) : res Error N :=
  t ← tvs_total_voting_power vs;
  t2 ← mul64 t 2;
  add64 (t2 / 3) 1.
#[export] Instance TestValidatorSet_ValidatorSet :
  ValidatorSetTrait TestValidatorSet TestValidator (list N) := {|
  vst_validators := tvs_validators;
  vst_get_validator := tvs_get_validator;
  vst_total_voting_power := tvs_total_voting_power;
  vst_quorum_threshold := tvs_quorum_threshold;
|}.

#[export] Instance TestValidatorSet_laws :
  ValidatorSetLaws TestValidatorSet TestValidator (list N) (list N).
Proof.
  split; cbn.
  - intros [l] id v. unfold tvs_get_validator. cbn.
    rewrite fmap_Some. intros ([i v']&Hf&->). apply list_find_Some in Hf as (Hi&?&_).
    split; [by eapply list_elem_of_lookup_2|done].
  - intros [l] v Hv. unfold tvs_get_validator. cbn in *. apply fmap_is_Some.
    by apply (list_find_elem_of (λ w, tv_id w = tv_id v) _ v).
Qed.

(** The threshold is more than two thirds of the power whenever twice the total
    fits in 64 bits. *)
Lemma tvs_quorum_ok vs :
  let t := sumN (tv_stake <$> tvs_validators vs) in
  2 * t ≤ u64_max →
  ∃ q, tvs_quorum_threshold vs = Ok q ∧ 2 * t < 3 * q ∧ 3 * q ≤ 2 * t + 3.
Proof.
  intros t Ht. unfold tvs_quorum_threshold, tvs_total_voting_power.
  rewrite sum64_ok by (fold t; lia). fold t. cbn. unfold mul64.
  rewrite mul_w_ok by (rewrite bound64; lia). cbn.
  pose proof (N.div_mod (t * 2) 3 ltac:(done)) as Hd.
  pose proof (N.mod_lt (t * 2) 3 ltac:(done)) as Hm.
  clearbody t. revert Hd Hm. generalize ((t * 2) / 3), ((t * 2) mod 3).
  intros d m Hd Hm. rewrite add64_ok by (unfold u64_max in *; lia). eexists. split; [done|]. lia.
Qed.
(** [test_validator_set]. *)
Lemma test_validator_set :
  let set := mkTestValidatorSet
    [mkTestValidator (repeat 1 32) [1; 2; 3] 100;
     mkTestValidator (repeat 2 32) [4; 5; 6] 200] in
  tvs_total_voting_power set = Ok 300 ∧ tvs_quorum_threshold set = Ok 201.
Proof. by vm_compute. Qed.
End test_validators.

(** [MockStateView]: nothing is stored. *)
Inductive MockStateView := mkStateView.
#[export] Instance MockStateView_StateView : StateView MockStateView string := {|
  sv_get _ _ := Ok None;
  sv_get_multi _ keys := Ok (repeat None (length keys));
|}.
