(* ===== verification/CommonTypes.v ===== *)
(** * [consensus-core/src/types.rs] and the DAG enums of [consensus-traits]

    Rounds and epochs are [u64] values, here [N]. *)
From S2P Require Import Prelude.

Abbreviation Round := N (only parsing).
Abbreviation Epoch := N (only parsing).

Definition GENESIS_ROUND : Round := 0.
Definition GENESIS_EPOCH : Epoch := 0.

Inductive TimeoutReason := NoQuorum | SlowLeader | NetworkDelay | ResourceConstraints.
#[export] Instance TimeoutReason_eq_dec : EqDecision TimeoutReason.
Proof. solve_decision. Defined.

(** [Display for TimeoutReason]. *)
Definition TimeoutReason_to_string (r : TimeoutReason) : string :=
  match r with
  | NoQuorum => "no_quorum"
  | SlowLeader => "slow_leader"
  | NetworkDelay => "network_delay"
  | ResourceConstraints => "resource_constraints"
  end.

Inductive VoteStatus :=
| VsAccepted | VsRejected | VsQuorumCompleted | VsOldRound | VsFutureRound.
#[export] Instance VoteStatus_eq_dec : EqDecision VoteStatus.
Proof. solve_decision. Defined.

(** [dag.rs]: the status of a DAG node, the decision to order one, errors. *)
Inductive NodeStatus := NsUnordered | NsOrdered | NsCommitted.
Inductive OrderDecision (NN : Type) :=
| OdOrdered (n : NN)
| OdPending
| OdInvalid (reason : string).
Inductive DagError :=
| NodeNotFound | InvalidNodeStructure | InvalidParents
| CertificateVerificationFailed | InsufficientVotingPower | InvalidRound
| NodeAlreadyExists.
#[export] Instance DagError_eq_dec : EqDecision DagError.
Proof. solve_decision. Defined.
Definition DagError_to_string (e : DagError) : string :=
  match e with
  | NodeNotFound => "Node not found in DAG"
  | InvalidNodeStructure => "Invalid node structure"
  | InvalidParents => "Invalid parent certificates"
  | CertificateVerificationFailed => "Certificate verification failed"
  | InsufficientVotingPower => "Insufficient voting power for quorum"
  | InvalidRound => "Invalid round number"
  | NodeAlreadyExists => "Node already exists"
  end.

(** Distinct values print differently. *)
#[export] Instance TimeoutReason_to_string_inj : Inj (=) (=) TimeoutReason_to_string.
Proof. by intros [] []. Qed.
#[export] Instance DagError_to_string_inj : Inj (=) (=) DagError_to_string.
Proof. by intros [] []. Qed.
