(* ===== verification/SafetyStateData.v ===== *)
(** * [safety_rules/state.rs]: the persistent safety state *)
From S2P Require Import Prelude.
From S2P Require Import Traits.

Record SafetyStateData := mkSafetyState {
  epoch : N;
  last_voted_round : N;
  preferred_round : N;
  one_chain_round : N;
  highest_timeout_round : N;
}.
#[export] Instance SafetyStateData_eq_dec : EqDecision SafetyStateData.
Proof. solve_decision. Defined.

(** [SafetyStateData::new]; the fields keep the order of its parameters. *)
Definition SafetyStateData_new (epoch last_voted_round preferred_round
    one_chain_round highest_timeout_round : N) : SafetyStateData :=
  mkSafetyState epoch last_voted_round preferred_round one_chain_round
    highest_timeout_round.

Definition new_epoch (s : SafetyStateData) (new_epoch : N) : SafetyStateData :=
  mkSafetyState new_epoch 0 (preferred_round s) 0 0.

Definition can_vote_in_round (s : SafetyStateData) (round : N) : bool :=
  last_voted_round s <=? round.

Definition set_last_voted_round (r : N) (s : SafetyStateData) : SafetyStateData :=
  mkSafetyState (epoch s) r (preferred_round s) (one_chain_round s)
    (highest_timeout_round s).

(** The update methods return whether the value was updated. *)
Definition update_one_chain_round (new_round : N) (s : SafetyStateData) :
    SafetyStateData * bool :=
  if one_chain_round s <? new_round
  then (mkSafetyState (epoch s) (last_voted_round s) (preferred_round s)
          new_round (highest_timeout_round s), true)
  else (s, false).
Definition update_preferred_round (new_round : N) (s : SafetyStateData) :
    SafetyStateData * bool :=
  if preferred_round s <? new_round
  then (mkSafetyState (epoch s) (last_voted_round s) new_round
          (one_chain_round s) (highest_timeout_round s), true)
  else (s, false).
Definition update_highest_timeout_round (new_round : N) (s : SafetyStateData) :
    SafetyStateData * bool :=
  if highest_timeout_round s <? new_round
  then (mkSafetyState (epoch s) (last_voted_round s) (preferred_round s)
          (one_chain_round s) new_round, true)
  else (s, false).

#[export] Instance SafetyStateData_SafetyState : SafetyState SafetyStateData := {|
  ss_epoch := epoch;
  ss_last_voted_round := last_voted_round;
  ss_one_chain_round := one_chain_round;
  ss_preferred_round := preferred_round;
  ss_highest_timeout_round := highest_timeout_round;
|}.

(** [Display for SafetyStateData]; [nl] and [tab] are the escapes of its format
    string. *)
Definition nl : string := String (Ascii.ascii_of_N 10) EmptyString.
Definition tab : string := String (Ascii.ascii_of_N 9) EmptyString.
Definition SafetyStateData_to_string (s : SafetyStateData) : string :=
  "SafetyStateData: [" +:+ nl +:+
  tab +:+ "epoch = " +:+ pretty (epoch s) +:+ "," +:+ nl +:+
  tab +:+ "last_voted_round = " +:+ pretty (last_voted_round s) +:+ "," +:+ nl +:+
  tab +:+ "preferred_round = " +:+ pretty (preferred_round s) +:+ "," +:+ nl +:+
  tab +:+ "one_chain_round = " +:+ pretty (one_chain_round s) +:+ "," +:+ nl +:+
  tab +:+ "highest_timeout_round = " +:+ pretty (highest_timeout_round s) +:+ nl +:+
  "]".

(** ** The order in which a safety state may move

    [le_safety s t]: same epoch, no round of [t] below that of [s]. *)
Definition le_safety (s t : SafetyStateData) : Prop :=
  epoch s = epoch t ∧ last_voted_round s ≤ last_voted_round t ∧
  preferred_round s ≤ preferred_round t ∧ one_chain_round s ≤ one_chain_round t ∧
  highest_timeout_round s ≤ highest_timeout_round t.
#[export] Instance le_safety_preorder : PreOrder le_safety.
Proof.
  split; [by intros s|]. intros s t u. unfold le_safety.
  intros (->&?&?&?&?) (->&?&?&?&?). split_and!; lia.
Qed.

(** Every field is a [u64]. *)
Definition safety_u64 (s : SafetyStateData) : Prop :=
  is_u64 (epoch s) ∧ is_u64 (last_voted_round s) ∧ is_u64 (preferred_round s) ∧
  is_u64 (one_chain_round s) ∧ is_u64 (highest_timeout_round s).

Section updates.
Implicit Types s : SafetyStateData.

Lemma set_last_voted_le r s :
  last_voted_round s ≤ r → le_safety s (set_last_voted_round r s).
Proof. unfold le_safety; cbn; intros; split_and!; lia. Qed.
Lemma update_one_chain_le r s : le_safety s (update_one_chain_round r s).1.
Proof.
  unfold update_one_chain_round. destruct (N.ltb_spec (one_chain_round s) r);
    unfold le_safety; cbn; split_and!; lia.
Qed.
Lemma update_preferred_le r s : le_safety s (update_preferred_round r s).1.
Proof.
  unfold update_preferred_round. destruct (N.ltb_spec (preferred_round s) r);
    unfold le_safety; cbn; split_and!; lia.
Qed.
Lemma update_timeout_le r s : le_safety s (update_highest_timeout_round r s).1.
Proof.
  unfold update_highest_timeout_round.
  destruct (N.ltb_spec (highest_timeout_round s) r);
    unfold le_safety; cbn; split_and!; lia.
Qed.

(** Each update takes the maximum of its own field and leaves the rest. *)
Lemma update_one_chain_max r s :
  (update_one_chain_round r s).1 =
    mkSafetyState (epoch s) (last_voted_round s) (preferred_round s)
      (one_chain_round s `max` r) (highest_timeout_round s).
Proof.
  destruct s. unfold update_one_chain_round; cbn.
  case_match eqn:E; cbn; f_equal; [apply N.ltb_lt in E|apply N.ltb_ge in E]; lia.
Qed.
Lemma update_preferred_max r s :
  (update_preferred_round r s).1 =
    mkSafetyState (epoch s) (last_voted_round s) (preferred_round s `max` r)
      (one_chain_round s) (highest_timeout_round s).
Proof.
  destruct s. unfold update_preferred_round; cbn.
  case_match eqn:E; cbn; f_equal; [apply N.ltb_lt in E|apply N.ltb_ge in E]; lia.
Qed.
Lemma update_timeout_max r s :
  (update_highest_timeout_round r s).1 =
    mkSafetyState (epoch s) (last_voted_round s) (preferred_round s)
      (one_chain_round s) (highest_timeout_round s `max` r).
Proof.
  destruct s. unfold update_highest_timeout_round; cbn.
  case_match eqn:E; cbn; f_equal; [apply N.ltb_lt in E|apply N.ltb_ge in E]; lia.
Qed.
Lemma updated_iff r s :
  ((update_one_chain_round r s).2 = true ↔ one_chain_round s < r) ∧
  ((update_preferred_round r s).2 = true ↔ preferred_round s < r) ∧
  ((update_highest_timeout_round r s).2 = true ↔ highest_timeout_round s < r).
Proof.
  unfold update_one_chain_round, update_preferred_round,
    update_highest_timeout_round.
  split_and!; case_match eqn:E; cbn; rewrite ?N.ltb_lt, ?N.ltb_ge in E;
    split; intros; try done; lia.
Qed.
End updates.
#[export] Hint Resolve set_last_voted_le update_one_chain_le update_preferred_le
  update_timeout_le : consensus.
#[export] Hint Rewrite update_one_chain_max update_preferred_max
  update_timeout_max : consensus.
