(* ===== verification/Timeout.v ===== *)
(** * [timeout/two_chain.rs]: timeouts and timeout certificates *)
From S2P Require Import Prelude.
From S2P Require Import Traits.

Record TwoChainTimeout := mkTimeout {
  to_epoch : N;
  to_round : N;
  to_hqc_round : N;
}.
#[export] Instance TwoChainTimeout_eq_dec : EqDecision TwoChainTimeout.
Proof. solve_decision. Defined.

Definition TwoChainTimeout_default : TwoChainTimeout := mkTimeout 0 0 0.
Definition TwoChainTimeout_new (epoch round hqc_round : N) : TwoChainTimeout :=
  mkTimeout epoch round hqc_round.
(** [TwoChainTimeout::verify]. *)
Definition timeout_verify (t : TwoChainTimeout) : res Error unit :=
  if to_round t <=? to_hqc_round t
  then Err (Msg "Invalid timeout: hqc_round ({}) >= round ({})"
              [DNum (to_hqc_round t); DNum (to_round t)])
  else Ok tt.

(** The certificate, over the block's signature type [S]. *)
Record TwoChainTimeoutCertificate (S : Type) := mkTC {
  tcc_epoch : N;
  tcc_round : N;
  tcc_hqc_round : N;
  tcc_highest_tc_round : N;
  tcc_timeout : TwoChainTimeout;
  tcc_aggregated_signature : S;
}.
Arguments mkTC {S}.
Arguments tcc_epoch {S}.
Arguments tcc_round {S}.
Arguments tcc_hqc_round {S}.
Arguments tcc_highest_tc_round {S}.
Arguments tcc_timeout {S}.
Arguments tcc_aggregated_signature {S}.

Section tc.
Context {S : Type} `{OV : OverflowMode}.
Implicit Types tc : TwoChainTimeoutCertificate S.

Definition TC_new (epoch round hqc_round highest_tc_round : N)
    (timeout : TwoChainTimeout) (sig : S) : TwoChainTimeoutCertificate S :=
  mkTC epoch round hqc_round highest_tc_round timeout sig.

(** [TwoChainTimeoutCertificate::verify]. *)
Definition tcc_verify tc : res Error unit :=
  timeout_verify (tcc_timeout tc);;
  if tcc_round tc <=? tcc_hqc_round tc
  then Err (Msg "Invalid TC: hqc_round ({}) >= round ({})"
              [DNum (tcc_hqc_round tc); DNum (tcc_round tc)])
  else if tcc_round tc <=? tcc_highest_tc_round tc
  then Err (Msg "Invalid TC: highest_tc_round ({}) >= round ({})"
              [DNum (tcc_highest_tc_round tc); DNum (tcc_round tc)])
  else Ok tt.

(** [||] evaluates its right operand only when the left one is false. *)
Definition allows_advance {E} tc : res E bool :=
  h ← add64 (tcc_hqc_round tc) 1;
  if tcc_round tc =? h then Ok true
  else t ← add64 (tcc_highest_tc_round tc) 1; Ok (tcc_round tc =? t).

Definition effective_hqc_round tc : N :=
  tcc_hqc_round tc `max` tcc_highest_tc_round tc.

#[export] Instance TC_TimeoutCertificate :
  TimeoutCertificate (TwoChainTimeoutCertificate S) := {|
  tc_round := tcc_round;
  tc_epoch := tcc_epoch;
  tc_highest_qc_round := tcc_hqc_round;
  tc_highest_tc_round := tcc_highest_tc_round;
  tc_verify := tcc_verify;
|}.

(** The fields are [u64] values. *)
Definition tc_u64 tc : Prop :=
  is_u64 (tcc_round tc) ∧ is_u64 (tcc_hqc_round tc) ∧
  is_u64 (tcc_highest_tc_round tc).

(** What [verify] accepts: the certified timeout's own round is above its
    QC round, and the certificate's round is above both rounds it cites.
    Nothing ties [tcc_timeout] to the certificate's own round. *)
Definition tc_wf tc : Prop :=
  to_hqc_round (tcc_timeout tc) < to_round (tcc_timeout tc) ∧
  tcc_hqc_round tc < tcc_round tc ∧ tcc_highest_tc_round tc < tcc_round tc.

Lemma timeout_verify_ok t :
  timeout_verify t = Ok tt ↔ to_hqc_round t < to_round t.
Proof.
  unfold timeout_verify. destruct (N.leb_spec (to_round t) (to_hqc_round t));
    split; intros; try done; lia.
Qed.
Lemma tcc_verify_ok tc : tcc_verify tc = Ok tt ↔ tc_wf tc.
Proof.
  unfold tcc_verify, tc_wf. rewrite <- timeout_verify_ok.
  destruct (timeout_verify (tcc_timeout tc)) as [[]| |]; cbn; [|naive_solver..].
  destruct (N.leb_spec (tcc_round tc) (tcc_hqc_round tc)); cbn;
    [split; [done|naive_solver lia]|].
  destruct (N.leb_spec (tcc_round tc) (tcc_highest_tc_round tc)); cbn;
    split; try done; naive_solver lia.
Qed.
Lemma tcc_verify_total tc :
  tc_wf tc ∨ ∃ e, tcc_verify tc = Err e.
Proof.
  destruct (tcc_verify tc) as [[]|e|] eqn:E; [left; by apply tcc_verify_ok|eauto|].
  exfalso. revert E. unfold tcc_verify, timeout_verify. run. by repeat case_match.
Qed.

(** On a verified certificate [allows_advance] cannot overflow, in either
    build profile, and decides the documented rule. *)
Lemma allows_advance_verified {E} tc :
  is_u64 (tcc_round tc) → tcc_verify tc = Ok tt →
  @allows_advance E tc =
    Ok (bool_decide (tcc_round tc = tcc_hqc_round tc + 1 ∨
                     tcc_round tc = tcc_highest_tc_round tc + 1)).
Proof.
  intros Hr (_&Hh&Ht)%tcc_verify_ok. unfold allows_advance.
  rewrite !add64_ok by nlia. cbn.
  destruct (N.eqb_spec (tcc_round tc) (tcc_hqc_round tc + 1)).
  - f_equal. symmetry. apply bool_decide_eq_true. by left.
  - f_equal. apply eq_true_iff_eq. rewrite bool_decide_eq_true, N.eqb_eq.
    naive_solver.
Qed.

(** The effective round of a verified certificate is still below its round. *)
Lemma effective_hqc_verified tc :
  tcc_verify tc = Ok tt →
  tcc_hqc_round tc ≤ effective_hqc_round tc < tcc_round tc.
Proof. intros (_&?&?)%tcc_verify_ok. unfold effective_hqc_round. lia. Qed.
End tc.
