(* ===== verification/Mocks.v ===== *)
(** * [consensus-core/src/testing]: the mock chain and validator set

    The repository's own implementation of the traits, and so the concrete
    chain at which the witnesses of the development evaluate.  The verifier
    laws of [Traits] are discharged here for [MockValidatorSet]. *)
From S2P Require Import Prelude.
From S2P Require Import Traits.

(** ** mock_types.rs *)

Record MockHash := mkHash { inner : N }.
#[export] Instance MockHash_eq_dec : EqDecision MockHash.
Proof. solve_decision. Defined.
#[export] Instance MockHash_countable : Countable MockHash.
Proof. by apply (inj_countable' inner mkHash); intros []. Defined.
Abbreviation MockNodeId := MockHash.

Definition first_byte {A} (f : N → A) (bytes : list N) : res Error A :=
  match bytes with [] => Err (Msg "Empty bytes" []) | b :: _ => Ok (f b) end.

#[export] Instance MockHash_Hash : HashTrait MockHash := {|
  hash_zero := mkHash 0;
  hash_from_bytes := first_byte mkHash;
  hash_as_bytes _ := [];
|}.
#[export] Instance MockHash_NodeId : NodeIdTrait MockHash := {|
  node_id_from_bytes := first_byte mkHash;
  node_id_as_bytes _ := [];
|}.

Record MockSignature := mkSig { sig_byte : N }.
#[export] Instance MockSignature_eq_dec : EqDecision MockSignature.
Proof. solve_decision. Defined.
#[export] Instance MockSignature_countable : Countable MockSignature.
Proof. by apply (inj_countable' sig_byte mkSig); intros []. Defined.
Inductive MockAggregatedSignature := mkAgg.
#[export] Instance MockAggregatedSignature_eq_dec : EqDecision MockAggregatedSignature.
Proof. solve_decision. Defined.
Inductive MockPublicKey := mkPK.
(** [VerifyError = Infallible], the empty type. *)
#[export] Instance MockSignature_Signature :
  SignatureTrait MockSignature MockPublicKey MockAggregatedSignature Empty_set := {|
  sig_verify _ _ _ := Ok tt;
  sig_to_bytes s := [sig_byte s];
  sig_from_bytes := first_byte mkSig;
  sig_aggregate _ := Ok mkAgg;
|}.
#[export] Instance MockPublicKey_PublicKey : PublicKeyTrait MockPublicKey := {|
  pk_to_bytes _ := [];
  pk_from_bytes _ := Ok mkPK;
|}.

(** ** mock_block.rs *)

Record MockBlockMetadata := mkMeta {
  mm_epoch : N;
  mm_round : N;
  mm_author : MockNodeId;
  mm_parent_id : MockHash;
  mm_timestamp : N;
}.
#[export] Instance MockBlockMetadata_eq_dec : EqDecision MockBlockMetadata.
Proof. solve_decision. Defined.
Definition meta_genesis : MockBlockMetadata := mkMeta 0 0 (mkHash 0) (mkHash 0) 0.
#[export] Instance MockBlockMetadata_BlockMetadata :
  BlockMetadata MockBlockMetadata MockNodeId MockHash := {|
  md_epoch := mm_epoch;
  md_round := mm_round;
  md_author := mm_author;
  md_parent_id := mm_parent_id;
  md_timestamp := mm_timestamp;
|}.

Record MockQuorumCert := mkQC {
  mq_metadata : MockBlockMetadata;
  mq_block_id : MockHash;
}.
#[export] Instance MockQuorumCert_eq_dec : EqDecision MockQuorumCert.
Proof. solve_decision. Defined.
Definition MockQuorumCert_new (id : MockHash) : MockQuorumCert := mkQC meta_genesis id.
Definition MockQuorumCert_default : MockQuorumCert := MockQuorumCert_new (mkHash 0).
#[export] Instance MockQuorumCert_QuorumCertificate :
  QuorumCertificate MockQuorumCert MockBlockMetadata MockHash := {|
  qc_certified_block := mq_metadata;
  qc_block_id := mq_block_id;
  qc_verify _ := Ok tt;
|}.

Inductive MockTransaction := mkTxn.
#[export] Instance MockTransaction_Transaction :
  TransactionTrait MockTransaction MockHash := {|
  tx_hash _ := mkHash 0;
  tx_size _ := 100;
|}.

Record MockBlock := mkBlock {
  mb_metadata : MockBlockMetadata;
  mb_transactions : list MockTransaction;
}.
Definition MockBlock_genesis : MockBlock := mkBlock meta_genesis [].
#[export] Instance MockBlock_Block :
  BlockTrait MockBlock MockTransaction MockBlockMetadata MockSignature MockHash := {|
  block_id b := mkHash (N.lxor (as_u8 (mm_round (mb_metadata b)))
                          (inner (mm_author (mb_metadata b))));
  block_parent_id b := mm_parent_id (mb_metadata b);
  block_transactions := mb_transactions;
  block_metadata := mb_metadata;
  block_signature _ := None;
  block_verify_signature _ := Ok tt;
  block_is_genesis b :=
    (md_epoch (mb_metadata b) =? 0) && (md_round (mb_metadata b) =? 0);
  block_is_nil _ := false;
  block_new_genesis := MockBlock_genesis;
|}.

(** ** mock_vote.rs *)

Inductive MockVoteData := mkVoteData.
#[export] Instance MockVoteData_VoteData :
  VoteDataTrait MockVoteData MockBlockMetadata := {|
  vd_proposed_block _ := meta_genesis;
  vd_parent_block _ := meta_genesis;
  vd_verify _ := Ok tt;
|}.
Inductive MockCommitInfo := mkCommitInfo.
#[export] Instance MockCommitInfo_CommitInfo :
  CommitInfoTrait MockCommitInfo MockHash := {|
  ci_block_id _ := mkHash 0;
  ci_epoch _ := 0;
  ci_round _ := 0;
  ci_version _ := 0;
  ci_timestamp _ := 0;
|}.
Inductive MockLedgerInfo := mkLedgerInfo.
#[export] Instance MockLedgerInfo_LedgerInfo :
  LedgerInfoTrait MockLedgerInfo MockCommitInfo MockHash := {|
  li_commit_info _ := mkCommitInfo;
  li_epoch _ := 0;
  li_round _ := 0;
  li_accumulated_state _ := mkHash 0;
|}.

Record MockVote := mkVote {
  mv_author : MockNodeId;
  mv_block_id : MockHash;
  mv_round : N;
  mv_signature : MockSignature;
  mv_vote_data : MockVoteData;
  mv_ledger_info : MockLedgerInfo;
}.
Definition MockVote_new (author : MockNodeId) (block_id : MockHash) (round : N) :
    MockVote :=
  mkVote author block_id round (mkSig (inner author)) mkVoteData mkLedgerInfo.
Definition MockVote_with_signature (author : MockNodeId) (block_id : MockHash)
    (round sig_byte : N) : MockVote :=
  mkVote author block_id round (mkSig sig_byte) mkVoteData mkLedgerInfo.
#[export] Instance MockVote_Vote :
  VoteTrait MockVote MockBlock MockVoteData MockNodeId MockLedgerInfo
    MockSignature MockAggregatedSignature MockHash := {|
  vote_data := mv_vote_data;
  vote_author := mv_author;
  vote_ledger_info := mv_ledger_info;
  vote_signature := mv_signature;
  vote_block_id := mv_block_id;
  vote_round := mv_round;
  vote_verify _ _ := Ok tt;
|}.
(** [MockQuorumCert::from_votes] ignores its arguments. *)
#[export] Instance MockQuorumCert_from_votes :
  QcFromVotes MockQuorumCert MockVote MockAggregatedSignature :=
  λ _ _, Ok MockQuorumCert_default.

Definition mock_chain : Chain := {|
  Blk := MockBlock; Tx := MockTransaction; Meta := MockBlockMetadata;
  BSig := MockSignature; BHash := MockHash; QCert := MockQuorumCert;
  QHash := MockHash; MNode := MockNodeId; MHash := MockHash;
  Vot := MockVote; VData := MockVoteData; VMeta := MockBlockMetadata;
  VMNode := MockNodeId; VMHash := MockHash; VNode := MockNodeId;
  VSig := MockSignature; VAgg := MockAggregatedSignature; VHash := MockHash;
  LInfo := MockLedgerInfo; CInfo := MockCommitInfo; LHash := MockHash;
|}.

(** ** mock_validator.rs *)

Record MockValidator := mkValidator {
  vl_id : MockHash;
  vl_public_key : MockPublicKey;
  vl_voting_power : N;
}.
Definition MockValidator_new (id voting_power : N) : MockValidator :=
  mkValidator (mkHash id) mkPK voting_power.

Record MockValidatorSet := mkValidatorSet {
  mvs_validators : gmap MockNodeId MockValidator;
  mvs_total_voting_power : N;
  mvs_quorum_threshold : N;
}.

Section mock_validators.
Context `{OV : OverflowMode}.

(** The loop of [MockValidatorSet::new]. *)
Fixpoint collect_validators {E} (l : list MockValidator)
    (m : gmap MockNodeId MockValidator) (total : N) :
    res E (gmap MockNodeId MockValidator * N) :=
  match l with
  | [] => Ok (m, total)
  | v :: l =>
      total' ← add128 total (vl_voting_power v);
      collect_validators l (<[vl_id v := v]> m) total'
  end.
Definition MockValidatorSet_new {E} (validators : list MockValidator) :
    res E MockValidatorSet :=
  '(m, total) ← collect_validators validators ∅ 0;
  t2 ← mul128 total 2;
  q ← add128 (t2 / 3) 1;
  Ok (mkValidatorSet m total q).

Definition mvs_get_voting_power (vs : MockValidatorSet) (id : MockNodeId) :
    option N := vl_voting_power <$> mvs_validators vs !! id.

Fixpoint mvs_power_loop (vs : MockValidatorSet) (power : N)
    (signers : list MockNodeId) : res VerifyError N :=
  match signers with
  | [] => Ok power
  | s :: signers =>
      power' ← match mvs_get_voting_power vs s with
               | Some vp => add128 power vp
               | None => Ok power
               end;
      mvs_power_loop vs power' signers
  end.
Definition mvs_check_voting_power (vs : MockValidatorSet)
    (signers : list MockNodeId) (check_quorum : bool) : res VerifyError unit :=
  power ← mvs_power_loop vs 0 signers;
  if check_quorum && (power <? mvs_quorum_threshold vs)
  then Err (TooLittleVotingPower power (mvs_quorum_threshold vs))
  else Ok tt.

(** [impl ValidatorVerifier for MockValidatorSet]. *)
Definition mock_verifier (vs : MockValidatorSet) :
    ValidatorVerifier MockBlock MockVote MockNodeId MockSignature
      MockAggregatedSignature := {|
  verify_vote v :=
    if decide (is_Some (mvs_validators vs !! vote_author v)) then Ok tt
    else Err (FromVerify UnknownAuthor);
  verify_block _ := Ok tt;
  get_voting_power := mvs_get_voting_power vs;
  total_voting_power := mvs_total_voting_power vs;
  quorum_voting_power := mvs_quorum_threshold vs;
  check_voting_power := mvs_check_voting_power vs;
  aggregate_signatures _ := Ok mkAgg;
|}.

(** [testing/mod.rs]: validator [i] gets the id [i as u8]. *)
Definition make_validator_set {E} (voting_powers : list N) :
    res E MockValidatorSet :=
  MockValidatorSet_new
    (imap (λ i p, MockValidator_new (as_u8 (N.of_nat i)) p) voting_powers).

(** ** Lemmas *)

Definition mvs_powers (l : list MockValidator) : list N := vl_voting_power <$> l.

Lemma collect_validators_ok {E} l m total :
  total + sumN (mvs_powers l) < bound 128 →
  @collect_validators E l m total =
    Ok (foldl (λ m v, <[vl_id v := v]> m) m l, total + sumN (mvs_powers l)).
Proof.
  revert m total. induction l as [|v l IH]; intros m total Ht.
  - cbn. rewrite sumN_nil. do 2 f_equal; lia.
  - change (mvs_powers (v :: l)) with (vl_voting_power v :: mvs_powers l) in *.
    rewrite sumN_cons in *. cbn [collect_validators foldl]. unfold add128. rewrite add_w_ok by lia. cbn. rewrite IH by lia.
    do 2 f_equal. lia.
Qed.

(** Construction succeeds when twice the power fits 128 bits, and fixes the
    total and the threshold. *)
Lemma MockValidatorSet_new_ok {E} l :
  let total := sumN (mvs_powers l) in
  2 * total < bound 128 →
  @MockValidatorSet_new E l =
    Ok (mkValidatorSet (foldl (λ m v, <[vl_id v := v]> m) ∅ l) total
          (total * 2 / 3 + 1)).
Proof.
  cbn. intros Ht. unfold MockValidatorSet_new.
  rewrite collect_validators_ok by lia. cbn. rewrite N.add_0_l.
  unfold mul128. rewrite mul_w_ok by lia. cbn.
  generalize dependent (sumN (mvs_powers l)). intros t Ht.
  unfold add128. rewrite add_w_ok; [done|].
  assert (1 < bound 128) by done.
  assert (t * 2 / 3 ≤ t) by (apply N.Div0.div_le_upper_bound; lia).
  destruct (decide (t = 0)) as [->|]; [done|]. lia.
Qed.

Definition mvs_u64 (vs : MockValidatorSet) : Prop :=
  map_Forall (λ _ v, is_u64 (vl_voting_power v)) (mvs_validators vs).
Definition mvs_sum (vs : MockValidatorSet) : N :=
  sumN (vl_voting_power ∘ snd <$> map_to_list (mvs_validators vs)).

Lemma mvs_power_eq vs a :
  power (mock_verifier vs) a =
    default 0 (vl_voting_power <$> mvs_validators vs !! a).
Proof. done. Qed.
(** Distinct signers cannot have more power than the whole set. *)
Lemma mvs_power_of_le vs l :
  NoDup l → power_of (mock_verifier vs) l ≤ mvs_sum vs.
Proof.
  unfold mvs_sum. revert vs. induction l as [|a l IH]; intros vs Hl;
    [apply N.le_0_l|]. apply NoDup_cons in Hl as [Ha Hl]. rewrite power_of_cons.
  destruct vs as [m t q]. rewrite mvs_power_eq. cbn [mvs_validators].
  destruct (m !! a) as [v|] eqn:Hv; cbn.
  - specialize (IH (mkValidatorSet (delete a m) t q) Hl).
    cbn [mvs_validators] in IH.
    rewrite <- (map_to_list_delete m a v Hv), fmap_cons, sumN_cons. cbn.
    enough (power_of (mock_verifier (mkValidatorSet m t q)) l =
      power_of (mock_verifier (mkValidatorSet (delete a m) t q)) l) by lia.
    unfold power_of, weight_of. f_equal. apply list_fmap_ext. intros i b Hb.
    rewrite !mvs_power_eq. cbn [mvs_validators]. rewrite lookup_delete_ne; [done|].
    intros ->. apply Ha. by eapply list_elem_of_lookup_2.
  - specialize (IH (mkValidatorSet m t q) Hl).
    cbn [mvs_validators] in IH. lia.
Qed.
Lemma mvs_power_loop_ok vs p l :
  p + power_of (mock_verifier vs) l < bound 128 →
  mvs_power_loop vs p l = Ok (p + power_of (mock_verifier vs) l).
Proof.
  revert p. induction l as [|a l IH]; intros p Hp.
  - cbn. unfold power_of, weight_of; cbn. rewrite sumN_nil. f_equal. lia.
  - rewrite power_of_cons in *. cbn [mvs_power_loop].
    rewrite (mvs_power_eq vs a) in *. fold (mvs_get_voting_power vs a) in *.
    generalize dependent (power_of (mock_verifier vs) l). intros pl IH Hp.
    destruct (mvs_get_voting_power vs a) as [vp|]; cbn [default id] in *.
    + unfold add128. rewrite add_w_ok by lia. cbn. rewrite IH by lia. f_equal. lia.
    + cbn. rewrite IH by lia. f_equal.
Qed.

(** The documented laws hold of any mock validator set whose power fits. *)
Lemma mock_verifier_laws vs :
  mvs_u64 vs → mvs_sum vs < bound 128 → VerifierLaws (mock_verifier vs).
Proof.
  intros Hu Hs. split.
  - intros l Hl. pose proof (mvs_power_of_le vs l Hl). cbn.
    unfold mvs_check_voting_power. rewrite mvs_power_loop_ok by lia. cbn.
    rewrite N.add_0_l.
    destruct (N.ltb_spec (power_of (mock_verifier vs) l) (mvs_quorum_threshold vs));
      [by rewrite decide_False by lia|by rewrite decide_True].
  - intros a p. cbn. unfold mvs_get_voting_power.
    destruct (mvs_validators vs !! a) as [v|] eqn:Hv; cbn; [|done].
    intros [= <-]. by apply (Hu a v).
Qed.
End mock_validators.
