(* ===== verification/TwoChain.v ===== *)
(** * [safety_rules/two_chain.rs]: the 2-chain safety rules

    The voting, timeout and commit rules over the persistent safety state, the
    implementation of the [SafetyRules] trait, and the reachable states of the
    rules as a transition system. *)
From S2P Require Import Prelude.
From S2P Require Import Traits.
From S2P Require Import SafetyStateData.
From S2P Require Import Timeout.
From S2P Require Import Mocks.

Record TwoChainSafetyRules := mkRules { state : SafetyStateData }.
#[export] Instance TwoChainSafetyRules_eq_dec : EqDecision TwoChainSafetyRules.
Proof. solve_decision. Defined.

(** [TwoChainSafetyRules::new] and [with_state]. *)
Definition rules_new (epoch : N) : TwoChainSafetyRules :=
  mkRules (mkSafetyState epoch 0 0 0 0).
Definition with_state (s : SafetyStateData) : TwoChainSafetyRules := mkRules s.

(** An update of the safety state by one of its methods, the returned [bool]
    dropped as the callers do. *)
Definition on_state (f : SafetyStateData → SafetyStateData * bool)
    (r : TwoChainSafetyRules) : TwoChainSafetyRules := mkRules (f (state r)).1.

Definition next_round (round : N) : res Error N :=
  match checked_add64 round 1 with
  | Some n => Ok n
  | None => Err (Msg "Round overflow at {}" [DNum round])
  end.

Definition safe_to_vote_impl (block_round qc_round : N)
    (tc_round tc_hqc_round : option N) : res Error unit :=
  nq ← next_round qc_round;
  let normal_progression := block_round =? nq in
  with_tc ← match tc_round, tc_hqc_round with
            | Some tc_r, Some tc_hqc =>
                nt ← next_round tc_r;
                Ok ((block_round =? nt) && (tc_hqc <=? qc_round))
            | _, _ => Ok false
            end;
  if normal_progression || with_tc then Ok tt
  else Err (Msg "Not safe to vote: block_round={}, qc_round={}, tc_round={:?}, tc_hqc_round={:?} - must satisfy: block.round == qc.round + 1 OR (block.round == tc.round + 1 && qc.round >= tc.hqc_round)"
              [DNum block_round; DNum qc_round; DOpt tc_round; DOpt tc_hqc_round]).

(** [next_round(tc_r).unwrap()] panics on overflow; [||] reaches it only when
    the QC condition fails. *)
Definition safe_to_timeout_impl (r : TwoChainSafetyRules) (round qc_round : N)
    (tc_round : option N) : res Error unit :=
  nq ← next_round qc_round;
  round_progression ←
    (if round =? nq then Ok true
     else match tc_round with
          | None => Ok false
          | Some tc_r => match next_round tc_r with
                         | Ok nt => Ok (round =? nt)
                         | _ => Panic
                         end
          end);
  let one_chain_safe := one_chain_round (state r) <=? qc_round in
  if round_progression && one_chain_safe then Ok tt
  else Err (Msg "Not safe to timeout: round={}, qc_round={}, tc_round={:?}, one_chain_round={} - must satisfy: (round == qc.round + 1 OR round == tc.round + 1) AND qc.round >= one_chain_round"
              [DNum round; DNum qc_round; DOpt tc_round;
               DNum (one_chain_round (state r))]).

Section rules.
Context `{CH : Chain} `{OV : OverflowMode}.
Abbreviation TC := (TwoChainTimeoutCertificate BSig).

(** The QC round is not read from the proposal: it is the proposal's round
    less one. *)
Definition safe_to_vote (r : TwoChainSafetyRules) (proposal : Blk)
    (timeout_cert : option TC) : res Error unit :=
  let b := block_round proposal in
  let qc_round := b - 1 in
  let '(tc_round, tc_hqc_round) :=
    match timeout_cert with
    | Some tc => (Some (tcc_round tc), Some (tcc_hqc_round tc))
    | None => (None, None)
    end in
  safe_to_vote_impl b qc_round tc_round tc_hqc_round.

Definition safe_to_timeout (r : TwoChainSafetyRules) (round qc_round : N)
    (timeout_cert : option TC) : res Error unit :=
  safe_to_timeout_impl r round qc_round (tcc_round <$> timeout_cert).

(** [one_chain_round + 1] is an unchecked [u64] addition. *)
Definition observe_qc (qc : QCert) : M TwoChainSafetyRules Error unit :=
  let q := qc_round qc in
  oc ← gets (λ r, one_chain_round (state r));
  nx ← lift (add64 oc 1);
  (if q =? nx then modify (on_state (update_preferred_round q)) else mret tt);;
  modify (on_state (update_one_chain_round q)).

Definition observe_tc (tc : TC) : M TwoChainSafetyRules Error unit :=
  modify (on_state (update_highest_timeout_round (tcc_round tc)));;
  modify (on_state (update_one_chain_round (tcc_hqc_round tc))).

Definition should_commit (r : TwoChainSafetyRules) (proposal : Blk) :
    option BHash :=
  let p := block_round proposal in
  if (0 <? p) && (one_chain_round (state r) =? p - 1)
  then Some (block_parent_id proposal) else None.

Definition record_vote (round : N) : M TwoChainSafetyRules Error unit :=
  lv ← gets (λ r, last_voted_round (state r));
  if round <? lv
  then throw (Msg "Cannot record vote for round {}: already voted in round {}"
                [DNum round; DNum lv])
  else if lv <? round
  then modify (λ r, mkRules (set_last_voted_round round (state r)))
  else mret tt.

Definition record_timeout (round : N) (r : TwoChainSafetyRules) :
    TwoChainSafetyRules :=
  on_state (update_highest_timeout_round round) r.

#[export] Instance TwoChain_SafetyRules :
  SafetyRules TwoChainSafetyRules SafetyStateData TC Blk QCert BHash := {|
  sr_safe_to_vote := safe_to_vote;
  sr_safe_to_timeout := safe_to_timeout;
  sr_observe_qc := observe_qc;
  sr_observe_tc := observe_tc;
  sr_state := state;
  sr_should_commit := should_commit;
  sr_record_vote := record_vote;
  sr_record_timeout := record_timeout;
|}.

(** ** Calls on the rules, and the states they reach *)

Inductive SafetyCall :=
| ObserveQc (qc : QCert)
| ObserveTc (tc : TC)
| RecordVote (round : N)
| RecordTimeout (round : N).
Definition call_u64 (c : SafetyCall) : Prop :=
  match c with
  | ObserveQc qc => is_u64 (qc_round qc)
  | ObserveTc tc => tc_u64 tc
  | RecordVote r | RecordTimeout r => is_u64 r
  end.
Definition run_call (c : SafetyCall) : M TwoChainSafetyRules Error unit :=
  match c with
  | ObserveQc qc => observe_qc qc
  | ObserveTc tc => observe_tc tc
  | RecordVote r => record_vote r
  | RecordTimeout r => modify (record_timeout r)
  end.
(** One call with [u64] arguments, whatever its outcome. *)
Inductive safety_step (r r' : TwoChainSafetyRules) : Prop :=
| safety_step_intro c : call_u64 c → (run_call c r).1 = r' → safety_step r r'.

(** ** Lemmas *)

Lemma next_round_ok r : r < u64_max → next_round r = Ok (r + 1).
Proof.
  intros. unfold next_round.
  by rewrite (proj2 (checked_add64_Some r 1 (r + 1))) by nlia.
Qed.
Lemma next_round_max r :
  u64_max ≤ r → next_round r = Err (Msg "Round overflow at {}" [DNum r]).
Proof.
  intros. unfold next_round. by rewrite (proj2 (checked_add64_None r 1)) by nlia.
Qed.

(** The effect of [observe_qc], the overflow of [one_chain_round + 1] in
    either profile included. *)
Lemma observe_qc_effect qc r :
  safety_u64 (state r) → is_u64 (qc_round qc) →
  let s := state r in
  let q := qc_round qc in
  observe_qc qc r =
    if decide (one_chain_round s = u64_max ∧ overflow_checks = true)
    then (r, Panic)
    else (mkRules (mkSafetyState (epoch s) (last_voted_round s)
            (if decide (q = one_chain_round s + 1)
             then preferred_round s `max` q else preferred_round s)
            (one_chain_round s `max` q) (highest_timeout_round s)), Ok tt).
Proof.
  destruct r as [s]. intros (_&_&_&Hoc&_) Hq; cbn in *.
  unfold observe_qc. rewrite bind_gets.
  destruct (succ64_cases (E:=Error) (one_chain_round s)) as [[Hlt He]|[Hmax He]];
    [done|..]; run; rewrite He.
  - rewrite (decide_False (P:=_ ∧ _)) by nlia.
    destruct (N.eqb_spec (qc_round qc) (one_chain_round s + 1)) as [->|];
      cbn; unfold on_state; cbn; autorewrite with consensus; cbn;
      [by rewrite decide_True|by rewrite decide_False].
  - destruct overflow_checks eqn:Ho; [by rewrite decide_True|].
    rewrite decide_False by naive_solver. rewrite decide_False by nlia.
    destruct (N.eqb_spec (qc_round qc) 0) as [->|]; cbn;
      unfold on_state; cbn; autorewrite with consensus; cbn; [|done].
    by rewrite !N.max_0_r.
Qed.
Lemma observe_tc_effect tc r :
  let s := state r in
  observe_tc tc r =
    (mkRules (mkSafetyState (epoch s) (last_voted_round s) (preferred_round s)
       (one_chain_round s `max` tcc_hqc_round tc)
       (highest_timeout_round s `max` tcc_round tc)), Ok tt).
Proof.
  cbn. unfold observe_tc. run. unfold on_state. cbn.
  by autorewrite with consensus; cbn; autorewrite with consensus.
Qed.
Lemma record_vote_effect n r :
  let s := state r in
  record_vote n r =
    if decide (n < last_voted_round s)
    then (r, Err (Msg "Cannot record vote for round {}: already voted in round {}"
                    [DNum n; DNum (last_voted_round s)]))
    else (mkRules (set_last_voted_round n s), Ok tt).
Proof.
  destruct r as [s]; cbn. unfold record_vote. rewrite bind_gets. cbn.
  destruct (N.ltb_spec n (last_voted_round s)).
  - by rewrite decide_True.
  - rewrite decide_False by lia.
    destruct (N.ltb_spec (last_voted_round s) n); [done|]. run.
    replace n with (last_voted_round s) by lia. by destruct s.
Qed.
Lemma record_timeout_effect n r :
  let s := state r in
  record_timeout n r =
    mkRules (mkSafetyState (epoch s) (last_voted_round s) (preferred_round s)
               (one_chain_round s) (highest_timeout_round s `max` n)).
Proof. unfold record_timeout, on_state. by autorewrite with consensus. Qed.

(** The safety rules' methods only raise rounds. *)
Definition rules_le (r r' : TwoChainSafetyRules) : Prop :=
  le_safety (state r) (state r').
#[export] Instance rules_le_preorder : PreOrder rules_le.
Proof. split; [by intros r|]. intros ? ? ?. unfold rules_le. by etrans. Qed.
Lemma on_state_le f (r : TwoChainSafetyRules) :
  (∀ s, le_safety s (f s).1) → rules_le r (on_state f r).
Proof. intros Hf. apply Hf. Qed.
Lemma observe_qc_le qc : preserves rules_le (observe_qc qc).
Proof.
  unfold observe_qc. frame; apply preserves_modify; intros r;
    apply on_state_le; auto with consensus.
Qed.
Lemma record_vote_le n : preserves rules_le (record_vote n).
Proof.
  intros r. rewrite record_vote_effect. case_decide; [done|].
  apply set_last_voted_le. lia.
Qed.
Lemma record_timeout_le n r : rules_le r (record_timeout n r).
Proof. apply on_state_le. intros. apply update_timeout_le. Qed.
Lemma run_call_le c : preserves rules_le (run_call c).
Proof.
  destruct c as [qc|tc|n|n]; cbn [run_call].
  - apply observe_qc_le.
  - intros r. rewrite observe_tc_effect. split_and!; cbn; lia.
  - apply record_vote_le.
  - apply preserves_modify, record_timeout_le.
Qed.

(** The invariant of the rules: fields are [u64], and the preferred round
    never passes the one-chain round. *)
Definition rules_inv (r : TwoChainSafetyRules) : Prop :=
  safety_u64 (state r) ∧ preferred_round (state r) ≤ one_chain_round (state r).

Lemma rules_new_inv e : is_u64 e → rules_inv (rules_new e).
Proof. unfold rules_inv, safety_u64. cbn. intros. split_and!; nlia. Qed.

Lemma safety_step_inv r r' :
  rules_inv r → safety_step r r' → rules_inv r' ∧ le_safety (state r) (state r').
Proof.
  intros [Hu Hp] [c Hc <-]. destruct r as [s]; cbn in *.
  unfold rules_inv, safety_u64, le_safety in *.
  destruct c as [qc|tc|n|n]; cbn [run_call call_u64] in *.
  - rewrite observe_qc_effect by done. cbn.
    repeat case_decide; cbn; split_and!; nlia.
  - rewrite observe_tc_effect. cbn. unfold tc_u64 in *. split_and!; nlia.
  - rewrite record_vote_effect. cbn. case_decide; cbn; split_and!; nlia.
  - cbv [modify]. cbn [fst]. rewrite record_timeout_effect. cbn. split_and!; nlia.
Qed.
Lemma safety_steps_inv r r' :
  rules_inv r → rtc safety_step r r' →
  rules_inv r' ∧ le_safety (state r) (state r').
Proof.
  intros Hr. induction 1 as [r|r r1 r2 Hs _ IH]; [done|].
  destruct (safety_step_inv _ _ Hr Hs) as [Hi Hle].
  destruct (IH Hi) as [? ?]. split; [done|]. by etrans.
Qed.
End rules.
#[export] Hint Resolve rules_new_inv : consensus.

(** ** Specifications

    [vote_rule] and [timeout_rule] are the rules the module's documentation
    states, on unbounded rounds; the theorems below say where the code
    implements them. *)
Definition vote_rule (b q : N) (tc : option (N * N)) : Prop :=
  b = q + 1 ∨ ∃ t h, tc = Some (t, h) ∧ b = t + 1 ∧ h ≤ q.
Definition timeout_rule (round q : N) (tc : option N) (one_chain : N) : Prop :=
  (round = q + 1 ∨ ∃ t, tc = Some t ∧ round = t + 1) ∧ one_chain ≤ q.

(** C7: On the rounds the overflow check admits, the core voting rule answers
    [Ok] exactly when the documented 2-chain rule holds and an error otherwise;
    a QC or TC round of [u64::MAX] is an error whatever the block; no argument
    makes it panic. *)
Theorem safe_to_vote_impl_correct b q (tc : option (N * N)) :
  is_u64 q → (∀ t h, tc = Some (t, h) → is_u64 t) →
  let r := safe_to_vote_impl b q (fst <$> tc) (snd <$> tc) in
  (r = Ok tt ↔ q < u64_max ∧ (∀ t h, tc = Some (t, h) → t < u64_max) ∧ vote_rule b q tc)
  ∧ r ≠ Panic
  ∧ (q = u64_max → r = Err (Msg "Round overflow at {}" [DNum u64_max])).
Proof.
  intros Hq Ht. cbn. unfold safe_to_vote_impl, vote_rule.
  destruct (decide (q = u64_max)) as [->|Hne].
  { rewrite next_round_max by lia. cbn. split_and!; naive_solver lia. }
  rewrite next_round_ok by nlia. cbn.
  destruct tc as [[t h]|]; cbn.
  - specialize (Ht t h eq_refl). destruct (decide (t = u64_max)) as [->|Htm].
    { rewrite next_round_max by lia. cbn. split_and!; [|done|done].
      split; [done|]. intros (_&Hlt&_). specialize (Hlt _ _ eq_refl). lia. }
    rewrite next_round_ok by nlia. cbn.
    destruct (N.eqb_spec b (q + 1)) as [->|]; cbn.
    { split_and!; [|done|done]. split; [|done]. intros _. split_and!; [nlia|..].
      - intros ? ? [= <- <-]. nlia.
      - by left. }
    destruct (N.eqb_spec b (t + 1)) as [->|]; cbn.
    + destruct (N.leb_spec h q); cbn; (split_and!; [|done|done]).
      * split; [|done]. intros _. split_and!; [nlia| |right; eauto].
        intros ? ? [= <- <-]. nlia.
      * split; [done|]. intros (_&_&[?|(?&?&[= <- <-]&?&?)]); lia.
    + split_and!; [|done|done]. split; [done|].
      intros (_&_&[?|(?&?&[= <- <-]&?&?)]); lia.
  - destruct (N.eqb_spec b (q + 1)) as [->|]; cbn; (split_and!; [|done|done]).
    + split; [|done]. intros _. split_and!; [nlia|done|by left].
    + split; [done|]. intros (_&_&[?|(?&?&?&?)]); [lia|done].
Qed.
Lemma safe_to_vote_impl_correct_witness :
  safe_to_vote_impl 7 4 (Some 6) (Some 3) = Ok tt ∧
  is_ok (safe_to_vote_impl 7 4 (Some 6) (Some 5)) = false ∧
  vote_rule 7 4 (Some (6, 3)).
Proof.
  destruct (safe_to_vote_impl_correct 7 4 (Some (6, 3))) as [H _];
    [by vm_compute|by intros ? ? [= <- <-]; vm_compute|].
  split; [vm_compute; reflexivity|]. split; [vm_compute; reflexivity|].
  apply H. vm_compute. reflexivity.
Defined.

(** C26: The core timeout rule answers [Ok] exactly when the documented rule
    holds on the rounds the overflow check admits, and it panics, instead of
    returning an error, exactly when the TC round is [u64::MAX] and the QC does
    not already justify the round. *)
Theorem safe_to_timeout_impl_correct r round q (tc : option N) :
  is_u64 q → (∀ t, tc = Some t → is_u64 t) →
  let res := safe_to_timeout_impl r round q tc in
  (res = Panic ↔ q < u64_max ∧ round ≠ q + 1 ∧ tc = Some u64_max)
  ∧ (res = Ok tt ↔ q < u64_max ∧ (round = q + 1 ∨ tc ≠ Some u64_max) ∧
       timeout_rule round q tc (one_chain_round (state r)))
  ∧ (q = u64_max → res = Err (Msg "Round overflow at {}" [DNum u64_max])).
Proof.
  intros Hq Ht. cbn. unfold safe_to_timeout_impl, timeout_rule.
  destruct (decide (q = u64_max)) as [->|Hne].
  { rewrite next_round_max by lia. cbn. split_and!; naive_solver lia. }
  rewrite next_round_ok by nlia. cbn.
  assert (Hq' : q < u64_max) by nlia.
  destruct (N.eqb_spec round (q + 1)) as [->|Hr]; cbn.
  { destruct (N.leb_spec (one_chain_round (state r)) q); cbn;
      (split_and!; [split|split|]); try done.
    - by intros (_&?&_).
    - intros _. split_and!; [done|by left|by left|done].
    - by intros (_&?&_).
    - intros (_&_&_&?). lia. }
  destruct tc as [t|]; cbn.
  2:{ split_and!; [split|split|]; try done; [by intros (_&_&?)|].
      intros (_&_&[?|(?&?&_)]&_); done. }
  specialize (Ht t eq_refl). destruct (decide (t = u64_max)) as [->|Htm].
  { rewrite next_round_max by lia. cbn.
    split_and!; [split|split|]; try done. by intros (_&[?|?]&_). }
  rewrite next_round_ok by nlia. cbn.
  destruct (N.eqb_spec round (t + 1)) as [->|]; cbn.
  - destruct (N.leb_spec (one_chain_round (state r)) q); cbn;
      (split_and!; [split|split|]); try done.
    + by intros (_&_&[= ->]).
    + intros _. split_and!; [done|right; congruence|right; eauto|done].
    + by intros (_&_&[= ->]).
    + intros (_&_&_&?). lia.
  - split_and!; [split|split|]; try done.
    + by intros (_&_&[= ->]).
    + by intros (_&_&[?|(?&[= <-]&?)]&_).
Qed.
Lemma safe_to_timeout_impl_correct_witness :
  safe_to_timeout_impl (rules_new 0) 9 3 (Some u64_max) = Panic ∧
  safe_to_timeout_impl (rules_new 0) 9 3 (Some 8) = Ok tt ∧
  timeout_rule 9 3 (Some 8) 0.
Proof.
  destruct (safe_to_timeout_impl_correct (rules_new 0) 9 3 (Some u64_max))
    as [H _]; [by vm_compute|by intros ? [= <-]; vm_compute|].
  destruct (safe_to_timeout_impl_correct (rules_new 0) 9 3 (Some 8))
    as (_&H'&_); [by vm_compute|by intros ? [= <-]; vm_compute|].
  split; [apply H; split_and!; [vm_compute; reflexivity|done|done]|].
  split; [vm_compute; reflexivity|].
  apply H'. vm_compute. reflexivity.
Defined.

Section theorems.
Context `{CH : Chain} `{OV : OverflowMode}.

(** C1: From a fresh instance, through any calls with [u64] arguments and
    whatever their outcomes, the epoch never changes, no round of the safety
    state ever decreases, every field stays a [u64], and the preferred round
    never exceeds the one-chain round. *)
Theorem safety_rules_invariant e r r' :
  is_u64 e → rtc safety_step (rules_new e) r → rtc safety_step r r' →
  le_safety (state r) (state r') ∧ epoch (state r') = e ∧
  safety_u64 (state r') ∧ preferred_round (state r') ≤ one_chain_round (state r').
Proof.
  intros He Hr Hr'.
  destruct (safety_steps_inv _ _ (rules_new_inv e He) Hr) as [Hi [Hep _]].
  destruct (safety_steps_inv _ _ Hi Hr') as [[Hu Hp] Hle].
  split_and!; [done| |done|done]. destruct Hle as [<- _]. by rewrite <- Hep.
Qed.

Lemma safe_to_vote_ok_iff r p tc :
  is_u64 (block_round p) → (∀ c, tc = Some c → is_u64 (tcc_round c)) →
  (safe_to_vote r p tc = Ok tt ↔
     block_round p ≠ 0 ∧ ∀ c, tc = Some c → tcc_round c < u64_max).
Proof.
  intros Hb Ht. unfold safe_to_vote, safe_to_vote_impl.
  generalize dependent (block_round p). intros b Hb.
  destruct tc as [c|]; cbn.
  - specialize (Ht c eq_refl). rewrite (next_round_ok (b - 1)) by nlia. cbn.
    destruct (decide (tcc_round c = u64_max)) as [E|].
    + rewrite next_round_max by lia. cbn. split; [done|].
      intros [_ Hlt]. specialize (Hlt c eq_refl). lia.
    + rewrite next_round_ok by nlia. cbn.
      destruct (N.eqb_spec b (b - 1 + 1)); cbn.
      * split; [|done]. intros _. split; [lia|]. intros ? [= <-]. nlia.
      * assert (b = 0) as -> by lia.
        replace (0 =? tcc_round c + 1) with false; [naive_solver|].
        symmetry. apply N.eqb_neq. lia.
  - rewrite next_round_ok by nlia. cbn.
    destruct (N.eqb_spec b (b - 1 + 1)); cbn; split; try done.
    + intros _. split; [lia|done].
    + intros [? _]. lia.
Qed.

(** [safe_to_vote] derives the QC round from the proposal itself, so it
    admits every proposal of a non-zero round, whatever block it extends and
    whatever the safety state; a TC can only turn the answer into an overflow
    error. *)
Theorem safe_to_vote_admits_every_round p tc :
  is_u64 (block_round p) → (∀ c, tc = Some c → is_u64 (tcc_round c)) →
  ∀ r, (safe_to_vote r p tc = Ok tt ↔
     block_round p ≠ 0 ∧ ∀ c, tc = Some c → tcc_round c < u64_max) ∧
    safe_to_vote r p tc ≠ Panic.
Proof.
  intros Hb Ht r. split; [by apply safe_to_vote_ok_iff|].
  unfold safe_to_vote, safe_to_vote_impl, next_round. run.
  destruct tc; by repeat case_match.
Qed.

(** After a QC for round [q] has been observed, a proposal yields a commit
    decision exactly when its round is one above the highest certified round,
    and then the decision names the proposal's own parent id: any parent, since
    no block id is compared. *)
Theorem should_commit_after_qc r r' qc p h :
  rules_inv r → is_u64 (qc_round qc) → is_u64 (block_round p) →
  observe_qc qc r = (r', Ok tt) →
  should_commit r' p = Some h ↔
    h = block_parent_id p ∧
    block_round p = (one_chain_round (state r) `max` qc_round qc) + 1.
Proof.
  intros [Hu _] Hq Hb. rewrite observe_qc_effect by done. cbn.
  case_decide; [done|]. intros [= <-]. unfold should_commit. cbn.
  set (m := one_chain_round (state r) `max` qc_round qc).
  destruct (N.ltb_spec 0 (block_round p)); cbn; [|naive_solver lia].
  destruct (N.eqb_spec m (block_round p - 1)); cbn; naive_solver lia.
Qed.
End theorems.

Section witnesses.
Definition mock_block_at (round parent : N) : MockBlock :=
  mkBlock (mkMeta 0 round (mkHash 0) (mkHash parent) 0) [].
Definition mock_qc_at (round : N) : MockQuorumCert :=
  mkQC (mkMeta 0 round (mkHash 0) (mkHash 0) 0) (mkHash round).
Definition mock_tc_at (round hqc : N) : TwoChainTimeoutCertificate MockSignature :=
  mkTC 0 round hqc 0 (mkTimeout 0 round hqc) (mkSig 0).

Lemma safety_rules_invariant_witness :
  ∃ r', rtc (@safety_step mock_chain debug_build) (rules_new 0) r' ∧
    one_chain_round (state r') = 5 ∧ preferred_round (state r') = 0 ∧
    preferred_round (state r') ≤ one_chain_round (state r').
Proof.
  set (r1 := (@run_call mock_chain debug_build (@ObserveQc mock_chain (mock_qc_at 5))
                (rules_new 0)).1).
  assert (Hs : rtc (@safety_step mock_chain debug_build) (rules_new 0) r1).
  { apply rtc_once. eapply safety_step_intro; [|reflexivity]. by vm_compute. }
  exists r1. split; [exact Hs|]. split; [reflexivity|]. split; [reflexivity|].
  apply (@safety_rules_invariant mock_chain debug_build 0 (rules_new 0) r1);
    [by vm_compute|apply rtc_refl|exact Hs].
Defined.

Lemma safe_to_vote_admits_every_round_witness :
  @safe_to_vote mock_chain (rules_new 0) (mock_block_at 9 77) None = Ok tt ∧
  @safe_to_vote mock_chain (mkRules (mkSafetyState 0 8 8 8 8))
    (mock_block_at 900 1) (Some (mock_tc_at 2 1)) = Ok tt.
Proof.
  split.
  - refine (proj2 (proj1 (@safe_to_vote_admits_every_round mock_chain
             (mock_block_at 9 77) None _ _ (rules_new 0))) _);
      [by vm_compute|done|split; [by vm_compute|done]].
  - refine (proj2 (proj1 (@safe_to_vote_admits_every_round mock_chain
             (mock_block_at 900 1) (Some (mock_tc_at 2 1)) _ _
             (mkRules (mkSafetyState 0 8 8 8 8)))) _);
      [by vm_compute|by intros ? [= <-]; vm_compute|].
    split; [by vm_compute|]. intros ? [= <-]. by vm_compute.
Defined.

(** Two proposals of one round with different parents are both decided. *)
Lemma should_commit_after_qc_witness :
  let r' := (@observe_qc mock_chain debug_build (mock_qc_at 3) (rules_new 0)).1 in
  @should_commit mock_chain r' (mock_block_at 4 1) = Some (mkHash 1) ∧
  @should_commit mock_chain r' (mock_block_at 4 2) = Some (mkHash 2).
Proof.
  intros r'.
  assert (Hr : rules_inv (rules_new 0)) by by vm_compute; split_and!.
  split.
  - refine (proj2 (@should_commit_after_qc mock_chain debug_build (rules_new 0)
      r' (mock_qc_at 3) (mock_block_at 4 1) (mkHash 1) Hr _ _ eq_refl) _);
      by vm_compute.
  - refine (proj2 (@should_commit_after_qc mock_chain debug_build (rules_new 0)
      r' (mock_qc_at 3) (mock_block_at 4 2) (mkHash 2) Hr _ _ eq_refl) _);
      by vm_compute.
Defined.
End witnesses.
