(* ===== verification/Wire.v ===== *)
(** * What crosses the wire: the types that derive serde's traits

    [TimeoutReason] and [VoteStatus] (types.rs), [SafetyStateData]
    (safety_rules/state.rs), [TwoChainTimeout] and [TwoChainTimeoutCertificate]
    (timeout/two_chain.rs) derive [Serialize] and [Deserialize].  A derived
    instance maps a struct to the sequence of its fields and a unit variant to
    its index; a field marked [serde(skip)] is not written and takes its default
    value when it is read.  The format that turns such values into bytes
    (bincode, a library) is a parameter with its round-trip law. *)
From S2P Require Import Prelude.
From S2P Require Import Traits.
From S2P Require Import CommonTypes.
From S2P Require Import SafetyStateData.
From S2P Require Import Timeout.
From S2P Require Import Mocks.
From S2P Require Import TwoChain.

(** ** serde's data model, as far as the crate uses it *)
Inductive WireType := WtUnit | WtU64 | WtVariant (count : N) | WtPair (a b : WireType).
Fixpoint wire (t : WireType) : Type :=
  match t with
  | WtUnit => unit
  | WtU64 | WtVariant _ => N
  | WtPair a b => wire a * wire b
  end.
(** Variant indices are [u32]. *)
Fixpoint fits (t : WireType) : wire t → Prop :=
  match t with
  | WtUnit => λ _, True
  | WtU64 => is_u64
  | WtVariant count => λ i, i < count ∧ i < 2 ^ 32
  | WtPair a b => λ v, fits a v.1 ∧ fits b v.2
  end.
Declare Scope wire_scope.
Delimit Scope wire_scope with wire.
Infix "⊗" := WtPair (at level 40, left associativity) : wire_scope.

(** ** A format, and the types it can carry *)
Record Format := mkFormat {
  fmt_serialize : ∀ t, wire t → res Error (list N);
  fmt_deserialize : ∀ t, list N → res Error (wire t);
  fmt_invalid : Error;
}.
Class FormatLaws (F : Format) :=
  deserialize_serialize : ∀ t v, fits t v →
    ∃ bytes, fmt_serialize F t v = Ok bytes ∧ fmt_deserialize F t bytes = Ok v.
Class Serde (T : Type) := {
  wire_type : WireType;
  to_wire : T → wire wire_type;
  of_wire : wire wire_type → option T;
}.
Definition serialize `{!Serde T} (F : Format) (x : T) : res Error (list N) :=
  fmt_serialize F wire_type (to_wire x).
Definition deserialize `{!Serde T} (F : Format) (bytes : list N) : res Error T :=
  v ← fmt_deserialize F wire_type bytes;
  match of_wire v with Some x => Ok x | None => Err (fmt_invalid F) end.
(** Sent by one node and read by another. *)
Definition transmit `{!Serde T} (F : Format) (x : T) : res Error T :=
  bytes ← serialize F x; deserialize F bytes.

(** What reading gives back for a value whose numbers have their widths. *)
Class SerdeKeeps (T : Type) `{!Serde T} (sized : T → Prop) (kept : T → T) := {
  to_wire_fits x : sized x → fits wire_type (to_wire x);
  of_wire_to_wire x : of_wire (to_wire x) = Some (kept x);
}.
Lemma transmit_kept `{SerdeKeeps T sized kept} F `{!FormatLaws F} x :
  sized x → transmit F x = Ok (kept x).
Proof.
  intros Hx. destruct (deserialize_serialize (F := F) _ _ (to_wire_fits x Hx))
    as (bytes&Hs&Hd).
  unfold transmit, serialize, deserialize. rewrite Hs. cbn. rewrite Hd. cbn.
  by rewrite of_wire_to_wire.
Qed.

(** ** The derived instances *)
#[export] Instance TimeoutReason_serde : Serde TimeoutReason := {|
  wire_type := WtVariant 4;
  to_wire r := match r with
    | NoQuorum => 0 | SlowLeader => 1 | NetworkDelay => 2 | ResourceConstraints => 3 end;
  of_wire i := match i : N with
    | 0 => Some NoQuorum | 1 => Some SlowLeader | 2 => Some NetworkDelay
    | 3 => Some ResourceConstraints | _ => None end;
|}.
#[export] Instance VoteStatus_serde : Serde VoteStatus := {|
  wire_type := WtVariant 5;
  to_wire s := match s with
    | VsAccepted => 0 | VsRejected => 1 | VsQuorumCompleted => 2
    | VsOldRound => 3 | VsFutureRound => 4 end;
  of_wire i := match i : N with
    | 0 => Some VsAccepted | 1 => Some VsRejected | 2 => Some VsQuorumCompleted
    | 3 => Some VsOldRound | 4 => Some VsFutureRound | _ => None end;
|}.
#[export] Instance SafetyStateData_serde : Serde SafetyStateData := {|
  wire_type := (WtU64 ⊗ WtU64 ⊗ WtU64 ⊗ WtU64 ⊗ WtU64)%wire;
  to_wire s := (epoch s, last_voted_round s, preferred_round s, one_chain_round s,
                highest_timeout_round s);
  of_wire '(e, lv, pr, oc, ht) := Some (mkSafetyState e lv pr oc ht);
|}.
#[export] Instance TwoChainTimeout_serde : Serde TwoChainTimeout := {|
  wire_type := (WtU64 ⊗ WtU64 ⊗ WtU64)%wire;
  to_wire t := (to_epoch t, to_round t, to_hqc_round t);
  of_wire '(e, r, q) := Some (mkTimeout e r q);
|}.
(** The field [timeout] is the one that is skipped. *)
Section certificate.
Context {S : Type} `{!Serde S}.
Definition tc_wire_type : WireType :=
  (WtU64 ⊗ WtU64 ⊗ WtU64 ⊗ WtU64 ⊗ wire_type (T := S))%wire.
Definition tc_to_wire (tc : TwoChainTimeoutCertificate S) : wire tc_wire_type :=
  (tcc_epoch tc, tcc_round tc, tcc_hqc_round tc, tcc_highest_tc_round tc,
   to_wire (tcc_aggregated_signature tc)).
Definition tc_of_wire : wire tc_wire_type → option (TwoChainTimeoutCertificate S) :=
  λ '(e, r, q, h, s), mkTC e r q h TwoChainTimeout_default <$> of_wire s.
#[export] Instance TC_serde : Serde (TwoChainTimeoutCertificate S) := {|
  wire_type := tc_wire_type; to_wire := tc_to_wire; of_wire := tc_of_wire;
|}.
End certificate.

(** ** What reading gives back *)
Definition state_u64 (s : SafetyStateData) : Prop :=
  is_u64 (epoch s) ∧ is_u64 (last_voted_round s) ∧ is_u64 (preferred_round s) ∧
  is_u64 (one_chain_round s) ∧ is_u64 (highest_timeout_round s).
Definition timeout_u64 (t : TwoChainTimeout) : Prop :=
  is_u64 (to_epoch t) ∧ is_u64 (to_round t) ∧ is_u64 (to_hqc_round t).
Definition certificate_u64 {S} (sized : S → Prop) (tc : TwoChainTimeoutCertificate S) : Prop :=
  is_u64 (tcc_epoch tc) ∧ tc_u64 tc ∧ sized (tcc_aggregated_signature tc).
(** A certificate as it is read. *)
Definition received {S} (tc : TwoChainTimeoutCertificate S) : TwoChainTimeoutCertificate S :=
  mkTC (tcc_epoch tc) (tcc_round tc) (tcc_hqc_round tc) (tcc_highest_tc_round tc)
    TwoChainTimeout_default (tcc_aggregated_signature tc).

#[export] Instance TimeoutReason_kept : SerdeKeeps TimeoutReason (λ _, True) id.
Proof. by split; intros []. Qed.
#[export] Instance VoteStatus_kept : SerdeKeeps VoteStatus (λ _, True) id.
Proof. by split; intros []. Qed.
#[export] Instance SafetyStateData_kept : SerdeKeeps SafetyStateData state_u64 id.
Proof. split; [unfold state_u64; intros []; cbn; tauto|by intros []]. Qed.
#[export] Instance TwoChainTimeout_kept : SerdeKeeps TwoChainTimeout timeout_u64 id.
Proof. split; [unfold timeout_u64; intros []; cbn; tauto|by intros []]. Qed.
#[export] Instance TC_kept {S : Type} `{!Serde S} `{!SerdeKeeps S sized id} :
  SerdeKeeps (TwoChainTimeoutCertificate S) (certificate_u64 sized) received.
Proof.
  split; [|by intros []; cbn; rewrite of_wire_to_wire].
  intros [] (?&(?&?&?)&?). cbn in *. by split_and!; try apply to_wire_fits.
Qed.

Section wire.
Context `{CH : Chain}.

Lemma received_same_rules (tc : TwoChainTimeoutCertificate BSig) :
  (∀ r b, safe_to_vote r b (Some (received tc)) = safe_to_vote r b (Some tc)) ∧
  (∀ r round q, safe_to_timeout r round q (Some (received tc)) =
                safe_to_timeout r round q (Some tc)) ∧
  (∀ r, observe_tc (received tc) r = observe_tc tc r).
Proof. by destruct tc. Qed.

(** C30: A timeout certificate does not survive serialization.  Over any format
    that gives back the values it was given, its certified timeout is skipped and
    read as the default one: every certificate that arrives has the rounds and
    the signature of the one sent but fails to verify, so none that verifies
    arrives unchanged; the safety rules treat it like the original, because they
    never verify one.  The other types that derive the traits, the persisted
    safety state among them, are read as they were written. *)
Theorem serialization_loses_the_timeout (F : Format) `{!FormatLaws F}
    `{!Serde BSig} (sized : BSig → Prop) `{!SerdeKeeps BSig sized id} :
  (∀ tc : TwoChainTimeoutCertificate BSig, certificate_u64 sized tc →
    ∃ tc', transmit F tc = Ok tc' ∧
      (tcc_epoch tc', tcc_round tc', tcc_hqc_round tc', tcc_highest_tc_round tc',
       tcc_aggregated_signature tc') =
      (tcc_epoch tc, tcc_round tc, tcc_hqc_round tc, tcc_highest_tc_round tc,
       tcc_aggregated_signature tc) ∧
      tcc_verify tc' = Err (Msg "Invalid timeout: hqc_round ({}) >= round ({})"
                              [DNum 0; DNum 0]) ∧
      (tcc_verify tc = Ok tt → tc' ≠ tc) ∧
      (∀ r b, safe_to_vote r b (Some tc') = safe_to_vote r b (Some tc)) ∧
      (∀ r round q, safe_to_timeout r round q (Some tc') =
                    safe_to_timeout r round q (Some tc)) ∧
      (∀ r, observe_tc tc' r = observe_tc tc r)) ∧
  (∀ s : SafetyStateData, state_u64 s → transmit F s = Ok s) ∧
  (∀ t : TwoChainTimeout, timeout_u64 t → transmit F t = Ok t) ∧
  (∀ r : TimeoutReason, transmit F r = Ok r) ∧ (∀ v : VoteStatus, transmit F v = Ok v).
Proof.
  split; [|by split_and!; intros; apply (transmit_kept (kept := id))].
  intros tc Htc. exists (received tc). split; [by apply transmit_kept|].
  split; [done|]. split; [done|]. split; [|apply received_same_rules].
  intros [Hv _]%tcc_verify_ok E. rewrite <- E in Hv. by apply N.lt_irrefl in Hv.
Qed.
End wire.

(** ** Witness: fixed-width little-endian integers, fields one after the other *)
Fixpoint le_bytes (n : nat) (x : N) : list N :=
  match n with O => [] | S n => x mod 256 :: le_bytes n (x / 256) end.
Fixpoint le_value (n : nat) (bytes : list N) : option (N * list N) :=
  match n, bytes with
  | O, rest => Some (0, rest)
  | S n, b :: bytes => '(x, rest) ← le_value n bytes; Some (b + 256 * x, rest)
  | S _, [] => None
  end.
Fixpoint fixint_write (t : WireType) : wire t → list N :=
  match t with
  | WtUnit => λ _, []
  | WtU64 => le_bytes 8
  | WtVariant _ => le_bytes 4
  | WtPair a b => λ v, fixint_write a v.1 ++ fixint_write b v.2
  end.
Fixpoint fixint_read (t : WireType) (bytes : list N) : option (wire t * list N) :=
  match t with
  | WtUnit => Some (tt, bytes)
  | WtU64 => le_value 8 bytes
  | WtVariant _ => le_value 4 bytes
  | WtPair a b =>
      '(v, bytes) ← fixint_read a bytes;
      '(w, bytes) ← fixint_read b bytes; Some ((v, w), bytes)
  end.
Definition fixint : Format := {|
  fmt_serialize t v := Ok (fixint_write t v);
  fmt_deserialize t bytes :=
    match fixint_read t bytes with
    | Some (v, _) => Ok v
    | None => Err (Msg "unexpected end of input" [])
    end;
  fmt_invalid := Msg "invalid variant" [];
|}.
Lemma le_roundtrip n x rest :
  x < 256 ^ N.of_nat n → le_value n (le_bytes n x ++ rest) = Some (x, rest).
Proof.
  revert x. induction n as [|n IH]; intros x Hx.
  { cbn in *. by replace x with 0 by lia. }
  cbn [le_bytes le_value app]. rewrite IH.
  - cbn. by rewrite N.add_comm, <- N.div_mod.
  - apply N.Div0.div_lt_upper_bound. by rewrite <- N.pow_succ_r', <- Nat2N.inj_succ.
Qed.
Lemma fixint_roundtrip t v rest :
  fits t v → fixint_read t (fixint_write t v ++ rest) = Some (v, rest).
Proof.
  revert v rest. induction t as [| |count|a IHa b IHb]; cbn [wire fits];
    intros v rest Hv; cbn [fixint_read fixint_write].
  - by destruct v.
  - apply le_roundtrip. unfold is_u64, u64_max in Hv. cbn. lia.
  - apply le_roundtrip. cbn in *. lia.
  - destruct v as [v w], Hv. cbn in *. rewrite <- app_assoc, IHa by done. cbn.
    by rewrite IHb.
Qed.
#[export] Instance fixint_laws : FormatLaws fixint.
Proof.
  intros t v Hv. exists (fixint_write t v). split; [done|]. cbn.
  pose proof (fixint_roundtrip t v [] Hv) as E. rewrite app_nil_r in E. by rewrite E.
Qed.

(** The mock signature is a newtype of an integer; the derived instances would be
    these. *)
#[local] Instance MockSignature_serde : Serde MockSignature := {|
  wire_type := WtU64; to_wire := sig_byte; of_wire n := Some (mkSig n);
|}.
#[local] Instance MockSignature_kept :
  SerdeKeeps MockSignature (λ s, is_u64 (sig_byte s)) id.
Proof. split; [done|by intros []]. Qed.

Section witnesses.
#[local] Existing Instance mock_chain.
Definition sent_tc : TwoChainTimeoutCertificate MockSignature :=
  TC_new 1 10 9 0 (TwoChainTimeout_new 1 10 9) (mkSig 7).
Lemma serialization_loses_the_timeout_witness :
  tcc_verify sent_tc = Ok tt ∧
  length (fixint_write _ (to_wire sent_tc)) = 40%nat ∧
  ∃ tc', transmit fixint sent_tc = Ok tc' ∧ tcc_round tc' = 10 ∧
    tcc_timeout tc' = TwoChainTimeout_default ∧ tcc_verify tc' ≠ Ok tt ∧ tc' ≠ sent_tc.
Proof.
  destruct (@serialization_loses_the_timeout mock_chain fixint _ MockSignature_serde _
    MockSignature_kept) as [H _].
  destruct (H sent_tc) as (tc'&Ht&_); [by vm_compute|].
  split; [done|]. split; [by vm_compute|].
  assert (transmit fixint sent_tc = Ok (received sent_tc)) as E by by vm_compute.
  assert (tc' = received sent_tc) as -> by (pose proof (eq_trans (eq_sym Ht) E); by simplify_eq).
  exists (received sent_tc). by split_and!.
Defined.
End witnesses.
