(* ===== verification/Recovery.v ===== *)
(** * [safety_rules/recovery.rs]: persisting and recovering the safety state

    The storage backend is an implementation of the [ConsensusStorage] trait
    ([consensus-traits/src/storage.rs]); its futures are awaited one after the
    other, so an operation is a state method of the storage.  [StorageLaws] is
    the trait's documented contract: what was saved is what is read back. *)
From S2P Require Import Prelude.
From S2P Require Import Traits.
From S2P Require Import SafetyStateData.
From S2P Require Import Timeout.
From S2P Require Import Mocks.
From S2P Require Import TwoChain.

(** [ConsensusStorage], the safety-state methods at the one type the crate
    stores. *)
Class ConsensusStorage (Sg B QC H SErr : Type) := {
  save_block : B → M Sg SErr unit;
  get_block : H → Sg → res SErr (option B);
  save_quorum_cert : QC → M Sg SErr unit;
  get_quorum_cert : H → Sg → res SErr (option QC);
  storage_prune : N → M Sg SErr unit;
  save_safety_state : SafetyStateData → M Sg SErr unit;
  get_safety_state : Sg → res SErr (option SafetyStateData);
  serr_to_string : SErr → string;
}.
Class StorageLaws (Sg B QC H SErr : Type) `{ConsensusStorage Sg B QC H SErr} :=
  save_then_get : ∀ s sg sg', save_safety_state s sg = (sg', Ok tt) →
    get_safety_state sg' = Ok (Some s).

Inductive RecoveryError :=
| NoState
| Storage (message : string)
| Deserialization (message : string)
| Validation (message : Error).

Section recovery.
Context `{OV : OverflowMode}.

Definition validate_safety_state (s : SafetyStateData) : res RecoveryError unit :=
  if u64_max - 1000 <? epoch s
  then Err (Validation (Msg "Invalid epoch: {}" [DNum (epoch s)]))
  else if preferred_round s <? one_chain_round s
  then Err (Validation (Msg "Invalid state: one_chain_round ({}) > preferred_round ({})"
              [DNum (one_chain_round s); DNum (preferred_round s)]))
  else
    limit ← add64 (last_voted_round s) 100;
    if limit <? preferred_round s
    then Err (Validation (Msg "Invalid state: preferred_round ({}) far ahead of last_voted_round ({})"
                [DNum (preferred_round s); DNum (last_voted_round s)]))
    else Ok tt.

Context {Sg B QC H SErr : Type} `{ST : ConsensusStorage Sg B QC H SErr}.

Definition load_safety_rules (sg : Sg) (epoch : N) :
    res RecoveryError TwoChainSafetyRules :=
  match get_safety_state sg with
  | Ok (Some s) => validate_safety_state s;; Ok (with_state s)
  | Ok None => Ok (rules_new epoch)
  | Err e => Err (Storage (serr_to_string e))
  | Panic => Panic
  end.

Definition persist_safety_state (s : SafetyStateData) : M Sg RecoveryError unit :=
  map_err_m (λ e, Storage (serr_to_string e)) (save_safety_state s).

(** The states the validation accepts. *)
Definition recoverable (s : SafetyStateData) : Prop :=
  epoch s ≤ u64_max - 1000 ∧ one_chain_round s ≤ preferred_round s ∧
  preferred_round s ≤ last_voted_round s + 100.

Lemma validate_ok s :
  last_voted_round s + 100 ≤ u64_max →
  validate_safety_state s = Ok tt ↔ recoverable s.
Proof.
  intros Hl. unfold validate_safety_state, recoverable.
  destruct (N.ltb_spec (u64_max - 1000) (epoch s)); [naive_solver lia|].
  destruct (N.ltb_spec (preferred_round s) (one_chain_round s));
    [naive_solver lia|].
  rewrite add64_ok by done. cbn.
  destruct (N.ltb_spec (last_voted_round s + 100) (preferred_round s));
    naive_solver lia.
Qed.
Lemma validate_not_panic s :
  last_voted_round s + 100 ≤ u64_max → validate_safety_state s ≠ Panic.
Proof.
  intros Hl. unfold validate_safety_state. rewrite add64_ok by done. cbn.
  by repeat case_match.
Qed.
Lemma persist_saves s sg sg' :
  persist_safety_state s sg = (sg', Ok tt) →
  save_safety_state s sg = (sg', Ok tt).
Proof.
  unfold persist_safety_state, map_err_m.
  by destruct (save_safety_state s sg) as [? [[]| |]]; cbn; intros [= ->].
Qed.
End recovery.

Section theorems.
Context `{OV : OverflowMode}.

(** What is persisted is what recovery works on: after a successful
    [persist_safety_state], [load_safety_rules] returns rules with exactly
    that state when the state passes the validation, and otherwise an error;
    it never falls back to a fresh instance of the given epoch. *)
Theorem persist_load_roundtrip {Sg B QC H SErr}
    `{ST : ConsensusStorage Sg B QC H SErr} `{!StorageLaws Sg B QC H SErr}
    s sg sg' ep :
  last_voted_round s + 100 ≤ u64_max →
  persist_safety_state s sg = (sg', Ok tt) →
  (load_safety_rules sg' ep = Ok (with_state s) ↔ recoverable s) ∧
  (¬ recoverable s → ∃ m, load_safety_rules sg' ep = Err (Validation m)).
Proof.
  intros Hl Hp%persist_saves%save_then_get. unfold load_safety_rules.
  rewrite Hp. rewrite <- (validate_ok s Hl).
  pose proof (validate_not_panic s Hl) as Hn.
  destruct (validate_safety_state s) as [[]|e|] eqn:E; cbn; [by split|..|done].
  split; [done|]. intros _. revert E. unfold validate_safety_state.
  rewrite add64_ok by done. cbn. repeat case_match; naive_solver.
Qed.

(** C31: The rules themselves only ever reach states whose preferred round is
    at most the one-chain round, the validation demands the converse; so a
    reachable state survives a restart only if the two are equal and at most
    100 ahead of the last vote. *)
Theorem reachable_recoverable_iff `{CH : Chain} e r :
  e ≤ u64_max - 1000 → rtc safety_step (rules_new e) r →
  last_voted_round (state r) + 100 ≤ u64_max →
  validate_safety_state (state r) = Ok tt ↔
    one_chain_round (state r) = preferred_round (state r) ∧
    one_chain_round (state r) ≤ last_voted_round (state r) + 100.
Proof.
  intros He Hr Hl. rewrite validate_ok by done. unfold recoverable.
  assert (Hu : is_u64 e) by nlia.
  destruct (safety_steps_inv _ _ (rules_new_inv e Hu) Hr) as [[_ Hp] [Hep _]].
  cbn in Hep. rewrite <- Hep. split; [intros (?&?&?)|intros [? ?]]; split_and!; lia.
Qed.
End theorems.

(** ** A concrete storage, and the witnesses *)
Module CellStorage.
#[export] Instance cell_storage {B QC H} :
  ConsensusStorage (option SafetyStateData) B QC H string := {|
  save_block _ := mret tt;
  get_block _ _ := Ok None;
  save_quorum_cert _ := mret tt;
  get_quorum_cert _ _ := Ok None;
  storage_prune _ := mret tt;
  save_safety_state s := modify (λ _, Some s);
  get_safety_state sg := Ok sg;
  serr_to_string s := s;
|}.
#[export] Instance cell_storage_laws {B QC H} :
  StorageLaws (option SafetyStateData) B QC H string.
Proof. by intros s sg sg' [= <-]. Qed.
End CellStorage.
Import CellStorage.

Lemma persist_load_roundtrip_witness :
  let s := mkSafetyState 1 7 7 7 0 in
  ∃ sg', @persist_safety_state _ unit unit unit _ _ s None = (sg', Ok tt) ∧
    @load_safety_rules debug_build _ unit unit unit _ _ sg' 0 = Ok (with_state s).
Proof.
  intros s. exists (Some s). split; [reflexivity|].
  refine (proj2 (proj1 (@persist_load_roundtrip debug_build _ unit unit unit _ _ _
    s None (Some s) 0 _ eq_refl)) _); [by vm_compute|].
  vm_compute. by split_and!.
Defined.

(** Observing the QC of round 5 leaves a state that recovery refuses. *)
Lemma reachable_recoverable_iff_witness :
  let r := (@observe_qc mock_chain debug_build (mock_qc_at 5) (rules_new 0)).1 in
  @validate_safety_state debug_build (state r) ≠ Ok tt.
Proof.
  intros r Hv.
  assert (Hs : rtc (@safety_step mock_chain debug_build) (rules_new 0) r).
  { apply rtc_once.
    apply (@safety_step_intro mock_chain debug_build _ _
             (@ObserveQc mock_chain (mock_qc_at 5))); by vm_compute. }
  destruct (proj1 (@reachable_recoverable_iff debug_build mock_chain 0 r
    ltac:(by vm_compute) Hs ltac:(by vm_compute)) Hv) as [Heq _].
  by vm_compute in Heq.
Defined.
