(* ===== verification/SafetyHistory.v ===== *)
(** * The safety state as a function of what has been observed

    The abstract specification of the 2-chain rules: a node that remembers
    every certificate it has seen, every vote and every timeout.  The four
    counters of [safety_rules/two_chain.rs] are shown to be exactly the summary
    of that history the documentation names them after. *)
From S2P Require Import Prelude.
From S2P Require Import Traits.
From S2P Require Import SafetyStateData.
From S2P Require Import Timeout.
From S2P Require Import Mocks.
From S2P Require Import TwoChain.

Section history.
Context `{CH : Chain} `{OV : OverflowMode}.
Implicit Types (h : list SafetyCall) (c : SafetyCall) (r : TwoChainSafetyRules).

(** A run of calls, each whatever its outcome. *)
Definition run_calls h r : TwoChainSafetyRules :=
  foldl (λ r c, (run_call c r).1) r h.

(** ** The abstract specification: what the history contains *)

(** The rounds a call reports as certified, timed out, voted in. *)
Definition certified_by c : option N :=
  match c with
  | ObserveQc qc => Some (qc_round qc)
  | ObserveTc tc => Some (tcc_hqc_round tc)
  | _ => None
  end.
Definition timed_out_by c : option N :=
  match c with
  | ObserveTc tc => Some (tcc_round tc)
  | RecordTimeout n => Some n
  | _ => None
  end.
Definition voted_by c : option N :=
  match c with RecordVote n => Some n | _ => None end.
Definition certified h : list N := omap certified_by h.
Definition timed_out h : list N := omap timed_out_by h.
Definition voted h : list N := omap voted_by h.

(** [two_chain h q]: the history contains a QC for round [q] that arrived when
    the round directly below was the highest certified one. *)
Definition two_chain h (q : N) : Prop :=
  ∃ h1 qc h2, h = h1 ++ ObserveQc qc :: h2 ∧ qc_round qc = q ∧
    q = maxN (certified h1) + 1.

(** The abstraction relation. *)
Definition summarises h (s : SafetyStateData) : Prop :=
  last_voted_round s = maxN (voted h) ∧
  one_chain_round s = maxN (certified h) ∧
  highest_timeout_round s = maxN (timed_out h) ∧
  greatest (λ q, q = 0 ∨ two_chain h q) (preferred_round s).

Lemma two_chain_snoc h c q :
  two_chain (h ++ [c]) q ↔
    two_chain h q ∨
    (∃ qc, c = ObserveQc qc ∧ qc_round qc = q ∧ q = maxN (certified h) + 1).
Proof.
  split.
  - intros (h1&qc&h2&He&?&?). destruct h2 as [|c' h2 _] using rev_ind.
    + apply app_inj_tail in He as [-> ->]. right. eauto.
    + rewrite app_comm_cons, app_assoc in He. apply app_inj_tail in He as [-> ->].
      left. by exists h1, qc, h2.
  - intros [(h1&qc&h2&->&?&?)|(qc&->&?&?)].
    + exists h1, qc, (h2 ++ [c]). by rewrite <- app_assoc.
    + by exists h, qc, [].
Qed.
(** No new 2-chain: the summary of the 2-chains stays. *)
Lemma greatest_two_chain_same h c p :
  (∀ qc, c = ObserveQc qc → qc_round qc ≠ maxN (certified h) + 1) →
  greatest (λ q, q = 0 ∨ two_chain h q) p →
  greatest (λ q, q = 0 ∨ two_chain (h ++ [c]) q) p.
Proof.
  intros Hc [Hp Hg]. split; [rewrite two_chain_snoc; naive_solver|].
  intros x. rewrite two_chain_snoc. intros [?|[?|(qc&->&?&?)]]; [apply Hg; auto..|].
  destruct (Hc qc eq_refl). congruence.
Qed.
Lemma greatest_two_chain_max h qc p :
  qc_round qc = maxN (certified h) + 1 →
  greatest (λ q, q = 0 ∨ two_chain h q) p →
  greatest (λ q, q = 0 ∨ two_chain (h ++ [ObserveQc qc]) q) (p `max` qc_round qc).
Proof.
  intros Hq [Hp Hg]. split.
  - destruct (N.max_spec p (qc_round qc)) as [[_ ->]|[_ ->]]; rewrite two_chain_snoc;
      [right; right; eauto|naive_solver].
  - intros x. rewrite two_chain_snoc. intros [?|[?|(qc'&[= <-]&<-&_)]]; [lia| |lia].
    pose proof (Hg x (or_intror ltac:(done))). lia.
Qed.

(** All rounds of the history are below the largest [u64]. *)
Definition call_fits c : Prop :=
  call_u64 c ∧ ∀ n, certified_by c = Some n → n < u64_max.

Lemma summarises_step h c r :
  safety_u64 (state r) → maxN (certified h) < u64_max → call_fits c →
  summarises h (state r) → summarises (h ++ [c]) (state (run_call c r).1).
Proof.
  intros Hu Hm [Hc Hn] (Hv&Ho&Ht&Hp).
  assert (Happ : ∀ f : SafetyCall → option N,
    maxN (omap f (h ++ [c])) = maxN (omap f h) `max` default 0 (f c)).
  { intros f. rewrite omap_app, maxN_app. f_equal. cbn. destruct (f c); cbn; lia. }
  unfold summarises, voted, certified, timed_out in *. rewrite !Happ.
  destruct c as [qc|tc|n|n]; cbn [run_call certified_by timed_out_by voted_by default] in *.
  - rewrite observe_qc_effect by done.
    rewrite decide_False by (intros [? _]; lia). cbn.
    split_and!; [lia..|]. rewrite Ho. case_decide as Hq.
    + by apply greatest_two_chain_max.
    + apply greatest_two_chain_same; [|done]. by intros ? [= <-].
  - rewrite observe_tc_effect. cbn. split_and!; [lia..|].
    by apply greatest_two_chain_same.
  - rewrite record_vote_effect. case_decide; cbn; split_and!;
      try (by apply greatest_two_chain_same); lia.
  - cbv [modify]. cbn [fst]. rewrite record_timeout_effect. cbn. split_and!; [lia..|].
    by apply greatest_two_chain_same.
Qed.

Lemma certified_fits h : Forall call_fits h → maxN (certified h) < u64_max.
Proof.
  intros Hh. apply maxN_lt; [by vm_compute|]. apply Forall_forall. intros n.
  unfold certified. rewrite list_elem_of_omap. intros (c&Hc&Hn).
  rewrite Forall_forall in Hh. by apply (Hh c Hc).
Qed.
Lemma run_calls_summary h e :
  is_u64 e → Forall call_fits h →
  rules_inv (run_calls h (rules_new e)) ∧ epoch (state (run_calls h (rules_new e))) = e ∧
  summarises h (state (run_calls h (rules_new e))).
Proof.
  intros He. induction h as [|c h IH] using rev_ind.
  - intros _. split; [by apply rules_new_inv|]. split; [done|].
    do 3 (split; [done|]). split; [by left|]. intros x [->|([|]&?&?&?&_)]; done.
  - rewrite Forall_app, Forall_singleton. intros [Hh Hc]. destruct (IH Hh) as (Hi&Hep&Hs).
    unfold run_calls. rewrite foldl_snoc. fold (run_calls h (rules_new e)).
    destruct (safety_step_inv (run_calls h (rules_new e)) _ Hi
      (safety_step_intro _ _ c (proj1 Hc) eq_refl)) as [Hi' [Hle _]].
    split; [done|]. split; [congruence|].
    apply summarises_step; [apply Hi|by apply certified_fits|done|done].
Qed.
End history.

Section theorems.
Context `{CH : Chain} `{OV : OverflowMode}.

(** C8: The rules refine the specification that remembers the whole history:
    after any calls, whatever their outcomes, on rounds below the largest
    [u64], the last voted round is the highest round voted in, the one-chain
    round the highest round seen certified by a QC or by a TC's highest QC, the
    timeout round the highest timed-out round, and the preferred round the
    highest QC round that arrived directly on top of the highest certified one;
    a proposal is then answered with a commit exactly when its round is one
    above the highest certified round. *)
Theorem safety_state_is_history e h :
  is_u64 e → Forall call_fits h →
  let r := run_calls h (rules_new e) in
  epoch (state r) = e ∧ summarises h (state r) ∧
  ∀ p, is_Some (should_commit r p) ↔ block_round p = maxN (certified h) + 1.
Proof.
  intros He Hh r. destruct (run_calls_summary h e He Hh) as (_&Hep&Hs).
  split_and!; [done|done|]. intros p. destruct Hs as (_&<-&_). fold r.
  unfold should_commit. destruct (N.ltb_spec 0 (block_round p)); cbn.
  - destruct (N.eqb_spec (one_chain_round (state r)) (block_round p - 1));
      (split; [|]); first [lia | by eauto | by intros [? ?]].
  - split; [by intros [? ?]|lia].
Qed.
End theorems.

Section witnesses.
(** A gap between the QCs of rounds 2 and 4: no 2-chain on round 4. *)
Definition mock_history : list (@SafetyCall mock_chain) :=
  [@ObserveQc mock_chain (mock_qc_at 1); @RecordVote mock_chain 2;
   @ObserveQc mock_chain (mock_qc_at 2); @ObserveQc mock_chain (mock_qc_at 4);
   @RecordTimeout mock_chain 3; @RecordVote mock_chain 5; @RecordVote mock_chain 3].
Lemma safety_state_is_history_witness :
  let r := @run_calls mock_chain debug_build mock_history (rules_new 7) in
  state r = mkSafetyState 7 5 2 4 3 ∧
  @summarises mock_chain mock_history (mkSafetyState 7 5 2 4 3).
Proof.
  intros r. assert (Hs : state r = mkSafetyState 7 5 2 4 3) by by vm_compute.
  split; [exact Hs|]. rewrite <- Hs.
  refine (proj1 (proj2 (@safety_state_is_history mock_chain debug_build 7
    mock_history _ _))); [by vm_compute|].
  unfold mock_history.
  repeat (apply Forall_cons_2; [split; [by vm_compute|by intros ? [= <-]]|]).
  apply Forall_nil_2.
Defined.
End witnesses.
