(* ===== verification/Durable.v ===== *)
(** * Voting across crashes

    The documented way to vote with a persistent safety state (the example of
    [persist_safety_state] in safety_rules/recovery.rs): check, record, persist,
    and only then send.  A validator is the process that runs this protocol; it
    may stop between any two of its actions, and is started again from its
    storage by [load_safety_rules]. *)
From S2P Require Import Prelude.
From S2P Require Import Traits.
From S2P Require Import SafetyStateData.
From S2P Require Import Timeout.
From S2P Require Import Mocks.
From S2P Require Import TwoChain.
From S2P Require Import Recovery.
Import CellStorage.

(** The trait's documentation asks for atomic writes: whatever the outcome of
    a save, the storage holds the new state or what it held before. *)
Class AtomicStorage (Sg B QC H SErr : Type) `{ConsensusStorage Sg B QC H SErr} :=
  save_atomic : ∀ s sg sg' r, save_safety_state s sg = (sg', r) →
    get_safety_state sg' = Ok (Some s) ∨ get_safety_state sg' = get_safety_state sg.
#[export] Instance cell_storage_atomic {B QC H} :
  AtomicStorage (option SafetyStateData) B QC H string.
Proof. intros s sg sg' r [= <- <-]. by left. Qed.

Section durable.
Context `{CH : Chain} `{OV : OverflowMode}.
Context {Sg SErr : Type} `{ST : !ConsensusStorage Sg Blk QCert BHash SErr}.
Abbreviation TC := (TwoChainTimeoutCertificate BSig).

(** ** The protocol as one call *)

(** A validator: rules in memory, storage, and the proposals it has sent its
    vote for, in order. *)
Record Validator := mkVal {
  va_rules : TwoChainSafetyRules;
  va_storage : Sg;
  va_sent : list Blk;
}.
Inductive VoteError :=
| VeSafety (e : Error)
| VeRecovery (e : RecoveryError).
Definition on_rules {A} (x : M TwoChainSafetyRules Error A) : M Validator VoteError A :=
  zoom va_rules (λ r v, mkVal r (va_storage v) (va_sent v)) (map_err_m VeSafety x).
Definition on_storage {A} (x : M Sg RecoveryError A) : M Validator VoteError A :=
  zoom va_storage (λ sg v, mkVal (va_rules v) sg (va_sent v)) (map_err_m VeRecovery x).
Definition send_vote (p : Blk) : M Validator VoteError unit :=
  modify (λ v, mkVal (va_rules v) (va_storage v) (va_sent v ++ [p])).

Definition vote_with_persistence (p : Blk) : M Validator VoteError unit :=
  r ← gets va_rules;
  lift (map_err VeSafety (safe_to_vote r p (None : option TC)));;
  on_rules (record_vote (block_round p));;
  s ← gets (λ v, state (va_rules v));
  on_storage (persist_safety_state s);;
  send_vote p.

(** ** The process that runs it *)

Inductive Phase :=
| Down
| Ready (r : TwoChainSafetyRules)
| Recorded (p : Blk) (r : TwoChainSafetyRules)
| Persisted (p : Blk) (r : TwoChainSafetyRules).
Record Process := mkProc {
  pr_phase : Phase;
  pr_storage : Sg;
  pr_sent : list Blk;
}.

(** [Observe] stands for every other call on the rules; [Stop] is a crash, at
    any moment; a write that fails ends the vote, a write that panics ends the
    process. *)
Inductive process_step : Process → Process → Prop :=
| Observe c r sg sent :
    process_step (mkProc (Ready r) sg sent) (mkProc (Ready (run_call c r).1) sg sent)
| Record_vote p r r' sg sent :
    safe_to_vote r p (None : option TC) = Ok tt →
    record_vote (block_round p) r = (r', Ok tt) →
    process_step (mkProc (Ready r) sg sent) (mkProc (Recorded p r') sg sent)
| Persist p r sg sg' o sent :
    persist_safety_state (state r) sg = (sg', o) →
    process_step (mkProc (Recorded p r) sg sent)
      (mkProc (match o with Ok _ => Persisted p r | Err _ => Ready r | Panic => Down end)
         sg' sent)
| Send p r sg sent :
    process_step (mkProc (Persisted p r) sg sent) (mkProc (Ready r) sg (sent ++ [p]))
| Stop ph sg sent : process_step (mkProc ph sg sent) (mkProc Down sg sent)
| Restart e r sg sent :
    load_safety_rules sg e = Ok r →
    process_step (mkProc Down sg sent) (mkProc (Ready r) sg sent).

(** The one call is the sequence of these actions. *)
Lemma vote_with_persistence_steps p r sg sent v' :
  vote_with_persistence p (mkVal r sg sent) = (v', Ok tt) →
  rtc process_step (mkProc (Ready r) sg sent)
    (mkProc (Ready (va_rules v')) (va_storage v') (va_sent v')) ∧
  va_sent v' = sent ++ [p].
Proof.
  unfold vote_with_persistence. rewrite bind_gets. cbn [va_rules].
  intros ([]&Hs&H)%bind_lift_ok_inv.
  assert (Hsv : safe_to_vote r p (None : option TC) = Ok tt)
    by (by destruct (safe_to_vote r p None) as [[]| |]).
  apply bind_ok_inv in H as (v1&[]&Hr&H).
  rewrite bind_gets in H. apply bind_ok_inv in H as (v2&[]&Hp&H).
  unfold on_rules, on_storage, send_vote, modify, zoom, map_err_m in *. cbn in *.
  destruct (record_vote (block_round p) r) as [r' o] eqn:Er.
  destruct o as [[]| |]; simplify_eq/=.
  destruct (persist_safety_state (state r') sg) as [sg' o] eqn:Ep.
  destruct o as [[]| |]; simplify_eq/=. split; [|done].
  eapply rtc_l; [eapply Record_vote; [exact Hsv|exact Er]|].
  eapply rtc_l; [by eapply Persist|]. eapply rtc_l; [apply Send|]. done.
Qed.

(** ** Invariant *)

Definition stored_round (sg : Sg) (n : N) : Prop :=
  ∃ s, get_safety_state sg = Ok (Some s) ∧ n ≤ last_voted_round s.
Definition memory (ph : Phase) : option TwoChainSafetyRules :=
  match ph with
  | Down => None
  | Ready r | Recorded _ r | Persisted _ r => Some r
  end.
(** Votes sent are covered by the storage and by the memory, and so is what is
    persisted for the vote about to be sent. *)
Definition covered (x : Process) (n : N) : Prop :=
  stored_round (pr_storage x) n ∧
  ∀ r, memory (pr_phase x) = Some r → n ≤ last_voted_round (state r).
Definition process_inv (x : Process) : Prop :=
  (∀ p, p ∈ pr_sent x → covered x (block_round p)) ∧
  StronglySorted N.le ((λ p, block_round p) <$> pr_sent x) ∧
  match pr_phase x with
  | Persisted p r => stored_round (pr_storage x) (block_round p) ∧
      block_round p = last_voted_round (state r)
  | Recorded p r => block_round p = last_voted_round (state r)
  | _ => True
  end.


Lemma covered_storage x sg' n :
  covered x n → (get_safety_state sg' = get_safety_state (pr_storage x) ∨
    ∃ r, memory (pr_phase x) = Some r ∧ get_safety_state sg' = Ok (Some (state r))) →
  stored_round sg' n.
Proof.
  intros [(s&Hs&Hn) Hm] [He|(r&Hr&He)]; unfold stored_round; rewrite He; eauto.
Qed.
(** A step that sends nothing keeps the invariant when memory and storage only
    advance. *)
Lemma process_inv_frame ph sg ph' sg' sent :
  process_inv (mkProc ph sg sent) →
  (∀ n, covered (mkProc ph sg sent) n → covered (mkProc ph' sg' sent) n) →
  match ph' with
  | Persisted p r => stored_round sg' (block_round p) ∧
      block_round p = last_voted_round (state r)
  | Recorded p r => block_round p = last_voted_round (state r)
  | _ => True
  end → process_inv (mkProc ph' sg' sent).
Proof.
  intros (Hc&Hs&_) Hm Hp. split; [|by split]. intros p Hin. apply Hm, Hc, Hin.
Qed.

Context `{!StorageLaws Sg Blk QCert BHash SErr, !AtomicStorage Sg Blk QCert BHash SErr}.

Lemma persist_atomic s sg sg' o :
  persist_safety_state s sg = (sg', o) →
  (get_safety_state sg' = Ok (Some s) ∨ get_safety_state sg' = get_safety_state sg) ∧
  (o = Ok tt → get_safety_state sg' = Ok (Some s)).
Proof.
  unfold persist_safety_state, map_err_m.
  destruct (save_safety_state s sg) as [sg1 o1] eqn:E. intros [= <- <-].
  split; [by eapply save_atomic|]. destruct o1 as [[]| |]; try done.
  intros _. by eapply save_then_get.
Qed.
Lemma load_reads sg e r :
  load_safety_rules sg e = Ok r →
  get_safety_state sg = Ok None ∨ get_safety_state sg = Ok (Some (state r)).
Proof.
  unfold load_safety_rules. destruct (get_safety_state sg) as [[s|]| |]; try done.
  - destruct (validate_safety_state s); [|done..]. intros [= <-]. by right.
  - by left.
Qed.

Lemma process_step_inv x y : process_inv x → process_step x y → process_inv y.
Proof.
  intros Hx Hstep. revert Hx.
  destruct Hstep as [c r sg sent|p r r' sg sent Hs Hr|p r sg sg' o sent Hp
    |p r sg sent|ph sg sent|e r sg sent Hl]; intros Hx.
  - eapply process_inv_frame; [exact Hx| |done]. intros n [Hn Hm]. split; [done|].
    intros ? [= <-]. specialize (Hm r eq_refl). destruct (run_call_le c r) as (_&?&_). lia.
  - rewrite record_vote_effect in Hr. case_decide; simplify_eq.
    eapply process_inv_frame; [exact Hx| |done]. intros n [Hn Hm]. split; [done|].
    intros ? [= <-]. specialize (Hm r eq_refl). cbn. lia.
  - destruct (persist_atomic _ _ _ _ Hp) as [Ha Hok].
    eapply process_inv_frame; [exact Hx| |].
    + intros n Hc. split; [|destruct o; intros ? [= <-]; by apply Hc].
      eapply covered_storage; [exact Hc|]. destruct Ha; [right; eauto|by left].
    + destruct Hx as (_&_&Heq). cbn in Heq. destruct o as [[]| |]; try done.
      split; [|done]. exists (state r). split; [auto|lia].
  - destruct Hx as (Hc&Hs&Hst&Heq). cbn in *.
    assert (Hp : covered (mkProc (Ready r) sg (sent ++ [p])) (block_round p)).
    { split; [done|]. intros ? [= <-]. lia. }
    split; [|split; [|done]]; cbn.
    + intros q. rewrite elem_of_app, list_elem_of_singleton.
      intros [Hq| ->]; [by apply Hc|done].
    + rewrite fmap_app. apply StronglySorted_app_2; [|done|by repeat constructor].
      intros n ? Hn ->%list_elem_of_singleton. cbn in *.
      apply list_elem_of_fmap in Hn as (q&->&Hq). rewrite Heq. by apply (Hc q Hq).
  - eapply process_inv_frame; [exact Hx| |done]. intros n [Hn _]. by split.
  - eapply process_inv_frame; [exact Hx| |done]. intros n [Hn _]. split; [done|].
    intros ? [= <-]. destruct Hn as (s&Hs&Hn). cbn in Hs.
    destruct (load_reads _ _ _ Hl) as [Hg|Hg]; rewrite Hg in Hs; [done|].
    by injection Hs as <-.
Qed.
End durable.

Section theorems.
Context `{CH : Chain} `{OV : OverflowMode}.
Context {Sg SErr : Type} `{ST : !ConsensusStorage Sg Blk QCert BHash SErr}.
Context `{!StorageLaws Sg Blk QCert BHash SErr, !AtomicStorage Sg Blk QCert BHash SErr}.

(** C13: Crash safety of the documented protocol, over any storage with atomic
    writes.  From a first start on an empty storage, through any calls, failed
    writes, crashes between any two actions and restarts with whatever epoch:
    the rounds of the votes a validator has sent never decrease, the storage
    always holds a state that covers every vote sent, and so does the memory of
    a running validator, in every phase of the protocol; so a validator, running
    or just recovered from the storage, refuses to record a vote in any round
    below one it has sent a vote for. *)
Theorem sent_votes_survive_crashes sg x :
  get_safety_state sg = Ok None →
  rtc process_step (mkProc Down sg []) x →
  StronglySorted N.le ((λ p, block_round p) <$> pr_sent x) ∧
  ∀ p, p ∈ pr_sent x →
    (∃ s, get_safety_state (pr_storage x) = Ok (Some s) ∧
       block_round p ≤ last_voted_round s) ∧
    (∀ r, memory (pr_phase x) = Some r → block_round p ≤ last_voted_round (state r)) ∧
    ∀ r n, memory (pr_phase x) = Some r ∨
        (∃ e, load_safety_rules (pr_storage x) e = Ok r) →
      n < block_round p → ∃ m, record_vote n r = (r, Err m).
Proof.
  intros He Hx.
  assert (Hi : process_inv x).
  { refine (rtc_invariant _ _ _ _ process_step_inv _ Hx).
    split; [|by split; [constructor|]]. by intros p Hp%elem_of_nil. }
  destruct Hi as (Hc&Hs&_). split; [done|]. intros p Hp.
  destruct (Hc p Hp) as [(s&Hg&Hn) Hm]. split; [eauto|]. split; [done|].
  intros r n Hl Hlt. rewrite record_vote_effect.
  assert (Hr : block_round p ≤ last_voted_round (state r)).
  { destruct Hl as [Hl|[e Hl]]; [by apply Hm|].
    destruct (load_reads _ _ _ Hl) as [H|H]; rewrite H in Hg; [done|].
    by injection Hg as <-. }
  rewrite decide_True by lia. eauto.
Qed.
End theorems.

(** ** Witness: a vote in round 4, a crash, and a restart *)
Section witnesses.
Abbreviation cell_proc := (@mkProc mock_chain (option SafetyStateData)).
Definition cell_voted : @Validator mock_chain (option SafetyStateData) :=
  (@vote_with_persistence mock_chain _ string cell_storage
     (mock_block_at 4 7) (@mkVal mock_chain _ (rules_new 0) None [])).1.
Lemma sent_votes_survive_crashes_witness :
  let sg := @va_storage mock_chain _ cell_voted in
  sg = Some (mkSafetyState 0 4 0 0 0) ∧
  ∃ m, record_vote 3 (with_state (mkSafetyState 0 4 0 0 0)) =
    (with_state (mkSafetyState 0 4 0 0 0), Err m).
Proof.
  intros sg. split; [by vm_compute|].
  destruct (@sent_votes_survive_crashes mock_chain debug_build _ string cell_storage
    cell_storage_laws cell_storage_atomic None
    (cell_proc Down sg (@va_sent mock_chain _ cell_voted))) as [_ H]; [done| |].
  - eapply rtc_l; [apply (Restart 0 (rules_new 0)); by vm_compute|].
    eapply rtc_r; [|apply Stop].
    by apply (@vote_with_persistence_steps mock_chain debug_build _ string
      cell_storage (mock_block_at 4 7)).
  - destruct (H (mock_block_at 4 7 : @Blk mock_chain)) as (_&_&Hr);
      [by vm_compute; left|].
    apply (Hr _ 3); [right; exists 0; by vm_compute|by vm_compute].
Defined.
End witnesses.
