(* ===== verification/RoundState.v ===== *)
(** * [state/round_state.rs]: the state of the current round *)
From S2P Require Import Prelude.
From S2P Require Import Traits.
From S2P Require Import CommonTypes.

Record RoundStateConfig := mkRoundStateConfig {
  initial_epoch : Epoch;
  initial_round : Round;
  rsc_max_buffered_rounds : N;
}.
Definition RoundStateConfig_default : RoundStateConfig :=
  mkRoundStateConfig GENESIS_EPOCH GENESIS_ROUND 10.

Section round_state.
Context `{CH : Chain} `{OV : OverflowMode}.

Record RoundState := mkRoundState {
  rs_epoch : Epoch;
  rs_round : Round;
  rs_proposed_block : option Blk;
  rs_quorum_cert : option QCert;
  rs_config : RoundStateConfig;
}.

Definition RoundState_new (config : RoundStateConfig) : RoundState :=
  mkRoundState (initial_epoch config) (initial_round config) None None config.

Definition set_round (round : Round) (s : RoundState) : RoundState :=
  mkRoundState (rs_epoch s) round None (rs_quorum_cert s) (rs_config s).
Definition set_epoch (epoch : Epoch) (s : RoundState) : RoundState :=
  mkRoundState epoch (initial_round (rs_config s)) None None (rs_config s).
Definition set_proposed_block (block : Blk) (s : RoundState) : RoundState :=
  mkRoundState (rs_epoch s) (rs_round s) (Some block) (rs_quorum_cert s)
    (rs_config s).
Definition set_quorum_cert (qc : QCert) (s : RoundState) : RoundState :=
  mkRoundState (rs_epoch s) (rs_round s) (rs_proposed_block s) (Some qc)
    (rs_config s).
Definition advance_round {E} : M RoundState E unit :=
  r ← gets rs_round;
  r' ← lift (add64 r 1);
  modify (λ s, mkRoundState (rs_epoch s) r' None (rs_quorum_cert s) (rs_config s)).
Definition is_current_round (round : Round) (s : RoundState) : bool :=
  rs_round s =? round.
Definition is_current_epoch (epoch : Epoch) (s : RoundState) : bool :=
  rs_epoch s =? epoch.
(** [&&] reaches the addition only for a round above the current one. *)
Definition is_buffered_round {E} (round : Round) (s : RoundState) : res E bool :=
  if rs_round s <? round
  then limit ← add64 (rs_round s) (rsc_max_buffered_rounds (rs_config s));
       Ok (round <=? limit)
  else Ok false.

Lemma advance_round_ok {E} s :
  rs_round s < u64_max →
  @advance_round E s =
    (mkRoundState (rs_epoch s) (rs_round s + 1) None (rs_quorum_cert s)
       (rs_config s), Ok tt).
Proof.
  intros. unfold advance_round. rewrite bind_gets. run.
  by rewrite add64_ok by nlia.
Qed.

(** Leaving a round by any of the three routes forgets its proposal, and only
    a change of epoch forgets the certificate. *)
Lemma leaving_round_clears s r e s' :
  rs_proposed_block (set_round r s) = None ∧
  rs_quorum_cert (set_round r s) = rs_quorum_cert s ∧
  rs_proposed_block (set_epoch e s) = None ∧ rs_quorum_cert (set_epoch e s) = None ∧
  rs_round (set_epoch e s) = initial_round (rs_config s) ∧
  (advance_round (E:=Error) s = (s', Ok tt) →
     rs_proposed_block s' = None ∧ rs_quorum_cert s' = rs_quorum_cert s).
Proof.
  split_and!; try done. unfold advance_round. rewrite bind_gets. run.
  by case_match; intros [= <-].
Qed.
Lemma is_buffered_round_ok {E} r s :
  rs_round s + rsc_max_buffered_rounds (rs_config s) ≤ u64_max →
  @is_buffered_round E r s =
    Ok (bool_decide (rs_round s < r ≤
          rs_round s + rsc_max_buffered_rounds (rs_config s))).
Proof.
  intros. unfold is_buffered_round.
  destruct (N.ltb_spec (rs_round s) r).
  - rewrite add64_ok by done. cbn. f_equal. apply eq_true_iff_eq.
    rewrite bool_decide_eq_true, N.leb_le. lia.
  - f_equal. symmetry. apply bool_decide_eq_false. lia.
Qed.
End round_state.
