(* ===== verification/Aggregator.v ===== *)
(** * [crypto/signature_aggregator.rs]: signatures and voting power *)
From S2P Require Import Prelude.
From S2P Require Import Traits.

Section aggregator.
Context `{CH : Chain} `{OV : OverflowMode} `{HO : HashOrder}.

Record SignatureAggregator := mkAggregator {
  ag_signatures : gmap VNode VSig;
  ag_voting_power : N;
  ag_signer_count : N;
}.

(** [new] and [Default]. *)
Definition aggregator_new : SignatureAggregator := mkAggregator ∅ 0 0.

(** Both counters are advanced before the insertion. *)
Definition add_signature {E} (validator_id : VNode) (signature : VSig)
    (voting_power : N) : M SignatureAggregator E unit :=
  a ← get;
  if decide (is_Some (ag_signatures a !! validator_id)) then mret tt
  else
    vp ← lift (add128 (ag_voting_power a) voting_power);
    modify (λ a, mkAggregator (ag_signatures a) vp (ag_signer_count a));;
    sc ← lift (add64 (ag_signer_count a) 1);
    modify (λ a, mkAggregator (ag_signatures a) (ag_voting_power a) sc);;
    modify (λ a, mkAggregator (<[validator_id := signature]> (ag_signatures a))
                   (ag_voting_power a) (ag_signer_count a)).

Definition signers (a : SignatureAggregator) : list VNode :=
  hm_keys (ag_signatures a).
Definition signatures (a : SignatureAggregator) : list VSig :=
  hm_values (ag_signatures a).
Definition check_quorum (a : SignatureAggregator) (verifier : Verifier) :
    res VerifyError unit :=
  check_voting_power verifier (signers a) true.
Definition aggregate (a : SignatureAggregator) (verifier : Verifier) :
    res Error VAgg :=
  aggregate_signatures verifier (signatures a).
Definition aggregator_clear (a : SignatureAggregator) : SignatureAggregator :=
  mkAggregator ∅ 0 0.
Definition has_signed (a : SignatureAggregator) (id : VNode) : bool :=
  bool_decide (is_Some (ag_signatures a !! id)).
Definition get_signature (a : SignatureAggregator) (id : VNode) : option VSig :=
  ag_signatures a !! id.

(** The loop that callers run over votes: a vote by an author the verifier
    knows is added with its power, others are skipped. *)
Fixpoint aggregate_votes {E} (verifier : Verifier) (votes : list Vot) :
    M SignatureAggregator E unit :=
  match votes with
  | [] => mret tt
  | v :: votes =>
      match get_voting_power verifier (vote_author v) with
      | Some vp => add_signature (vote_author v) (vote_signature v) vp
      | None => mret tt
      end;;
      aggregate_votes verifier votes
  end.

(** ** Invariant: the counters count the recorded signers *)

(** [known vv l]: the voters of [l] the verifier knows. *)
Definition known_authors (vv : Verifier) (l : list Vot) : gset VNode :=
  list_to_set (filter (λ a, is_Some (get_voting_power vv a)) (vote_author <$> l)).
Definition set_power (vv : Verifier) (s : gset VNode) : N :=
  power_of vv (elements s).

Definition aggregator_inv (vv : Verifier) (a : SignatureAggregator) : Prop :=
  ag_voting_power a = set_power vv (dom (ag_signatures a)) ∧
  ag_signer_count a = N.of_nat (size (ag_signatures a)).

Lemma known_authors_cons vv v l :
  known_authors vv (v :: l) =
    match get_voting_power vv (vote_author v) with
    | Some _ => {[vote_author v]} ∪ known_authors vv l
    | None => known_authors vv l
    end.
Proof.
  unfold known_authors. rewrite fmap_cons, filter_cons.
  destruct (get_voting_power vv (vote_author v)); cbn.
  - by rewrite decide_True by eauto.
  - by rewrite decide_False by (by intros [? ?]).
Qed.
Lemma elem_of_known_authors vv l x :
  x ∈ known_authors vv l ↔
    is_Some (get_voting_power vv x) ∧ ∃ v, v ∈ l ∧ vote_author v = x.
Proof.
  unfold known_authors. rewrite elem_of_list_to_set, list_elem_of_filter,
    list_elem_of_fmap. naive_solver.
Qed.
Lemma known_authors_perm vv l l' : l ≡ₚ l' → known_authors vv l = known_authors vv l'.
Proof.
  intros Hl. apply set_eq. intros x. rewrite !elem_of_known_authors.
  by setoid_rewrite Hl.
Qed.
Lemma set_power_union (vv : Verifier) (s t : gset VNode) :
  s ## t → set_power vv (s ∪ t) = set_power vv s + set_power vv t.
Proof.
  intros. unfold set_power. by rewrite elements_disj_union, power_of_app.
Qed.
Lemma set_power_singleton (vv : Verifier) a : set_power vv {[a]} = power vv a.
Proof.
  unfold set_power. rewrite elements_singleton, power_of_cons.
  unfold power_of, weight_of. cbn. rewrite sumN_nil. lia.
Qed.
Lemma set_power_overlap (vv : Verifier) (s t : gset VNode) :
  set_power vv s + set_power vv t = set_power vv (s ∪ t) + set_power vv (s ∩ t).
Proof.
  rewrite (union_difference_L s (s ∪ t)), set_power_union by set_solver.
  rewrite difference_union_distr_l_L, difference_diag_L, union_empty_l_L.
  replace t with ((t ∖ s) ∪ (s ∩ t)) at 1
    by (apply set_eq; intros x; destruct (decide (x ∈ s)); set_solver).
  rewrite set_power_union by set_solver. lia.
Qed.
Lemma set_power_mono (vv : Verifier) (s t : gset VNode) :
  s ⊆ t → set_power vv s ≤ set_power vv t.
Proof.
  intros. rewrite (union_difference_L s t), set_power_union by set_solver. lia.
Qed.

Lemma aggregator_new_inv vv : aggregator_inv vv aggregator_new.
Proof. split; [|done]. cbn. by rewrite dom_empty_L. Qed.

(** A second signature by the same validator changes nothing. *)
Lemma add_signature_duplicate {E} id sg vp a :
  is_Some (ag_signatures a !! id) → @add_signature E id sg vp a = (a, Ok tt).
Proof. intros. unfold add_signature. run. by rewrite decide_True. Qed.
(** A first one is recorded with its power. *)
Lemma add_signature_fresh {E} id sg vp a :
  ag_signatures a !! id = None →
  ag_voting_power a + vp < bound 128 → ag_signer_count a < u64_max →
  @add_signature E id sg vp a =
    (mkAggregator (<[id := sg]> (ag_signatures a)) (ag_voting_power a + vp)
       (ag_signer_count a + 1), Ok tt).
Proof.
  intros Hn Hv Hc. unfold add_signature. run.
  rewrite decide_False by (rewrite Hn; by intros [? ?]).
  unfold add128. rewrite add_w_ok by done. cbn.
  by rewrite add64_ok by nlia.
Qed.

(** Aggregating votes, within the widths of the counters: all known authors
    are recorded, once each, and the counters agree with them. *)
Lemma aggregate_votes_ok {E} vv (l : list Vot) a :
  aggregator_inv vv a →
  set_power vv (dom (ag_signatures a) ∪ known_authors vv l) < bound 128 →
  N.of_nat (size (ag_signatures a)) + N.of_nat (length l) ≤ u64_max →
  ∃ a', @aggregate_votes E vv l a = (a', Ok tt) ∧ aggregator_inv vv a' ∧
    dom (ag_signatures a') = dom (ag_signatures a) ∪ known_authors vv l.
Proof.
  revert a. induction l as [|v l IH]; intros a Hi Hp Hn.
  { exists a. split_and!; [done|done|]. unfold known_authors. cbn. set_solver. }
  cbn [aggregate_votes length] in *. rewrite known_authors_cons in *.
  destruct (get_voting_power vv (vote_author v)) as [vp|] eqn:Hvp.
  2:{ rewrite (bind_ok (mret tt) _ a a tt) by done. apply IH; [done|done|lia]. }
  destruct (ag_signatures a !! vote_author v) as [sg|] eqn:Hs.
  - assert (Hin : vote_author v ∈ dom (ag_signatures a))
      by (apply elem_of_dom; eauto).
    rewrite (bind_ok _ _ a a tt) by (apply add_signature_duplicate; eauto).
    rewrite union_assoc_L, (union_comm_L _ {[_]}) in *.
    rewrite (subseteq_union_1_L {[vote_author v]}) in * by set_solver.
    apply IH; [done|done|lia].
  - destruct Hi as [Hv Hc].
    assert (Hd : {[vote_author v]} ## dom (ag_signatures a)).
    { apply disjoint_singleton_l. by apply not_elem_of_dom. }
    assert (Hpow : set_power vv ({[vote_author v]} ∪ dom (ag_signatures a)) =
      ag_voting_power a + vp).
    { rewrite set_power_union, set_power_singleton, Hv by done. unfold power.
      rewrite Hvp. cbn. lia. }
    assert (Hle : ag_voting_power a + vp < bound 128).
    { rewrite <- Hpow. eapply N.le_lt_trans; [|exact Hp].
      apply set_power_mono. set_solver. }
    rewrite (bind_ok _ _ a _ tt) by (apply add_signature_fresh; [done|done|nlia]).
    destruct (IH (mkAggregator (<[vote_author v := vote_signature v]>
      (ag_signatures a)) (ag_voting_power a + vp) (ag_signer_count a + 1)))
      as (a' & He & Hi' & Hd').
    + split; cbn; [by rewrite dom_insert_L, Hpow|].
      rewrite map_size_insert_None by done. lia.
    + cbn. rewrite dom_insert_L. eapply N.le_lt_trans; [|exact Hp].
      apply set_power_mono. set_solver.
    + cbn. rewrite map_size_insert_None by done. lia.
    + exists a'. split_and!; [done|done|]. rewrite Hd'. cbn.
      rewrite dom_insert_L. set_solver.
Qed.

(** Whenever the loop returns normally, wrapped counters included, exactly the
    known authors have been added to the signers. *)
Lemma add_signature_dom {E} id sg vp a a' :
  @add_signature E id sg vp a = (a', Ok tt) →
  dom (ag_signatures a') = {[id]} ∪ dom (ag_signatures a).
Proof.
  unfold add_signature. rewrite bind_get. case_decide as Hd.
  - intros [= <-]. apply elem_of_dom in Hd. set_solver.
  - intros (?&_&H)%bind_lift_ok_inv. rewrite bind_modify in H.
    apply bind_lift_ok_inv in H as (?&_&H). run. simplify_eq/=.
    by rewrite dom_insert_L.
Qed.
Lemma aggregate_votes_dom {E} vv (l : list Vot) a a' :
  @aggregate_votes E vv l a = (a', Ok tt) →
  dom (ag_signatures a') = dom (ag_signatures a) ∪ known_authors vv l.
Proof.
  revert a. induction l as [|v l IH]; intros a; cbn [aggregate_votes].
  { intros [= <-]. unfold known_authors. cbn. set_solver. }
  rewrite known_authors_cons.
  intros (a1&[]&H1&H%IH)%bind_ok_inv. rewrite H.
  destruct (get_voting_power vv (vote_author v)).
  - apply add_signature_dom in H1. rewrite H1. set_solver.
  - by injection H1 as <-.
Qed.

(** What is recorded is signed: a vote of the recorded author. *)
Definition signed_by (l : list Vot) (a : SignatureAggregator) : Prop :=
  ∀ x sg, ag_signatures a !! x = Some sg →
    ∃ v, v ∈ l ∧ vote_author v = x ∧ vote_signature v = sg.
Lemma aggregate_votes_signed {E} vv (l l' : list Vot) a a' :
  l ⊆ l' → signed_by l' a → @aggregate_votes E vv l a = (a', Ok tt) → signed_by l' a'.
Proof.
  revert a. induction l as [|v l IH]; intros a Hl Hs; cbn [aggregate_votes].
  { by intros [= <-]. }
  intros (a1&[]&H1&H)%bind_ok_inv. revert H. apply IH; [set_solver|].
  destruct (get_voting_power vv (vote_author v)); [|by injection H1 as <-].
  revert H1. unfold add_signature. rewrite bind_get. case_decide; [by intros [= <-]|].
  intros (?&_&H1)%bind_lift_ok_inv. rewrite bind_modify in H1.
  apply bind_lift_ok_inv in H1 as (?&_&H1). run. simplify_eq/=.
  intros y sg. cbn. rewrite lookup_insert. case_decide as Hy; [|apply Hs].
  intros [= <-]. subst y. exists v. split; [apply Hl; left|done].
Qed.

(** The quorum check sees each recorded signer once, in some order. *)
Lemma signers_perm a : signers a ≡ₚ elements (dom (ag_signatures a)).
Proof.
  apply NoDup_Permutation; [apply hm_iter_NoDup|apply NoDup_elements|].
  intros x. unfold signers. by rewrite elem_of_hm_keys, elem_of_elements, elem_of_dom.
Qed.
Lemma check_quorum_spec `{!VerifierLaws vv} a :
  check_quorum a vv =
    if decide (quorum_voting_power vv ≤ set_power vv (dom (ag_signatures a)))
    then Ok tt
    else Err (TooLittleVotingPower (set_power vv (dom (ag_signatures a)))
                (quorum_voting_power vv)).
Proof.
  unfold check_quorum, set_power.
  rewrite check_voting_power_quorum by apply hm_iter_NoDup.
  by rewrite (power_of_perm vv _ _ (signers_perm a)).
Qed.
End aggregator.
