(* ===== verification/PendingVotes.v ===== *)
(** * [votes/pending_votes.rs]: collecting votes until a quorum

    Votes are kept per (round, block) in a map keyed by {e signature}, not by
    author; the quorum check counts each author once, the convenience methods
    count each stored vote. *)
From S2P Require Import Prelude.
From S2P Require Import Traits.
From S2P Require Import CommonTypes.
From S2P Require Import Mocks.
From S2P Require Import Aggregator.

Inductive VoteReceptionResult :=
| Accepted
| Rejected (s : VoteStatus)
| QuorumCompleted
| OldRound
| FutureRound.
#[export] Instance VoteReceptionResult_eq_dec : EqDecision VoteReceptionResult.
Proof. solve_decision. Defined.

Section pending_votes.
Context `{CH : Chain} `{OV : OverflowMode} `{HO : HashOrder}.

Record PendingVotes := mkPendingVotes {
  pv_votes : gmap (Round * VHash) (gmap VSig Vot);
  pv_current_round : Round;
  pv_max_rounds : N;
}.

Definition PendingVotes_new (max_rounds : N) : PendingVotes :=
  mkPendingVotes ∅ 0 max_rounds.

Definition retain_votes (P : Round * VHash → bool) (p : PendingVotes) :
    PendingVotes :=
  mkPendingVotes (hm_retain P (pv_votes p)) (pv_current_round p) (pv_max_rounds p).
Definition cleanup_old_votes (p : PendingVotes) : PendingVotes :=
  let cutoff_round := pv_current_round p - pv_max_rounds p in
  retain_votes (λ k, cutoff_round <=? k.1) p.
Definition pv_set_round (round : Round) (p : PendingVotes) : PendingVotes :=
  cleanup_old_votes (mkPendingVotes (pv_votes p) round (pv_max_rounds p)).
Definition remove_round (round : Round) (p : PendingVotes) : PendingVotes :=
  retain_votes (λ k, negb (k.1 =? round)) p.

(** The aggregator that the callers fill from a list of votes. *)
Definition build_aggregator {E} (verifier : Verifier) (votes : list Vot) :
    res E SignatureAggregator :=
  let '(a, r) := aggregate_votes verifier votes aggregator_new in r;; Ok a.

Definition pv_check_quorum {E} (p : PendingVotes) (key : Round * VHash)
    (verifier : Verifier) : res E bool :=
  match pv_votes p !! key with
  | Some votes =>
      a ← build_aggregator verifier (hm_values votes);
      match check_quorum a verifier with
      | Ok _ => Ok true
      | Err _ => Ok false
      | Panic => Panic
      end
  | None => Ok false
  end.

Definition add_vote {E} (vote : Vot) (verifier : Verifier) :
    M PendingVotes E VoteReceptionResult :=
  let round := vote_round vote in
  let key := (round, vote_block_id vote) in
  p ← get;
  if round <? pv_current_round p then mret OldRound
  else if decide (is_Some (pv_votes p !! key ≫= λ vs, vs !! vote_signature vote))
  then mret (Rejected VsRejected)
  else
    modify (λ p, mkPendingVotes
      (<[key := <[vote_signature vote := vote]>
                  (default ∅ (pv_votes p !! key))]> (pv_votes p))
      (pv_current_round p) (pv_max_rounds p));;
    p ← get;
    q ← lift (pv_check_quorum p key verifier);
    mret (if (q : bool) then QuorumCompleted else Accepted).

Definition get_votes (p : PendingVotes) (round : Round) (block_id : VHash) :
    list Vot :=
  match pv_votes p !! (round, block_id) with
  | Some votes => hm_values votes
  | None => []
  end.
Definition vote_count (p : PendingVotes) (round : Round) (block_id : VHash) : N :=
  match pv_votes p !! (round, block_id) with
  | Some votes => N.of_nat (size votes)
  | None => 0
  end.
Definition total_votes {E} (p : PendingVotes) : res E N :=
  sum64 ((λ votes : gmap VSig Vot, N.of_nat (size votes)) <$> hm_values (pv_votes p)).

Definition aggregated_voting_power {E} (p : PendingVotes) (round : Round)
    (block_id : VHash) (verifier : Verifier) : res E N :=
  match pv_votes p !! (round, block_id) with
  | Some votes =>
      sum128 (omap (λ v, get_voting_power verifier (vote_author v)) (hm_values votes))
  | None => Ok 0
  end.
Definition can_form_quorum {E} (p : PendingVotes) (round : Round)
    (block_id : VHash) (verifier : Verifier) : res E bool :=
  vp ← aggregated_voting_power p round block_id verifier;
  Ok (quorum_voting_power verifier <=? vp).

(** ** Invariant: a vote is stored under its own round, block and signature *)

Definition votes_at (k : Round * VHash) (vs : gmap VSig Vot) : Prop :=
  map_Forall (λ sg v, vote_signature v = sg ∧ vote_round v = k.1 ∧
                      vote_block_id v = k.2) vs.
Definition pv_inv (p : PendingVotes) : Prop := map_Forall votes_at (pv_votes p).

Lemma PendingVotes_new_inv n : pv_inv (PendingVotes_new n).
Proof. apply map_Forall_empty. Qed.
Lemma retain_votes_inv P p : pv_inv p → pv_inv (retain_votes P p).
Proof.
  intros Hp k vs. cbn. rewrite lookup_hm_retain. case_match; [apply Hp|done].
Qed.
Lemma pv_set_round_inv r p : pv_inv p → pv_inv (pv_set_round r p).
Proof. intros. by apply retain_votes_inv. Qed.

(** The map after [vote] is stored. *)
Definition insert_vote (vote : Vot) (p : PendingVotes) : PendingVotes :=
  let key := (vote_round vote, vote_block_id vote) in
  mkPendingVotes
    (<[key := <[vote_signature vote := vote]> (default ∅ (pv_votes p !! key))]>
       (pv_votes p)) (pv_current_round p) (pv_max_rounds p).
Lemma insert_vote_inv v p : pv_inv p → pv_inv (insert_vote v p).
Proof.
  intros Hp. apply map_Forall_insert_2; [|done]. apply map_Forall_insert_2; [done|].
  destruct (pv_votes p !! _) as [vs|] eqn:E; [by apply (Hp _ _ E)|apply map_Forall_empty].
Qed.

(** What [add_vote] leaves behind, whatever its outcome. *)
Lemma add_vote_state {E} v vv p :
  (@add_vote E v vv p).1 = p ∨ (@add_vote E v vv p).1 = insert_vote v p.
Proof.
  unfold add_vote. run. case_match; [by left|]. case_decide; [by left|].
  right. cbn. by repeat case_match.
Qed.
Lemma add_vote_inv {E} v vv p : pv_inv p → pv_inv (@add_vote E v vv p).1.
Proof.
  intros Hp. destruct (add_vote_state (E:=E) v vv p) as [->| ->];
    [done|by apply insert_vote_inv].
Qed.

(** ** The order of arrival *)

(** What identifies a stored vote, and whether [add_vote] would store it. *)
Definition vote_id (v : Vot) : Round * VHash * VSig :=
  (vote_round v, vote_block_id v, vote_signature v).
Definition find_vote (p : PendingVotes) (i : Round * VHash * VSig) : option Vot :=
  pv_votes p !! i.1 ≫= λ vs, vs !! i.2.
Definition fresh_vote (v : Vot) (p : PendingVotes) : bool :=
  negb (vote_round v <? pv_current_round p) &&
  bool_decide (find_vote p (vote_id v) = None).

Lemma add_vote_step {E} v vv p :
  (@add_vote E v vv p).1 = if fresh_vote v p then insert_vote v p else p.
Proof.
  unfold add_vote, fresh_vote, find_vote. run.
  destruct (vote_round v <? pv_current_round p); [done|]. cbn.
  unfold is_Some. unfold mbind. destruct (option_bind _ _ _ _) as [w|] eqn:E1.
  - rewrite decide_True by eauto. by rewrite bool_decide_eq_false_2.
  - rewrite decide_False by (by intros [? ?]). cbn. by repeat case_match.
Qed.
Lemma find_vote_insert v w p :
  vote_id v ≠ vote_id w → find_vote (insert_vote w p) (vote_id v) = find_vote p (vote_id v).
Proof.
  intros Hn. unfold find_vote, insert_vote, vote_id in *. cbn. rewrite lookup_insert.
  case_decide as Hk; [|done]. injection Hk as Hr Hb. rewrite Hr, Hb in *. cbn.
  rewrite lookup_insert_ne by congruence.
  destruct (pv_votes p !! _); cbn; [done|by rewrite lookup_empty].
Qed.
Lemma insert_vote_comm v w p :
  vote_id v ≠ vote_id w →
  insert_vote v (insert_vote w p) = insert_vote w (insert_vote v p).
Proof.
  intros Hn. unfold insert_vote, vote_id in *. cbn. f_equal.
  destruct (decide ((vote_round v, vote_block_id v) = (vote_round w, vote_block_id w)))
    as [Hk|Hk].
  - rewrite Hk, !lookup_insert_eq, !insert_insert_eq. cbn. f_equal.
    apply insert_insert_ne. congruence.
  - rewrite !lookup_insert_ne by done. by apply insert_insert_ne.
Qed.

(** Votes handed over one after the other, by list position. *)
Definition receive_all {E} (vv : Verifier) (l : list Vot) (p : PendingVotes) : PendingVotes :=
  foldl (λ p v, (@add_vote E v vv p).1) p l.
Definition store_step (p : PendingVotes) (v : Vot) : PendingVotes :=
  if fresh_vote v p then insert_vote v p else p.
Lemma receive_all_steps {E} vv l p : @receive_all E vv l p = foldl store_step p l.
Proof.
  revert p. induction l as [|v l IH]; intros p; [done|]. unfold receive_all in *. cbn.
  rewrite IH, add_vote_step. done.
Qed.
Lemma store_step_comm v w p :
  vote_id v ≠ vote_id w →
  store_step (store_step p w) v = store_step (store_step p v) w.
Proof.
  intros Hn. unfold store_step. destruct (fresh_vote w p) eqn:Hw, (fresh_vote v p) eqn:Hv;
    unfold fresh_vote in *; rewrite ?find_vote_insert, ?Hw, ?Hv by congruence;
    cbn in *; rewrite ?Hw, ?Hv; try done. by apply insert_vote_comm.
Qed.
Lemma store_steps_perm l l' p :
  NoDup (vote_id <$> l) → l ≡ₚ l' → foldl store_step p l = foldl store_step p l'.
Proof.
  intros Hd Hl. revert p Hd. induction Hl as [|v l l' _ IH|v w l|l1 l2 l3 H12 IH1 _ IH2];
    intros p Hd; [done|..].
  - apply NoDup_cons in Hd as [_ Hd]. by apply IH.
  - cbn. rewrite store_step_comm; [done|]. apply NoDup_cons in Hd as [Hn _].
    intros He. apply Hn, elem_of_cons. by left.
  - rewrite IH1 by done. apply IH2. by rewrite <- H12.
Qed.

(** ** The quorum check counts distinct known authors *)

Definition voters (vv : Verifier) (vs : gmap VSig Vot) : gset VNode :=
  known_authors vv (map_to_list vs).*2.
Lemma voters_iter vv vs : known_authors vv (hm_values vs) = voters vv vs.
Proof.
  apply set_eq. intros x. unfold voters. rewrite !elem_of_known_authors.
  unfold hm_values. by setoid_rewrite (hm_iter_perm vs).
Qed.
Lemma elem_of_voters vv vs x :
  x ∈ voters vv vs ↔
    is_Some (get_voting_power vv x) ∧ ∃ sg v, vs !! sg = Some v ∧ vote_author v = x.
Proof.
  unfold voters. rewrite elem_of_known_authors. setoid_rewrite list_elem_of_fmap.
  split.
  - intros [? (v&([sg v']&->&Hin%elem_of_map_to_list)&?)]. cbn in *. eauto 6.
  - intros [? (sg&v&Hin%elem_of_map_to_list&?)]. split; [done|].
    exists v. split; [|done]. by exists (sg, v).
Qed.
(** The widths of the aggregator's counters suffice for these votes. *)
Definition votes_fit (vv : Verifier) (vs : gmap VSig Vot) : Prop :=
  set_power vv (voters vv vs) < bound 128 ∧ N.of_nat (size vs) ≤ u64_max.

Lemma build_aggregator_ok {E} vv vs :
  votes_fit vv vs →
  ∃ a, @build_aggregator E vv (hm_values vs) = Ok a ∧ aggregator_inv vv a ∧
    dom (ag_signatures a) = voters vv vs.
Proof.
  intros [Hp Hn]. unfold build_aggregator.
  destruct (aggregate_votes_ok (E:=E) vv (hm_values vs) aggregator_new)
    as (a&He&Hi&Hd).
  - apply aggregator_new_inv.
  - cbn. by rewrite dom_empty_L, union_empty_l_L, voters_iter.
  - cbn. rewrite map_size_empty. unfold hm_values.
    rewrite length_fmap, length_hm_iter. nlia.
  - exists a. rewrite He. cbn. split_and!; [done|done|].
    rewrite Hd. cbn. by rewrite dom_empty_L, union_empty_l_L, voters_iter.
Qed.
Lemma pv_check_quorum_ok {E} `{!VerifierLaws vv} p k vs :
  pv_votes p !! k = Some vs → votes_fit vv vs →
  @pv_check_quorum E p k vv =
    Ok (bool_decide (quorum_voting_power vv ≤ set_power vv (voters vv vs))).
Proof.
  intros Hk Hf. unfold pv_check_quorum. rewrite Hk.
  destruct (build_aggregator_ok (E:=E) vv vs Hf) as (a&->&_&Hd). cbn.
  rewrite check_quorum_spec, Hd. case_decide; [by rewrite bool_decide_true|].
  by rewrite bool_decide_false.
Qed.

(** A check that passes is right even where the counters wrap. *)
Lemma pv_check_quorum_true {E} `{!VerifierLaws vv} p k :
  @pv_check_quorum E p k vv = Ok true →
  ∃ vs, pv_votes p !! k = Some vs ∧
    quorum_voting_power vv ≤ set_power vv (voters vv vs).
Proof.
  unfold pv_check_quorum. destruct (pv_votes p !! k) as [vs|]; [|done].
  unfold build_aggregator. intros H. exists vs. split; [done|].
  destruct (aggregate_votes vv (hm_values vs) aggregator_new) as [a o] eqn:Ha.
  destruct o as [[]| |]; cbn in H; [|done..].
  rewrite check_quorum_spec, (aggregate_votes_dom _ _ _ _ Ha) in H. cbn in H.
  rewrite dom_empty_L, union_empty_l_L, voters_iter in H. by case_decide.
Qed.
(** [add_vote] on every branch. *)
Lemma add_vote_effect {E} `{!VerifierLaws vv} v p :
  let k := (vote_round v, vote_block_id v) in
  let vs := default ∅ (pv_votes p !! k) in
  let vs' := <[vote_signature v := v]> vs in
  votes_fit vv vs' →
  add_vote (E:=E) v vv p =
    if decide (vote_round v < pv_current_round p) then (p, Ok OldRound)
    else if decide (is_Some (vs !! vote_signature v))
    then (p, Ok (Rejected VsRejected))
    else (insert_vote v p,
          Ok (if decide (quorum_voting_power vv ≤ set_power vv (voters vv vs'))
              then QuorumCompleted else Accepted)).
Proof.
  intros k vs vs' Hf. unfold add_vote. run. subst k.
  destruct (N.ltb_spec (vote_round v) (pv_current_round p));
    [by rewrite (decide_True (P:=vote_round v < pv_current_round p))|].
  rewrite (decide_False (P:=vote_round v < pv_current_round p)) by lia.
  assert (Hd : (pv_votes p !! (vote_round v, vote_block_id v) ≫=
    λ vs, vs !! vote_signature v) = vs !! vote_signature v).
  { unfold vs. destruct (pv_votes p !! _); cbn; [done|by rewrite lookup_empty]. }
  unfold mbind in Hd. rewrite Hd. case_decide; [done|].
  rewrite (pv_check_quorum_ok (insert_vote v p) _ vs');
    [|unfold insert_vote; cbn; by rewrite lookup_insert_eq|done].
  cbn. by repeat case_decide; repeat case_bool_decide.
Qed.

(** A voter of a stored set has a vote among those [get_votes] returns. *)
Lemma voter_vote p k vv vs x :
  pv_inv p → pv_votes p !! k = Some vs → x ∈ voters vv vs →
  ∃ v, v ∈ get_votes p k.1 k.2 ∧ vote_author v = x ∧ vote_block_id v = k.2 ∧
    vote_round v = k.1.
Proof.
  intros Hi Hk (_&sg&v&Hv&Hx)%elem_of_voters.
  destruct (Hi _ _ Hk _ _ Hv) as (_&?&?). exists v. split_and!; [|done..].
  unfold get_votes. rewrite <- surjective_pairing, Hk. unfold hm_values.
  apply list_elem_of_fmap. exists (sg, v). by rewrite elem_of_hm_iter.
Qed.

(** ** The convenience methods count stored votes *)

Definition vote_powers (vv : Verifier) (vs : gmap VSig Vot) : list N :=
  omap (λ v, get_voting_power vv (vote_author v)) (map_to_list vs).*2.
Lemma vote_powers_iter vv vs :
  omap (λ v, get_voting_power vv (vote_author v)) (hm_values vs) ≡ₚ vote_powers vv vs.
Proof. unfold vote_powers, hm_values. by rewrite (hm_iter_perm vs). Qed.
Lemma aggregated_voting_power_ok {E} p r b vv vs :
  pv_votes p !! (r, b) = Some vs → sumN (vote_powers vv vs) < bound 128 →
  @aggregated_voting_power E p r b vv = Ok (sumN (vote_powers vv vs)).
Proof.
  intros Hk Hs. unfold aggregated_voting_power. rewrite Hk, sum128_ok.
  - by rewrite vote_powers_iter.
  - by rewrite vote_powers_iter.
Qed.
Lemma omap_powers_list vv (l : list Vot) :
  set_power vv (known_authors vv l) ≤
    sumN (omap (λ v, get_voting_power vv (vote_author v)) l) ∧
  (NoDup (vote_author <$> l) →
   set_power vv (known_authors vv l) =
    sumN (omap (λ v, get_voting_power vv (vote_author v)) l)).
Proof.
  induction l as [|v l [IH1 IH2]].
  { unfold known_authors, set_power. cbn. by rewrite elements_empty. }
  rewrite known_authors_cons. cbn [omap list_omap fmap list_fmap].
  destruct (get_voting_power vv (vote_author v)) as [vp|] eqn:Hv.
  2:{ split; [done|]. by intros [_ ?]%NoDup_cons; auto. }
  rewrite sumN_cons. assert (Hp : power vv (vote_author v) = vp)
    by (unfold power; by rewrite Hv). split.
  - destruct (decide (vote_author v ∈ known_authors vv l)).
    + rewrite subseteq_union_1_L by set_solver. lia.
    + rewrite set_power_union, set_power_singleton by set_solver. lia.
  - intros [Hn Hnd]%NoDup_cons. rewrite set_power_union, set_power_singleton.
    + rewrite IH2 by done. lia.
    + apply disjoint_singleton_l. rewrite elem_of_known_authors.
      intros [_ (w&Hw&He)]. apply Hn. rewrite <- He. by apply list_elem_of_fmap_2.
Qed.
Lemma vote_powers_voters vv vs :
  set_power vv (voters vv vs) ≤ sumN (vote_powers vv vs) ∧
  (NoDup (vote_author <$> (map_to_list vs).*2) →
   set_power vv (voters vv vs) = sumN (vote_powers vv vs)).
Proof. apply omap_powers_list. Qed.
End pending_votes.

Section reachability.
Context `{CH : Chain} `{OV : OverflowMode} `{HO : HashOrder}.

(** One mutating call, the verifier and the vote arbitrary. *)
Inductive pv_step (p p' : PendingVotes) : Prop :=
| pv_step_add v vv : (add_vote (E:=Error) v vv p).1 = p' → pv_step p p'
| pv_step_set_round r : pv_set_round r p = p' → pv_step p p'
| pv_step_remove r : remove_round r p = p' → pv_step p p'.

(** No stored round is below the window, and no empty vote set is stored. *)
Definition pv_window (p : PendingVotes) : Prop :=
  map_Forall (λ k vs, pv_current_round p - pv_max_rounds p ≤ k.1 ∧ vs ≠ ∅)
    (pv_votes p).

Lemma retain_votes_window P p : pv_window p → pv_window (retain_votes P p).
Proof.
  intros Hp k vs. cbn. rewrite lookup_hm_retain. case_match; [apply Hp|done].
Qed.
Lemma insert_vote_window v p :
  pv_window p → pv_current_round p ≤ vote_round v → pv_window (insert_vote v p).
Proof.
  intros Hp Hr. apply map_Forall_insert_2; [|done]. cbn.
  split; [lia|apply insert_non_empty].
Qed.
Lemma add_vote_window {E} v vv p : pv_window p → pv_window (@add_vote _ _ _ E v vv p).1.
Proof.
  intros Hp. unfold add_vote. run.
  destruct (N.ltb_spec (vote_round v) (pv_current_round p)); [done|].
  case_decide; [done|]. pose proof (insert_vote_window v p Hp ltac:(done)).
  cbn. by repeat case_match.
Qed.
Lemma pv_set_round_window r p :
  map_Forall (λ _ vs, vs ≠ ∅) (pv_votes p) → pv_window (pv_set_round r p).
Proof.
  intros Hp k vs. cbn. rewrite lookup_hm_retain.
  destruct (N.leb_spec (r - pv_max_rounds p) k.1); [|done].
  intros Hk. split; [done|by apply (Hp k)].
Qed.

Lemma pv_step_preserves p p' :
  pv_inv p ∧ pv_window p → pv_step p p' → pv_inv p' ∧ pv_window p'.
Proof.
  intros [Hi Hw] [v vv <-|r <-|r <-].
  - split; [by apply add_vote_inv|by apply add_vote_window].
  - split; [by apply pv_set_round_inv|]. apply pv_set_round_window.
    intros k vs Hk. by apply (Hw k vs).
  - split; [by apply retain_votes_inv|by apply retain_votes_window].
Qed.
Lemma pv_reachable n p :
  rtc pv_step (PendingVotes_new n) p → pv_inv p ∧ pv_window p.
Proof.
  intros Hr. refine (rtc_invariant _ _ _ _ pv_step_preserves _ Hr).
  split; [apply PendingVotes_new_inv|apply map_Forall_empty].
Qed.
End reachability.

Section theorems.
Context `{CH : Chain} `{OV : OverflowMode} `{HO : HashOrder}.

(** Whatever sequence of [add_vote], [set_round] and [remove_round] calls
    built it, a vote store files every vote under its own round, block and
    signature, keeps no empty vote set, and holds no round older than the
    configured window below the current round. *)
Theorem pending_votes_invariant n p :
  rtc pv_step (PendingVotes_new n) p →
  ∀ k vs sg v, pv_votes p !! k = Some vs → vs !! sg = Some v →
    vote_signature v = sg ∧ vote_round v = k.1 ∧ vote_block_id v = k.2 ∧
    pv_current_round p - pv_max_rounds p ≤ k.1.
Proof.
  intros [Hi Hw]%pv_reachable k vs sg v Hk Hv. destruct (Hi k vs Hk sg v Hv) as (?&?&?).
  destruct (Hw k vs Hk) as [? _]. by split_and!.
Qed.

(** C12: [add_vote] on every branch, for any hash-map iteration order: a vote
    below the current round is ignored, a vote whose signature is already
    stored for that round and block is rejected, any other vote is stored, and
    the quorum is reported exactly when the power of the {e distinct} known
    authors of the stored votes reaches the verifier's threshold. *)
Theorem add_vote_correct {E} `{!VerifierLaws vv} v p :
  let k := (vote_round v, vote_block_id v) in
  let vs := default ∅ (pv_votes p !! k) in
  let vs' := <[vote_signature v := v]> vs in
  votes_fit vv vs' →
  add_vote (E:=E) v vv p =
    if decide (vote_round v < pv_current_round p) then (p, Ok OldRound)
    else if decide (is_Some (vs !! vote_signature v))
    then (p, Ok (Rejected VsRejected))
    else (insert_vote v p,
          Ok (if decide (quorum_voting_power vv ≤ set_power vv (voters vv vs'))
              then QuorumCompleted else Accepted)).
Proof. apply add_vote_effect. Qed.

(** C23: The order of arrival does not matter: handing over the same votes, no two
    of them with the same round, block and signature, in two different orders,
    to two stores that iterate their hash maps differently and even under
    different verifiers, leaves exactly the same votes stored, whatever the
    store held before and whatever the individual answers were. *)
Theorem arrival_order_irrelevant (HO' : HashOrder) {E} vv vv' l l' p :
  NoDup (vote_id <$> l) → l ≡ₚ l' →
  receive_all (HO:=HO) (E:=E) vv l p = receive_all (HO:=HO') (E:=E) vv' l' p.
Proof. intros Hd Hl. rewrite !receive_all_steps. by apply store_steps_perm. Qed.

(** Quorum intersection.  In a reachable store, if the quorum check passes
    for two blocks of one round, then there is a set of validators that carries
    at least twice the quorum less the total power and each of which has a
    stored vote for either block: with a quorum of more than half the power some
    validator has signed both. *)
Theorem two_quorums_overlap {E} `{!VerifierLaws vv} n p r b1 b2 all :
  rtc pv_step (PendingVotes_new n) p →
  (∀ x, is_Some (get_voting_power vv x) → x ∈ all) →
  pv_check_quorum (E:=E) p (r, b1) vv = Ok true →
  pv_check_quorum (E:=E) p (r, b2) vv = Ok true →
  ∃ both, 2 * quorum_voting_power vv ≤ set_power vv all + set_power vv both ∧
    ∀ x, x ∈ both → ∃ v1 v2,
      v1 ∈ get_votes p r b1 ∧ vote_author v1 = x ∧ vote_block_id v1 = b1 ∧
      v2 ∈ get_votes p r b2 ∧ vote_author v2 = x ∧ vote_block_id v2 = b2 ∧
      vote_round v1 = r ∧ vote_round v2 = r.
Proof.
  intros [Hi _]%pv_reachable Hall
    (vs1&H1&Hq1)%pv_check_quorum_true (vs2&H2&Hq2)%pv_check_quorum_true.
  exists (voters vv vs1 ∩ voters vv vs2). split.
  - pose proof (set_power_overlap vv (voters vv vs1) (voters vv vs2)).
    assert (Hs : voters vv vs1 ∪ voters vv vs2 ⊆ all)
      by (intros x; rewrite elem_of_union, !elem_of_voters; naive_solver).
    pose proof (set_power_mono vv _ _ Hs). lia.
  - intros x [(v1&?&?&?&?)%(voter_vote p (r, b1)) (v2&?&?&?&?)%(voter_vote p (r, b2))]%elem_of_intersection;
      [|done..]. by exists v1, v2.
Qed.

(** [can_form_quorum] counts stored votes where the quorum check counts
    authors: it is implied by the check, and the two agree when no author has
    two stored votes. *)
Theorem can_form_quorum_vs_check {E} `{!VerifierLaws vv} p r b vs :
  pv_votes p !! (r, b) = Some vs → votes_fit vv vs →
  sumN (vote_powers vv vs) < bound 128 →
  ∃ c f, pv_check_quorum (E:=E) p (r, b) vv = Ok c ∧
    can_form_quorum (E:=E) p r b vv = Ok f ∧
    (c = true → f = true) ∧
    (NoDup (vote_author <$> (map_to_list vs).*2) → c = f).
Proof.
  intros Hk Hf Hs. eexists _, _. split; [by apply pv_check_quorum_ok|].
  unfold can_form_quorum. rewrite (aggregated_voting_power_ok p r b vv vs Hk Hs). cbn.
  destruct (vote_powers_voters vv vs) as [Hle Heq]. split; [done|]. split.
  - intros Hc%bool_decide_eq_true. apply N.leb_le. lia.
  - intros Hn. rewrite (Heq Hn). apply eq_true_iff_eq.
    by rewrite bool_decide_eq_true, N.leb_le.
Qed.
End theorems.

(** ** Witnesses: four mock validators of power one, quorum three *)
Section witnesses.
Definition four : MockValidatorSet :=
  match @make_validator_set debug_build Error [1; 1; 1; 1] with
  | Ok vs => vs
  | _ => mkValidatorSet ∅ 0 0
  end.
Definition four_vv := @mock_verifier debug_build four.
Lemma four_laws : VerifierLaws four_vv.
Proof.
  apply mock_verifier_laws; [|by vm_compute].
  apply (bool_decide_unpack _). by vm_compute.
Qed.
Definition mvote (author block round sig : N) : MockVote :=
  MockVote_with_signature (mkHash author) (mkHash block) round sig.
Definition add_all (l : list MockVote) (p : @PendingVotes mock_chain) :
    @PendingVotes mock_chain :=
  foldl (λ p v, (@add_vote mock_chain debug_build canonical_order Error v four_vv p).1)
    p l.
Lemma add_all_reachable l p :
  rtc (@pv_step mock_chain debug_build canonical_order) p (add_all l p).
Proof.
  revert p. induction l as [|v l IH]; intros p; [apply rtc_refl|].
  eapply rtc_l; [|apply IH].
  by apply (@pv_step_add mock_chain debug_build canonical_order p _ v four_vv).
Qed.
Definition store_ab : @PendingVotes mock_chain :=
  add_all [mvote 0 5 1 10; mvote 1 5 1 11; mvote 2 5 1 12;
           mvote 1 6 1 21; mvote 2 6 1 22; mvote 3 6 1 23]
    (@PendingVotes_new mock_chain 10).
Definition at_key (p : @PendingVotes mock_chain) (r b : N) :
    gmap MockSignature MockVote :=
  default ∅ (@pv_votes mock_chain p !! (r, mkHash b)).

Lemma pending_votes_invariant_witness :
  ∃ v, at_key store_ab 1 5 !! mkSig 11 = Some v ∧ mv_signature v = mkSig 11 ∧
    mv_round v = 1.
Proof.
  destruct (at_key store_ab 1 5 !! mkSig 11) as [v|] eqn:Hv;
    [|by vm_compute in Hv]. exists v. split; [done|].
  destruct (@pending_votes_invariant mock_chain debug_build canonical_order 10
    store_ab) with (k := (1, mkHash 5)) (vs := at_key store_ab 1 5)
    (sg := mkSig 11) (v := v) as (?&?&_); [|by vm_compute|done|by split].
  apply add_all_reachable.
Defined.

Lemma add_vote_correct_witness :
  (@add_vote mock_chain debug_build reversed_order Error (mvote 3 5 1 13) four_vv
     (add_all [mvote 0 5 1 10; mvote 1 5 1 11] (@PendingVotes_new mock_chain 10))).2
  = Ok QuorumCompleted.
Proof.
  pose proof four_laws.
  rewrite (@add_vote_correct mock_chain debug_build reversed_order Error four_vv _
    (mvote 3 5 1 13)); [by vm_compute|split; by vm_compute].
Defined.

Lemma arrival_order_irrelevant_witness :
  let l := [mvote 0 5 1 10; mvote 1 6 1 11; mvote 2 5 2 12; mvote 3 5 1 13] in
  @receive_all mock_chain debug_build canonical_order Error four_vv l
    (@PendingVotes_new mock_chain 10) =
  @receive_all mock_chain debug_build reversed_order Error four_vv (reverse l)
    (@PendingVotes_new mock_chain 10).
Proof.
  intros l. apply (@arrival_order_irrelevant mock_chain debug_build canonical_order
    reversed_order Error four_vv four_vv l (reverse l)).
  - apply (bool_decide_unpack _). by vm_compute.
  - symmetry. apply reverse_Permutation.
Defined.

Lemma two_quorums_overlap_witness :
  ∃ both, 2 * 3 ≤ 4 + @set_power mock_chain four_vv both ∧
    ∀ x, x ∈ both → ∃ v1 v2,
      v1 ∈ @get_votes mock_chain canonical_order store_ab 1 (mkHash 5) ∧
      v2 ∈ @get_votes mock_chain canonical_order store_ab 1 (mkHash 6) ∧
      mv_author v1 = x ∧ mv_author v2 = x.
Proof.
  pose proof four_laws.
  destruct (@two_quorums_overlap mock_chain debug_build canonical_order Error
    four_vv _ 10 store_ab 1 (mkHash 5) (mkHash 6) (dom (mvs_validators four)))
    as (both&Hp&Hb).
  - apply add_all_reachable.
  - intros x Hx. apply elem_of_dom. by apply fmap_is_Some in Hx.
  - by vm_compute.
  - by vm_compute.
  - exists both. split; [exact Hp|]. intros x Hx.
    destruct (Hb x Hx) as (v1&v2&?&?&_&?&?&_). by exists v1, v2.
Defined.

(** One validator, two signatures: its power is counted twice by
    [can_form_quorum], once by the quorum check. *)
Definition store_dup : @PendingVotes mock_chain :=
  add_all [mvote 0 5 1 10; mvote 1 5 1 11; mvote 1 5 1 99]
    (@PendingVotes_new mock_chain 10).
Lemma can_form_quorum_vs_check_witness :
  @can_form_quorum mock_chain debug_build canonical_order Error store_dup 1
    (mkHash 5) four_vv = Ok true ∧
  @pv_check_quorum mock_chain debug_build canonical_order Error store_dup
    (1, mkHash 5) four_vv = Ok false.
Proof.
  pose proof four_laws.
  destruct (@can_form_quorum_vs_check mock_chain debug_build canonical_order Error
    four_vv _ store_dup 1 (mkHash 5) (at_key store_dup 1 5))
    as (c&f&Hc&Hf&Himp&_); [by vm_compute|split; by vm_compute|by vm_compute|].
  split; [|by vm_compute]. rewrite Hf. by vm_compute in Hf; simplify_eq.
Defined.
End witnesses.
