(* ===== verification/RoundManager.v ===== *)
(** * [round_manager/mod.rs]: the round-based consensus state machine

    The manager owns the round state, the pending votes and the safety rules.
    It is generic over an implementation of the [SafetyRules] trait; its
    client-facing results are proved for the crate's 2-chain rules. *)
From S2P Require Import Prelude.
From S2P Require Import Traits.
From S2P Require Import CommonTypes.
From S2P Require Import SafetyStateData.
From S2P Require Import Timeout.
From S2P Require Import Mocks.
From S2P Require Import TwoChain.
From S2P Require Import RoundState.
From S2P Require Import Aggregator.
From S2P Require Import PendingVotes.

Record RoundManagerConfig := mkRoundManagerConfig {
  rmc_max_buffered_rounds : N;
  rmc_round_timeout_ms : N;
  rmc_max_pending_votes : N;
}.
Definition RoundManagerConfig_default : RoundManagerConfig :=
  mkRoundManagerConfig 10 5000 1000.

(** [ProposalProcessingResult]. *)
Inductive ProposalProcessingResult :=
| PpAccepted
| PpRejected (reason : string)
| PpOldRound
| PpFutureRound.
#[export] Instance ProposalProcessingResult_eq_dec : EqDecision ProposalProcessingResult.
Proof. solve_decision. Defined.

Section round_manager.
Context `{CH : Chain} `{OV : OverflowMode} `{HO : HashOrder}.
Context {SR St TC : Type} `{SSt : !SafetyState St}
  `{SRI : !SafetyRules SR St TC Blk QCert BHash}.

Record RoundManager := mkRoundManager {
  rm_round_state : RoundState;
  rm_pending_votes : PendingVotes;
  rm_safety_rules : SR;
  rm_config : RoundManagerConfig;
}.
Definition upd_round_state (x : RoundState) (m : RoundManager) : RoundManager :=
  mkRoundManager x (rm_pending_votes m) (rm_safety_rules m) (rm_config m).
Definition upd_pending_votes (x : PendingVotes) (m : RoundManager) : RoundManager :=
  mkRoundManager (rm_round_state m) x (rm_safety_rules m) (rm_config m).
Definition upd_safety_rules (x : SR) (m : RoundManager) : RoundManager :=
  mkRoundManager (rm_round_state m) (rm_pending_votes m) x (rm_config m).

Abbreviation RM := (M RoundManager Error).
Definition on_round_state {A} (m : M RoundState Error A) : RM A :=
  zoom rm_round_state upd_round_state m.
Definition on_pending_votes {A} (m : M PendingVotes Error A) : RM A :=
  zoom rm_pending_votes upd_pending_votes m.
Definition on_safety_rules {A} (m : M SR Error A) : RM A :=
  zoom rm_safety_rules upd_safety_rules m.

(** [new]: epoch and round start at 0 whatever the configuration. *)
Definition RoundManager_new (config : RoundManagerConfig) (safety_rules : SR) :
    RoundManager :=
  mkRoundManager
    (RoundState_new (mkRoundStateConfig 0 0 (rmc_max_buffered_rounds config)))
    (PendingVotes_new (rmc_max_buffered_rounds config))
    safety_rules config.

Definition rm_epoch (m : RoundManager) : Epoch := rs_epoch (rm_round_state m).
Definition rm_round (m : RoundManager) : Round := rs_round (rm_round_state m).

(** A use of the [&mut] that the accessor returns: [f] is what the borrower does to
    the rules. *)
Definition safety_rules_mut (f : SR → SR) : RM unit := on_safety_rules (modify f).

Definition try_vote_for_proposal (proposal : Blk) (timeout_cert : option TC) :
    RM unit :=
  let proposal_round := block_round proposal in
  lv ← gets (λ m, ss_last_voted_round (sr_state (rm_safety_rules m)));
  if proposal_round <? lv
  then throw (Msg "Cannot vote for round {}: already voted in round {}"
                [DNum proposal_round; DNum lv])
  else
    sr ← gets rm_safety_rules;
    lift (sr_safe_to_vote sr proposal timeout_cert);;
    on_safety_rules (sr_record_vote proposal_round).

(** The verifier argument of the source is unused. *)
Definition process_proposal (proposal : Blk) : RM ProposalProcessingResult :=
  let proposal_round := block_round proposal in
  rs ← gets rm_round_state;
  if negb (is_current_round proposal_round rs) then
    if proposal_round <? rs_round rs then mret PpOldRound else mret PpFutureRound
  else
    lift (block_verify_signature proposal);;
    on_round_state (modify (set_proposed_block proposal));;
    mret PpAccepted.

Definition form_quorum_certificate_for_block (block_id : VHash) (round : Round)
    (verifier : Verifier) : RM unit :=
  votes ← gets (λ m, get_votes (rm_pending_votes m) round block_id);
  aggregator ← lift (build_aggregator verifier votes);
  lift (map_err FromVerify (check_quorum aggregator verifier));;
  aggregated_sig ← lift (aggregate aggregator verifier);
  qc ← lift (qc_from_votes votes aggregated_sig);
  on_safety_rules (sr_observe_qc qc);;
  on_round_state (modify (set_quorum_cert qc));;
  on_pending_votes (modify (remove_round round)).

Definition process_vote (vote : Vot) (verifier : Verifier) :
    RM VoteReceptionResult :=
  lift (vote_verify vote verifier);;
  rs ← gets rm_round_state;
  if negb (is_current_epoch (li_epoch (vote_ledger_info vote)) rs)
  then mret (Rejected VsRejected)
  else
    result ← on_pending_votes (add_vote vote verifier);
    (if decide (result = QuorumCompleted)
     then form_quorum_certificate_for_block (vote_block_id vote)
            (vote_round vote) verifier
     else mret tt);;
    mret result.

Definition has_quorum_certificate (m : RoundManager) (block_id : VHash)
    (round : Round) : bool :=
  (vote_count (rm_pending_votes m) round block_id =? 0) && (round <? rm_round m).

Definition process_timeout (reason : TimeoutReason) : RM unit :=
  current_round ← gets rm_round;
  qc_round ← gets (λ m, ss_one_chain_round (sr_state (rm_safety_rules m)));
  sr ← gets rm_safety_rules;
  next ← lift (add64 current_round 1);
  lift (map_err (Caused "Not safe to timeout: {}")
          (sr_safe_to_timeout sr next qc_round None));;
  on_safety_rules (modify (sr_record_timeout current_round));;
  on_round_state advance_round;;
  r ← gets rm_round;
  on_pending_votes (modify (pv_set_round r)).

Definition start_round (round : Round) : RM unit :=
  on_round_state (modify (set_round round));;
  on_pending_votes (modify (pv_set_round round)).
End round_manager.
#[global] Arguments RoundManager {CH} SR.

(** ** With the 2-chain rules *)
Section two_chain.
Context `{CH : Chain} `{OV : OverflowMode} `{HO : HashOrder}.
Abbreviation Mgr := (RoundManager TwoChainSafetyRules).
Abbreviation TC := (TwoChainTimeoutCertificate BSig).
Implicit Types m : Mgr.

Definition mgr_safety m : SafetyStateData := state (rm_safety_rules m).

(** A failed or accepted vote attempt, in one equation. *)
Lemma try_vote_effect p (tc : option TC) m :
  try_vote_for_proposal p tc m =
    if decide (block_round p < last_voted_round (mgr_safety m))
    then (m, Err (Msg "Cannot vote for round {}: already voted in round {}"
               [DNum (block_round p); DNum (last_voted_round (mgr_safety m))]))
    else match safe_to_vote (rm_safety_rules m) p tc with
         | Ok _ => (upd_safety_rules (mkRules (set_last_voted_round (block_round p)
                                                 (mgr_safety m))) m, Ok tt)
         | Err e => (m, Err e)
         | Panic => (m, Panic)
         end.
Proof.
  unfold mgr_safety, try_vote_for_proposal. rewrite bind_gets. cbn.
  destruct (N.ltb_spec (block_round p) (last_voted_round (state (rm_safety_rules m)))).
  { by rewrite decide_True. }
  rewrite decide_False by lia. rewrite bind_gets. run.
  destruct (safe_to_vote _ _ _) as [[]| |]; [|done..].
  unfold on_safety_rules. run. rewrite record_vote_effect. cbn.
  by rewrite decide_False by lia.
Qed.

(** A timeout goes through in the round of the highest known QC, *)
Lemma process_timeout_ok reason m :
  rm_round m < u64_max → one_chain_round (mgr_safety m) = rm_round m →
  process_timeout reason m =
    (mkRoundManager
       (mkRoundState (rs_epoch (rm_round_state m)) (rm_round m + 1) None
          (rs_quorum_cert (rm_round_state m)) (rs_config (rm_round_state m)))
       (pv_set_round (rm_round m + 1) (rm_pending_votes m))
       (record_timeout (rm_round m) (rm_safety_rules m)) (rm_config m), Ok tt).
Proof.
  destruct m as [[ep rd pb qc cf] pv [s] c]. unfold rm_round, mgr_safety. cbn.
  intros Hr Heq. unfold process_timeout. rewrite !bind_gets. run.
  unfold rm_round. cbn. rewrite add64_ok by nlia. cbn.
  unfold safe_to_timeout, safe_to_timeout_impl. cbn.
  rewrite Heq, next_round_ok by done. cbn. rewrite N.eqb_refl. cbn.
  rewrite N.leb_refl. cbn.
  unfold on_safety_rules, on_round_state, on_pending_votes.
  run. unfold advance_round. run. by rewrite add64_ok by nlia.
Qed.
(** and in no other round: the call is refused and nothing changes. *)
Lemma process_timeout_refused reason m :
  rm_round m < u64_max → is_u64 (one_chain_round (mgr_safety m)) →
  one_chain_round (mgr_safety m) ≠ rm_round m →
  ∃ e, process_timeout reason m = (m, Err e).
Proof.
  destruct m as [[ep rd pb qc cf] pv [s] c]. unfold rm_round, mgr_safety. cbn.
  intros Hr Hu Hne. unfold process_timeout. rewrite !bind_gets. run.
  unfold rm_round. cbn. rewrite add64_ok by nlia. cbn.
  unfold safe_to_timeout, safe_to_timeout_impl. cbn.
  destruct (decide (one_chain_round s = u64_max)) as [E|E].
  { rewrite next_round_max by lia. cbn. eauto. }
  rewrite next_round_ok by nlia. cbn.
  destruct (N.eqb_spec (rd + 1) (one_chain_round s + 1)); [lia|]. cbn. eauto.
Qed.

(** In the last round the addition overflows, or wraps to round 0, which follows
    no certificate. *)
Lemma process_timeout_max reason m :
  rm_round m = u64_max → is_u64 (one_chain_round (mgr_safety m)) →
  (overflow_checks = true ∧ process_timeout reason m = (m, Panic)) ∨
  (overflow_checks = false ∧ ∃ e, process_timeout reason m = (m, Err e)).
Proof.
  destruct m as [[ep rd pb qc cf] pv [s] c]. unfold rm_round, mgr_safety. cbn.
  intros -> Hu. unfold process_timeout. rewrite !bind_gets. run. unfold rm_round. cbn.
  rewrite succ64_max.
  destruct overflow_checks; [by left|]. right. split; [done|]. cbn.
  unfold safe_to_timeout, safe_to_timeout_impl. cbn.
  destruct (decide (one_chain_round s = u64_max)) as [E|E].
  { rewrite next_round_max by lia. cbn. eauto. }
  rewrite next_round_ok by nlia. cbn.
  destruct (one_chain_round s + 1) eqn:Hs; [lia|]. cbn. eauto.
Qed.

(** The receiver of a QC. *)
Lemma on_safety_rules_frame {A} (x : M TwoChainSafetyRules Error A) m m' r :
  on_safety_rules x m = (m', r) →
  rm_round_state m' = rm_round_state m ∧ rm_pending_votes m' = rm_pending_votes m ∧
  rm_config m' = rm_config m.
Proof. unfold on_safety_rules, zoom. destruct (x _). by intros [= <- <-]. Qed.
End two_chain.

(** ** Calls on a manager *)
Section calls.
Context `{CH : Chain} `{OV : OverflowMode} `{HO : HashOrder}.
Abbreviation Mgr := (RoundManager TwoChainSafetyRules).
Abbreviation TC := (TwoChainTimeoutCertificate BSig).
Implicit Types m : Mgr.

(** Calls on the rules, one after the other. *)
Definition rules_run (r r' : TwoChainSafetyRules) : Prop :=
  rtc (λ r1 r2, ∃ c, (run_call c r1).1 = r2) r r'.

(** The public calls.  [CallRules] is a use of [safety_rules_mut]: the borrower
    may leave any rules whatever. *)
Inductive MgrCall :=
| CallTryVote (p : Blk) (tc : option TC)
| CallProposal (p : Blk)
| CallVote (v : Vot) (vv : Verifier)
| CallTimeout (reason : TimeoutReason)
| CallStartRound (r : Round)
| CallRules (f : TwoChainSafetyRules → TwoChainSafetyRules).
Definition run_mgr (c : MgrCall) : M Mgr Error unit :=
  match c with
  | CallTryVote p tc => try_vote_for_proposal p tc
  | CallProposal p => process_proposal p;; mret tt
  | CallVote v vv => process_vote v vv;; mret tt
  | CallTimeout reason => process_timeout reason
  | CallStartRound r => start_round r
  | CallRules f => safety_rules_mut f
  end.
Definition mgr_step m m' : Prop := ∃ c, (run_mgr c m).1 = m'.

(** A call whose use of the borrowed rules, if it is one, only calls their
    methods. *)
Definition respects_rules (c : MgrCall) : Prop :=
  match c with CallRules f => ∀ r, rules_run r (f r) | _ => True end.
Definition mgr_step_respecting m m' : Prop :=
  ∃ c, respects_rules c ∧ (run_mgr c m).1 = m'.

(** Between calls the vote store's round is the manager's, the epoch is the
    one the manager was created with, a proposal on file belongs to the
    current round, votes are filed correctly. *)
Definition mgr_inv m : Prop :=
  pv_current_round (rm_pending_votes m) = rm_round m ∧ pv_inv (rm_pending_votes m) ∧
  ∀ b, rs_proposed_block (rm_round_state m) = Some b → block_round b = rm_round m.
(** What a call may change, but for the rules, *)
Definition mgr_shape m m' : Prop :=
  (mgr_inv m → mgr_inv m') ∧ rs_epoch (rm_round_state m') = rs_epoch (rm_round_state m).
#[export] Instance mgr_shape_preorder : PreOrder mgr_shape.
Proof. split; [by intros m|]. intros m1 m2 m3 [H1 E1] [H2 E2]. split; [auto|congruence]. Qed.
(** and with the rules respected. *)
Definition mgr_frame m m' : Prop :=
  (mgr_inv m → mgr_inv m') ∧ le_safety (mgr_safety m) (mgr_safety m') ∧
  rs_epoch (rm_round_state m') = rs_epoch (rm_round_state m).
#[export] Instance mgr_frame_preorder : PreOrder mgr_frame.
Proof.
  split; [by intros m; split_and!|]. intros m1 m2 m3 (H1&L1&E1) (H2&L2&E2).
  split_and!; [auto|by etrans|congruence].
Qed.

Lemma on_safety_rules_preserves {A} (x : M TwoChainSafetyRules Error A) :
  preserves rules_le x → preserves mgr_frame (on_safety_rules x).
Proof.
  intros Hx. eapply preserves_zoom; [exact Hx|]. intros m r Hr. by split_and!.
Qed.
Lemma add_vote_frame v vv m :
  mgr_frame m (on_pending_votes (add_vote (E:=Error) v vv) m).1.
Proof.
  unfold on_pending_votes, zoom.
  destruct (add_vote v vv (rm_pending_votes m)) as [p' r] eqn:E. cbn.
  split_and!; [|done|done]. intros (Hr&Hi&Hb).
  destruct (add_vote_state (E:=Error) v vv (rm_pending_votes m)) as [Hs|Hs];
    rewrite E in Hs; cbn in Hs; subst p'; split_and!; try done.
  by apply insert_vote_inv.
Qed.
Lemma form_qc_preserves b r vv :
  preserves mgr_frame (form_quorum_certificate_for_block (SR:=TwoChainSafetyRules) b r vv).
Proof.
  unfold form_quorum_certificate_for_block. frame.
  - apply on_safety_rules_preserves, observe_qc_le.
  - by intros m; split_and!.
  - intros m. split_and!; [|done|done]. intros (?&?&?).
    split_and!; [done|by apply retain_votes_inv|done].
Qed.

Lemma rules_run_le r r' : rules_run r r' → rules_le r r'.
Proof. induction 1 as [|r1 r2 r3 [c <-] _ IH]; [done|]. etrans; [apply run_call_le|done]. Qed.
Lemma call_rules_frame f m :
  (∀ r, rules_run r (f r)) → mgr_frame m (upd_safety_rules (f (rm_safety_rules m)) m).
Proof. intros Hf. split_and!; [done|apply rules_run_le, Hf|done]. Qed.

#[local] Opaque form_quorum_certificate_for_block.
Lemma run_mgr_preserves c : respects_rules c → preserves mgr_frame (run_mgr c).
Proof.
  intros Hresp. destruct c as [p tc|p|v vv|reason|r|f]; cbn [run_mgr].
  - intros m. rewrite try_vote_effect. case_decide; [done|].
    destruct (safe_to_vote _ _ _) as [[]| |]; cbn; [|done..].
    split_and!; [done| |done]. apply set_last_voted_le. lia.
  - intros m. unfold process_proposal, is_current_round. run.
    destruct (N.eqb_spec (rs_round (rm_round_state m)) (block_round p)) as [Hc|];
      cbn; [|by destruct (block_round p <? _)].
    destruct (block_verify_signature p); cbn; [|done..].
    split_and!; [|done|done]. intros (?&?&?). split_and!; [done|done|].
    cbn. by intros b [= <-].
  - unfold process_vote. frame.
    + intros m. apply add_vote_frame.
    + apply form_qc_preserves.
  - intros m. unfold process_timeout. run.
    destruct (add64 (rm_round m) 1) as [nx| |] eqn:Hn; cbn; [|done..].
    destruct (safe_to_timeout _ _ _ _) as [[]| |]; cbn; [|done..].
    unfold on_safety_rules, on_round_state, on_pending_votes, advance_round. run.
    destruct (add64 (rs_round (rm_round_state m)) 1) as [r'| |] eqn:Hr; cbn;
      [|by split_and!; [|apply record_timeout_le|]..].
    split_and!; [|apply record_timeout_le|done]. intros (?&?&?).
    split_and!; [done|by apply pv_set_round_inv|done].
  - intros m. split_and!; [|done|done]. intros (?&?&?).
    split_and!; [done|by apply pv_set_round_inv|done].
  - intros m. by apply call_rules_frame.
Qed.
Lemma run_mgr_shape c : preserves mgr_shape (run_mgr c).
Proof.
  intros m. assert (Hs : respects_rules c → mgr_shape m (run_mgr c m).1).
  { intros Hc. by destruct (run_mgr_preserves c Hc m) as (?&_&?). }
  destruct c; [by apply Hs..|by split].
Qed.
Lemma mgr_respecting_frame m m' : rtc mgr_step_respecting m m' → mgr_frame m m'.
Proof.
  induction 1 as [|? ? ? [call [Hc <-]] _ IH]; [done|].
  etrans; [by apply run_mgr_preserves|done].
Qed.
Lemma mgr_reachable_shape m m' : rtc mgr_step m m' → mgr_shape m m'.
Proof.
  induction 1 as [|? ? ? [call <-] _ IH]; [done|]. etrans; [apply run_mgr_shape|done].
Qed.
Lemma RoundManager_new_inv c (r : TwoChainSafetyRules) :
  mgr_inv (RoundManager_new c r).
Proof. split_and!; [done|apply PendingVotes_new_inv|done]. Qed.
End calls.

Section theorems.
Context `{CH : Chain} `{OV : OverflowMode} `{HO : HashOrder}.
Abbreviation Mgr := (RoundManager TwoChainSafetyRules).
Abbreviation TC := (TwoChainTimeoutCertificate BSig).
Implicit Types m : Mgr.

(** C18: From a new manager, through any public calls, uses of [safety_rules_mut]
    that leave any rules whatever included, and whatever their outcomes: the vote
    store is in the manager's round, a proposal on file belongs to the current
    round, and the epoch is 0 for ever, the initial epoch the constructor
    hard-codes.  From any such state on, no round of the safety state decreases
    as long as the uses of [safety_rules_mut] only call the methods of the
    rules; replacing the rules through it can lower every round. *)
Theorem round_manager_invariant c r m :
  rtc mgr_step (RoundManager_new c r) m →
  rm_epoch m = 0 ∧
  pv_current_round (rm_pending_votes m) = rm_round m ∧
  (∀ b, rs_proposed_block (rm_round_state m) = Some b → block_round b = rm_round m) ∧
  (∀ m', rtc mgr_step_respecting m m' → le_safety (mgr_safety m) (mgr_safety m')) ∧
  (∀ s, ∃ m', mgr_step m m' ∧ mgr_safety m' = s).
Proof.
  intros [Hi He]%mgr_reachable_shape.
  destruct (Hi (RoundManager_new_inv c r)) as (?&_&?). split_and!; [done..| |].
  - by intros m' (_&?&_)%mgr_respecting_frame.
  - intros s. eexists. split; [by exists (CallRules (λ _, mkRules s))|done].
Qed.

(** [try_vote_for_proposal] accepts exactly the non-zero rounds that are
    not below the last voted one (and, with a TC, a TC round short of
    [u64::MAX]); it then records the round and touches nothing else, and a
    refused attempt changes nothing at all. *)
Theorem try_vote_correct p (tc : option TC) m :
  is_u64 (block_round p) → (∀ c, tc = Some c → is_u64 (tcc_round c)) →
  let ok := last_voted_round (mgr_safety m) ≤ block_round p ∧ block_round p ≠ 0 ∧
            ∀ c, tc = Some c → tcc_round c < u64_max in
  (ok → try_vote_for_proposal p tc m =
      (upd_safety_rules (mkRules (set_last_voted_round (block_round p)
         (mgr_safety m))) m, Ok tt)) ∧
  (¬ ok → ∃ e, try_vote_for_proposal p tc m = (m, Err e)).
Proof.
  intros Hb Ht. cbn. rewrite try_vote_effect.
  assert (Hs : safe_to_vote (rm_safety_rules m) p tc = Ok tt ∨
    ∃ e, safe_to_vote (rm_safety_rules m) p tc = Err e).
  { unfold safe_to_vote, safe_to_vote_impl, next_round. run.
    destruct tc; repeat case_match; simplify_eq/=; eauto. }
  pose proof (safe_to_vote_ok_iff (rm_safety_rules m) p tc Hb Ht) as Hok.
  case_decide.
  - split; [intros [? _]; lia|eauto].
  - split.
    + intros (_&?&?). by rewrite (proj2 Hok).
    + intros Hn. destruct Hs as [Hs|[e ->]]; [|eauto].
      destruct Hn. split; [lia|by apply Hok].
Qed.

(** Recording a vote does not exclude a second one in the same round: after
    a vote for a proposal has been accepted, any other proposal of that round,
    extending whatever parent, is accepted as well. *)
Theorem second_vote_same_round_accepted p1 p2 m m' :
  is_u64 (block_round p1) → block_round p2 = block_round p1 →
  try_vote_for_proposal p1 (None : option TC) m = (m', Ok tt) →
  try_vote_for_proposal p2 (None : option TC) m' = (m', Ok tt).
Proof.
  intros Hu Heq. rewrite !try_vote_effect, Heq. case_decide as Hlt; [done|].
  assert (Hz : safe_to_vote (rm_safety_rules m) p1 None = Ok tt →
    ∀ r, safe_to_vote r p2 None = Ok tt).
  { intros Hs r. unfold safe_to_vote in *. by rewrite Heq. }
  destruct (safe_to_vote (rm_safety_rules m) p1 None) as [[]| |]; [|done..].
  intros [= <-].
  rewrite decide_False by (unfold mgr_safety; cbn; lia). by rewrite Hz.
Qed.

(** C25: A timeout succeeds exactly in the round of the highest QC, unless that is
    [u64::MAX]; it then moves to the next round, records the timed-out round,
    clears the proposal and prunes the vote store.  In every other state it
    changes nothing: it is an error, except in round [u64::MAX] of a build with
    overflow checks, where it panics. *)
Theorem process_timeout_correct reason m :
  is_u64 (rm_round m) → is_u64 (one_chain_round (mgr_safety m)) →
  let '(m', r) := process_timeout reason m in
  (r = Ok tt ↔ one_chain_round (mgr_safety m) = rm_round m ∧ rm_round m < u64_max) ∧
  (r = Ok tt → rm_round m' = rm_round m + 1 ∧
     highest_timeout_round (mgr_safety m') =
       highest_timeout_round (mgr_safety m) `max` rm_round m ∧
     rs_proposed_block (rm_round_state m') = None ∧
     rm_pending_votes m' = pv_set_round (rm_round m + 1) (rm_pending_votes m)) ∧
  (r ≠ Ok tt → m' = m) ∧
  (r = Panic ↔ rm_round m = u64_max ∧ overflow_checks = true).
Proof.
  intros Hm Hu. destruct (decide (rm_round m < u64_max)) as [Hr|Hr].
  2: { destruct (process_timeout_max reason m) as [[Hc ->]|[Hc [e ->]]]; [nlia|done|..];
       rewrite Hc; (split_and!; [naive_solver lia|done|done|]); split; try done; nlia. }
  destruct (decide (one_chain_round (mgr_safety m) = rm_round m)).
  - rewrite process_timeout_ok by done. split_and!; [done| |done|].
    2: { split; [done|]. intros [? _]. lia. }
    intros _. split_and!; [done| |done|done]. unfold mgr_safety.
    cbn [rm_safety_rules]. by rewrite record_timeout_effect.
  - destruct (process_timeout_refused reason m Hr Hu n) as [e ->].
    split_and!; [naive_solver|done|done|]. split; [done|]. intros [? _]. lia.
Qed.

(** Timeouts never chain: after a successful timeout, with no certificate
    in between, the next timeout is always refused. *)
Theorem second_timeout_refused reason1 reason2 m m' :
  rm_round m + 1 < u64_max → is_u64 (one_chain_round (mgr_safety m)) →
  process_timeout reason1 m = (m', Ok tt) →
  ∃ e, process_timeout reason2 m' = (m', Err e).
Proof.
  intros Hr Hu Ht.
  destruct (decide (one_chain_round (mgr_safety m) = rm_round m)) as [E|E].
  - rewrite process_timeout_ok in Ht by (done || lia). simplify_eq.
    assert (Ho : one_chain_round (state (record_timeout (rm_round m)
      (rm_safety_rules m))) = rm_round m)
      by (rewrite record_timeout_effect; exact E).
    apply process_timeout_refused; unfold mgr_safety; cbn [rm_safety_rules];
      rewrite ?Ho; unfold rm_round in *; cbn; nlia.
  - destruct (process_timeout_refused reason1 m ltac:(lia) Hu E) as [e He].
    by rewrite He in Ht.
Qed.

(** When [process_vote] reports a completed quorum, a certificate built
    from the stored votes has been handed to the safety rules and kept as the
    current one, all votes of that round have been dropped, and round, epoch
    and proposal are untouched. *)
Theorem quorum_forms_certificate v vv m m' :
  process_vote v vv m = (m', Ok QuorumCompleted) →
  ∃ votes sg qc, qc_from_votes votes sg = Ok qc ∧
    rs_quorum_cert (rm_round_state m') = Some qc ∧
    observe_qc qc (rm_safety_rules m) = (rm_safety_rules m', Ok tt) ∧
    (∀ b, pv_votes (rm_pending_votes m') !! (vote_round v, b) = None) ∧
    rm_round m' = rm_round m ∧ rm_epoch m' = rm_epoch m ∧
    rs_proposed_block (rm_round_state m') = rs_proposed_block (rm_round_state m).
Proof.
  unfold process_vote. intros ([]&_&H)%bind_lift_ok_inv.
  rewrite bind_gets in H. destruct (negb _); [done|].
  apply bind_ok_inv in H as (m2&r&Hadd&H).
  apply bind_ok_inv in H as (m3&[]&Hform&H). unfold mret, M_ret in H.
  simplify_eq. rewrite decide_True in Hform by done.
  assert (Hm2 : rm_round_state m2 = rm_round_state m ∧
    rm_safety_rules m2 = rm_safety_rules m).
  { revert Hadd. unfold on_pending_votes, zoom. destruct (add_vote _ _ _).
    by intros [= <- _]. }
  destruct Hm2 as [Hrs Hsr].
  unfold form_quorum_certificate_for_block in Hform. rewrite bind_gets in Hform.
  apply bind_lift_ok_inv in Hform as (ag&_&Hform).
  apply bind_lift_ok_inv in Hform as ([]&_&Hform).
  apply bind_lift_ok_inv in Hform as (sg&_&Hform).
  apply bind_lift_ok_inv in Hform as (qc&Hqc&Hform).
  apply bind_ok_inv in Hform as (m4&[]&Hob&Hform).
  eexists _, sg, qc. rewrite <- Hsr. unfold rm_round, rm_epoch. rewrite <- Hrs.
  unfold on_safety_rules, on_round_state, on_pending_votes in *. run.
  destruct (observe_qc qc (rm_safety_rules m2)) as [r' o] eqn:Ho.
  simplify_eq/=. split_and!; try done. intros b.
  rewrite lookup_hm_retain. cbn. by rewrite N.eqb_refl.
Qed.
End theorems.

(** ** Witnesses: a manager of the mock chain in the checked build profile *)
Section witnesses.
Abbreviation MM := (@RoundManager mock_chain TwoChainSafetyRules).
Abbreviation at_mock f := (f mock_chain debug_build canonical_order).
Definition mock_manager : MM :=
  @RoundManager_new mock_chain TwoChainSafetyRules RoundManagerConfig_default
    (rules_new 0).
(** The states reached by a list of calls. *)
Definition mock_calls (l : list (@MgrCall mock_chain)) (m : MM) : MM :=
  foldl (λ m c, (at_mock (@run_mgr) c m).1) m l.
Lemma mock_calls_reachable l m : rtc (at_mock (@mgr_step)) m (mock_calls l m).
Proof.
  revert m. induction l as [|c l IH]; intros m; [apply rtc_refl|].
  eapply rtc_l; [|apply IH]. by exists c.
Qed.
Definition vote_call (author sig : N) : @MgrCall mock_chain :=
  @CallVote mock_chain (mvote author 5 1 sig) four_vv.

(** A timeout, a proposal and a vote for it; then a vote recorded through
    [safety_rules_mut]. *)
Lemma round_manager_invariant_witness :
  let m1 := mock_calls [@CallTimeout mock_chain NoQuorum;
    @CallProposal mock_chain (mock_block_at 1 0);
    @CallTryVote mock_chain (mock_block_at 1 0) None] mock_manager in
  let record : @MgrCall mock_chain :=
    @CallRules mock_chain (λ r, (record_vote 7 r).1) in
  let m2 := (at_mock (@run_mgr) record m1).1 in
  last_voted_round (@mgr_safety mock_chain m2) = 7 ∧
  le_safety (@mgr_safety mock_chain m1) (@mgr_safety mock_chain m2) ∧
  @rm_epoch mock_chain TwoChainSafetyRules m1 = 0.
Proof.
  intros m1 record m2. split; [by vm_compute|].
  destruct (at_mock (@round_manager_invariant) RoundManagerConfig_default
    (rules_new 0) m1) as (He&_&_&Hle&_); [apply mock_calls_reachable|].
  split; [|exact He]. apply Hle, rtc_once. exists record. split; [|done].
  intros r. apply rtc_once. by exists (@RecordVote mock_chain 7).
Defined.

Definition mock_try (b : MockBlock) (m : MM) : MM * res Error unit :=
  @run_mgr mock_chain debug_build canonical_order (@CallTryVote mock_chain b None) m.
Lemma try_vote_correct_witness :
  (∃ e, mock_try (mock_block_at 0 7) mock_manager = (mock_manager, Err e)) ∧
  last_voted_round (@mgr_safety mock_chain
    (mock_try (mock_block_at 4 7) mock_manager).1) = 4.
Proof.
  split.
  - refine (proj2 (@try_vote_correct mock_chain debug_build (mock_block_at 0 7)
      None mock_manager _ _) _); [by vm_compute|done|]. by intros (_&H&_).
  - unfold mock_try. cbn [run_mgr].
    rewrite (proj1 (@try_vote_correct mock_chain debug_build (mock_block_at 4 7)
      None mock_manager ltac:(by vm_compute) ltac:(done)));
      [by vm_compute|split_and!; [by vm_compute..|done]].
Defined.

(** Two proposals of round 4 with different parents. *)
Lemma second_vote_same_round_accepted_witness :
  let m' := (mock_try (mock_block_at 4 7) mock_manager).1 in
  mock_try (mock_block_at 4 8) m' = (m', Ok tt).
Proof.
  intros m'.
  refine (@second_vote_same_round_accepted mock_chain debug_build
    (mock_block_at 4 7) (mock_block_at 4 8) mock_manager m' _ eq_refl _);
    by vm_compute.
Defined.

Definition mock_timeout (m : MM) : MM * res Error unit :=
  @run_mgr mock_chain debug_build canonical_order (@CallTimeout mock_chain SlowLeader) m.
Lemma process_timeout_correct_witness :
  (mock_timeout mock_manager).2 = Ok tt ∧
  @rm_round mock_chain TwoChainSafetyRules (mock_timeout mock_manager).1 = 1.
Proof.
  pose proof (@process_timeout_correct mock_chain debug_build SlowLeader mock_manager
    ltac:(by vm_compute) ltac:(by vm_compute)) as H.
  unfold mock_timeout. cbn [run_mgr]. destruct (process_timeout _ _) as [m' r].
  destruct H as ([_ H1]&H2&_). specialize (H1 (conj eq_refl eq_refl)).
  split; [exact H1|apply (H2 H1)].
Defined.

Lemma second_timeout_refused_witness :
  ∃ e, (mock_timeout (mock_timeout mock_manager).1).2 = Err e.
Proof.
  destruct (@second_timeout_refused mock_chain debug_build SlowLeader SlowLeader
    mock_manager (mock_timeout mock_manager).1) as [e He]; [by vm_compute..|].
  exists e. exact (f_equal snd He).
Defined.

Lemma quorum_forms_certificate_witness :
  let m := mock_calls [vote_call 0 10; vote_call 1 11] mock_manager in
  let m' := (at_mock (@run_mgr) (vote_call 2 12) m).1 in
  ∃ qc, @rs_quorum_cert mock_chain (rm_round_state m') = Some qc ∧
    @pv_votes mock_chain (rm_pending_votes m') !! (1, mkHash 5) = None.
Proof.
  intros m m'.
  destruct (at_mock (@quorum_forms_certificate) (mvote 2 5 1 12) four_vv m m')
    as (votes&sg&qc&_&Hqc&_&Hn&_); [by vm_compute|].
  exists qc. split; [exact Hqc|exact (Hn (mkHash 5))].
Defined.
End witnesses.
