(* ===== verification/Cluster.v ===== *)
(** * A cluster of validators: the safety of certificates

    The composition of the round managers of all validators ([RoundManager], the
    2-chain rules of [TwoChain], the vote stores of [PendingVotes]) over a
    network that loses, repeats, reorders and forges whatever verification lets
    through.  What the quorum check of one manager says about the others: the
    integrity of certificates and the agreement on one block per round. *)
From S2P Require Import Prelude.
From S2P Require Import Traits.
From S2P Require Import CommonTypes.
From S2P Require Import SafetyStateData.
From S2P Require Import Timeout.
From S2P Require Import Mocks.
From S2P Require Import TwoChain.
From S2P Require Import RoundState.
From S2P Require Import Aggregator.
From S2P Require Import PendingVotes.
From S2P Require Import RoundManager.

(** ** The votes a manager holds *)
Section stored.
Context `{CH : Chain} `{OV : OverflowMode} `{HO : HashOrder}.
Abbreviation Mgr := (RoundManager TwoChainSafetyRules).
Implicit Types m : Mgr.

Definition stored (p : PendingVotes) (v : Vot) : Prop :=
  ∃ k vs sg, pv_votes p !! k = Some vs ∧ vs !! sg = Some v.
(** [m'] holds nothing that [m] did not hold, [X] excepted. *)
Definition stored_within (X : Vot → Prop) m m' : Prop :=
  ∀ w, stored (rm_pending_votes m') w → stored (rm_pending_votes m) w ∨ X w.
#[export] Instance stored_within_preorder X : PreOrder (stored_within X).
Proof.
  split; [by intros m w; left|]. intros m1 m2 m3 H1 H2 w [Hw|]%H2; [|by right].
  by apply H1.
Qed.

Lemma stored_retain P p v : stored (retain_votes P p) v → stored p v.
Proof.
  intros (k&vs&sg&Hk&Hv). cbn in Hk. rewrite lookup_hm_retain in Hk.
  exists k, vs, sg. by case_match.
Qed.
Lemma stored_insert v p w : stored (insert_vote v p) w → stored p w ∨ w = v.
Proof.
  intros (k&vs&sg&Hk&Hv). cbn in Hk. rewrite lookup_insert in Hk.
  case_decide as Hkey; [|left; by exists k, vs, sg]. simplify_eq.
  rewrite lookup_insert in Hv. case_decide; [by simplify_eq; right|]. left.
  destruct (pv_votes p !! _) as [vs|] eqn:E; cbn in Hv; [|by rewrite lookup_empty in Hv].
  by eexists _, vs, sg.
Qed.

(** A change of the rules or of the round state alone. *)
Lemma on_safety_rules_stored {A} X (x : M TwoChainSafetyRules Error A) :
  preserves (stored_within X) (on_safety_rules x).
Proof. intros m w. unfold on_safety_rules, zoom. destruct (x _). by left. Qed.
Lemma on_round_state_stored {A} X (x : M RoundState Error A) :
  preserves (stored_within X) (on_round_state (SR:=TwoChainSafetyRules) x).
Proof. intros m w. unfold on_round_state, zoom. destruct (x _). by left. Qed.
Lemma retain_stored X P m :
  stored_within X m (upd_pending_votes (retain_votes P (rm_pending_votes m)) m).
Proof. intros w Hw. left. exact (stored_retain P _ w Hw). Qed.

Lemma form_qc_stored X b r vv :
  preserves (stored_within X)
    (form_quorum_certificate_for_block (SR:=TwoChainSafetyRules) b r vv).
Proof.
  unfold form_quorum_certificate_for_block. frame;
    first [apply on_safety_rules_stored|apply on_round_state_stored|idtac].
  intros m. apply retain_stored.
Qed.
#[local] Opaque form_quorum_certificate_for_block.
(** Only a vote that verifies is ever added. *)
Lemma process_vote_stored v vv :
  preserves (stored_within (λ w, w = v ∧ vote_verify v vv = Ok tt))
    (process_vote (SR:=TwoChainSafetyRules) v vv).
Proof.
  unfold process_vote. intros m. rewrite bind_lift.
  destruct (vote_verify v vv) as [[]| |]; [|reflexivity..]. revert m.
  change (preserves (stored_within (λ w, w = v ∧ Ok tt = @Ok Error unit tt))
    (rs ← gets rm_round_state;
     if negb (is_current_epoch (li_epoch (vote_ledger_info v)) rs)
     then mret (Rejected VsRejected)
     else
       result ← on_pending_votes (add_vote v vv);
       (if decide (result = QuorumCompleted)
        then form_quorum_certificate_for_block (SR:=TwoChainSafetyRules)
               (vote_block_id v) (vote_round v) vv
        else mret tt);;
       mret result)).
  frame; [|apply form_qc_stored].
  intros m w. unfold on_pending_votes, zoom.
  destruct (add_vote v vv (rm_pending_votes m)) as [p' r] eqn:E. cbn.
  destruct (add_vote_state (E:=Error) v vv (rm_pending_votes m)) as [Hs|Hs];
    rewrite E in Hs; cbn in Hs; subst p'; [by left|].
  intros [?|?]%stored_insert; auto.
Qed.
(** Every other call of a manager only drops votes; the borrowed rules are
    respected. *)
Definition is_local (c : MgrCall) : Prop :=
  match c with CallVote _ _ => False | c => respects_rules c end.
Lemma local_respects c : is_local c → respects_rules c.
Proof. by destruct c. Qed.
Lemma local_call_stored c m :
  is_local c → stored_within (λ _, False) m (run_mgr c m).1.
Proof.
  destruct c as [p tc|p|v vv|reason|r|f]; cbn [run_mgr is_local]; intros Hl; [| |done|..];
    revert m.
  - change (preserves (stored_within (λ _, False)) (try_vote_for_proposal (SR:=TwoChainSafetyRules) p tc)).
    unfold try_vote_for_proposal. frame. apply on_safety_rules_stored.
  - change (preserves (stored_within (λ _, False))
      (process_proposal (SR:=TwoChainSafetyRules) p;; mret tt)).
    unfold process_proposal. frame. apply on_round_state_stored.
  - change (preserves (stored_within (λ _, False)) (process_timeout (SR:=TwoChainSafetyRules) reason)).
    unfold process_timeout. frame;
      first [apply on_safety_rules_stored|apply on_round_state_stored|idtac].
    intros m. apply retain_stored.
  - change (preserves (stored_within (λ _, False)) (start_round (SR:=TwoChainSafetyRules) r)).
    unfold start_round. frame; [apply on_round_state_stored|].
    intros m. apply retain_stored.
  - intros m w. by left.
Qed.

(** A reported quorum is one of the store the vote has just entered. *)
Lemma process_vote_quorum v vv `{!VerifierLaws vv} m m' :
  process_vote v vv m = (m', Ok QuorumCompleted) →
  ∃ vs, pv_votes (insert_vote v (rm_pending_votes m)) !! (vote_round v, vote_block_id v)
      = Some vs ∧
    quorum_voting_power vv ≤ set_power vv (voters vv vs) ∧ vote_verify v vv = Ok tt.
Proof.
  unfold process_vote. intros ([]&Hver&H)%bind_lift_ok_inv.
  rewrite bind_gets in H. destruct (negb _); [done|].
  apply bind_ok_inv in H as (m2&r&Hadd&H).
  apply bind_ok_inv in H as (m3&[]&_&H). unfold mret, M_ret in H. simplify_eq.
  unfold on_pending_votes, zoom in Hadd.
  destruct (add_vote v vv (rm_pending_votes m)) as [p' r] eqn:E. simplify_eq.
  unfold add_vote in E. rewrite bind_get in E. case_match; [done|].
  case_decide; [done|]. rewrite bind_modify, bind_get in E.
  apply bind_lift_ok_inv in E as (q&Hq&E). destruct q; [|done].
  apply pv_check_quorum_true in Hq as (vs&Hk&Hp). by exists vs.
Qed.
End stored.

(** ** The cluster *)
Section cluster.
Context `{CH : Chain} `{OV : OverflowMode} `{HO : HashOrder}.
Context (vv : Verifier) (honest : gset VNode).
Abbreviation Mgr := (RoundManager TwoChainSafetyRules).
Implicit Types m : Mgr.

(** A quorum of known validators stands behind [b] in round [r]; the honest
    ones have cast a vote for it. *)
Definition backed (cast : list Vot) (r : Round) (b : VHash) (S : gset VNode) : Prop :=
  quorum_voting_power vv ≤ set_power vv S ∧
  (∀ y, y ∈ S → is_Some (get_voting_power vv y)) ∧
  ∀ y, y ∈ S → y ∈ honest → ∃ v, v ∈ cast ∧ vote_author v = y ∧
    vote_round v = r ∧ vote_block_id v = b.

Lemma backed_mono cast cast' r b S : cast ⊆ cast' → backed cast r b S → backed cast' r b S.
Proof.
  intros Hsub (Hq&Hk&Hb). split_and!; [done..|]. intros y HS Hy.
  destruct (Hb y HS Hy) as (v&Hv&?). exists v. split; [by apply Hsub|done].
Qed.

(** Two quorums whose overlap outweighs the faulty validators share an honest
    one. *)
Lemma backed_overlap cast r1 b1 S1 r2 b2 S2 all :
  backed cast r1 b1 S1 → backed cast r2 b2 S2 →
  (∀ y, is_Some (get_voting_power vv y) → y ∈ all) →
  set_power vv all + set_power vv (all ∖ honest) < 2 * quorum_voting_power vv →
  ∃ y, y ∈ S1 ∧ y ∈ S2 ∧ y ∈ honest.
Proof.
  intros (Hq1&Hk1&_) (Hq2&Hk2&_) Hall Hf.
  destruct (decide (S1 ∩ S2 ∩ honest = ∅)) as [He|He].
  2: { apply set_choose_L in He as [y Hy]. exists y. set_solver. }
  pose proof (set_power_overlap vv S1 S2).
  assert (S1 ∪ S2 ⊆ all) by set_solver.
  assert (S1 ∩ S2 ⊆ all ∖ honest) by set_solver.
  pose proof (set_power_mono vv (S1 ∪ S2) all ltac:(done)).
  pose proof (set_power_mono vv (S1 ∩ S2) (all ∖ honest) ltac:(done)). lia.
Qed.

Context (make_vote : VNode → Blk → Vot).

(** What the application's vote constructor promises; [name] is how votes name
    blocks. *)
Class VoteBuilder (name : BHash → VHash) := {
  make_vote_author : ∀ x p, vote_author (make_vote x p) = x;
  make_vote_round : ∀ x p, vote_round (make_vote x p) = block_round p;
  make_vote_block : ∀ x p, vote_block_id (make_vote x p) = name (block_id p);
}.

(** The managers, the votes honest validators have cast, the proposals they cast
    them for, and the quorums that have been reported, as (validator, round,
    block). *)
Record Cluster := mkCluster {
  cl_mgrs : gmap VNode Mgr;
  cl_cast : list Vot;
  cl_voted : list Blk;
  cl_certs : list (VNode * Round * VHash);
}.
Implicit Types c : Cluster.

(** What an honest validator checks before it asks its manager for a vote:
    nothing, as in the code, or that the round is not the one it voted in last,
    the guard the code lacks. *)
Definition VotingRule : Type := Cluster → Mgr → Blk → bool.
Definition vote_any : VotingRule := λ _ _ _, true.
Definition vote_once : VotingRule := λ _ m p,
  negb (block_round p =? last_voted_round (mgr_safety m)).
Definition at_most_once (rule : VotingRule) : Prop :=
  ∀ c m p, rule c m p = true → block_round p ≠ last_voted_round (mgr_safety m).
Lemma vote_once_at_most_once : at_most_once vote_once.
Proof. intros c m p. unfold vote_once. by destruct (N.eqb_spec (block_round p)
  (last_voted_round (mgr_safety m))). Qed.

(** A validator may receive any vote whatever, but a vote that verifies under
    the name of an honest validator has been cast by it. *)
Inductive cluster_step (rule : VotingRule) : Cluster → Cluster → Prop :=
| Cast c x p tc m m' :
    x ∈ honest → cl_mgrs c !! x = Some m →
    try_vote_for_proposal p tc m = (m', Ok tt) →
    rule c m p = true →
    cluster_step rule c
      (mkCluster (<[x := m']> (cl_mgrs c)) (make_vote x p :: cl_cast c)
         (p :: cl_voted c) (cl_certs c))
| Deliver c x v m m' r :
    cl_mgrs c !! x = Some m →
    (vote_verify v vv = Ok tt → vote_author v ∈ honest → v ∈ cl_cast c) →
    process_vote v vv m = (m', r) →
    cluster_step rule c
      (mkCluster (<[x := m']> (cl_mgrs c)) (cl_cast c) (cl_voted c)
         (if decide (r = Ok QuorumCompleted)
          then (x, vote_round v, vote_block_id v) :: cl_certs c else cl_certs c))
| Local c x call m :
    cl_mgrs c !! x = Some m → is_local call →
    cluster_step rule c
      (mkCluster (<[x := (run_mgr call m).1]> (cl_mgrs c)) (cl_cast c)
         (cl_voted c) (cl_certs c)).

(** All managers new; configurations and initial safety states are free. *)
Definition cluster_init c : Prop :=
  (∀ x m, cl_mgrs c !! x = Some m → ∃ config r, m = RoundManager_new config r) ∧
  cl_cast c = [] ∧ cl_voted c = [] ∧ cl_certs c = [].

(** ** Invariants *)

Definition integrity c : Prop :=
  (∀ x m, cl_mgrs c !! x = Some m → mgr_inv m ∧
     ∀ v, stored (rm_pending_votes m) v → vote_author v ∈ honest → v ∈ cl_cast c) ∧
  ∀ x r b, (x, r, b) ∈ cl_certs c → ∃ S, backed (cl_cast c) r b S.

(** A step of one manager. *)
Lemma integrity_update c x m m' cast' voted' :
  integrity c → cl_mgrs c !! x = Some m → cl_cast c ⊆ cast' →
  mgr_frame m m' →
  stored_within (λ v, vote_author v ∈ honest → v ∈ cast') m m' →
  integrity (mkCluster (<[x := m']> (cl_mgrs c)) cast' voted' (cl_certs c)).
Proof.
  intros [Hm Hc] Hx Hsub [Hi _] Hs. split; cbn.
  - intros y my. rewrite lookup_insert. case_decide as Hy.
    + intros [= <-]. split; [by apply Hi, (Hm x)|]. intros v [Hv|Hv]%Hs Ha; [|by apply Hv].
      apply Hsub. by eapply (Hm x m).
    + intros Hl. destruct (Hm y my Hl) as [? Hst]. split; [done|]. auto.
  - intros y r b Hin. destruct (Hc y r b Hin) as [S HS]. exists S. by eapply backed_mono.
Qed.

Lemma try_vote_frame p tc m m' o :
  try_vote_for_proposal p tc m = (m', o) → mgr_frame m m'.
Proof. intros H. pose proof (run_mgr_preserves (CallTryVote p tc) I m) as Hf.
  cbn [run_mgr] in Hf. by rewrite H in Hf. Qed.
Lemma process_vote_frame v m m' o :
  process_vote v vv m = (m', o) → mgr_frame m m'.
Proof.
  intros H. pose proof (run_mgr_preserves (CallVote v vv) I m) as Hf.
  cbn [run_mgr] in Hf. unfold mbind, M_bind in Hf. rewrite H in Hf. by destruct o.
Qed.

Context `{!VerifierLaws vv}.

Lemma integrity_step rule c c' :
  integrity c → cluster_step rule c c' → integrity c'.
Proof.
  intros Hi Hstep. revert Hi.
  destruct Hstep as [c x p tc m m' Hx Hm Ht _|c x v m m' r Hm Hauth Hp|c x call m Hm Hl];
    intros Hi.
  - eapply integrity_update; [done..|set_solver|by eapply try_vote_frame|].
    rewrite try_vote_effect in Ht. repeat case_match; simplify_eq.
    intros w Hw. by left.
  - pose proof (process_vote_frame _ _ _ _ Hp) as Hf.
    pose proof (process_vote_stored v vv m) as Hs. rewrite Hp in Hs. cbn in Hs.
    assert (Hi' : integrity (mkCluster (<[x := m']> (cl_mgrs c)) (cl_cast c) (cl_voted c) (cl_certs c))).
    { eapply integrity_update; [done..|]. intros w [?|[-> ?]]%Hs; auto. }
    case_decide as Hr; [|done]. destruct Hi' as [Hm' Hc']. split; [done|].
    intros y n b. cbn. intros [[= -> -> ->]|Hin]%elem_of_cons; [|by eapply Hc'].
    subst r. apply process_vote_quorum in Hp as (vs&Hk&Hq&Hver); [|done].
    exists (voters vv vs). split_and!; [done|by intros y [? _]%elem_of_voters|].
    intros y (_&sg&w&Hw&Hy)%elem_of_voters Hh. subst y.
    destruct Hi as [Him _]. destruct (Him x m Hm) as [(_&Hpv&_) Hst].
    destruct (insert_vote_inv v _ Hpv _ _ Hk sg w Hw) as (_&?&?).
    exists w. split_and!; [|done..].
    destruct (stored_insert v (rm_pending_votes m) w) as [?| ->]; [by eexists _, _, _|..]; auto.
  - eapply integrity_update; [done..|by apply run_mgr_preserves, local_respects|].
    intros w Hw. destruct (local_call_stored call m Hl w Hw) as [?|[]]. by left.
Qed.
Lemma integrity_init c : cluster_init c → integrity c.
Proof.
  intros (Hm&Hcast&_&Hcerts). split.
  - intros x m (config&r&->)%Hm. split; [apply RoundManager_new_inv|].
    intros v (k&vs&sg&Hk&_). cbn in Hk. by rewrite lookup_empty in Hk.
  - intros x r b. rewrite Hcerts. by intros ?%elem_of_nil.
Qed.
Lemma cluster_integrity rule c c' :
  cluster_init c → rtc (cluster_step rule) c c' → integrity c'.
Proof.
  intros Hi Hr.
  exact (rtc_invariant _ _ _ _ (integrity_step rule) (integrity_init c Hi) Hr).
Qed.

(** With the guard, a validator casts one vote per round: its rounds are at most
    the last voted one, and each new vote is above it. *)
Context {name : BHash → VHash} `{!VoteBuilder name}.
Definition one_vote_per_round (cast : list Vot) : Prop :=
  ∀ v1 v2, v1 ∈ cast → v2 ∈ cast → vote_author v1 = vote_author v2 →
    vote_round v1 = vote_round v2 → v1 = v2.
Lemma one_vote_cons cast w :
  one_vote_per_round cast →
  (∀ v, v ∈ cast → vote_author v = vote_author w → vote_round v ≠ vote_round w) →
  one_vote_per_round (w :: cast).
Proof.
  intros Hu Hw v1 v2 [->|H1]%elem_of_cons [->|H2]%elem_of_cons Ha Hr; [done|..].
  - by destruct (Hw v2 H2).
  - by destruct (Hw v1 H1).
  - by apply Hu.
Qed.
Definition discipline c : Prop :=
  (∀ v, v ∈ cl_cast c → ∃ m, cl_mgrs c !! vote_author v = Some m ∧
     vote_round v ≤ last_voted_round (mgr_safety m)) ∧
  one_vote_per_round (cl_cast c).

Lemma discipline_update c x m m' voted certs :
  discipline c → cl_mgrs c !! x = Some m → mgr_frame m m' →
  discipline (mkCluster (<[x := m']> (cl_mgrs c)) (cl_cast c) voted certs).
Proof.
  intros [Hl Hu] Hx (_&Hle&_). split; [|done]. intros v Hv. cbn.
  destruct (Hl v Hv) as (mv&Hmv&Hr). rewrite lookup_insert. case_decide; [|by eauto].
  exists m'. split; [done|]. simplify_eq. destruct Hle as (_&?&_). lia.
Qed.
Lemma discipline_step rule c c' :
  at_most_once rule → discipline c → cluster_step rule c c' → discipline c'.
Proof.
  intros Hrule Hi Hstep. revert Hi.
  destruct Hstep as [c x p tc m m' Hx Hm Ht Hs|c x v m m' r Hm _ Hp|c x call m Hm Hl];
    intros Hi.
  - apply Hrule in Hs. pose proof (try_vote_frame _ _ _ _ _ Ht) as Hf.
    destruct (discipline_update c x m m' (cl_voted c) (cl_certs c) Hi Hm Hf) as [Hl Hu].
    rewrite try_vote_effect in Ht. case_decide as Hlt; [done|].
    assert (Hm' : last_voted_round (mgr_safety m') = block_round p)
      by (case_match; by simplify_eq).
    split; cbn in *.
    + intros v [->|Hv]%elem_of_cons; [|by apply Hl].
      exists m'. rewrite make_vote_author, make_vote_round, lookup_insert_eq. split; [done|lia].
    + apply one_vote_cons; [done|]. intros v Hv. rewrite make_vote_author, make_vote_round.
      intros Ha. destruct Hi as [Hl0 _]. destruct (Hl0 v Hv) as (mv&Hmv&Hr).
      rewrite Ha in Hmv. simplify_eq. lia.
  - by eapply discipline_update, process_vote_frame.
  - eapply discipline_update; [done..|by apply run_mgr_preserves, local_respects].
Qed.
Lemma cluster_discipline rule c c' :
  at_most_once rule → cluster_init c → rtc (cluster_step rule) c c' → discipline c'.
Proof.
  intros Hrule (_&Hcast&_) Hr.
  refine (rtc_invariant _ _ _ _ (λ c1 c2, discipline_step rule c1 c2 Hrule) _ Hr).
  split; [intros v|intros v1 v2]; rewrite Hcast; by intros ?%elem_of_nil.
Qed.

(** Agreement on one block per round. *)
Lemma backed_agree cast r b1 S1 b2 S2 all :
  one_vote_per_round cast → backed cast r b1 S1 → backed cast r b2 S2 →
  (∀ y, is_Some (get_voting_power vv y) → y ∈ all) →
  set_power vv all + set_power vv (all ∖ honest) < 2 * quorum_voting_power vv →
  b1 = b2.
Proof.
  intros Hu HS1 HS2 Hall Hf.
  destruct (backed_overlap cast r b1 S1 r b2 S2 all) as (y&Hy1&Hy2&Hh); [done..|].
  destruct HS1 as (_&_&Hv1), HS2 as (_&_&Hv2).
  destruct (Hv1 y Hy1 Hh) as (v1&Hc1&Ha1&Hr1&<-).
  destruct (Hv2 y Hy2 Hh) as (v2&Hc2&Ha2&Hr2&<-).
  f_equal. apply Hu; congruence.
Qed.
Lemma agreement rule c c' x1 x2 r b1 b2 all :
  at_most_once rule →
  (∀ y, is_Some (get_voting_power vv y) → y ∈ all) →
  set_power vv all + set_power vv (all ∖ honest) < 2 * quorum_voting_power vv →
  cluster_init c → rtc (cluster_step rule) c c' →
  (x1, r, b1) ∈ cl_certs c' → (x2, r, b2) ∈ cl_certs c' → b1 = b2.
Proof.
  intros Hrule Hall Hf Hi Hr H1 H2.
  destruct (cluster_discipline rule c c' Hrule Hi Hr) as [_ Hu].
  eapply cluster_integrity in Hr as [_ Hc]; [|done..].
  destruct (Hc _ _ _ H1) as [S1 HS1]. destruct (Hc _ _ _ H2) as [S2 HS2].
  by eapply backed_agree.
Qed.

End cluster.

Section theorems.
Context `{CH : Chain} `{OV : OverflowMode} `{HO : HashOrder}.
Context (vv : Verifier) `{!VerifierLaws vv} (honest : gset VNode).
Context (make_vote : VNode → Blk → Vot).

(** C3: Integrity of certificates in a cluster.  Whatever the faulty validators
    send, in whatever order votes arrive or get lost or repeated, and for any
    hash-map order: when a manager reports a completed quorum for a block, known
    validators of at least the quorum's power stand behind it, each honest one
    of which has cast a vote for that block in that round. *)
Theorem certificates_are_backed rule c c' x r b :
  cluster_init c → rtc (cluster_step vv honest make_vote rule) c c' →
  (x, r, b) ∈ cl_certs c' →
  ∃ S, quorum_voting_power vv ≤ set_power vv S ∧
    (∀ y, y ∈ S → is_Some (get_voting_power vv y)) ∧
    ∀ y, y ∈ S → y ∈ honest → ∃ v, v ∈ cl_cast c' ∧ vote_author v = y ∧
      vote_round v = r ∧ vote_block_id v = b.
Proof. intros Hi Hr Hin. by eapply cluster_integrity in Hr as [_ Hc]; [eapply Hc|..]. Qed.

(** C2: Agreement.  If honest validators do not vote again in the round they
    voted in last (the guard the code lacks), and the faulty ones have less
    power than two quorums overlap in, then no two managers of the cluster ever
    report quorums for different blocks of one round. *)
Theorem certificates_agree {name} `{!VoteBuilder make_vote name} c c' x1 x2 r b1 b2 all :
  (∀ y, is_Some (get_voting_power vv y) → y ∈ all) →
  set_power vv all + set_power vv (all ∖ honest) < 2 * quorum_voting_power vv →
  cluster_init c → rtc (cluster_step vv honest make_vote vote_once) c c' →
  (x1, r, b1) ∈ cl_certs c' → (x2, r, b2) ∈ cl_certs c' → b1 = b2.
Proof.
  intros Hall Hf Hi Hr H1 H2.
  by eapply (agreement vv honest make_vote vote_once); first apply vote_once_at_most_once.
Qed.
End theorems.

(** ** Witnesses: four mock validators, schedules run by the kernel *)
Section schedules.
(** The mock chain, but with certificates that are of the votes they are made
    from: those of [MockQuorumCert] are all alike. *)
Definition from_first_vote : QcFromVotes MockQuorumCert MockVote MockAggregatedSignature :=
  λ votes _, match votes with
    | v :: _ => Ok (mkQC (mkMeta 0 (mv_round v) (mv_author v) (mv_block_id v) 0)
                      (mv_block_id v))
    | [] => Err (Msg "no votes" [])
    end.
Definition voted_chain : Chain := {|
  Blk := MockBlock; Tx := MockTransaction; Meta := MockBlockMetadata;
  BSig := MockSignature; BHash := MockHash; QCert := MockQuorumCert;
  QHash := MockHash; MNode := MockNodeId; MHash := MockHash;
  Vot := MockVote; VData := MockVoteData; VMeta := MockBlockMetadata;
  VMNode := MockNodeId; VMHash := MockHash; VNode := MockNodeId;
  VSig := MockSignature; VAgg := MockAggregatedSignature; VHash := MockHash;
  LInfo := MockLedgerInfo; CInfo := MockCommitInfo; LHash := MockHash;
  chain_from_votes := from_first_vote;
|}.
Abbreviation VM := (@RoundManager voted_chain TwoChainSafetyRules).
Definition voted_manager : VM :=
  @RoundManager_new voted_chain TwoChainSafetyRules RoundManagerConfig_default (rules_new 0).
Definition voted_try (p : MockBlock) (m : VM) : VM * res Error unit :=
  @run_mgr voted_chain debug_build canonical_order (@CallTryVote voted_chain p None) m.
#[export] Instance MockVoteData_eq_dec : EqDecision MockVoteData.
Proof. solve_decision. Defined.
#[export] Instance MockLedgerInfo_eq_dec : EqDecision MockLedgerInfo.
Proof. solve_decision. Defined.
#[export] Instance MockVote_eq_dec : EqDecision MockVote.
Proof. solve_decision. Defined.
Abbreviation MCl := (@Cluster voted_chain).
(** The application's vote constructor of the mock chain. *)
Definition mock_vote_for (x : @VNode voted_chain) (p : @Blk voted_chain) : @Vot voted_chain :=
  MockVote_with_signature x (@block_id _ _ _ _ _ (@chain_block voted_chain) p)
    (mm_round (mb_metadata p))
    (inner x + 10 * inner (@block_id _ _ _ _ _ (@chain_block voted_chain) p)).
#[export] Instance mock_vote_for_laws : @VoteBuilder voted_chain mock_vote_for id.
Proof. by split. Qed.
(** The block of a round with a given identifier, which for mock blocks is the
    exclusive or of round and author. *)
Definition mock_block_with_id (round id parent : N) : MockBlock :=
  mkBlock (mkMeta 0 round (mkHash (N.lxor round id)) (mkHash parent) 0) [].

Definition mock_deliver (v : MockVote) :
    @RoundManager voted_chain TwoChainSafetyRules →
    @RoundManager voted_chain TwoChainSafetyRules * res Error VoteReceptionResult :=
  @process_vote voted_chain debug_build canonical_order _ _ _
    (@TwoChain_SafetyRules voted_chain debug_build) v four_vv.
Inductive Action :=
| DoCast (x : N) (p : MockBlock)
| DoDeliver (x : N) (v : MockVote).
Abbreviation MRule := (@VotingRule voted_chain).
Definition act (honest : gset MockNodeId) (rule : MRule) (a : Action) (c : MCl) :
    option MCl :=
  match a with
  | DoCast x p =>
      m ← @cl_mgrs voted_chain c !! mkHash x;
      guard (mkHash x ∈ honest ∧ rule c m p = true);;
      match voted_try p m with
      | (m', Ok _) => Some (@mkCluster voted_chain
          (<[mkHash x := m']> (@cl_mgrs voted_chain c))
          (mock_vote_for (mkHash x) p :: @cl_cast voted_chain c)
          (p :: @cl_voted voted_chain c) (@cl_certs voted_chain c))
      | _ => None
      end
  | DoDeliver x v =>
      m ← @cl_mgrs voted_chain c !! mkHash x;
      guard (mv_author v ∈ honest → v ∈ @cl_cast voted_chain c);;
      let '(m', r) := mock_deliver v m in
      Some (@mkCluster voted_chain (<[mkHash x := m']> (@cl_mgrs voted_chain c))
        (@cl_cast voted_chain c) (@cl_voted voted_chain c)
        (if decide (r = Ok QuorumCompleted)
         then (mkHash x, mv_round v, mv_block_id v) :: @cl_certs voted_chain c
         else @cl_certs voted_chain c))
  end.
Definition schedule honest rule : list Action → MCl → option MCl :=
  perform (act honest rule).

Abbreviation mock_step honest rule :=
  (@cluster_step voted_chain debug_build canonical_order four_vv honest mock_vote_for rule).
Lemma act_step honest rule a c c' :
  act honest rule a c = Some c' → mock_step honest rule c c'.
Proof.
  destruct a as [x p|x v]; cbn [act]; intros (m&Hm&H)%bind_Some.
  - case_guard as Hg; [|done]. destruct Hg as [Hh Hs].
    destruct (voted_try p m) as [m' [[]| |]] eqn:Ht; [|done..].
    injection H as <-.
    exact (@Cast voted_chain debug_build canonical_order four_vv honest mock_vote_for
      rule c (mkHash x) p None m m' Hh Hm Ht Hs).
  - case_guard as Hg; [|done].
    destruct (mock_deliver v m) as [m' r] eqn:Hp. injection H as <-.
    exact (@Deliver voted_chain debug_build canonical_order four_vv honest mock_vote_for
      rule c (mkHash x) v m m' r Hm (λ _, Hg) Hp).
Qed.
Lemma schedule_reachable honest rule l c c' :
  schedule honest rule l c = Some c' → rtc (mock_step honest rule) c c'.
Proof. apply perform_reachable, act_step. Qed.

Definition all_four : gset MockNodeId := dom (mvs_validators four).
Definition new_cluster : MCl :=
  @mkCluster voted_chain (gset_to_gmap voted_manager all_four) [] [] [].
Lemma new_cluster_init : @cluster_init voted_chain new_cluster.
Proof.
  split; [|done]. intros x m. cbn. rewrite lookup_gset_to_gmap_Some.
  intros [_ <-]. by eexists _, _.
Qed.
(** Block [b] of round 1: three validators vote, validator 0 collects. *)
Definition vote_on (b : N) : list Action :=
  let p := mock_block_with_id 1 b 0 in
  [DoCast 0 p; DoCast 1 p; DoCast 2 p;
   DoDeliver 0 (mock_vote_for (mkHash 2) p); DoDeliver 0 (mock_vote_for (mkHash 0) p);
   DoDeliver 0 (mock_vote_for (mkHash 0) p); DoDeliver 0 (mock_vote_for (mkHash 1) p)].
(** C27: The missing guard matters.  In the cluster as the code has it, four
    validators of equal power, all of them honest, whose managers all start
    empty, can certify two different blocks of one round: no fault is needed for
    a fork, only two proposals. *)
Theorem honest_fork :
  ∃ c, rtc (mock_step all_four (@vote_any voted_chain)) new_cluster c ∧
    @set_power voted_chain four_vv (all_four ∖ all_four) = 0 ∧
    (mkHash 0, 1, mkHash 5) ∈ @cl_certs voted_chain c ∧
    (mkHash 0, 1, mkHash 6) ∈ @cl_certs voted_chain c.
Proof.
  destruct (schedule all_four (@vote_any voted_chain) (vote_on 5 ++ vote_on 6) new_cluster) as [c|] eqn:E.
  - exists c. split; [by apply schedule_reachable in E|].
    assert (Hc : @cl_certs voted_chain c = [(mkHash 0, 1, mkHash 6); (mkHash 0, 1, mkHash 5)])
      by (assert (Hs : @cl_certs voted_chain <$> schedule all_four (@vote_any voted_chain) (vote_on 5 ++ vote_on 6)
            new_cluster = Some [(mkHash 0, 1, mkHash 6); (mkHash 0, 1, mkHash 5)])
            by (by vm_compute); rewrite E in Hs; by injection Hs).
    rewrite Hc. split; [by vm_compute|]. split; [right; left|left].
  - by vm_compute in E.
Qed.

(** Validator 3 is faulty: it signs both blocks; the others follow the guard. *)
Definition three_honest : gset MockNodeId := {[mkHash 0; mkHash 1; mkHash 2]}.
Definition equivocation : list Action :=
  [DoCast 0 (mock_block_with_id 1 5 0); DoCast 1 (mock_block_with_id 1 5 0);
   DoCast 2 (mock_block_with_id 1 6 0);
   DoDeliver 0 (mvote 3 5 1 77); DoDeliver 0 (mock_vote_for (mkHash 1) (mock_block_with_id 1 5 0));
   DoDeliver 2 (mvote 3 6 1 78); DoDeliver 2 (mock_vote_for (mkHash 2) (mock_block_with_id 1 6 0));
   DoDeliver 0 (mock_vote_for (mkHash 0) (mock_block_with_id 1 5 0));
   DoDeliver 1 (mock_vote_for (mkHash 0) (mock_block_with_id 1 5 0));
   DoDeliver 1 (mock_vote_for (mkHash 1) (mock_block_with_id 1 5 0));
   DoDeliver 1 (mvote 3 5 1 77)].
Definition equivocated : MCl :=
  default new_cluster (schedule three_honest (@vote_once voted_chain) equivocation new_cluster).
Lemma equivocated_reachable : rtc (mock_step three_honest (@vote_once voted_chain)) new_cluster equivocated.
Proof.
  unfold equivocated.
  destruct (schedule three_honest (@vote_once voted_chain) equivocation new_cluster) eqn:E; cbn.
  - by apply schedule_reachable in E.
  - apply rtc_refl.
Qed.

Lemma certificates_are_backed_witness :
  @cl_certs voted_chain equivocated
    = [(mkHash 1, 1, mkHash 5); (mkHash 0, 1, mkHash 5)] ∧
  ∃ S, 3 ≤ @set_power voted_chain four_vv S ∧
    ∀ y, y ∈ S → y ∈ three_honest → ∃ v, v ∈ @cl_cast voted_chain equivocated ∧
      mv_author v = y ∧ mv_block_id v = mkHash 5.
Proof.
  split; [by vm_compute|]. pose proof four_laws.
  destruct (@certificates_are_backed voted_chain debug_build canonical_order four_vv _
    three_honest mock_vote_for (@vote_once voted_chain) new_cluster equivocated (mkHash 0) 1 (mkHash 5))
    as (S&Hq&_&Hb).
  - apply new_cluster_init.
  - apply equivocated_reachable.
  - vm_compute. right; left.
  - exists S. split; [exact Hq|]. intros y HS Hy.
    destruct (Hb y HS Hy) as (v&?&?&_&?). by exists v.
Defined.
Lemma certificates_agree_witness :
  ∃ b1 b2, (mkHash 0, 1, b1) ∈ @cl_certs voted_chain equivocated ∧
    (mkHash 1, 1, b2) ∈ @cl_certs voted_chain equivocated ∧ b1 = b2.
Proof.
  exists (mkHash 5), (mkHash 5).
  assert (H0 : (mkHash 0, 1, mkHash 5) ∈ @cl_certs voted_chain equivocated)
    by (vm_compute; right; left).
  assert (H1 : (mkHash 1, 1, mkHash 5) ∈ @cl_certs voted_chain equivocated)
    by (vm_compute; left).
  split; [exact H0|split; [exact H1|]]. pose proof four_laws.
  refine (@certificates_agree voted_chain debug_build canonical_order four_vv _
    three_honest mock_vote_for id _ new_cluster equivocated _ _ 1 _ _
    (dom (mvs_validators four)) _ _ new_cluster_init equivocated_reachable H0 H1).
  - intros x Hx. apply elem_of_dom. by apply fmap_is_Some in Hx.
  - by vm_compute.
Defined.
End schedules.
