(* ===== verification/CommitSafety.v ===== *)
(** * Commits across a cluster

    The commit rule of the 2-chain safety rules ([TwoChain.should_commit]) in the
    cluster of [Cluster].  [safe_to_vote] takes the round of a proposal's parent
    to be the round before the proposal's own.  Where honest validators see to it
    that this is so, what any managers commit, at any time, lies on one chain;
    where they do not, the code's rules let honest validators commit blocks of
    which neither extends the other. *)
From S2P Require Import Prelude.
From S2P Require Import Traits.
From S2P Require Import CommonTypes.
From S2P Require Import SafetyStateData.
From S2P Require Import Mocks.
From S2P Require Import TwoChain.
From S2P Require Import Aggregator.
From S2P Require Import PendingVotes.
From S2P Require Import RoundManager.
From S2P Require Import Cluster.

Section commits.
Context `{CH : Chain} `{OV : OverflowMode} `{HO : HashOrder}.
Context (vv : Verifier) (honest : gset VNode) (make_vote : VNode → Blk → Vot).
Context (name : BHash → VHash) (genesis : BHash).
Abbreviation Mgr := (RoundManager TwoChainSafetyRules).
Implicit Types (c : Cluster) (m : Mgr) (p : Blk).

(** A quorum has been reported for the block, or it is the genesis block, the
    only one of round 0. *)
Definition certified c (r : Round) (b : VHash) : bool :=
  if r =? 0 then bool_decide (b = name genesis)
  else existsb (λ '(_, r', b'), (r' =? r) && bool_decide (b' = b)) (cl_certs c).
(** The parent of the proposal is certified in the round before it: what
    [safe_to_vote] assumes when it derives the parent's round from the
    proposal's. *)
Definition extends c p : bool :=
  (0 <? block_round p) && certified c (block_round p - 1) (name (block_parent_id p)).
Definition vote_extending : VotingRule := λ c m p, vote_once c m p && extends c p.

(** The tree of the proposals that honest validators have voted for. *)
Definition parent_link c (b b' : VHash) : Prop :=
  ∃ p, p ∈ cl_voted c ∧ name (block_id p) = b ∧ name (block_parent_id p) = b'.
(** A manager of the cluster commits [h] when it sees [p]. *)
Definition commits c p (h : BHash) : Prop :=
  ∃ x m, cl_mgrs c !! x = Some m ∧ should_commit (rm_safety_rules m) p = Some h.

Lemma certified_spec c r b : certified c r b = true ↔
  (r = 0 ∧ b = name genesis) ∨ (r ≠ 0 ∧ ∃ x, (x, r, b) ∈ cl_certs c).
Proof.
  unfold certified. destruct (N.eqb_spec r 0).
  { rewrite bool_decide_eq_true. naive_solver. }
  rewrite existsb_exists. split.
  - intros ([[x r'] b']&Hin&[->%N.eqb_eq ->%bool_decide_eq_true]%andb_true_iff).
    right. split; [done|]. exists x. by apply list_elem_of_In.
  - intros [[? _]|[_ [x Hx]]]; [done|]. exists (x, r, b).
    split; [by apply list_elem_of_In|]. by rewrite N.eqb_refl, bool_decide_true.
Qed.
Lemma extends_spec c p : extends c p = true ↔
  0 < block_round p ∧ certified c (block_round p - 1) (name (block_parent_id p)) = true.
Proof. unfold extends. by rewrite andb_true_iff, N.ltb_lt. Qed.
Lemma vote_extending_at_most_once : at_most_once vote_extending.
Proof. intros c m p [H _]%andb_true_iff. by eapply vote_once_at_most_once. Qed.

(** ** What never gets lost *)
Definition grows c c' : Prop :=
  cl_voted c ⊆ cl_voted c' ∧ cl_certs c ⊆ cl_certs c'.
#[export] Instance grows_preorder : PreOrder grows.
Proof. split; [done|]. intros c1 c2 c3 [??] [??]. split; by etrans. Qed.
Lemma step_grows rule c c' : cluster_step vv honest make_vote rule c c' → grows c c'.
Proof. intros []; split; cbn; [set_solver..| |done|done]. case_decide; set_solver. Qed.
Lemma run_grows rule c c' : rtc (cluster_step vv honest make_vote rule) c c' → grows c c'.
Proof. induction 1 as [|c1 c2 c3 H%step_grows _ IH]; [done|by etrans]. Qed.
Lemma certified_mono c c' r b :
  grows c c' → certified c r b = true → certified c' r b = true.
Proof. intros [_ Hc]. rewrite !certified_spec. naive_solver. Qed.
Lemma extends_mono c c' p : grows c c' → extends c p = true → extends c' p = true.
Proof. rewrite !extends_spec. intros Hg [? ?]. by split; [|eapply certified_mono]. Qed.

(** ** One chain *)
Definition votes_extend c : Prop :=
  ∀ v, v ∈ cl_cast c → ∃ x p, p ∈ cl_voted c ∧ v = make_vote x p ∧ extends c p = true.
Lemma votes_extend_step c c' :
  votes_extend c → cluster_step vv honest make_vote vote_extending c c' → votes_extend c'.
Proof.
  intros Hi Hstep. pose proof (step_grows _ _ _ Hstep) as Hg. intros v Hv.
  assert (Hold : v ∈ cl_cast c → ∃ x p, p ∈ cl_voted c' ∧ v = make_vote x p ∧
    extends c' p = true).
  { intros (x&p&?&?&?)%Hi. exists x, p. split_and!; [by apply Hg|done|].
    by eapply extends_mono. }
  destruct Hstep as [c x p tc m m' _ _ _ [_ Hr]%andb_true_iff| |]; [|by apply Hold..].
  cbn in Hv. apply elem_of_cons in Hv as [->|]; [|by apply Hold].
  exists x, p. split_and!; [left|done|]. by eapply extends_mono.
Qed.
Lemma votes_extend_reachable c c' :
  cluster_init c → rtc (cluster_step vv honest make_vote vote_extending) c c' →
  votes_extend c'.
Proof.
  intros (_&Hcast&_) Hr. refine (rtc_invariant _ _ _ _ votes_extend_step _ Hr).
  intros v. rewrite Hcast. by intros ?%elem_of_nil.
Qed.

Context `{!VerifierLaws vv} `{!VoteBuilder make_vote name} (all : gset VNode).
Hypothesis known : ∀ y, is_Some (get_voting_power vv y) → y ∈ all.
Hypothesis few_faulty :
  set_power vv all + set_power vv (all ∖ honest) < 2 * quorum_voting_power vv.

(** What the argument needs of a cluster: certificates are backed, honest
    validators vote once per round, and their votes extend. *)
Section chain.
Context (c' : Cluster).
Hypothesis Hint : integrity vv honest c'.
Hypothesis Hone : one_vote_per_round (cl_cast c').
Hypothesis Hext : votes_extend c'.

Lemma certified_unique r b1 b2 :
  certified c' r b1 = true → certified c' r b2 = true → b1 = b2.
Proof.
  rewrite !certified_spec. intros [[-> ->]|[? [x1 H1]]] [[? ->]|[? [x2 H2]]]; try done.
  destruct (proj2 Hint _ _ _ H1) as [S1 ?], (proj2 Hint _ _ _ H2) as [S2 ?].
  by eapply (backed_agree vv honest (cl_cast c') r).
Qed.
(** A certified block has been voted for by an honest validator, which has seen
    to it that its parent was certified in the round before. *)
Lemma certified_parent r b :
  certified c' r b = true → r ≠ 0 →
  ∃ b', parent_link c' b b' ∧ certified c' (r - 1) b' = true.
Proof.
  intros [[? _]|[_ [x Hx]]]%certified_spec Hr0; [done|].
  destruct (proj2 Hint x r b Hx) as [S HS].
  destruct (backed_overlap vv honest (cl_cast c') r b S r b S all) as (y&HyS&_&Hy);
    [done..|].
  destruct HS as (_&_&Hv). destruct (Hv y HyS Hy) as (v&Hcast&_&Hr&Hb).
  destruct (Hext v Hcast) as (z&p&Hp&->&He).
  rewrite (make_vote_round make_vote (name:=name)) in Hr. rewrite (make_vote_block make_vote) in Hb. subst r.
  apply extends_spec in He as [_ He].
  exists (name (block_parent_id p)). split; [|done]. by exists p.
Qed.
Lemma certified_chain d r1 r2 b1 b2 :
  r2 = r1 + d → certified c' r1 b1 = true → certified c' r2 b2 = true →
  rtc (parent_link c') b2 b1.
Proof.
  revert r2 b2. induction d as [|d IH] using N.peano_ind; intros r2 b2 Hr H1 H2.
  { replace r2 with r1 in H2 by lia. rewrite (certified_unique r1 b1 b2) by done.
    apply rtc_refl. }
  destruct (certified_parent r2 b2) as (b'&Hl&Hb'); [done|lia|].
  eapply rtc_l; [exact Hl|]. eapply IH; [|done..]. lia.
Qed.

(** A committed block is certified in the round before the proposal's, *)
Lemma commits_certified c p h :
  commits c p h → extends c p = true → certified c (block_round p - 1) (name h) = true.
Proof.
  intros (x&m&_&Hc) [_ He]%extends_spec. unfold should_commit in Hc.
  by case_match; simplify_eq.
Qed.
(** so any two commits, at whatever moments before, are linked. *)
Lemma commits_linked c1 c2 p1 p2 h1 h2 :
  grows c1 c' → grows c2 c' → commits c1 p1 h1 → commits c2 p2 h2 →
  extends c1 p1 = true → extends c2 p2 = true → block_round p1 ≤ block_round p2 →
  rtc (parent_link c') (name h2) (name h1).
Proof.
  intros G1 G2 C1 C2 E1 E2 Hle.
  pose proof (certified_mono _ _ _ _ G1 (commits_certified c1 p1 h1 C1 E1)) as H1.
  pose proof (certified_mono _ _ _ _ G2 (commits_certified c2 p2 h2 C2 E2)) as H2.
  apply extends_spec in E1 as [? _], E2 as [? _].
  eapply (certified_chain (block_round p2 - block_round p1)); [|done..]. lia.
Qed.
End chain.
End commits.

Section theorems.
Context `{CH : Chain} `{OV : OverflowMode} `{HO : HashOrder}.
Context (vv : Verifier) `{!VerifierLaws vv} (honest : gset VNode).
Context (make_vote : VNode → Blk → Vot) (name : BHash → VHash) (genesis : BHash).
Context `{!VoteBuilder make_vote name}.
Abbreviation run := (rtc (cluster_step vv honest make_vote (vote_extending name genesis))).

(** C4: Commit safety.  Let honest validators vote at most once per round and
    only for proposals whose parent is certified in the round before, as
    [safe_to_vote] takes for granted, and let the faulty ones have less power
    than two quorums overlap in.  Then whatever managers commit with the commit
    rule, at any two moments of an execution and on any two such proposals, the
    block committed in the higher round descends from the other. *)
Theorem commits_on_one_chain all c c1 c2 c' p1 p2 h1 h2 :
  (∀ y, is_Some (get_voting_power vv y) → y ∈ all) →
  set_power vv all + set_power vv (all ∖ honest) < 2 * quorum_voting_power vv →
  cluster_init c → run c c1 → run c1 c' → run c c2 → run c2 c' →
  commits c1 p1 h1 → commits c2 p2 h2 →
  extends name genesis c1 p1 = true → extends name genesis c2 p2 = true →
  block_round p1 ≤ block_round p2 →
  rtc (parent_link name c') (name h2) (name h1).
Proof.
  intros Hall Hf Hi R1 R1' R2 R2' C1 C2 E1 E2 Hle.
  assert (Hc' : run c c') by by etrans.
  refine (commits_linked vv honest make_vote name genesis all Hall Hf c' _ _ _ c1 c2 p1 p2
    h1 h2 _ _ C1 C2 E1 E2 Hle).
  - by eapply (cluster_integrity vv honest make_vote _ c).
  - eapply (cluster_discipline vv honest make_vote); [apply vote_extending_at_most_once|done..].
  - by eapply (votes_extend_reachable vv honest).
  - exact (run_grows _ _ _ name genesis _ _ _ R1').
  - exact (run_grows _ _ _ name genesis _ _ _ R2').
Qed.
End theorems.

(** ** Schedules of four honest mock validators *)
Section schedules.
Abbreviation MC := (@Cluster voted_chain).
Abbreviation steps rule := (rtc (@cluster_step voted_chain debug_build canonical_order
  four_vv all_four mock_vote_for rule)).
Abbreviation mock_rule := (@vote_extending voted_chain id (mkHash 0)).
(** Three validators vote for the block and validator 0 collects. *)
Definition certify (p : MockBlock) : list Action :=
  [DoCast 0 p; DoCast 1 p; DoCast 2 p;
   DoDeliver 0 (mock_vote_for (mkHash 0) p); DoDeliver 0 (mock_vote_for (mkHash 1) p);
   DoDeliver 0 (mock_vote_for (mkHash 2) p)].
Definition certify_all (rule : @VotingRule voted_chain) (l : list MockBlock) (c : MC) : MC :=
  default c (schedule all_four rule (l ≫= certify) c).
Lemma certify_all_steps rule l c : steps rule c (certify_all rule l c).
Proof.
  unfold certify_all. destruct (schedule _ _ _ _) eqn:E; cbn; [|apply rtc_refl].
  by apply schedule_reachable in E.
Qed.
(** Manager 0 commits [h] on [p]. *)
Lemma commits_at_0 (c : MC) p h :
  (@should_commit voted_chain ∘ (@rm_safety_rules voted_chain _) <$>
    @cl_mgrs voted_chain c !! mkHash 0) ≫= (λ f, f p) = Some h →
  @commits voted_chain c p h.
Proof.
  intros (f&(m&Hm&->)%fmap_Some&H)%bind_Some. by exists (mkHash 0), m.
Qed.

(** Blocks 1 <- 2 <- 3 of rounds 1 to 3; 1 is committed first, 2 later. *)
Definition chain_block (r : N) : MockBlock := mock_block_with_id r r (r - 1).
Lemma commits_on_one_chain_witness :
  let c1 := certify_all mock_rule [chain_block 1] new_cluster in
  let c2 := certify_all mock_rule [chain_block 2] c1 in
  @cl_certs voted_chain c2 = [(mkHash 0, 2, mkHash 2); (mkHash 0, 1, mkHash 1)] ∧
  rtc (@parent_link voted_chain id c2) (mkHash 2) (mkHash 1).
Proof.
  intros c1 c2. split; [by vm_compute|]. pose proof four_laws.
  pose proof (certify_all_steps mock_rule [chain_block 1] new_cluster) as R1.
  pose proof (certify_all_steps mock_rule [chain_block 2] c1) as R2.
  refine (@commits_on_one_chain voted_chain debug_build canonical_order four_vv _
    all_four mock_vote_for id (mkHash 0) _ (dom (mvs_validators four)) new_cluster c1 c2 c2
    (chain_block 2) (chain_block 3) (mkHash 1) (mkHash 2)
    _ _ new_cluster_init R1 R2 (transitivity R1 R2) (rtc_refl _ _) _ _ _ _ _).
  - intros x Hx. apply elem_of_dom. by apply fmap_is_Some in Hx.
  - by vm_compute.
  - apply commits_at_0. by vm_compute.
  - apply commits_at_0. by vm_compute.
  - by vm_compute.
  - by vm_compute.
  - by vm_compute.
Defined.

(** Block 2 of round 2 extends 1; block 3 of round 3 extends the genesis block
    and passes [safe_to_vote] all the same. *)
Definition fork : list MockBlock := [mock_block_with_id 3 3 0].

(** C29: The missing parent check matters.  In the cluster as the code has it,
    even if the four validators, all honest, vote at most once per round,
    managers can commit two blocks of which neither descends from the other: the
    proposal of round 3 leaves the chain at the genesis block and is certified,
    because [safe_to_vote] takes its parent to be of round 2. *)
Theorem conflicting_commits :
  ∃ c1 c2, steps (@vote_once voted_chain) new_cluster c1 ∧
    steps (@vote_once voted_chain) c1 c2 ∧
    @commits voted_chain c1 (mock_block_with_id 2 2 1) (mkHash 1) ∧
    @commits voted_chain c2 (mock_block_with_id 4 4 3) (mkHash 3) ∧
    @cl_certs voted_chain c2 = [(mkHash 0, 3, mkHash 3); (mkHash 0, 1, mkHash 1)] ∧
    ¬ rtc (@parent_link voted_chain id c2) (mkHash 3) (mkHash 1) ∧
    ¬ rtc (@parent_link voted_chain id c2) (mkHash 1) (mkHash 3).
Proof.
  set (c1 := certify_all (@vote_once voted_chain) [chain_block 1] new_cluster).
  set (c2 := certify_all (@vote_once voted_chain) fork c1).
  assert (Hv : ∀ b b', @parent_link voted_chain id c2 b b' → b' = mkHash 0).
  { intros b b' (p&Hp&_&<-).
    assert (Ha : Forall (λ p, mm_parent_id (mb_metadata p) = mkHash 0)
      (@cl_voted voted_chain c2)) by (vm_compute; repeat constructor).
    rewrite Forall_forall in Ha. by apply Ha. }
  assert (Hne : ∀ b b', b' ≠ mkHash 0 → b ≠ b' →
    ¬ rtc (@parent_link voted_chain id c2) b b').
  { intros b b' H0 Hb [?|(z&_&Hz%Hv)]%rtc_inv_r; done. }
  exists c1, c2. split; [apply certify_all_steps|]. split; [apply certify_all_steps|].
  split; [apply commits_at_0; by vm_compute|].
  split; [apply commits_at_0; by vm_compute|].
  split; [by vm_compute|]. split; by apply Hne.
Qed.
End schedules.
