(* ===== verification/CrashCluster.v ===== *)
(** * A cluster of validators that crash

    The composition of [Cluster] with [Durable]: the managers of a cluster are
    volatile, each validator has a storage of its own, may stop at any moment and
    is started again with a new manager over what [load_safety_rules] returns.
    With the documented protocol (record, persist, send) agreement holds whatever
    crashes; with the calls the code makes, which never persist, it does not. *)
From S2P Require Import Prelude.
From S2P Require Import Traits.
From S2P Require Import CommonTypes.
From S2P Require Import SafetyStateData.
From S2P Require Import Timeout.
From S2P Require Import Mocks.
From S2P Require Import TwoChain.
From S2P Require Import Recovery.
From S2P Require Import Durable.
From S2P Require Import RoundState.
From S2P Require Import Aggregator.
From S2P Require Import PendingVotes.
From S2P Require Import RoundManager.
From S2P Require Import Cluster.
From S2P Require Import CommitSafety.
Import CellStorage.

Section crashes.
Context `{CH : Chain} `{OV : OverflowMode} `{HO : HashOrder}.
Context {Sg SErr : Type} `{ST : !ConsensusStorage Sg Blk QCert BHash SErr}.
Context (vv : Verifier) (honest : gset VNode) (make_vote : VNode → Blk → Vot).
Abbreviation Mgr := (RoundManager TwoChainSafetyRules).
Implicit Types (m : Mgr) (sg : Sg).

(** What a validator is doing: nothing, waiting for a call, or in the middle of
    a vote that its manager has recorded or its storage holds. *)
Inductive NodePhase :=
| NpDown
| NpReady (m : Mgr)
| NpRecorded (p : Blk) (m : Mgr)
| NpPersisted (p : Blk) (m : Mgr).
Record Node := mkNode { nd_phase : NodePhase; nd_storage : Sg }.
Definition nd_memory (n : Node) : option Mgr :=
  match nd_phase n with
  | NpDown => None
  | NpReady m | NpRecorded _ m | NpPersisted _ m => Some m
  end.

Record CrashCluster := mkCrash {
  cr_nodes : gmap VNode Node;
  cr_cast : list Vot;
  cr_voted : list Blk;
  cr_certs : list (VNode * Round * VHash);
}.
Implicit Types c : CrashCluster.
Definition set_node (x : VNode) (ph : NodePhase) sg c : CrashCluster :=
  mkCrash (<[x := mkNode ph sg]> (cr_nodes c)) (cr_cast c) (cr_voted c) (cr_certs c).
Definition add_cast (v : Vot) c : CrashCluster :=
  mkCrash (cr_nodes c) (v :: cr_cast c) (cr_voted c) (cr_certs c).
Definition add_voted (p : Blk) c : CrashCluster :=
  mkCrash (cr_nodes c) (cr_cast c) (p :: cr_voted c) (cr_certs c).
Definition add_cert (r : res Error VoteReceptionResult) (x : VNode) (v : Vot) c :
    CrashCluster :=
  mkCrash (cr_nodes c) (cr_cast c) (cr_voted c)
    (if decide (r = Ok QuorumCompleted)
     then (x, vote_round v, vote_block_id v) :: cr_certs c else cr_certs c).

(** The managers that are up, as a cluster. *)
Definition volatile c : Cluster :=
  mkCluster (omap nd_memory (cr_nodes c)) (cr_cast c) (cr_voted c) (cr_certs c).

(** [rule] is what honest validators check before they ask their manager for a
    vote, and [durable] whether they send it only once it is persisted.  A write that fails ends the vote, one that panics ends
    the process. *)
Inductive crash_step (rule : VotingRule) (durable : bool) : CrashCluster → CrashCluster → Prop :=
| Nd_record c x p tc m m' sg :
    x ∈ honest → cr_nodes c !! x = Some (mkNode (NpReady m) sg) →
    try_vote_for_proposal p tc m = (m', Ok tt) →
    rule (volatile c) m p = true →
    crash_step rule durable c (add_voted p (set_node x (NpRecorded p m') sg c))
| Nd_persist c x p m sg sg' o :
    cr_nodes c !! x = Some (mkNode (NpRecorded p m) sg) →
    persist_safety_state (mgr_safety m) sg = (sg', o) →
    crash_step rule durable c
      (set_node x (match o with
                   | Ok _ => NpPersisted p m | Err _ => NpReady m | Panic => NpDown
                   end) sg' c)
| Nd_send c x p m sg :
    cr_nodes c !! x = Some (mkNode (NpPersisted p m) sg) →
    crash_step rule durable c (add_cast (make_vote x p) (set_node x (NpReady m) sg c))
| Nd_send_unpersisted c x p m sg :
    durable = false → cr_nodes c !! x = Some (mkNode (NpRecorded p m) sg) →
    crash_step rule durable c (add_cast (make_vote x p) (set_node x (NpReady m) sg c))
| Nd_deliver c x v m m' r sg :
    cr_nodes c !! x = Some (mkNode (NpReady m) sg) →
    (vote_verify v vv = Ok tt → vote_author v ∈ honest → v ∈ cr_cast c) →
    process_vote v vv m = (m', r) →
    crash_step rule durable c (add_cert r x v (set_node x (NpReady m') sg c))
| Nd_local c x call m sg :
    cr_nodes c !! x = Some (mkNode (NpReady m) sg) → is_local call →
    crash_step rule durable c (set_node x (NpReady (run_mgr call m).1) sg c)
| Nd_crash c x n :
    cr_nodes c !! x = Some n →
    crash_step rule durable c (set_node x NpDown (nd_storage n) c)
| Nd_restart c x sg epoch config r :
    cr_nodes c !! x = Some (mkNode NpDown sg) →
    load_safety_rules sg epoch = Ok r →
    crash_step rule durable c (set_node x (NpReady (RoundManager_new config r)) sg c).

(** Nobody has started yet, and no storage holds a state. *)
Definition crash_init c : Prop :=
  (∀ x n, cr_nodes c !! x = Some n →
     nd_phase n = NpDown ∧ get_safety_state (nd_storage n) = Ok None) ∧
  cr_cast c = [] ∧ cr_voted c = [] ∧ cr_certs c = [].

(** ** The volatile part of a step *)
Lemma volatile_lookup c x n m :
  cr_nodes c !! x = Some n → nd_memory n = Some m → cl_mgrs (volatile c) !! x = Some m.
Proof. intros Hn Hm. cbn. rewrite lookup_omap, Hn. exact Hm. Qed.
Lemma volatile_set c x ph sg :
  volatile (set_node x ph sg c) =
    mkCluster (match nd_memory (mkNode ph sg) with
               | Some m => <[x := m]> (cl_mgrs (volatile c))
               | None => delete x (cl_mgrs (volatile c))
               end) (cr_cast c) (cr_voted c) (cr_certs c).
Proof.
  unfold volatile. cbn [set_node cr_nodes]. rewrite omap_insert. by destruct ph.
Qed.

Lemma integrity_drop (c : Cluster) x :
  integrity vv honest c →
  integrity vv honest (mkCluster (delete x (cl_mgrs c)) (cl_cast c) (cl_voted c) (cl_certs c)).
Proof.
  intros [Hm Hc]. split; [|done]. intros y m. cbn. rewrite lookup_delete.
  case_decide; [done|]. apply Hm.
Qed.
Lemma integrity_start (c : Cluster) x config r :
  integrity vv honest c →
  integrity vv honest (mkCluster (<[x := RoundManager_new config r]> (cl_mgrs c))
    (cl_cast c) (cl_voted c) (cl_certs c)).
Proof.
  intros [Hm Hc]. split; [|done]. intros y m. cbn. rewrite lookup_insert.
  case_decide; [|apply Hm]. intros [= <-]. split; [apply RoundManager_new_inv|].
  intros v (k&vs&sg&Hk&_). cbn in Hk. by rewrite lookup_empty in Hk.
Qed.

Context `{!VerifierLaws vv}.
(** A call of one manager is a step of the cluster of those that are up. *)
Lemma volatile_call c x m m' sg call :
  integrity vv honest (volatile c) → cr_nodes c !! x = Some (mkNode (NpReady m) sg) →
  is_local call → (run_mgr call m).1 = m' →
  integrity vv honest (mkCluster (<[x := m']> (cl_mgrs (volatile c))) (cr_cast c) (cr_voted c) (cr_certs c)).
Proof.
  intros Hi Hn Hl <-. eapply (integrity_step vv honest make_vote vote_any); [exact Hi|].
  by eapply (Local vv honest make_vote _ (volatile c)), Hl; eapply volatile_lookup.
Qed.
(** Sending changes no manager. *)
Lemma volatile_send c x p m sg ph :
  integrity vv honest (volatile c) → cr_nodes c !! x = Some (mkNode ph sg) →
  nd_memory (mkNode ph sg) = Some m →
  integrity vv honest (volatile (add_cast (make_vote x p) (set_node x (NpReady m) sg c))).
Proof.
  intros Hi Hn Hm. unfold volatile. cbn. rewrite (omap_insert_Some _ _ _ _ m) by done.
  eapply (integrity_update vv honest (volatile c)); [exact Hi|by eapply volatile_lookup|
    set_solver|done|]. by left.
Qed.

Lemma crash_integrity_step rule durable c c' :
  integrity vv honest (volatile c) → crash_step rule durable c c' →
  integrity vv honest (volatile c').
Proof.
  intros Hi Hstep. revert Hi.
  destruct Hstep as [c x p tc m m' sg Hx Hn Ht _|c x p m sg sg' o Hn Hp|c x p m sg Hn
    |c x p m sg _ Hn|c x v m m' r sg Hn Ha Hp|c x call m sg Hn Hl|c x n Hn
    |c x sg e config r Hn Hl]; intros Hi;
    [..|by eapply volatile_send|by eapply volatile_send| | | |].
  - change (integrity vv honest (volatile (set_node x (NpRecorded p m') sg c))).
    rewrite volatile_set. eapply (volatile_call _ _ _ _ _ (CallTryVote p tc)); [done..|].
    cbn [run_mgr]. by rewrite Ht.
  - rewrite volatile_set. destruct o as [[]| |]; cbn [nd_memory nd_phase];
      [..|by apply (integrity_drop (volatile c))];
      rewrite insert_id by (by eapply volatile_lookup); exact Hi.
  - unfold add_cert, volatile. cbn [cr_nodes cr_cast cr_certs].
    eapply (integrity_step vv honest make_vote vote_any (volatile c)); [exact Hi|].
    pose proof (Deliver vv honest make_vote vote_any (volatile c) x v m m' r) as Hd.
    pose proof (volatile_set c x (NpReady m') sg) as Hv. injection Hv as Hv.
    cbn in Hv. cbn [set_node cr_nodes]. rewrite Hv. apply Hd; [|done..].
    by eapply volatile_lookup.
  - rewrite volatile_set. by eapply volatile_call.
  - rewrite volatile_set. cbn. by apply (integrity_drop (volatile c)).
  - rewrite volatile_set. cbn. by apply (integrity_start (volatile c)).
Qed.

(** ** One vote per round *)

(** What storage and memory know of the votes a validator has sent, and the vote
    it is about to send. *)
Definition pending_vote (past : Vot → Prop) (p : Blk) m : Prop :=
  block_round p = last_voted_round (mgr_safety m) ∧
  ∀ v, past v → vote_round v < block_round p.
Definition node_inv (past : Vot → Prop) (n : Node) : Prop :=
  (∀ v, past v → stored_round (nd_storage n) (vote_round v) ∧
     ∀ m, nd_memory n = Some m → vote_round v ≤ last_voted_round (mgr_safety m)) ∧
  match nd_phase n with
  | NpRecorded p m => pending_vote past p m
  | NpPersisted p m => pending_vote past p m ∧ stored_round (nd_storage n) (block_round p)
  | _ => True
  end.
Definition sent_by (x : VNode) c (v : Vot) : Prop := v ∈ cr_cast c ∧ vote_author v = x.
Definition crash_discipline c : Prop :=
  (∀ x n, cr_nodes c !! x = Some n → node_inv (sent_by x c) n) ∧
  one_vote_per_round (cr_cast c).

Lemma node_inv_mono (past past' : Vot → Prop) n :
  (∀ v, past' v → past v) → node_inv past n → node_inv past' n.
Proof.
  intros Hsub [Hv Hp]. split; [auto|].
  destruct (nd_phase n); unfold pending_vote in *; naive_solver.
Qed.
Lemma set_node_discipline c x ph sg :
  crash_discipline c → node_inv (sent_by x c) (mkNode ph sg) →
  crash_discipline (set_node x ph sg c).
Proof.
  intros [Hn Hu] Hx. split; [|done]. intros y n. cbn. rewrite lookup_insert.
  case_decide as Hy; [|apply Hn]. subst y. by intros [= <-].
Qed.
(** Nothing sent, the storage as it was. *)
Lemma node_inv_memory past ph ph' sg :
  node_inv past (mkNode ph sg) →
  (∀ m', nd_memory (mkNode ph' sg) = Some m' → ∃ m, nd_memory (mkNode ph sg) = Some m ∧
     last_voted_round (mgr_safety m) ≤ last_voted_round (mgr_safety m')) →
  match ph' with
  | NpRecorded p m => pending_vote past p m | NpPersisted _ _ => False | _ => True
  end → node_inv past (mkNode ph' sg).
Proof.
  intros [Hv _] Hm Hp. split; [|by destruct ph']. intros v Hpast.
  destruct (Hv v Hpast) as [Hs Hl]. split; [done|]. intros m' (m&Hm0&Hle)%Hm.
  specialize (Hl m Hm0). lia.
Qed.

Context {name : BHash → VHash} `{!VoteBuilder make_vote name}.
(** Sending the vote that is persisted. *)
Lemma send_discipline c x p m sg :
  crash_discipline c → cr_nodes c !! x = Some (mkNode (NpPersisted p m) sg) →
  crash_discipline (add_cast (make_vote x p) (set_node x (NpReady m) sg c)).
Proof.
  intros [Hn Hu] Hx. destruct (Hn x _ Hx) as [Hv [[Hlast Hpast] Hst]]. cbn in *.
  split.
  - intros y n. cbn. rewrite lookup_insert. case_decide as Hy.
    + subst y. intros [= <-]. split; [|done]. intros v [Hin Ha]. cbn in Hin.
      apply elem_of_cons in Hin as [->|Hin]; [|by apply Hv].
      rewrite (make_vote_round make_vote (name:=name)). split; [done|]. intros m' [= <-]. lia.
    + intros Hl. eapply node_inv_mono; [|by apply Hn]. intros v [Hin Ha]. cbn in Hin.
      apply elem_of_cons in Hin as [->|Hin]; [|done]. by rewrite (make_vote_author make_vote (name:=name)) in Ha.
  - apply one_vote_cons; [done|]. intros v Hin.
    rewrite (make_vote_author make_vote (name:=name)), (make_vote_round make_vote (name:=name)).
    intros Ha. specialize (Hpast v (conj Hin Ha)). lia.
Qed.

Context `{!StorageLaws Sg Blk QCert BHash SErr, !AtomicStorage Sg Blk QCert BHash SErr}.
Lemma persist_node_inv past p m sg sg' o :
  node_inv past (mkNode (NpRecorded p m) sg) →
  persist_safety_state (mgr_safety m) sg = (sg', o) →
  node_inv past (mkNode (match o with
    | Ok _ => NpPersisted p m | Err _ => NpReady m | Panic => NpDown end) sg').
Proof.
  intros [Hv Hpend] Hp. destruct (persist_atomic _ _ _ _ Hp) as [Ha Hok]. cbn in *.
  assert (Hst : ∀ v, past v → stored_round sg' (vote_round v)).
  { intros v Hpast. destruct (Hv v Hpast) as [Hs Hm]. specialize (Hm m eq_refl).
    destruct Ha as [Ha|Ha]; unfold stored_round; rewrite Ha; eauto. }
  split.
  - intros v Hpast. split; [by apply Hst|]. intros m' Hm'. apply (Hv v Hpast).
    by destruct o as [[]| |].
  - destruct o as [[]| |]; cbn; [|done..]. split; [done|]. exists (mgr_safety m).
    split; [by apply Hok|]. destruct Hpend as [-> _]. done.
Qed.
Lemma restart_node_inv past config r sg epoch :
  node_inv past (mkNode NpDown sg) → load_safety_rules sg epoch = Ok r →
  node_inv past (mkNode (NpReady (RoundManager_new config r)) sg).
Proof.
  intros [Hv _] Hl. split; [|done]. intros v Hpast. destruct (Hv v Hpast) as [Hs _].
  split; [done|]. intros m [= <-]. destruct Hs as (s&Hs&Hle). cbn in *.
  destruct (load_reads _ _ _ Hl) as [H|H]; rewrite H in Hs; [done|]. by injection Hs as <-.
Qed.

Lemma crash_discipline_step rule c c' :
  at_most_once rule → crash_discipline c → crash_step rule true c c' → crash_discipline c'.
Proof.
  intros Hrule Hi Hstep. revert Hi.
  destruct Hstep as [c x p tc m m' sg Hx Hn Ht Hne|c x p m sg sg' o Hn Hp|c x p m sg Hn
    |c x p m sg Hd Hn|c x v m m' r sg Hn Ha Hp|c x call m sg Hn Hl|c x [ph sg] Hn
    |c x sg e config r Hn Hl]; intros Hi; try (apply set_node_discipline; [done|]);
    pose proof (proj1 Hi x _ Hn) as Hx0.
  - apply Hrule in Hne. rewrite try_vote_effect in Ht. case_decide as Hlt; [done|].
    assert (Hm' : last_voted_round (mgr_safety m') = block_round p)
      by (case_match; by simplify_eq).
    eapply node_inv_memory; [exact Hx0| |].
    + intros m1 [= <-]. exists m. split; [done|lia].
    + split; [done|]. intros v Hv. destruct Hx0 as [Hx0 _].
      destruct (Hx0 v Hv) as [_ Hle]. specialize (Hle m eq_refl). lia.
  - by eapply persist_node_inv.
  - by apply send_discipline.
  - done.
  - eapply node_inv_memory; [exact Hx0| |done].
    intros m1 [= <-]. exists m. split; [done|].
    by destruct (process_vote_frame vv v m m' r Hp) as (_&(_&?&_)&_).
  - eapply node_inv_memory; [exact Hx0| |done]. intros m1 [= <-]. exists m.
    split; [done|]. by destruct (run_mgr_preserves call (local_respects _ Hl) m) as (_&(_&?&_)&_).
  - by eapply node_inv_memory; [exact Hx0| |].
  - by eapply restart_node_inv.
Qed.

Lemma crash_integrity rule durable c c' :
  crash_init c → rtc (crash_step rule durable) c c' → integrity vv honest (volatile c').
Proof.
  intros (Hn&Hcast&_&Hcerts).
  refine (rtc_invariant _ _ _ _ (crash_integrity_step rule durable) _). split.
  - intros x m Hm. cbn in Hm. rewrite lookup_omap in Hm.
    destruct (cr_nodes c !! x) as [n|] eqn:E; [|done]. cbn in Hm. destruct (Hn x n E) as [Hd _].
    unfold nd_memory in Hm. by rewrite Hd in Hm.
  - intros x r b. cbn. rewrite Hcerts. by intros ?%elem_of_nil.
Qed.
Lemma crash_one_vote rule c c' :
  at_most_once rule → crash_init c → rtc (crash_step rule true) c c' → crash_discipline c'.
Proof.
  intros Hrule (Hn&Hcast&_).
  refine (rtc_invariant _ _ _ _ (λ c1 c2, crash_discipline_step rule c1 c2 Hrule) _). split.
  - intros x n E. destruct (Hn x n E) as [Hd _]. split; [|by rewrite Hd].
    intros v [Hin _]. rewrite Hcast in Hin. by apply elem_of_nil in Hin.
  - intros v1 v2. rewrite Hcast. by intros ?%elem_of_nil.
Qed.

(** ** Votes extend certified blocks *)
Context (genesis : BHash).
Definition nd_pending (n : Node) : option Blk :=
  match nd_phase n with NpRecorded p _ | NpPersisted p _ => Some p | _ => None end.
Definition voted_inv c : Prop :=
  (∀ p, p ∈ cr_voted c → extends name genesis (volatile c) p = true) ∧
  (∀ v, v ∈ cr_cast c → ∃ x p, p ∈ cr_voted c ∧ v = make_vote x p) ∧
  ∀ x n p, cr_nodes c !! x = Some n → nd_pending n = Some p → p ∈ cr_voted c.

Lemma voted_votes_extend c : voted_inv c → votes_extend make_vote name genesis (volatile c).
Proof. intros (He&Hc&_) v Hv. destruct (Hc v Hv) as (x&p&Hp&->). exists x, p. auto. Qed.
Lemma voted_set_node c x ph sg :
  voted_inv c → (∀ p, nd_pending (mkNode ph sg) = Some p → p ∈ cr_voted c) →
  voted_inv (set_node x ph sg c).
Proof.
  intros (He&Hc&Hp) Hx. split_and!; [exact He|exact Hc|]. intros y n p. cbn.
  rewrite lookup_insert. case_decide; [intros [= <-]; apply Hx|apply Hp].
Qed.
Lemma voted_record c p :
  voted_inv c → extends name genesis (volatile c) p = true → voted_inv (add_voted p c).
Proof.
  intros (He&Hc&Hp) Hext. split_and!.
  - intros q [->|Hq]%elem_of_cons; [exact Hext|by apply He].
  - intros v Hv. destruct (Hc v Hv) as (x&q&?&?). exists x, q. split; [by right|done].
  - intros x n q Hx Hq. right. by eapply Hp.
Qed.
Lemma voted_send c x p : voted_inv c → p ∈ cr_voted c → voted_inv (add_cast (make_vote x p) c).
Proof.
  intros (He&Hc&Hp) Hin. split_and!; [exact He| |exact Hp].
  intros v [->|Hv]%elem_of_cons; [by exists x, p|by apply Hc].
Qed.
Lemma add_cert_grows r x v c : grows (volatile c) (volatile (add_cert r x v c)).
Proof. split; cbn; [done|]. case_decide; set_solver. Qed.
Lemma voted_cert c r x v : voted_inv c → voted_inv (add_cert r x v c).
Proof.
  intros (He&Hc&Hp). split_and!; [|exact Hc|exact Hp]. intros p Hin.
  eapply (extends_mono make_vote); [apply add_cert_grows|by apply He].
Qed.

Lemma crash_step_grows rule durable c c' :
  crash_step rule durable c c' → grows (volatile c) (volatile c').
Proof.
  intros []; first [by split|by split; cbn; set_solver|idtac].
  match goal with |- grows _ (volatile (add_cert ?r ?x ?v (set_node ?y ?ph ?sg ?c))) =>
    exact (add_cert_grows r x v (set_node y ph sg c)) end.
Qed.
Lemma crash_run_grows rule durable c c' :
  rtc (crash_step rule durable) c c' → grows (volatile c) (volatile c').
Proof.
  induction 1 as [|c1 c2 c3 H%crash_step_grows _ IH]; [done|by etrans].
Qed.
Lemma voted_step durable c c' :
  voted_inv c → crash_step (vote_extending name genesis) durable c c' → voted_inv c'.
Proof.
  intros Hi Hstep. revert Hi.
  destruct Hstep as [c x p tc m m' sg Hx Hn Ht [_ Hr]%andb_true_iff|c x p m sg sg' o Hn Hp
    |c x p m sg Hn|c x p m sg Hd Hn|c x v m m' r sg Hn Ha Hp|c x call m sg Hn Hl
    |c x [ph sg] Hn|c x sg e config r Hn Hl]; intros Hi;
    pose proof (λ n, proj2 (proj2 Hi) x n) as Hpend.
  - apply (voted_set_node (add_voted p c)); [by apply voted_record|].
    intros q [= <-]. left.
  - apply voted_set_node; [done|]. intros q Hq. apply (Hpend _ q Hn).
    by destruct o as [[]| |].
  - apply voted_send; [by apply voted_set_node|]. by apply (Hpend _ p Hn).
  - apply voted_send; [by apply voted_set_node|]. by apply (Hpend _ p Hn).
  - by apply voted_cert, voted_set_node.
  - by apply voted_set_node.
  - by apply voted_set_node.
  - by apply voted_set_node.
Qed.
Lemma crash_votes_extend durable c c' :
  crash_init c → rtc (crash_step (vote_extending name genesis) durable) c c' →
  votes_extend make_vote name genesis (volatile c').
Proof.
  intros (Hn&Hcast&Hvoted&_) Hr. apply voted_votes_extend.
  refine (rtc_invariant _ _ _ _ (voted_step durable) _ Hr). unfold voted_inv.
  rewrite Hcast, Hvoted. split_and!; [by intros ? ?%elem_of_nil..|].
  intros x n p E. unfold nd_pending. by rewrite (proj1 (Hn x n E)).
Qed.
End crashes.

Section theorems.
Context `{CH : Chain} `{OV : OverflowMode} `{HO : HashOrder}.
Context {Sg SErr : Type} `{ST : !ConsensusStorage Sg Blk QCert BHash SErr}.
Context `{!StorageLaws Sg Blk QCert BHash SErr, !AtomicStorage Sg Blk QCert BHash SErr}.
Context (vv : Verifier) `{!VerifierLaws vv} (honest : gset VNode).
Context (make_vote : VNode → Blk → Vot).

(** C5: Agreement across crashes, over any storage with atomic writes.  If
    honest validators persist a vote before they send it, as the documentation
    demands, and do not vote again in the round they remember as their last, then
    however often validators stop, in the middle of a vote included, lose their
    managers and start again from their storage, and if the faulty ones have less
    power than two quorums overlap in, no two managers ever report quorums for
    different blocks of one round. *)
Theorem agreement_survives_crashes {name} `{!VoteBuilder make_vote name}
    c c' x1 x2 r b1 b2 all :
  (∀ y, is_Some (get_voting_power vv y) → y ∈ all) →
  set_power vv all + set_power vv (all ∖ honest) < 2 * quorum_voting_power vv →
  crash_init c → rtc (crash_step vv honest make_vote vote_once true) c c' →
  (x1, r, b1) ∈ cr_certs c' → (x2, r, b2) ∈ cr_certs c' → b1 = b2.
Proof.
  intros Hall Hf Hi Hr H1 H2.
  destruct (crash_one_vote vv honest make_vote vote_once c c' vote_once_at_most_once Hi Hr)
    as [_ Hu].
  destruct (crash_integrity vv honest make_vote vote_once true c c' Hi Hr) as [_ Hc].
  destruct (Hc _ _ _ H1) as [S1 HS1]. destruct (Hc _ _ _ H2) as [S2 HS2].
  by eapply (backed_agree vv honest).
Qed.

Context (name : BHash → VHash) `{!VoteBuilder make_vote name} (genesis : BHash).
Abbreviation crash_run :=
  (rtc (crash_step vv honest make_vote (vote_extending name genesis) true)).
(** C6: Commit safety across crashes.  If moreover honest validators vote only for
    proposals whose parent is certified in the round before, then whatever managers
    commit with the commit rule, before or after whatever crashes and restarts and
    on any two such proposals, the block committed in the higher round descends
    from the other. *)
Theorem commits_survive_crashes all c c1 c2 c' p1 p2 h1 h2 :
  (∀ y, is_Some (get_voting_power vv y) → y ∈ all) →
  set_power vv all + set_power vv (all ∖ honest) < 2 * quorum_voting_power vv →
  crash_init c → crash_run c c1 → crash_run c1 c' → crash_run c c2 → crash_run c2 c' →
  commits (volatile c1) p1 h1 → commits (volatile c2) p2 h2 →
  extends name genesis (volatile c1) p1 = true →
  extends name genesis (volatile c2) p2 = true →
  block_round p1 ≤ block_round p2 →
  rtc (parent_link name (volatile c')) (name h2) (name h1).
Proof.
  intros Hall Hf Hi R1 R1' R2 R2' C1 C2 E1 E2 Hle.
  assert (Hc' : crash_run c c') by by etrans.
  refine (commits_linked vv honest make_vote name genesis all Hall Hf (volatile c') _ _ _
    (volatile c1) (volatile c2) p1 p2 h1 h2 _ _ C1 C2 E1 E2 Hle).
  - by eapply (crash_integrity vv honest make_vote _ _ c).
  - eapply (crash_one_vote vv honest make_vote); [apply vote_extending_at_most_once|done..].
  - by eapply (crash_votes_extend vv honest).
  - exact (crash_run_grows _ _ _ _ _ _ _ R1').
  - exact (crash_run_grows _ _ _ _ _ _ _ R2').
Qed.
End theorems.

(** ** Schedules of four mock validators with a storage cell each *)
Section schedules.
#[local] Existing Instance voted_chain.
#[local] Existing Instance debug_build.
#[local] Existing Instance canonical_order.
Abbreviation Cell := (option SafetyStateData).
Abbreviation CC := (CrashCluster (Sg:=Cell)).
(** All four are honest. *)
Abbreviation cell_step := (crash_step (Sg:=Cell) (SErr:=string) four_vv all_four
  mock_vote_for).

Inductive CrashAction :=
| DoRecord (x : N) (p : MockBlock)
| DoPersist (x : N)
| DoSend (x : N)
| DoReceive (x : N) (v : MockVote)
| DoCrash (x : N)
| DoRestart (x : N).
Definition crash_act (rule : VotingRule) (durable : bool) (a : CrashAction) (c : CC) :
    option CC :=
  let node x := cr_nodes c !! mkHash x in
  match a with
  | DoRecord x p =>
      n ← node x;
      match n with
      | mkNode (NpReady m) sg =>
          guard (mkHash x ∈ all_four ∧ rule (volatile c) m p = true);;
          match voted_try p m with
          | (m', Ok _) => Some (add_voted p (set_node (mkHash x) (NpRecorded p m') sg c))
          | _ => None
          end
      | _ => None
      end
  | DoPersist x =>
      n ← node x;
      match n with
      | mkNode (NpRecorded p m) _ =>
          Some (set_node (mkHash x) (NpPersisted p m) (Some (mgr_safety m)) c)
      | _ => None
      end
  | DoSend x =>
      n ← node x;
      match n with
      | mkNode (NpPersisted p m) sg =>
          Some (add_cast (mock_vote_for (mkHash x) p) (set_node (mkHash x) (NpReady m) sg c))
      | mkNode (NpRecorded p m) sg =>
          guard (durable = false);;
          Some (add_cast (mock_vote_for (mkHash x) p) (set_node (mkHash x) (NpReady m) sg c))
      | _ => None
      end
  | DoReceive x v =>
      n ← node x;
      match n with
      | mkNode (NpReady m) sg =>
          guard (mv_author v ∈ all_four → v ∈ cr_cast c);;
          let '(m', r) := mock_deliver v m in
          Some (add_cert r (mkHash x) v (set_node (mkHash x) (NpReady m') sg c))
      | _ => None
      end
  | DoCrash x =>
      n ← node x; Some (set_node (mkHash x) NpDown (nd_storage n) c)
  | DoRestart x =>
      n ← node x;
      match n with
      | mkNode NpDown sg =>
          match load_safety_rules (B:=MockBlock) (QC:=MockQuorumCert) (H:=MockHash) sg 0 with
          | Ok r => Some (set_node (mkHash x)
              (NpReady (RoundManager_new RoundManagerConfig_default r)) sg c)
          | _ => None
          end
      | _ => None
      end
  end.
Lemma crash_act_step rule durable a c c' :
  crash_act rule durable a c = Some c' → cell_step rule durable c c'.
Proof.
  destruct a as [x p|x|x|x v|x|x]; cbn [crash_act];
    intros ([ph sg]&Hn&H)%bind_Some; [destruct ph as [|m|q m|q m]; try done..| |].
  - case_guard as Hg; [|done]. destruct Hg as [Hh Hne].
    destruct (voted_try p m) as [m' [[]| |]] eqn:Ht; [|done..]. injection H as <-.
    eapply Nd_record; [exact Hh|exact Hn|exact Ht|exact Hne].
  - injection H as <-.
    apply (Nd_persist _ _ _ rule durable c (mkHash x) q m sg (Some (mgr_safety m)) (Ok tt)); done.
  - case_guard; [|done]. injection H as <-. by eapply Nd_send_unpersisted.
  - injection H as <-. by eapply Nd_send.
  - case_guard as Hg; [|done].
    destruct (mock_deliver v m) as [m' r] eqn:Hp. injection H as <-.
    eapply Nd_deliver; [exact Hn|done|exact Hp].
  - injection H as <-. exact (Nd_crash _ _ _ rule durable c _ _ Hn).
  - destruct ph; try done. case_match eqn:Hl; [|done..]. injection H as <-.
    by eapply Nd_restart.
Qed.
(** The cluster after a schedule, if it can be performed. *)
Definition after rule durable (l : list CrashAction) (c : CC) : CC :=
  default c (perform (crash_act rule durable) l c).
Lemma after_reachable rule durable l c : rtc (cell_step rule durable) c (after rule durable l c).
Proof.
  unfold after. destruct (perform _ l c) eqn:E; [|apply rtc_refl].
  by apply (perform_reachable _ _ _ _ _ (crash_act_step rule durable)) in E.
Qed.

Definition down_cluster : CC := mkCrash (gset_to_gmap (mkNode NpDown None) all_four) [] [] [].
Lemma down_cluster_init :
  crash_init (SErr:=string) down_cluster.
Proof.
  split; [|done]. intros x n. cbn. rewrite lookup_gset_to_gmap_Some. by intros [_ <-].
Qed.
Abbreviation block b := (mock_block_with_id 1 b 0).
Definition restart_three : list CrashAction := [DoRestart 0; DoRestart 1; DoRestart 2].
Definition crash_three : list CrashAction := [DoCrash 0; DoCrash 1; DoCrash 2].
Definition collect (x : N) (p : MockBlock) : list CrashAction :=
  (λ y, DoReceive x (mock_vote_for (mkHash y) p)) <$> [0; 1; 2].

(** C28: Forgetting is enough for a fork.  The code never persists the safety
    state before a vote leaves.  Even with the guard against a second vote in one
    round, four validators, all of them honest, can then certify two different
    blocks of one round: it takes a restart between two proposals. *)
Theorem unpersisted_votes_fork :
  ∃ c, rtc (cell_step vote_once false) down_cluster c ∧
    crash_init (SErr:=string) down_cluster ∧
    set_power four_vv (all_four ∖ all_four) = 0 ∧
    (mkHash 0, 1, mkHash 5) ∈ cr_certs c ∧ (mkHash 0, 1, mkHash 6) ∈ cr_certs c.
Proof.
  set (vote b := ([0; 1; 2] ≫= λ x, [DoRecord x (block b); DoSend x]) ++ collect 0 (block b)).
  exists (after vote_once false (restart_three ++ vote 5 ++ crash_three ++ restart_three ++
    vote 6) down_cluster).
  split; [apply after_reachable|]. split; [apply down_cluster_init|].
  split; [by vm_compute|]. split; vm_compute; [right; left|left].
Qed.

(** Three validators vote as documented, validator 0 collects. *)
Definition certify_durably (p : MockBlock) : list CrashAction :=
  ([0; 1; 2] ≫= λ x, [DoRecord x p; DoPersist x; DoSend x]) ++ collect 0 p.
(** Validator 3 stops in the middle of a vote for block 6 and, having sent
    nothing, votes for 5; validator 1 is restarted after its vote. *)
Definition crashed : CC :=
  after vote_once true
    (restart_three ++
     [DoRestart 3; DoRecord 3 (block 6); DoCrash 3; DoRestart 3; DoRecord 3 (block 5);
      DoPersist 3; DoSend 3] ++ certify_durably (block 5) ++
     [DoCrash 1; DoRestart 1] ++ collect 1 (block 5)) down_cluster.
Lemma agreement_survives_crashes_witness :
  cr_certs crashed = [(mkHash 1, 1, mkHash 5); (mkHash 0, 1, mkHash 5)] ∧
  ∀ b1 b2, (mkHash 0, 1, b1) ∈ cr_certs crashed → (mkHash 1, 1, b2) ∈ cr_certs crashed →
    b1 = b2.
Proof.
  split; [by vm_compute|]. intros b1 b2 H0 H1. pose proof four_laws.
  refine (agreement_survives_crashes four_vv all_four mock_vote_for (name:=id)
    down_cluster crashed _ _ 1 _ _ (dom (mvs_validators four)) _ _ down_cluster_init
    (after_reachable _ _ _ _) H0 H1).
  - intros x Hx. apply elem_of_dom. by apply fmap_is_Some in Hx.
  - by vm_compute.
Defined.

(** Block 1 is certified and committed; all three voters crash; they certify block
    2 on top of it, which is committed in turn. *)
Abbreviation extending := (vote_extending id (mkHash 0)).
Definition chain_1 : CC :=
  after extending true (restart_three ++ certify_durably (chain_block 1)) down_cluster.
Definition chain_2 : CC :=
  after extending true (crash_three ++ restart_three ++ certify_durably (chain_block 2)) chain_1.
Lemma commits_survive_crashes_witness :
  cr_certs chain_2 = [(mkHash 0, 2, mkHash 2); (mkHash 0, 1, mkHash 1)] ∧
  rtc (parent_link id (volatile chain_2)) (mkHash 2) (mkHash 1).
Proof.
  split; [by vm_compute|]. pose proof four_laws.
  pose proof (after_reachable extending true
    (restart_three ++ certify_durably (chain_block 1)) down_cluster) as R1.
  pose proof (after_reachable extending true
    (crash_three ++ restart_three ++ certify_durably (chain_block 2)) chain_1) as R2.
  refine (commits_survive_crashes four_vv all_four mock_vote_for id (mkHash 0)
    (dom (mvs_validators four)) down_cluster chain_1 chain_2 chain_2
    (chain_block 2) (chain_block 3) (mkHash 1) (mkHash 2) _ _ down_cluster_init
    R1 R2 (transitivity R1 R2) (rtc_refl _ _) _ _ _ _ _).
  - intros x Hx. apply elem_of_dom. by apply fmap_is_Some in Hx.
  - by vm_compute.
  - apply commits_at_0. by vm_compute.
  - apply commits_at_0. by vm_compute.
  - by vm_compute.
  - by vm_compute.
  - by vm_compute.
Defined.
End schedules.
