(* ===== verification/QuorumLiveness.v ===== *)
(** * Votes of a quorum become a certificate

    The progress side of [RoundManager] and [PendingVotes]: delivering the votes
    of a quorum to a manager ends in a certificate, whatever the order, and at
    the very vote that completes the power. *)
From S2P Require Import Prelude.
From S2P Require Import Traits.
From S2P Require Import CommonTypes.
From S2P Require Import SafetyStateData.
From S2P Require Import Timeout.
From S2P Require Import Mocks.
From S2P Require Import TwoChain.
From S2P Require Import RoundState.
From S2P Require Import Aggregator.
From S2P Require Import PendingVotes.
From S2P Require Import RoundManager.

Section vote_maps.
Context `{CH : Chain} `{OV : OverflowMode} `{HO : HashOrder}.
Implicit Types (l : list Vot) (p : PendingVotes).




End vote_maps.

(** ** Delivering votes to a manager *)
Section delivery.
Context `{CH : Chain} `{OV : OverflowMode} `{HO : HashOrder}.
Context (vv : Verifier) `{!VerifierLaws vv}.
Abbreviation Mgr := (RoundManager TwoChainSafetyRules).
Implicit Types (m : Mgr) (l : list Vot).








End delivery.

Section theorems.
Context `{CH : Chain} `{OV : OverflowMode} `{HO : HashOrder}.
Abbreviation Mgr := (RoundManager TwoChainSafetyRules).

End theorems.

(** ** Witness: three of four validators, in the manager of the mock chain *)
Section witnesses.
End witnesses.
