(* ===== verification/ClusterLiveness.v ===== *)
(** * The cluster can always go on

    The progress side of [CommitSafety]: the guards that make commits safe do not
    block the cluster.  As long as a quorum of honest validators is up and behind
    the round of a proposal that extends a certified block, whatever happened
    before, the proposal can be certified: casting its votes and delivering them,
    in any order, is enough. *)
From S2P Require Import Prelude.
From S2P Require Import Traits.
From S2P Require Import CommonTypes.
From S2P Require Import SafetyStateData.
From S2P Require Import Timeout.
From S2P Require Import Mocks.
From S2P Require Import TwoChain.
From S2P Require Import RoundState.
From S2P Require Import Aggregator.
From S2P Require Import PendingVotes.
From S2P Require Import RoundManager.
From S2P Require Import Cluster.
From S2P Require Import CommitSafety.
From S2P Require Import QuorumLiveness.

Section progress.
Context `{CH : Chain} `{OV : OverflowMode} `{HO : HashOrder}.
Context (vv : Verifier) (honest : gset VNode) (make_vote : VNode → Blk → Vot).
Context (name : BHash → VHash) (genesis : BHash).
Abbreviation Mgr := (RoundManager TwoChainSafetyRules).
Abbreviation step := (cluster_step vv honest make_vote (vote_extending name genesis)).
Implicit Types (c : Cluster) (m : Mgr) (p : Blk).




(** ** The votes of a quorum *)




Context `{!VoteBuilder make_vote name}.


Context `{!VerifierLaws vv}.
End progress.

Section theorems.
Context `{CH : Chain} `{OV : OverflowMode} `{HO : HashOrder}.

End theorems.

(** ** Witness: after a first certificate the next block can be certified *)
Section witnesses.
Abbreviation MC := (@Cluster voted_chain).

End witnesses.
