(* ===== verification/Float64.v ===== *)
(** * IEEE-754 double precision

    Rust's [f64] as the Standard Library's specification floats, with the
    operations the crate uses: arithmetic rounds to nearest even, a decimal
    literal is the correctly rounded quotient of its digits, [as u64] truncates
    and saturates. *)
From Stdlib Require Import ZArith SpecFloat.
From S2P Require Import Prelude.

Abbreviation f64 := spec_float.
Definition f64_mul (x y : f64) : f64 := SFmul 53 1024 x y.
Definition f64_add (x y : f64) : f64 := SFadd 53 1024 x y.
Definition f64_div (x y : f64) : f64 := SFdiv 53 1024 x y.
Definition f64_lt : f64 → f64 → bool := SFltb.
Definition f64_le : f64 → f64 → bool := SFleb.
Definition f64_of_Z (z : Z) : f64 := binary_normalize 53 1024 z 0 false.
(** [n as f64]. *)
Definition f64_of_N (n : N) : f64 := f64_of_Z (Z.of_N n).
(** The literal [n / d]. *)
Definition f64_lit (n : Z) (d : N) : f64 := f64_div (f64_of_Z n) (f64_of_N d).

(** [ceil]; a result of zero keeps the sign of its argument. *)
Definition f64_ceil (x : f64) : f64 :=
  match x with
  | S754_finite s m e =>
      if (0 <=? e)%Z then x
      else if s
      then binary_normalize 53 1024 (- (Z.pos m / 2 ^ (- e))) 0 true
      else f64_of_Z (- (- Z.pos m / 2 ^ (- e)))
  | _ => x
  end.
(** [as u64]. *)
Definition f64_to_u64 (x : f64) : N :=
  match x with
  | S754_finite false m e =>
      N.min u64_max (if (0 <=? e)%Z then N.shiftl (Npos m) (Z.to_N e)
                     else Npos m / 2 ^ Z.to_N (- e))
  | S754_infinity false => u64_max
  | _ => 0
  end.
(** [x.clamp(lo, hi)]: panics unless [lo <= hi]. *)
Definition f64_clamp {E} (lo hi x : f64) : res E f64 :=
  if f64_le lo hi
  then Ok (if f64_lt x lo then lo else if f64_lt hi x then hi else x)
  else Panic.

Definition f64_zero : f64 := S754_zero false.
Definition f64_one : f64 := f64_of_N 1.

Example f64_half_ceil : f64_ceil (f64_lit (-1) 2) = S754_zero true.
Proof. reflexivity. Qed.
Example f64_round_trip : f64_to_u64 (f64_ceil (f64_lit 7 2)) = 4.
Proof. reflexivity. Qed.

(** ** Sums of finite numbers are numbers *)
Definition f64_number (x : f64) : bool :=
  match x with S754_nan => false | _ => true end.
Definition f64_finite (x : f64) : bool :=
  match x with S754_nan | S754_infinity _ => false | _ => true end.

Lemma shr_1_nonneg r : (0 ≤ shr_m r)%Z → (0 ≤ shr_m (shr_1 r))%Z.
Proof. destruct r as [[|[]|[]] ? ?]; cbn; lia. Qed.
Lemma iter_pos_inv {A} (P : A → Prop) (f : A → A) (n : positive) (x : A) :
  (∀ x, P x → P (f x)) → P x → P (SpecFloat.iter_pos f n x).
Proof. intros Hf. revert x. induction n; intros x Hx; cbn; auto. Qed.
Lemma shr_fexp_nonneg p em m e l :
  (0 ≤ m)%Z → (0 ≤ shr_m (shr_fexp p em m e l).1)%Z.
Proof.
  intros Hm. unfold shr_fexp, shr.
  assert (Hr : (0 ≤ shr_m (shr_record_of_loc m l))%Z) by (by destruct l as [|[]]).
  destruct (_ - _)%Z; cbn; [done| |done].
  apply (iter_pos_inv (λ r, 0 ≤ shr_m r)%Z); [apply shr_1_nonneg|done].
Qed.
Lemma round_nearest_even_nonneg m l : (0 ≤ m)%Z → (0 ≤ round_nearest_even m l)%Z.
Proof. unfold round_nearest_even. intros. repeat case_match; lia. Qed.
Lemma binary_round_aux_number p em s m e l :
  (0 ≤ m)%Z → f64_number (binary_round_aux p em s m e l) = true.
Proof.
  intros Hm. unfold binary_round_aux.
  pose proof (shr_fexp_nonneg p em m e l Hm) as H1.
  destruct (shr_fexp p em m e l) as [r1 e1].
  pose proof (shr_fexp_nonneg p em _ e1 loc_Exact
    (round_nearest_even_nonneg _ (loc_of_shr_record r1) H1)) as H2.
  destruct (shr_fexp p em (round_nearest_even _ _) e1 loc_Exact) as [r2 e2]. cbn in H2.
  destruct (shr_m r2); [done| |lia]. by case_match.
Qed.
Lemma binary_normalize_number p em m e s :
  f64_number (binary_normalize p em m e s) = true.
Proof.
  destruct m; [done|..]; unfold binary_normalize, binary_round;
    destruct (shl_align _ _ _); apply binary_round_aux_number; lia.
Qed.
Lemma f64_add_number x y :
  f64_finite x = true → f64_finite y = true → f64_number (f64_add x y) = true.
Proof.
  destruct x as [[]| | |], y as [[]| | |]; try done.
  all: intros _ _; apply binary_normalize_number.
Qed.

(** ** Ordering *)
Lemma SFcompare_swap x y : SFcompare y x = CompOpp <$> SFcompare x y.
Proof.
  destruct x as [|[]| |[]], y as [|[]| |[]]; try done; cbn;
    rewrite (Z.compare_antisym e e0); destruct (e ?= e0)%Z; cbn; try done;
    by rewrite (Pos.compare_cont_antisym m m0), ?CompOpp_involutive.
Qed.
Lemma f64_not_lt_le x y :
  f64_number x = true → f64_number y = true → f64_lt x y = false → f64_le y x = true.
Proof.
  unfold f64_lt, f64_le, SFltb, SFleb. intros Hx Hy. rewrite (SFcompare_swap x y).
  destruct (SFcompare x y) as [[]|] eqn:E; cbn; try done.
  by destruct x as [|[]| |[]], y as [|[]| |[]].
Qed.
Lemma f64_le_refl x : f64_number x = true → f64_le x x = true.
Proof.
  intros Hx. apply f64_not_lt_le; try done. unfold f64_lt, SFltb.
  pose proof (SFcompare_swap x x) as H. destruct (SFcompare x x) as [[]|]; done.
Qed.

(** Clamping a number into an interval of finite bounds. *)
Lemma f64_clamp_range {E} lo hi x y :
  f64_number lo = true → f64_number hi = true → f64_number x = true →
  f64_clamp (E:=E) lo hi x = Ok y → f64_le lo y = true ∧ f64_le y hi = true.
Proof.
  intros Hlo Hhi Hx. unfold f64_clamp. destruct (f64_le lo hi) eqn:Hle; [|done].
  destruct (f64_lt x lo) eqn:H1; intros [= <-].
  - split; [by apply f64_le_refl|done].
  - destruct (f64_lt hi x) eqn:H2.
    + split; [done|by apply f64_le_refl].
    + split; by apply f64_not_lt_le.
Qed.
(** What lies between 0 and 1 is finite. *)
Lemma f64_unit_finite x :
  f64_le f64_zero x = true → f64_le x f64_one = true → f64_finite x = true.
Proof. by destruct x as [|[]| |[]]. Qed.
