(* ===== verification/Pacemaker.v ===== *)
(** * [liveness/pacemaker.rs]: round timeouts and progression *)
From Stdlib Require Import SpecFloat.
From S2P Require Import Prelude.
From S2P Require Import CommonTypes.
From S2P Require Import Float64.

(** [std::time::Duration], in nanoseconds. *)
Abbreviation Duration := N (only parsing).
Definition from_millis (ms : N) : Duration := ms * 1000000.
Definition as_millis (d : Duration) : N := d / 1000000.

Record PacemakerConfig := mkPacemakerConfig {
  base_duration_ms : N;
  exponent_base : f64;
  max_exponent : N;
  pc_initial_round : Round;
}.
Definition PacemakerConfig_default : PacemakerConfig :=
  mkPacemakerConfig 1000 (f64_of_N 2) 8 1.
Definition PacemakerConfig_new (base_duration_ms : N) (exponent_base : f64)
    (max_exponent : N) (initial_round : Round) : PacemakerConfig :=
  mkPacemakerConfig base_duration_ms exponent_base max_exponent initial_round.
Definition base_duration (c : PacemakerConfig) : Duration :=
  from_millis (base_duration_ms c).

Inductive NewRoundReason :=
| NrQuorumCertificate
| NrTimeout (rounds_since_ordered : N).
#[export] Instance NewRoundReason_eq_dec : EqDecision NewRoundReason.
Proof. solve_decision. Defined.
Definition NewRoundReason_to_string (r : NewRoundReason) : string :=
  match r with
  | NrQuorumCertificate => "QCReady"
  | NrTimeout n => "Timeout(rounds_since_ordered=" +:+ pretty n +:+ ")"
  end.

Record NewRoundEvent := mkNewRoundEvent {
  ev_round : Round;
  ev_reason : NewRoundReason;
  ev_timeout_duration : Duration;
}.
Definition NewRoundEvent_new (round : Round) (reason : NewRoundReason)
    (timeout_duration : Duration) : NewRoundEvent :=
  mkNewRoundEvent round reason timeout_duration.

(** The trait: the duration of a round, given how many rounds it is past the
    last ordered one. *)
Class RoundIntervalStrategy (T : Type) := get_round_duration : T → N → Duration.

(** [as u32] and the like keep the low bits. *)
Definition as_u64 (n : N) : N := n mod bound 64.

Record ExponentialIntervalStrategy := mkExponential {
  base_ms : N;
  ex_exponent_base : f64;
  ex_max_exponent : N;
}.

Section exponential.
(** [f64::powf] is a library function of unspecified precision: a
    parameter. *)
Context (powf : f64 → f64 → f64).

Definition ExponentialIntervalStrategy_new {E} (base : Duration)
    (exponent_base : f64) (max_exponent : N) : res E ExponentialIntervalStrategy :=
  if negb (max_exponent <? 32) then Panic
  else if negb (f64_lt (f64_ceil (powf exponent_base (f64_of_N max_exponent)))
                  (f64_of_N u32_max)) then Panic
  else Ok (mkExponential (as_u64 (as_millis base)) exponent_base max_exponent).
Definition fixed {E} (duration : Duration) : res E ExponentialIntervalStrategy :=
  ExponentialIntervalStrategy_new duration f64_one 0.

Definition exponential_duration (s : ExponentialIntervalStrategy)
    (round_index_after_ordered : N) : Duration :=
  let pow := N.min (as_u32 round_index_after_ordered) (as_u32 (ex_max_exponent s)) in
  let multiplier := powf (ex_exponent_base s) (f64_of_N pow) in
  let duration_ms :=
    f64_to_u64 (f64_ceil (f64_mul (f64_of_N (base_ms s)) multiplier)) in
  from_millis duration_ms.
#[export] Instance ExponentialIntervalStrategy_strategy :
  RoundIntervalStrategy ExponentialIntervalStrategy := exponential_duration.
End exponential.

Section pacemaker.
Context `{OV : OverflowMode} {T : Type} `{RI : RoundIntervalStrategy T}.

Record Pacemaker := mkPacemaker {
  interval_strategy : T;
  highest_ordered_round : Round;
  pm_current_round : Round;
  pm_config : PacemakerConfig;
}.
Implicit Types p : Pacemaker.

Definition Pacemaker_new (interval_strategy : T) (config : PacemakerConfig) :
    Pacemaker :=
  mkPacemaker interval_strategy (pc_initial_round config - 1)
    (pc_initial_round config) config.

Definition set_current_round (r : Round) p : Pacemaker :=
  mkPacemaker (interval_strategy p) (highest_ordered_round p) r (pm_config p).
Definition set_highest_ordered (r : Round) p : Pacemaker :=
  mkPacemaker (interval_strategy p) r (pm_current_round p) (pm_config p).

Definition can_enter_round p (round : Round) : bool := pm_current_round p <? round.

(** The index of a round: how far it is past the round after the last ordered
    one. *)
Definition rounds_since_ordered {E} p (round : Round) : res E N :=
  next ← add64 (highest_ordered_round p) 1; Ok (round - next).

Definition enter_new_round (round : Round) : M Pacemaker Error NewRoundEvent :=
  can ← gets (λ p, can_enter_round p round);
  cur ← gets pm_current_round;
  if negb can
  then throw (Msg "Cannot enter round {}: current round is {}" [DNum round; DNum cur])
  else
    p ← get;
    n ← lift (rounds_since_ordered p round);
    let reason := if n =? 0 then NrQuorumCertificate else NrTimeout n in
    let timeout_duration := get_round_duration (interval_strategy p) n in
    modify (set_current_round round);;
    mret (NewRoundEvent_new round reason timeout_duration).

Definition record_ordered_round (round : Round) : M Pacemaker Error unit :=
  h ← gets highest_ordered_round;
  if round <=? h
  then throw (Msg "Round {} is not greater than highest ordered round {}"
                [DNum round; DNum h])
  else modify (set_highest_ordered round).

Definition current_round_timeout {E} p : res E Duration :=
  n ← rounds_since_ordered p (pm_current_round p);
  Ok (get_round_duration (interval_strategy p) n).

(** A placeholder of the source. *)
Definition check_timeout p (elapsed : Duration) : bool := false.

Definition reset (round : Round) p : Pacemaker :=
  mkPacemaker (interval_strategy p) (round - 1) round (pm_config p).
End pacemaker.
#[global] Arguments Pacemaker T : clear implicits.

(** ** The builder *)
Section builder.
Context (powf : f64 → f64 → f64).

Record PacemakerBuilder := mkPacemakerBuilder { pb_config : PacemakerConfig }.
Definition PacemakerBuilder_new : PacemakerBuilder :=
  mkPacemakerBuilder PacemakerConfig_default.
Definition with_base_duration_ms (ms : N) (b : PacemakerBuilder) : PacemakerBuilder :=
  let c := pb_config b in
  mkPacemakerBuilder (mkPacemakerConfig ms (exponent_base c) (max_exponent c)
    (pc_initial_round c)).
Definition with_exponent_base (base : f64) (b : PacemakerBuilder) : PacemakerBuilder :=
  let c := pb_config b in
  mkPacemakerBuilder (mkPacemakerConfig (base_duration_ms c) base (max_exponent c)
    (pc_initial_round c)).
Definition with_max_exponent (max : N) (b : PacemakerBuilder) : PacemakerBuilder :=
  let c := pb_config b in
  mkPacemakerBuilder (mkPacemakerConfig (base_duration_ms c) (exponent_base c) max
    (pc_initial_round c)).
Definition with_initial_round (round : Round) (b : PacemakerBuilder) : PacemakerBuilder :=
  let c := pb_config b in
  mkPacemakerBuilder (mkPacemakerConfig (base_duration_ms c) (exponent_base c)
    (max_exponent c) round).
Definition build_exponential {E} (b : PacemakerBuilder) :
    res E (Pacemaker ExponentialIntervalStrategy) :=
  let c := pb_config b in
  strategy ← ExponentialIntervalStrategy_new powf (base_duration c) (exponent_base c)
               (max_exponent c);
  Ok (Pacemaker_new strategy c).
End builder.

(** ** Lemmas *)
Section lemmas.
Context `{OV : OverflowMode} {T : Type} `{RI : RoundIntervalStrategy T}.
Implicit Types p : Pacemaker T.

Lemma rounds_since_ordered_ok {E} p r :
  highest_ordered_round p < u64_max →
  rounds_since_ordered (E:=E) p r = Ok (r - (highest_ordered_round p + 1)).
Proof. intros. unfold rounds_since_ordered. by rewrite add64_ok by nlia. Qed.
Lemma rounds_since_ordered_not_err {E} p r e :
  rounds_since_ordered (E:=E) p r ≠ Err e.
Proof.
  unfold rounds_since_ordered.
  pose proof (add64_not_err (E:=E) (highest_ordered_round p) 1 e) as H.
  by destruct (add64 _ _); cbn; [done|congruence|].
Qed.

(** The event a round is entered with. *)
Definition new_round_event p (round n : N) : NewRoundEvent :=
  mkNewRoundEvent round (if n =? 0 then NrQuorumCertificate else NrTimeout n)
    (get_round_duration (interval_strategy p) n).
Lemma enter_new_round_effect round p :
  enter_new_round round p =
    if decide (pm_current_round p < round) then
      match rounds_since_ordered p round with
      | Ok n => (set_current_round round p, Ok (new_round_event p round n))
      | Err e => (p, Err e)
      | Panic => (p, Panic)
      end
    else (p, Err (Msg "Cannot enter round {}: current round is {}"
                    [DNum round; DNum (pm_current_round p)])).
Proof.
  unfold enter_new_round, can_enter_round. rewrite !bind_gets.
  destruct (N.ltb_spec (pm_current_round p) round); cbn.
  - rewrite decide_True by done. run. by destruct (rounds_since_ordered p round).
  - by rewrite decide_False by lia.
Qed.
Lemma record_ordered_effect round p :
  record_ordered_round round p =
    if decide (highest_ordered_round p < round)
    then (set_highest_ordered round p, Ok tt)
    else (p, Err (Msg "Round {} is not greater than highest ordered round {}"
                    [DNum round; DNum (highest_ordered_round p)])).
Proof.
  unfold record_ordered_round. rewrite bind_gets.
  destruct (N.leb_spec round (highest_ordered_round p)).
  - by rewrite decide_False by lia.
  - by rewrite decide_True.
Qed.

(** Calls other than [reset]. *)
Inductive PmCall := PmEnter (r : Round) | PmRecord (r : Round).
Definition run_pm (c : PmCall) : M (Pacemaker T) Error unit :=
  match c with
  | PmEnter r => enter_new_round r;; mret tt
  | PmRecord r => record_ordered_round r
  end.
Definition pm_step p p' : Prop := ∃ c, (run_pm c p).1 = p'.
(** All calls. *)
Definition pm_any_step p p' : Prop := pm_step p p' ∨ ∃ r, p' = reset r p.
Definition pm_le p p' : Prop :=
  pm_current_round p ≤ pm_current_round p' ∧
  highest_ordered_round p ≤ highest_ordered_round p' ∧
  interval_strategy p' = interval_strategy p ∧ pm_config p' = pm_config p.
#[export] Instance pm_le_preorder : PreOrder pm_le.
Proof.
  split; [by intros p|]. intros p1 p2 p3 (?&?&?&?) (?&?&?&?).
  split_and!; [lia|lia|congruence..].
Qed.
Lemma run_pm_le c : preserves pm_le (run_pm c).
Proof.
  destruct c; cbn [run_pm].
  - apply preserves_bind; [exact _| |intros; apply preserves_ret; exact _].
    intros p. rewrite enter_new_round_effect. case_decide; [|done].
    destruct (rounds_since_ordered p r); cbn; [|done..]. split_and!; cbn; lia || done.
  - intros p. rewrite record_ordered_effect. case_decide; [|done].
    split_and!; cbn; lia || done.
Qed.
Lemma pm_any_strategy p p' :
  rtc pm_any_step p p' → interval_strategy p' = interval_strategy p.
Proof.
  induction 1 as [|p1 p2 p3 [[c <-]|[r ->]] _ IH]; [done| |done].
  rewrite IH. by destruct (run_pm_le c p1) as (_&_&?&_).
Qed.
End lemmas.
#[global] Arguments pm_step {OV T RI}.
#[global] Arguments pm_any_step {OV T RI}.

Section theorems.
Context `{OV : OverflowMode} {T : Type} `{RI : RoundIntervalStrategy T}.
Implicit Types p : Pacemaker T.

(** Entering a round succeeds exactly for rounds above the current one.
    The event is a QC event iff the round directly follows the last ordered
    one (or an earlier one), otherwise it counts the rounds since; its
    timeout is the strategy's for that count and agrees with
    [current_round_timeout] afterwards; a refused call changes nothing. *)
Theorem enter_new_round_correct round p :
  highest_ordered_round p < u64_max →
  let '(p', r) := enter_new_round round p in
  let since := round - (highest_ordered_round p + 1) in
  (pm_current_round p < round →
     p' = set_current_round round p ∧
     ∃ ev, r = Ok ev ∧ ev_round ev = round ∧
       (ev_reason ev = NrQuorumCertificate ↔ round ≤ highest_ordered_round p + 1) ∧
       (∀ n, ev_reason ev = NrTimeout n ↔ n = since ∧ 0 < n) ∧
       ev_timeout_duration ev = get_round_duration (interval_strategy p) since ∧
       current_round_timeout (E:=Error) p' = Ok (ev_timeout_duration ev)) ∧
  (round ≤ pm_current_round p → p' = p ∧ ∃ e, r = Err e).
Proof.
  intros Hh. rewrite enter_new_round_effect. case_decide as Hr.
  - rewrite rounds_since_ordered_ok by done. split; [|lia]. intros _.
    split; [done|]. eexists. split; [done|]. unfold new_round_event; cbn.
    destruct (N.eqb_spec (round - (highest_ordered_round p + 1)) 0);
      (split_and!; [done| | |done|]);
      try (unfold current_round_timeout; by rewrite rounds_since_ordered_ok).
    + split; [lia|done].
    + split; [done|lia].
    + split; [done|lia].
    + intros n'. split; [intros [= <-]; lia|by intros [-> _]].
  - split; [lia|]. by eauto.
Qed.

(** Outside [reset] no sequence of calls lowers the current round or the
    highest ordered round, and no round already passed can be entered again. *)
Theorem rounds_never_decrease p p' :
  rtc pm_step p p' →
  pm_le p p' ∧
  ∀ round, round ≤ pm_current_round p → ∃ e, enter_new_round round p' = (p', Err e).
Proof.
  intros Hs. assert (Hle : pm_le p p').
  { induction Hs as [|? ? ? [c <-] _ IH]; [done|]. etrans; [apply run_pm_le|done]. }
  split; [done|]. intros round Hr. destruct Hle as [? _].
  rewrite enter_new_round_effect. rewrite decide_False by lia. eauto.
Qed.
End theorems.

Section backoff.
Context (powf : f64 → f64 → f64).
(** What the crate relies on: powers of two with small exponents are exact. *)
Definition powf_exact_two : Prop :=
  ∀ k, k ≤ 8 → powf (f64_of_N 2) (f64_of_N k) = f64_of_N (2 ^ k).

Lemma default_strategy_new {E} :
  powf_exact_two →
  ExponentialIntervalStrategy_new (E:=E) powf (from_millis 1000) (f64_of_N 2) 8 =
    Ok (mkExponential 1000 (f64_of_N 2) 8).
Proof.
  intros Hp. unfold ExponentialIntervalStrategy_new. rewrite (Hp 8) by done. done.
Qed.
Lemma le8_elem k : k ≤ 8 → k ∈ N.of_nat <$> seq 0 9.
Proof.
  intros. apply list_elem_of_fmap. exists (N.to_nat k). rewrite elem_of_seq. lia.
Qed.
(** The nine multipliers. *)
Lemma default_durations k :
  k ≤ 8 →
  f64_to_u64 (f64_ceil (f64_mul (f64_of_N 1000) (f64_of_N (2 ^ k)))) = 1000 * 2 ^ k.
Proof.
  intros Hk%le8_elem. revert k Hk. apply Forall_forall. repeat constructor.
Qed.

(** The durations of the default back-off, by the number of rounds since the
    last ordered one. *)
Definition default_duration (since : N) : Duration :=
  from_millis (1000 * 2 ^ (as_u32 since `min` 8)).

Lemma default_duration_eq i :
  powf_exact_two →
  exponential_duration powf (mkExponential 1000 (f64_of_N 2) 8) i = default_duration i.
Proof.
  intros Hp. unfold exponential_duration, default_duration. simpl ex_exponent_base.
  simpl base_ms. simpl ex_max_exponent. change (as_u32 8) with 8.
  rewrite (Hp (as_u32 i `min` 8)) by lia. by rewrite default_durations by lia.
Qed.
Lemma default_duration_values i :
  (i ≤ 8 → default_duration i = from_millis (1000 * 2 ^ i)) ∧
  (8 ≤ i < 2 ^ 32 → default_duration i = from_millis 256000) ∧
  default_duration (i + 2 ^ 32) = default_duration i.
Proof.
  assert (Hs : i < 2 ^ 32 → as_u32 i = i) by (intros; by apply N.mod_small).
  unfold default_duration. split_and!.
  - intros Hi. rewrite Hs by (eapply N.le_lt_trans; [exact Hi|done]).
    by rewrite N.min_l.
  - intros [Hi Hlt]. rewrite Hs by done. by rewrite N.min_r.
  - do 4 f_equal. unfold as_u32. change (bound 32) with (2 ^ 32).
    by rewrite <- (N.Div0.add_mod_idemp_r i), N.Div0.mod_same, N.add_0_r.
Qed.

(** C35: Let [powf], whose precision Rust leaves open, be exact on the powers of
    two up to 2^8.  Then the pacemaker built with the default back-off is in its
    initial round, and through any calls, [reset] included, as long as the
    highest ordered round is below [u64::MAX]: a round it enters times out after
    one second, doubled for every round between the one after the last ordered
    round and the entered one, up to 256 seconds, and [current_round_timeout] is
    the same duration for the current round.  The number of these rounds is
    truncated to 32 bits first, so the back-off starts over at the base duration
    after 2^32 rounds without an ordered one. *)
Theorem default_backoff `{OV : OverflowMode} initial :
  powf_exact_two →
  ∃ p, build_exponential (E:=Error) powf
         (with_initial_round initial PacemakerBuilder_new) = Ok p ∧
    pm_current_round p = initial ∧ highest_ordered_round p = initial - 1 ∧
    ∀ p', rtc (pm_any_step (RI:=exponential_duration powf)) p p' →
      highest_ordered_round p' < u64_max →
      let since round := round - (highest_ordered_round p' + 1) in
      (∀ round, pm_current_round p' < round → ∃ p'' ev,
         enter_new_round (RI:=exponential_duration powf) round p' = (p'', Ok ev) ∧
         ev_timeout_duration ev = default_duration (since round)) ∧
      current_round_timeout (RI:=exponential_duration powf) (E:=Error) p' =
        Ok (default_duration (since (pm_current_round p'))) ∧
      (∀ i, i ≤ 8 → default_duration i = from_millis (1000 * 2 ^ i)) ∧
      (∀ i, 8 ≤ i < 2 ^ 32 → default_duration i = from_millis 256000) ∧
      (∀ i, default_duration (i + 2 ^ 32) = default_duration i).
Proof.
  intros Hp. unfold build_exponential. cbn [pb_config with_initial_round
    PacemakerBuilder_new exponent_base max_exponent PacemakerConfig_default].
  change (base_duration _) with (from_millis 1000).
  rewrite default_strategy_new by done.
  eexists. split; [done|]. split_and!; [done..|].
  intros p' Hs%pm_any_strategy Hh. cbn in Hs.
  split_and!; [| |apply default_duration_values|apply default_duration_values|
    apply default_duration_values].
  - intros round Hr. rewrite enter_new_round_effect, decide_True by done.
    rewrite rounds_since_ordered_ok by done. eexists _, _. split; [done|].
    cbn. rewrite Hs. by apply default_duration_eq.
  - unfold current_round_timeout. rewrite rounds_since_ordered_ok by done. cbn.
    rewrite Hs. f_equal. by apply default_duration_eq.
Qed.
End backoff.

Section witnesses.
(** A strategy, and a [powf] that is exact on integral exponents. *)
Definition linear_strategy : RoundIntervalStrategy unit := λ _ n, from_millis (100 * (n + 1)).
Definition exact_powf (x y : f64) : f64 :=
  N.iter (f64_to_u64 y) (f64_mul x) f64_one.
Definition pacemaker_at (cur ordered : N) : Pacemaker unit :=
  mkPacemaker tt ordered cur PacemakerConfig_default.

Lemma enter_new_round_correct_witness :
  ∃ ev, (@enter_new_round debug_build unit linear_strategy 9 (pacemaker_at 4 5)).2 = Ok ev ∧
    ev_reason ev = NrTimeout 3 ∧ ev_timeout_duration ev = from_millis 400.
Proof.
  pose proof (@enter_new_round_correct debug_build unit linear_strategy 9
    (pacemaker_at 4 5) ltac:(by vm_compute)) as H.
  destruct (@enter_new_round _ _ _ _ _) as [p' r]. destruct H as [H _].
  destruct (H ltac:(by vm_compute)) as (_&ev&->&_&_&Hn&Ht&_).
  exists ev. split; [done|]. split; [|by rewrite Ht].
  apply Hn. by vm_compute.
Defined.

Lemma rounds_never_decrease_witness :
  ∃ e, (@enter_new_round debug_build unit linear_strategy 4
     (@enter_new_round debug_build unit linear_strategy 9 (pacemaker_at 4 5)).1).2 = Err e.
Proof.
  destruct (@rounds_never_decrease debug_build unit linear_strategy (pacemaker_at 4 5)
    (@enter_new_round debug_build unit linear_strategy 9 (pacemaker_at 4 5)).1)
    as [_ H].
  - apply rtc_once. exists (PmEnter 9). reflexivity.
  - destruct (H 4) as [e He]; [by vm_compute|]. exists e. by rewrite He.
Defined.

(** From round 1 with nothing ordered, round 4 is entered for eight seconds. *)
Lemma default_backoff_witness :
  ∃ p p' ev, build_exponential (E:=Error) exact_powf
         (with_initial_round 1 PacemakerBuilder_new) = Ok p ∧
    @enter_new_round debug_build _ (exponential_duration exact_powf) 4 p = (p', Ok ev) ∧
    ev_timeout_duration ev = from_millis 8000.
Proof.
  destruct (@default_backoff exact_powf debug_build 1) as (p&Hp&Hc&Ho&Hd).
  - intros k Hk%le8_elem. revert k Hk. apply Forall_forall. repeat constructor.
  - destruct (Hd p (rtc_refl _ _)) as (He&_&_); [by rewrite Ho|].
    destruct (He 4) as (p'&ev&Hev&Ht); [by rewrite Hc|].
    exists p, p', ev. split; [exact Hp|]. split; [exact Hev|].
    rewrite Ht, Ho. by vm_compute.
Defined.
End witnesses.
