(* ===== verification/Proposer.v ===== *)
(** * [consensus-traits/proposer.rs] and [liveness/proposer.rs]: proposer election *)
From Stdlib Require Import SpecFloat.
From S2P Require Import Prelude.
From S2P Require Import CommonTypes.
From S2P Require Import Float64.

(** ** The traits, at [Round = u64] *)

(** An election may panic (the remainder by a zero total below). *)
Class ProposerElection (PE A : Type) := {
  get_valid_proposer : PE → Round → res Error (option A);
  get_voting_power_participation_ratio : PE → Round → f64;
}.
(** The trait's default ratio. *)
Definition default_participation_ratio : f64 := f64_one.

Record ProposerInfo (A : Type) := mkProposerInfo {
  proposer : option A;
  participation_ratio : f64;
}.
Arguments mkProposerInfo {A}.
Arguments proposer {A}.
Arguments participation_ratio {A}.

Section trait_defaults.
Context {PE A : Type} `{!EqDecision A} `{!ProposerElection PE A}.

Definition is_valid_proposer (pe : PE) (author : A) (round : Round) : res Error bool :=
  p ← get_valid_proposer pe round; Ok (bool_decide (p = Some author)).
Definition get_proposer_info (pe : PE) (round : Round) : res Error (ProposerInfo A) :=
  p ← get_valid_proposer pe round;
  Ok (mkProposerInfo p (get_voting_power_participation_ratio pe round)).
Definition has_proposer (i : ProposerInfo A) : bool :=
  bool_decide (is_Some (proposer i)).
Definition is_healthy (i : ProposerInfo A) : bool :=
  f64_le (f64_div (f64_of_N 2) (f64_of_N 3)) (participation_ratio i).
End trait_defaults.

(** ** Implementations *)

Record ProposerElectionConfig := mkElectionConfig {
  num_validators_cfg : N;
  pe_initial_round : Round;
}.
Definition ProposerElectionConfig_default : ProposerElectionConfig :=
  mkElectionConfig 4 1.

Section round_robin.
Context {A : Type}.
Record RoundRobinProposer := mkRoundRobin {
  rr_validators : list A;
  rr_config : ProposerElectionConfig;
}.
Definition num_validators (rr : RoundRobinProposer) : nat :=
  length (rr_validators rr).
Definition get_validator (rr : RoundRobinProposer) (index : nat) : option A :=
  rr_validators rr !! index.

(** The subtraction cannot underflow after the second guard. *)
Definition round_robin_proposer (rr : RoundRobinProposer) (round : Round) :
    res Error (option A) :=
  if decide (rr_validators rr = []) then Ok None
  else if round <? pe_initial_round (rr_config rr) then Ok None
  else
    let round_index := round - pe_initial_round (rr_config rr) in
    let proposer_index := round_index mod N.of_nat (length (rr_validators rr)) in
    Ok (rr_validators rr !! N.to_nat proposer_index).
#[export] Instance RoundRobinProposer_election :
  ProposerElection RoundRobinProposer A := {|
  get_valid_proposer := round_robin_proposer;
  get_voting_power_participation_ratio _ _ := default_participation_ratio;
|}.
End round_robin.
#[global] Arguments RoundRobinProposer A : clear implicits.

Section weighted.
Context `{OV : OverflowMode} {A : Type}.
Record WeightedProposer := mkWeighted {
  wp_validators : list (A * N);
  wp_total_voting_power : N;
  wp_config : ProposerElectionConfig;
}.
Definition WeightedProposer_new {E} (validators : list (A * N))
    (config : ProposerElectionConfig) : res E WeightedProposer :=
  total ← sum128 validators.*2;
  Ok (mkWeighted validators total config).

(** The loop over the cumulative weights; [None] when it runs out. *)
Fixpoint weighted_loop (target cumulative : N) (l : list (A * N)) :
    res Error (option A) :=
  match l with
  | [] => Ok None
  | (validator, weight) :: l =>
      cumulative' ← add128 cumulative weight;
      if target <? cumulative' then Ok (Some validator)
      else weighted_loop target cumulative' l
  end.
Definition select_weighted_proposer (wp : WeightedProposer) (round : Round) :
    res Error (option A) :=
  if decide (wp_validators wp = []) then Ok None
  else if wp_total_voting_power wp =? 0 then Panic
  else
    let target := round mod wp_total_voting_power wp in
    found ← weighted_loop target 0 (wp_validators wp);
    match found with
    | Some v => Ok (Some v)
    | None => Ok (fst <$> last (wp_validators wp))
    end.
Definition weighted_proposer (wp : WeightedProposer) (round : Round) :
    res Error (option A) :=
  if round <? pe_initial_round (wp_config wp) then Ok None
  else select_weighted_proposer wp round.
#[export] Instance WeightedProposer_election :
  ProposerElection WeightedProposer A := {|
  get_valid_proposer := weighted_proposer;
  get_voting_power_participation_ratio _ _ := f64_one;
|}.
End weighted.
#[global] Arguments WeightedProposer A : clear implicits.

(** The trait of consensus-traits/src/proposer.rs. *)
Class ReputationTrackerTrait (T A : Type) := {
  rt_record_success : A → M T Error unit;
  rt_record_failure : A → M T Error unit;
  rt_get_reputation : T → A → f64;
  rt_reset : T → T;
}.

(** [ReputationTrackerImpl]; [entry().or_insert_with()] and the assignment
    through the entry are one insertion. *)
Section reputation.
Context {A : Type} `{Countable A}.
Record ReputationTracker := mkReputation {
  reputations : gmap A f64;
  default_reputation : f64;
}.
Implicit Types t : ReputationTracker.

Definition ReputationTracker_new (validators : list A) (default_reputation : f64) :
    ReputationTracker :=
  mkReputation (foldl (λ m v, <[v := default_reputation]> m) ∅ validators)
    default_reputation.

Definition get_reputation t (author : A) : f64 :=
  default (default_reputation t) (reputations t !! author).
Definition update_reputation {E} (author : A) (delta : f64) :
    M ReputationTracker E unit :=
  entry ← gets (λ t, get_reputation t author);
  v ← lift (f64_clamp f64_zero f64_one (f64_add entry delta));
  modify (λ t, mkReputation (<[author := v]> (reputations t)) (default_reputation t)).
Definition record_success {E} (author : A) : M ReputationTracker E unit :=
  update_reputation author (f64_lit 1 100).
Definition record_failure {E} (author : A) : M ReputationTracker E unit :=
  update_reputation author (f64_lit (-1) 10).
Definition reset_reputation t : ReputationTracker :=
  mkReputation ((λ _, default_reputation t) <$> reputations t) (default_reputation t).
#[export] Instance ReputationTracker_trait : ReputationTrackerTrait ReputationTracker A := {|
  rt_record_success := record_success;
  rt_record_failure := record_failure;
  rt_get_reputation := get_reputation;
  rt_reset := reset_reputation;
|}.
End reputation.
#[global] Arguments ReputationTracker A {_ _}.

(** [ProposerElectionImpl]: the base strategy, reputation carried along but not
    consulted. *)
Section with_reputation.
Context {A PE : Type} `{Countable A} `{!ProposerElection PE A}.
Record ProposerElectionImpl := mkElectionImpl {
  base_election : PE;
  reputation : option (ReputationTracker A);
}.
Definition ProposerElectionImpl_new (base_election : PE)
    (reputation : option (ReputationTracker A)) : ProposerElectionImpl :=
  mkElectionImpl base_election reputation.
Definition without_reputation (base_election : PE) : ProposerElectionImpl :=
  mkElectionImpl base_election None.
#[export] Instance ProposerElectionImpl_election :
  ProposerElection ProposerElectionImpl A := {|
  get_valid_proposer e := get_valid_proposer (base_election e);
  get_voting_power_participation_ratio e :=
    get_voting_power_participation_ratio (base_election e);
|}.
End with_reputation.

(** ** Lemmas *)
Section windows.
Context {A : Type}.
Implicit Types l : list A.

(** [n] consecutive rounds. *)
Definition window (round : Round) (n : nat) : list Round :=
  (λ i, round + N.of_nat i) <$> seq 0 n.

(** Walking once around a list, from any offset, visits every position. *)
Lemma window_permutation l round :
  l ≠ [] →
  (λ r, l !! N.to_nat (r mod N.of_nat (length l))) <$> window round (length l)
    ≡ₚ Some <$> l.
Proof.
  intros Hl. assert (0 < length l)%nat by (destruct l; cbn; [done|lia]).
  replace ((λ r, l !! N.to_nat (r mod N.of_nat (length l))) <$> window round (length l))
    with (Some <$> rotate (N.to_nat round) l).
  - apply fmap_Permutation. unfold rotate.
    by rewrite Permutation_app_comm, take_drop.
  - unfold window. apply list_eq. intros i. rewrite !list_lookup_fmap.
    destruct (decide (i < length l)%nat) as [Hi|Hi].
    + rewrite lookup_seq_lt by done. cbn. rewrite lookup_rotate_r by done.
      replace (rotate_nat_add (N.to_nat round) i (length l))
        with (N.to_nat ((round + N.of_nat i) mod N.of_nat (length l)))
        by (unfold rotate_nat_add;
            rewrite <- (N2Z.id (_ mod _)), Z_N_nat, N2Z.inj_mod, N2Z.inj_add,
              !nat_N_Z, N_nat_Z; reflexivity).
      destruct (lookup_lt_is_Some_2 l
        (N.to_nat ((round + N.of_nat i) mod N.of_nat (length l)))) as [x ->]; [|done].
      pose proof (N.mod_lt (round + N.of_nat i) (N.of_nat (length l))). lia.
    + rewrite !lookup_ge_None_2; [done|..]; rewrite ?length_seq, ?length_rotate; lia.
Qed.

(** Every validator as often as its weight. *)
Definition expand (l : list (A * N)) : list A :=
  l ≫= λ '(v, w), replicate (N.to_nat w) v.
Lemma expand_cons v w (l : list (A * N)) :
  expand ((v, w) :: l) = replicate (N.to_nat w) v ++ expand l.
Proof. done. Qed.
Lemma length_expand (l : list (A * N)) : length (expand l) = N.to_nat (sumN l.*2).
Proof.
  induction l as [|[v w] l IH]; [done|].
  rewrite expand_cons, length_app, length_replicate, IH, fmap_cons, sumN_cons.
  cbn [snd]. lia.
Qed.
End windows.

Section elections.
Context `{OV : OverflowMode} {A : Type}.

Lemma round_robin_eq (rr : RoundRobinProposer A) round :
  rr_validators rr ≠ [] → pe_initial_round (rr_config rr) ≤ round →
  round_robin_proposer rr round =
    Ok (rr_validators rr !! N.to_nat ((round - pe_initial_round (rr_config rr))
          mod N.of_nat (length (rr_validators rr)))).
Proof.
  intros Hv Hr. unfold round_robin_proposer. rewrite decide_False by done.
  by destruct (N.ltb_spec round (pe_initial_round (rr_config rr))); [lia|].
Qed.

(** The cumulative search is a lookup in the expanded list. *)
Lemma weighted_loop_eq target cumulative (l : list (A * N)) :
  cumulative + sumN l.*2 < bound 128 → cumulative ≤ target →
  weighted_loop target cumulative l =
    Ok (expand l !! N.to_nat (target - cumulative)).
Proof.
  revert cumulative. induction l as [|[v w] l IH]; intros c Hs Hc; [done|].
  cbn [weighted_loop fmap list_fmap snd] in *. rewrite sumN_cons in Hs.
  unfold add128. rewrite expand_cons, add_w_ok by lia. cbn [mbind res_bind].
  destruct (N.ltb_spec target (c + w)).
  - rewrite lookup_app_l by (rewrite length_replicate; lia).
    by rewrite lookup_replicate_2 by lia.
  - rewrite IH by lia. rewrite lookup_app_r by (rewrite length_replicate; lia).
    rewrite length_replicate. do 2 f_equal. lia.
Qed.
Lemma weighted_early validators total config round :
  round < pe_initial_round config →
  weighted_proposer (A:=A) (mkWeighted validators total config) round = Ok None.
Proof. intros Hr. unfold weighted_proposer. cbn. by rewrite (proj2 (N.ltb_lt _ _) Hr). Qed.
Lemma weighted_eq validators config round :
  let total := sumN validators.*2 in
  0 < total → total < bound 128 → pe_initial_round config ≤ round →
  weighted_proposer (A:=A) (mkWeighted validators total config) round =
    Ok (expand validators !! N.to_nat (round mod total)).
Proof.
  intros total. subst total. intros H0 Ht Hr. unfold weighted_proposer, select_weighted_proposer.
  cbn [wp_config wp_validators wp_total_voting_power].
  destruct (N.ltb_spec round (pe_initial_round config)); [lia|].
  rewrite decide_False by (by intros ->).
  destruct (N.eqb_spec (sumN validators.*2) 0); [lia|].
  rewrite weighted_loop_eq by (rewrite ?N.add_0_l; done || apply N.le_0_l).
  cbn [mbind res_bind]. rewrite N.sub_0_r.
  destruct (lookup_lt_is_Some_2 (expand validators)
    (N.to_nat (round mod sumN validators.*2))) as [x ->]; [|done].
  rewrite length_expand. pose proof (N.mod_lt round (sumN validators.*2) ltac:(lia)). lia.
Qed.
End elections.

Section reputation_lemmas.
Context {A : Type} `{Countable A}.
Implicit Types t : ReputationTracker A.

Definition unit_interval (x : f64) : Prop :=
  f64_le f64_zero x = true ∧ f64_le x f64_one = true.
Definition reputations_bounded t : Prop :=
  unit_interval (default_reputation t) ∧ ∀ a, unit_interval (get_reputation t a).

Inductive RepCall := RepSuccess (a : A) | RepFailure (a : A) | RepReset.
Definition run_rep {E} (c : RepCall) : M (ReputationTracker A) E unit :=
  match c with
  | RepSuccess a => record_success a
  | RepFailure a => record_failure a
  | RepReset => modify reset_reputation
  end.
Definition run_reps {E} (l : list RepCall) : M (ReputationTracker A) E unit :=
  foldr (λ c k, run_rep c;; k) (mret tt) l.

Lemma update_reputation_bounded {E} a d t :
  f64_finite d = true → reputations_bounded t →
  ∃ v, unit_interval v ∧ update_reputation (E:=E) a d t =
    (mkReputation (<[a := v]> (reputations t)) (default_reputation t), Ok tt).
Proof.
  intros Hd [_ Ht]. unfold update_reputation. rewrite bind_gets.
  destruct (Ht a) as [Hlo Hhi].
  pose proof (f64_add_number _ d (f64_unit_finite _ Hlo Hhi) Hd) as Hn.
  destruct (f64_clamp (E:=E) f64_zero f64_one (f64_add (get_reputation t a) d))
    as [v|e|] eqn:Hc; [|by unfold f64_clamp in Hc..].
  exists v. split; [|by run]. by apply (f64_clamp_range (E:=E)) in Hc.
Qed.
Lemma insert_bounded a v t :
  unit_interval v → reputations_bounded t →
  reputations_bounded (mkReputation (<[a := v]> (reputations t)) (default_reputation t)).
Proof.
  intros Hv [Hd Ht]. split; [done|]. intros b. unfold get_reputation. cbn.
  rewrite lookup_insert. case_decide; [done|]. apply Ht.
Qed.
Lemma run_rep_bounded {E} c t :
  reputations_bounded t →
  ∃ t', run_rep (E:=E) c t = (t', Ok tt) ∧ reputations_bounded t' ∧
    default_reputation t' = default_reputation t.
Proof.
  intros Ht. destruct c as [a|a|]; cbn [run_rep].
  1: destruct (update_reputation_bounded (E:=E) a (f64_lit 1 100) t) as (v&Hv&He);
    [done..|]; eexists; split_and!; [exact He|by apply insert_bounded|done].
  1: destruct (update_reputation_bounded (E:=E) a (f64_lit (-1) 10) t) as (v&Hv&He);
    [done..|]; eexists; split_and!; [exact He|by apply insert_bounded|done].
  eexists. split_and!; [done| |done]. destruct Ht as [Hd Ht]. split; [done|].
  intros a. unfold get_reputation. cbn. rewrite lookup_fmap.
  by destruct (reputations t !! a).
Qed.
Lemma ReputationTracker_new_bounded l d :
  unit_interval d → reputations_bounded (ReputationTracker_new l d).
Proof.
  intros Hd. split; [done|]. intros a. unfold get_reputation. cbn.
  assert (Hm : ∀ (m : gmap A f64), unit_interval (default d (m !! a)) →
    unit_interval (default d (foldl (λ m v, <[v := d]> m) m l !! a))).
  { induction l as [|b l IH]; intros m Hm; cbn; [done|]. apply IH.
    rewrite lookup_insert. by case_decide. }
  apply Hm. by rewrite lookup_empty.
Qed.
End reputation_lemmas.

Section theorems.
Context `{OV : OverflowMode}.

(** C32: Round robin is fair: over any [n] consecutive rounds of [n]
    validators, from the initial round on, every position of the list is the
    proposer exactly once. *)
Theorem round_robin_fair {A} (rr : RoundRobinProposer A) round :
  rr_validators rr ≠ [] → pe_initial_round (rr_config rr) ≤ round →
  get_valid_proposer rr <$> window round (num_validators rr)
    ≡ₚ (λ v, Ok (Some v)) <$> rr_validators rr.
Proof.
  intros Hv Hr. set (s := pe_initial_round (rr_config rr)) in *.
  transitivity (Ok (E:=Error) <$> (Some <$> rr_validators rr));
    [|by rewrite <- list_fmap_compose].
  rewrite <- (window_permutation (rr_validators rr) (round - s)) by done.
  unfold window. rewrite <- !list_fmap_compose. unfold num_validators.
  erewrite list_fmap_ext; [reflexivity|]. intros i x _. cbn.
  rewrite round_robin_eq by (done || lia). fold s. do 4 f_equal. lia.
Qed.

(** C33: Weighted election is proportional: over any [T] consecutive rounds from
    the configured initial round on, [T] the total power, positive and below
    2^128, each validator is the proposer as many times as its weight; in every
    round before the initial one nobody is. *)
Theorem weighted_proportional {A} (validators : list (A * N)) config wp round :
  0 < sumN validators.*2 → sumN validators.*2 < bound 128 →
  pe_initial_round config ≤ round →
  WeightedProposer_new (E:=Error) validators config = Ok wp →
  get_valid_proposer wp <$> window round (N.to_nat (sumN validators.*2))
    ≡ₚ (λ v, Ok (Some v)) <$> expand validators ∧
  ∀ early, early < pe_initial_round config → get_valid_proposer wp early = Ok None.
Proof.
  intros H0 Ht Hr. unfold WeightedProposer_new. rewrite sum128_ok by done.
  intros [= <-]. split; [|by apply weighted_early].
  assert (Hne : expand validators ≠ []).
  { intros E. pose proof (length_expand validators) as L. rewrite E in L.
    cbn in L. lia. }
  transitivity (Ok (E:=Error) <$> (Some <$> expand validators));
    [|by rewrite <- list_fmap_compose].
  rewrite <- (window_permutation (expand validators) round) by done.
  rewrite length_expand, N2Nat.id. rewrite <- list_fmap_compose. unfold window.
  rewrite <- !list_fmap_compose.
  erewrite list_fmap_ext; [reflexivity|]. intros i x _. cbn.
  by rewrite weighted_eq by (done || lia).
Qed.

(** The behaviour of a weighted election on every input: before the
    initial round and for an empty list nobody is elected; a non-empty list
    whose total weight is zero panics (remainder by zero); otherwise somebody
    is elected. *)
Theorem weighted_proposer_cases {A} (validators : list (A * N)) config wp round :
  sumN validators.*2 < bound 128 →
  WeightedProposer_new (E:=Error) validators config = Ok wp →
  (get_valid_proposer wp round = Panic ↔
     pe_initial_round config ≤ round ∧ validators ≠ [] ∧ sumN validators.*2 = 0) ∧
  (get_valid_proposer wp round = Ok None ↔
     round < pe_initial_round config ∨ validators = []).
Proof.
  intros Ht. unfold WeightedProposer_new. rewrite sum128_ok by done.
  intros [= <-]. cbn [get_valid_proposer WeightedProposer_election].
  destruct (decide (round < pe_initial_round config)) as [Hr|Hr].
  { rewrite weighted_early by done. split; split; try done; [lia|by left]. }
  destruct (decide (validators = [])) as [->|Hv].
  { unfold weighted_proposer. cbn.
    destruct (N.ltb_spec round (pe_initial_round config)); [lia|]. naive_solver. }
  destruct (decide (sumN validators.*2 = 0)) as [Hz|Hz].
  { unfold weighted_proposer, select_weighted_proposer. cbn. rewrite Hz.
    destruct (N.ltb_spec round (pe_initial_round config)); [lia|].
    rewrite decide_False by done. cbn. split; split; naive_solver lia. }
  rewrite weighted_eq by lia.
  destruct (lookup_lt_is_Some_2 (expand validators)
    (N.to_nat (round mod sumN validators.*2))) as [x ->].
  { rewrite length_expand. pose proof (N.mod_lt round (sumN validators.*2) Hz). lia. }
  naive_solver.
Qed.

(** C34: Reputation scores stay between 0 and 1: from a new tracker whose
    default lies there, no sequence of successes, failures and resets panics
    or takes any author's score, in double-precision arithmetic, out of the
    interval. *)
Theorem reputation_bounded `{Countable A} (validators : list A) d calls :
  unit_interval d →
  ∃ t, run_reps (E:=Error) calls (ReputationTracker_new validators d) = (t, Ok tt) ∧
    ∀ a, unit_interval (get_reputation t a).
Proof.
  intros Hd. pose proof (ReputationTracker_new_bounded validators d Hd) as Ht.
  revert Ht. generalize (ReputationTracker_new validators d).
  induction calls as [|c l IH]; intros t Ht.
  - exists t. split; [done|]. apply Ht.
  - destruct (run_rep_bounded (E:=Error) c t Ht) as (t'&Hc&Ht'&_).
    destruct (IH t' Ht') as (t''&Hl&?). exists t''. split; [|done].
    cbn. by rewrite (bind_ok _ _ _ _ _ Hc).
Qed.
End theorems.

Section witnesses.
#[local] Existing Instance debug_build.
Definition three : RoundRobinProposer N := mkRoundRobin [7; 8; 9] (mkElectionConfig 3 1).
Lemma round_robin_fair_witness :
  get_valid_proposer three <$> window 5 3 ≡ₚ [Ok (Some 7); Ok (Some 8); Ok (Some 9)].
Proof. apply (round_robin_fair three 5); [done|by vm_compute]. Defined.

Definition weights : list (N * N) := [(7, 1); (8, 0); (9, 2)].
Lemma weighted_proportional_witness :
  ∃ wp, @WeightedProposer_new debug_build N Error weights (mkElectionConfig 3 1) = Ok wp ∧
    get_valid_proposer wp <$> window 4 3 ≡ₚ [Ok (Some 7); Ok (Some 9); Ok (Some 9)].
Proof.
  eexists. split; [reflexivity|].
  refine (proj1 (@weighted_proportional debug_build N weights (mkElectionConfig 3 1) _ 4
    _ _ _ _)); by vm_compute.
Defined.
Lemma weighted_proposer_cases_witness :
  ∃ wp, @WeightedProposer_new debug_build N Error [(7, 0)] (mkElectionConfig 3 1) = Ok wp ∧
    get_valid_proposer wp 4 = Panic.
Proof.
  eexists. split; [reflexivity|].
  refine (proj2 (proj1 (@weighted_proposer_cases debug_build N [(7, 0)]
    (mkElectionConfig 3 1) _ 4 _ _)) _); by vm_compute.
Defined.
Lemma reputation_bounded_witness :
  ∃ t, run_reps (E:=Error) [RepFailure 7; RepSuccess 8; RepFailure 7; RepReset; RepFailure 9]
         (ReputationTracker_new [7; 8] (f64_lit 1 2)) = (t, Ok tt) ∧
    unit_interval (get_reputation t 9).
Proof.
  destruct (reputation_bounded [7; 8] (f64_lit 1 2)
    [RepFailure 7; RepSuccess 8; RepFailure 7; RepReset; RepFailure 9])
    as (t&Ht&Hu); [by vm_compute|]. exists t. split; [exact Ht|apply Hu].
Defined.
End witnesses.
