(* ===== verification/EpochManager.v ===== *)
(** * [epoch_manager/mod.rs]: epoch transitions *)
From S2P Require Import Prelude.
From S2P Require Import CommonTypes.

Record EpochManagerConfig := mkEpochManagerConfig {
  emc_initial_epoch : Epoch;
  auto_transition : bool;
}.
Definition EpochManagerConfig_default : EpochManagerConfig :=
  mkEpochManagerConfig 0 false.

Record EpochState := mkEpochState {
  es_epoch : Epoch;
  start_time : N;
}.
Definition EpochState_new (epoch : Epoch) (start_time : N) : EpochState :=
  mkEpochState epoch start_time.

Inductive EpochTransitionError :=
| OldEpoch (current proposed : Epoch)
| SkippedEpoch (current proposed : Epoch)
| InvalidTransition (msg : string).
#[export] Instance EpochTransitionError_eq_dec : EqDecision EpochTransitionError.
Proof. solve_decision. Defined.
Definition EpochTransitionError_to_string (e : EpochTransitionError) : string :=
  match e with
  | OldEpoch current proposed =>
      "Cannot transition to epoch " +:+ pretty proposed +:+ ": already at epoch "
        +:+ pretty current
  | SkippedEpoch current proposed =>
      "Cannot skip epochs: current=" +:+ pretty current +:+ ", proposed="
        +:+ pretty proposed
  | InvalidTransition msg => "Invalid epoch transition: " +:+ msg
  end.

Record EpochManager := mkEpochManager {
  epoch_state : EpochState;
  em_config : EpochManagerConfig;
}.
Definition EpochManager_new (config : EpochManagerConfig) : EpochManager :=
  mkEpochManager (EpochState_new (emc_initial_epoch config) 0) config.
Definition em_epoch (m : EpochManager) : Epoch := es_epoch (epoch_state m).

Section epoch_manager.
Context `{OV : OverflowMode}.
Implicit Types m : EpochManager.

(** [now]: the seconds since the Unix epoch, [None] when the clock is before
    it. *)
Definition start_new_epoch (epoch : Epoch) (now : option N) :
    M EpochManager EpochTransitionError unit :=
  cur ← gets em_epoch;
  if epoch <=? cur then throw (OldEpoch cur epoch)
  else
    next ← lift (add64 cur 1);
    if negb (epoch =? next) then throw (SkippedEpoch cur epoch)
    else
      let start_time := default 0 now in
      modify (λ m, mkEpochManager (EpochState_new epoch start_time) (em_config m)).

Definition check_epoch_transition m : bool :=
  if negb (auto_transition (em_config m)) then false else false.

Definition force_next_epoch (now : option N) :
    M EpochManager EpochTransitionError unit :=
  cur ← gets em_epoch;
  next_epoch ← lift (add64 cur 1);
  start_new_epoch next_epoch now.

(** ** Lemmas *)
Lemma start_new_epoch_effect epoch now m :
  is_u64 epoch →
  start_new_epoch epoch now m =
    if decide (epoch ≤ em_epoch m) then (m, Err (OldEpoch (em_epoch m) epoch))
    else if decide (epoch = em_epoch m + 1)
    then (mkEpochManager (mkEpochState epoch (default 0 now)) (em_config m), Ok tt)
    else (m, Err (SkippedEpoch (em_epoch m) epoch)).
Proof.
  intros Hu. unfold start_new_epoch. rewrite bind_gets.
  destruct (N.leb_spec epoch (em_epoch m)).
  { by rewrite decide_True. }
  rewrite decide_False by lia. run. rewrite add64_ok by nlia. cbn.
  destruct (N.eqb_spec epoch (em_epoch m + 1)); cbn.
  - by rewrite decide_True.
  - by rewrite decide_False.
Qed.
Lemma force_next_epoch_effect now m :
  em_epoch m < u64_max →
  force_next_epoch now m = start_new_epoch (em_epoch m + 1) now m.
Proof.
  intros. unfold force_next_epoch. rewrite bind_gets. run. by rewrite add64_ok by nlia.
Qed.

(** The public calls and their outcomes. *)
Inductive EpochCall := CallStart (epoch : Epoch) | CallForce.
Definition run_epoch_call (c : EpochCall) (now : option N) :
    M EpochManager EpochTransitionError unit :=
  match c with
  | CallStart e => start_new_epoch e now
  | CallForce => force_next_epoch now
  end.
(** Runs calls in order, at the clock readings given, and counts successes. *)
Fixpoint run_epoch_calls (l : list (EpochCall * option N)) m : EpochManager * N :=
  match l with
  | [] => (m, 0)
  | (c, now) :: l =>
      let '(m1, r) := run_epoch_call c now m in
      let '(m2, n) := run_epoch_calls l m1 in
      (m2, (if is_ok r then 1 else 0) + n)
  end.
Definition call_u64 (c : EpochCall) : Prop :=
  match c with CallStart e => is_u64 e | CallForce => True end.

Lemma run_epoch_call_counts c now m :
  is_u64 (em_epoch m) → call_u64 c →
  let '(m', r) := run_epoch_call c now m in
  (r = Ok tt ∧ em_epoch m' = em_epoch m + 1 ∧ em_epoch m < u64_max ∨
   is_ok r = false ∧ m' = m) ∧
  em_config m' = em_config m.
Proof.
  intros Hm Hc. destruct c as [e|]; cbn [run_epoch_call].
  - rewrite start_new_epoch_effect by done. repeat case_decide; cbn; [naive_solver| |naive_solver].
    split; [|done]. left. cbn in Hc. split_and!; [done|done|nlia].
  - unfold force_next_epoch. rewrite bind_gets. run.
    destruct (succ64_cases (E:=EpochTransitionError) (em_epoch m) Hm) as [[Hlt ->]|[Heq ->]].
    + rewrite start_new_epoch_effect by nlia.
      rewrite decide_False by lia. rewrite decide_True by done. cbn. naive_solver.
    + destruct overflow_checks; [naive_solver|].
      rewrite start_new_epoch_effect by nlia. rewrite decide_True by lia. naive_solver.
Qed.
End epoch_manager.

Section theorems.
Context `{OV : OverflowMode}.
Implicit Types m : EpochManager.

(** A transition succeeds exactly for the epoch one above the current one;
    lower or equal epochs are [OldEpoch], higher ones [SkippedEpoch], both
    leave the manager as it was, and no [u64] argument overflows the
    addition. *)
Theorem start_new_epoch_correct epoch now m :
  is_u64 epoch →
  let '(m', r) := start_new_epoch epoch now m in
  (r = Ok tt ↔ epoch = em_epoch m + 1) ∧
  (r = Err (OldEpoch (em_epoch m) epoch) ↔ epoch ≤ em_epoch m) ∧
  (r = Err (SkippedEpoch (em_epoch m) epoch) ↔ em_epoch m + 1 < epoch) ∧
  (r = Ok tt → epoch_state m' = mkEpochState epoch (default 0 now)) ∧
  (r ≠ Ok tt → m' = m) ∧ r ≠ Panic.
Proof.
  intros Hu. rewrite start_new_epoch_effect by done.
  repeat case_decide; split_and!;
    first [done | split; intros; simplify_eq; (done || lia)].
Qed.

(** Epochs advance one at a time: over any sequence of transitions, forced
    or not and whatever their outcomes, the epoch has grown by exactly the
    number of successful calls. *)
Theorem epoch_counts_successes calls m :
  is_u64 (em_epoch m) → Forall (call_u64 ∘ fst) calls →
  let '(m', n) := run_epoch_calls calls m in
  em_epoch m' = em_epoch m + n ∧ is_u64 (em_epoch m') ∧ em_config m' = em_config m.
Proof.
  revert m. induction calls as [|[c now] l IH]; intros m Hm Hl; cbn.
  { split_and!; [lia|done|done]. }
  apply Forall_cons in Hl as [Hc Hl].
  pose proof (run_epoch_call_counts c now m Hm Hc) as H.
  destruct (run_epoch_call c now m) as [m1 r]. destruct H as [H Hcfg].
  assert (Hm1 : is_u64 (em_epoch m1) ∧ em_epoch m1 = em_epoch m + (if is_ok r then 1 else 0)).
  { destruct H as [(->&->&?)|[-> ->]]; cbn; split; try done; nlia. }
  destruct Hm1 as [Hu1 He1]. specialize (IH m1 Hu1 Hl).
  destruct (run_epoch_calls l m1) as [m2 n]. destruct IH as (->&?&->).
  split_and!; [lia|done|done].
Qed.
End theorems.

Section witnesses.
Definition em0 : EpochManager := EpochManager_new EpochManagerConfig_default.
Lemma start_new_epoch_correct_witness :
  (@start_new_epoch debug_build 2 None em0).2 = Err (SkippedEpoch 0 2).
Proof.
  pose proof (@start_new_epoch_correct debug_build 2 None em0 ltac:(by vm_compute)) as H.
  destruct (start_new_epoch 2 None em0) as [m' r]. destruct H as (_&_&[_ H]&_).
  apply H. by vm_compute.
Defined.
Lemma epoch_counts_successes_witness :
  em_epoch (@run_epoch_calls debug_build
    [(CallForce, None); (CallStart 1, None); (CallStart 2, Some 9)] em0).1 = 2.
Proof.
  pose proof (@epoch_counts_successes debug_build
    [(CallForce, None); (CallStart 1, None); (CallStart 2, Some 9)] em0) as H.
  destruct (run_epoch_calls _ em0) as [m' n] eqn:E. vm_compute in E.
  injection E as <- <-. refine (proj1 (H _ _)); [by vm_compute|].
  repeat constructor; by vm_compute.
Defined.
End witnesses.
