(* ===== verification/ProposalGenerator.v ===== *)
(** * [proposal/generator.rs]: building block proposals *)
From S2P Require Import Prelude.
From S2P Require Import Traits.
From S2P Require Import CommonTypes.

Record ProposalConfig := mkProposalConfig {
  max_block_txns : N;
  max_block_bytes : N;
  include_timestamp : bool;
}.
#[export] Instance ProposalConfig_eq_dec : EqDecision ProposalConfig.
Proof. solve_decision. Defined.
Definition ProposalConfig_default : ProposalConfig :=
  mkProposalConfig 10000 (10 * 1024 * 1024) true.

Section generator.
Context `{CH : Chain}.

Record ProposalGenerator := mkGenerator {
  pg_config : ProposalConfig;
  author_id : MNode;
}.
Definition ProposalGenerator_new (config : ProposalConfig) (author_id : MNode) :
    ProposalGenerator := mkGenerator config author_id.
(** [now_ms]: the milliseconds since the Unix epoch as [u128], [None] when the
    clock is before it.  The closure that builds the block is an argument. *)
Definition generate_proposal (g : ProposalGenerator) (now_ms : option N)
    (parent_qc : QCert) (round : Round) (epoch : Epoch) (txns : list Tx)
    (block_builder : ProposalGenerator → Round → Epoch → QHash → N → list Tx → Blk) :
    res Error Blk :=
  let parent_id := qc_block_id parent_qc in
  let timestamp :=
    if include_timestamp (pg_config g) then default 0 ((λ ms, ms mod bound 64) <$> now_ms)
    else 0 in
  Ok (block_builder g round epoch parent_id timestamp txns).
Definition update_config (config : ProposalConfig) (g : ProposalGenerator) :
    ProposalGenerator := mkGenerator config (author_id g).
End generator.
