(* ===== verification/Pipeline.v ===== *)
(** * [pipeline/mod.rs]: the processing pipeline *)
From S2P Require Import Prelude.
From S2P Require Import Traits.
From S2P Require Import Mocks.
From S2P Require Import Pacemaker.

Inductive Stage := Receiving | Validation | Processing | SCommit.
#[export] Instance Stage_eq_dec : EqDecision Stage.
Proof. solve_decision. Defined.
Definition Stage_next (s : Stage) : option Stage :=
  match s with
  | Receiving => Some Validation
  | Validation => Some Processing
  | Processing => Some SCommit
  | SCommit => None
  end.
Definition Stage_name (s : Stage) : string :=
  match s with
  | Receiving => "receiving"
  | Validation => "validation"
  | Processing => "processing"
  | SCommit => "commit"
  end.
(** [stage as usize]. *)
Definition Stage_index (s : Stage) : nat :=
  match s with Receiving => 0 | Validation => 1 | Processing => 2 | SCommit => 3 end.

Record PipelineConfig := mkPipelineConfig {
  stage_timeout_ms : N;
  max_concurrent : N;
  pl_validate_immediately : bool;
  parallel_processing : bool;
}.
Definition PipelineConfig_default : PipelineConfig := mkPipelineConfig 5000 10 true false.
Definition stage_timeout (c : PipelineConfig) : Duration :=
  from_millis (stage_timeout_ms c).

Inductive StageResult :=
| SrContinue
| SrStop (reason : string)
| SrSkip (reason : string).
Definition should_continue (r : StageResult) : bool :=
  match r with SrContinue => true | _ => false end.

Inductive PipelineResult :=
| PlCompleted
| PlStopped (stage : Stage) (reason : string)
| PlSkipped (stage : Stage) (reason : string).
Definition is_completed (r : PipelineResult) : bool :=
  match r with PlCompleted => true | _ => false end.
Definition final_stage (r : PipelineResult) : option Stage :=
  match r with
  | PlCompleted => None
  | PlStopped stage _ | PlSkipped stage _ => Some stage
  end.

(** [stage_counts: [u64; 4]] is a list of length four. *)
Record PipelineStats := mkPipelineStats {
  stage_counts : list N;
  pl_total_processed : N;
  pl_failed : N;
  pl_skipped : N;
}.
Definition PipelineStats_default : PipelineStats := mkPipelineStats [0; 0; 0; 0] 0 0 0.

Record Pipeline := mkPipeline {
  pl_config : PipelineConfig;
  pl_current_stage : Stage;
  pl_stats : PipelineStats;
}.
Definition Pipeline_new (config : PipelineConfig) : Pipeline :=
  mkPipeline config Receiving PipelineStats_default.
Definition pipeline_reset (p : Pipeline) : Pipeline :=
  mkPipeline (pl_config p) Receiving (pl_stats p).

Section pipeline.
Context `{OV : OverflowMode} {B V : Type}.

Definition on_stats {E A} (m : M PipelineStats E A) : M Pipeline E A :=
  zoom pl_stats (λ s p, mkPipeline (pl_config p) (pl_current_stage p) s) m.

(** [self.stats.stage_counts[stage as usize] += 1]. *)
Definition count_stage {E} (stage : Stage) : M PipelineStats E unit :=
  cs ← gets stage_counts;
  match cs !! Stage_index stage with
  | None => lift Panic
  | Some c =>
      c' ← lift (add64 c 1);
      modify (λ s, mkPipelineStats (<[Stage_index stage := c']> (stage_counts s))
                     (pl_total_processed s) (pl_failed s) (pl_skipped s))
  end.
(** [self.stats.total_processed += 1], and the same for the two others. *)
Definition count_total {E} : M PipelineStats E unit :=
  n ← gets pl_total_processed; n' ← lift (add64 n 1);
  modify (λ s, mkPipelineStats (stage_counts s) n' (pl_failed s) (pl_skipped s)).
Definition count_failed {E} : M PipelineStats E unit :=
  n ← gets pl_failed; n' ← lift (add64 n 1);
  modify (λ s, mkPipelineStats (stage_counts s) (pl_total_processed s) n' (pl_skipped s)).
Definition count_skipped {E} : M PipelineStats E unit :=
  n ← gets pl_skipped; n' ← lift (add64 n 1);
  modify (λ s, mkPipelineStats (stage_counts s) (pl_total_processed s) (pl_failed s) n').

Definition process_at_stage (p : Pipeline) (stage : Stage) (block : B) :
    res Error StageResult :=
  match stage with
  | Receiving => Ok SrContinue
  | Validation => Ok SrContinue
  | Processing => Ok SrContinue
  | SCommit => Ok SrContinue
  end.
Definition process_vote_at_stage (p : Pipeline) (vote : V) : res Error StageResult :=
  Ok SrContinue.

(** The [loop] of [process_block], on fuel; [None] when the fuel runs out. *)
Fixpoint pipeline_loop (fuel : nat) (current_stage : Stage) (block : B) :
    M Pipeline Error (option PipelineResult) :=
  match fuel with
  | O => mret None
  | S fuel =>
      on_stats (count_stage current_stage);;
      on_stats count_total;;
      p ← get;
      result ← lift (process_at_stage p current_stage block);
      match result with
      | SrContinue =>
          match Stage_next current_stage with
          | Some next => pipeline_loop fuel next block
          | None => mret (Some PlCompleted)
          end
      | SrStop reason =>
          on_stats count_failed;; mret (Some (PlStopped current_stage reason))
      | SrSkip reason =>
          on_stats count_skipped;; mret (Some (PlSkipped current_stage reason))
      end
  end.
Definition pipeline_process_block (fuel : nat) (block : B) :
    M Pipeline Error (option PipelineResult) :=
  pipeline_loop fuel Receiving block.
(** The method at a fuel of four, one iteration per stage; [None] does not
    occur ([process_block_completes]). *)
Definition process_block (block : B) : M Pipeline Error PipelineResult :=
  r ← pipeline_process_block 4 block;
  match r with Some r => mret r | None => lift Panic end.

Definition pipeline_process_vote (vote : V) : M Pipeline Error PipelineResult :=
  on_stats (count_stage Receiving);;
  on_stats count_total;;
  p ← get;
  result ← lift (process_vote_at_stage p vote);
  match result with
  | SrContinue => mret PlCompleted
  | SrStop reason => mret (PlStopped Processing reason)
  | SrSkip reason => mret (PlSkipped Processing reason)
  end.
Definition pipeline_process_qc : M Pipeline Error PipelineResult := mret PlCompleted.
End pipeline.

(** ** The builder *)
Record PipelineBuilder := mkPipelineBuilder { plb_config : PipelineConfig }.
Definition PipelineBuilder_new : PipelineBuilder := mkPipelineBuilder PipelineConfig_default.
Definition with_stage_timeout_ms (timeout : N) (b : PipelineBuilder) : PipelineBuilder :=
  let c := plb_config b in
  mkPipelineBuilder (mkPipelineConfig timeout (max_concurrent c)
    (pl_validate_immediately c) (parallel_processing c)).
Definition with_max_concurrent (max : N) (b : PipelineBuilder) : PipelineBuilder :=
  let c := plb_config b in
  mkPipelineBuilder (mkPipelineConfig (stage_timeout_ms c) max
    (pl_validate_immediately c) (parallel_processing c)).
Definition with_validate_immediately (v : bool) (b : PipelineBuilder) : PipelineBuilder :=
  let c := plb_config b in
  mkPipelineBuilder (mkPipelineConfig (stage_timeout_ms c) (max_concurrent c) v
    (parallel_processing c)).
Definition with_parallel_processing (v : bool) (b : PipelineBuilder) : PipelineBuilder :=
  let c := plb_config b in
  mkPipelineBuilder (mkPipelineConfig (stage_timeout_ms c) (max_concurrent c)
    (pl_validate_immediately c) v).
Definition build_pipeline (b : PipelineBuilder) : Pipeline := Pipeline_new (plb_config b).

(** ** Lemmas *)
Section lemmas.
Context `{OV : OverflowMode} {B V : Type}.
Implicit Types p : Pipeline.

(** The pipeline of configuration [c] after [b] blocks and [v] votes. *)
Definition pipeline_after (c : PipelineConfig) (b v : N) : Pipeline :=
  mkPipeline c Receiving (mkPipelineStats [b + v; b; b; b] (4 * b + v) 0 0).

Lemma process_block_effect fuel (block : B) c b v :
  (4 ≤ fuel)%nat → 4 * (b + 1) + v ≤ u64_max →
  pipeline_process_block fuel block (pipeline_after c b v) =
    (pipeline_after c (b + 1) v, Ok (Some PlCompleted)).
Proof.
  intros Hf Hu. do 4 (destruct fuel as [|fuel]; [lia|]). clear Hf.
  unfold pipeline_process_block, pipeline_loop, pipeline_after, on_stats,
    count_stage, count_total. run.
  repeat (rewrite add64_ok by lia; cbn). arith_congruence.
Qed.
Lemma process_block_counts (block : B) c b v :
  4 * (b + 1) + v ≤ u64_max →
  process_block block (pipeline_after c b v) = (pipeline_after c (b + 1) v, Ok PlCompleted).
Proof.
  intros Hu. unfold process_block.
  by rewrite (bind_ok _ _ _ _ _ (process_block_effect 4 block c b v ltac:(lia) Hu)).
Qed.
(** Four iterations suffice in every state: the loop never runs out of
    fuel, and a run that returns has completed. *)
Lemma process_at_stage_continues p st (block : B) :
  process_at_stage p st block = Ok SrContinue.
Proof. by destruct st. Qed.
Lemma pipeline_loop_completes fuel st (block : B) p p' o :
  (4 ≤ fuel + Stage_index st)%nat →
  pipeline_loop fuel st block p = (p', Ok o) → o = Some PlCompleted.
Proof.
  revert st p. induction fuel as [|fuel IH]; intros st p Hf H.
  { destruct st; cbn in Hf; lia. }
  cbn [pipeline_loop] in H. apply bind_ok_inv in H as (p1&[]&_&H).
  apply bind_ok_inv in H as (p2&[]&_&H). apply bind_ok_inv in H as (p3&q&_&H).
  rewrite process_at_stage_continues in H.
  apply bind_lift_ok_inv in H as (x&[= <-]&H).
  destruct (Stage_next st) as [st'|] eqn:Hn; [|by injection H as _ <-].
  eapply IH; [|exact H]. destruct st; cbn in Hn; simplify_eq; cbn in *; lia.
Qed.
(** With at least an iteration per remaining stage, fuel does not matter. *)
Lemma pipeline_loop_fuel fuel fuel' st (block : B) p :
  (4 ≤ fuel + Stage_index st)%nat → (4 ≤ fuel' + Stage_index st)%nat →
  pipeline_loop fuel st block p = pipeline_loop fuel' st block p.
Proof.
  revert fuel' st p. induction fuel as [|fuel IH]; intros fuel' st p Hf Hf'.
  { destruct st; cbn in Hf; lia. }
  destruct fuel' as [|fuel']; [destruct st; cbn in Hf'; lia|]. cbn [pipeline_loop].
  unfold mbind, M_bind. destruct (on_stats (count_stage st) p) as [p1 [[]| |]]; [|done..].
  destruct (on_stats count_total p1) as [p2 [[]| |]]; [|done..]. unfold get, lift.
  rewrite process_at_stage_continues. destruct (Stage_next st) as [st'|] eqn:Hn; [|done].
  apply IH; destruct st; cbn in Hn; simplify_eq; cbn in *; lia.
Qed.
Lemma process_block_completes (block : B) p p' r :
  process_block block p = (p', Ok r) → r = PlCompleted.
Proof.
  unfold process_block. intros (p1&o&H1&H)%bind_ok_inv.
  apply pipeline_loop_completes in H1 as ->; [|cbn; lia]. by injection H as _ <-.
Qed.

(** Every stage is counted, once; the counters are of 64 bits. *)
Definition counted (n0 n1 n2 n3 t f s : N) : PipelineStats :=
  mkPipelineStats [n0; n1; n2; n3] t f s.
Definition room (n0 n1 n2 n3 t : N) : Prop :=
  n0 < u64_max ∧ n1 < u64_max ∧ n2 < u64_max ∧ n3 < u64_max ∧ t + 4 ≤ u64_max.
Lemma process_block_room (block : B) c st n0 n1 n2 n3 t f s :
  room n0 n1 n2 n3 t →
  process_block block (mkPipeline c st (counted n0 n1 n2 n3 t f s)) =
    (mkPipeline c st (counted (n0 + 1) (n1 + 1) (n2 + 1) (n3 + 1) (t + 4) f s),
     Ok PlCompleted).
Proof.
  intros (?&?&?&?&?). unfold process_block, pipeline_process_block, pipeline_loop,
    on_stats, count_stage, count_total, counted. run.
  repeat (rewrite add64_ok by nlia; cbn). arith_congruence.
Qed.
Lemma process_block_wraps (block : B) c st n0 n1 n2 n3 t f s :
  overflow_checks = false →
  let wrap n := n mod bound 64 in
  process_block block (mkPipeline c st (counted n0 n1 n2 n3 t f s)) =
    (mkPipeline c st (counted (wrap (n0 + 1)) (wrap (n1 + 1)) (wrap (n2 + 1))
       (wrap (n3 + 1)) (wrap (t + 4)) f s), Ok PlCompleted).
Proof.
  intros Ho wrap. unfold process_block, pipeline_process_block, pipeline_loop,
    on_stats, count_stage, count_total, counted. run.
  repeat (rewrite (add64_wraps _ _ Ho); cbn). unfold wrap.
  replace (t + 4) with (t + 1 + 1 + 1 + 1) by lia.
  by rewrite (N.Div0.add_mod_idemp_l (t + 1)), (N.Div0.add_mod_idemp_l (t + 1 + 1)),
    (N.Div0.add_mod_idemp_l (t + 1 + 1 + 1)).
Qed.
Lemma process_block_panics (block : B) c st n0 n1 n2 n3 t f s :
  overflow_checks = true → is_u64 n0 → is_u64 n1 → is_u64 n2 → is_u64 n3 → is_u64 t →
  ¬ room n0 n1 n2 n3 t →
  (process_block block (mkPipeline c st (counted n0 n1 n2 n3 t f s))).2 = Panic.
Proof.
  intros Ho H0 H1 H2 H3 Ht Hn. unfold process_block, pipeline_process_block, pipeline_loop,
    on_stats, count_stage, count_total, counted. run.
  pose proof (λ n, succ64_cases (E:=Error) n) as Hc. rewrite Ho in Hc.
  destruct (Hc n0 H0) as [[? ->]|[_ ->]]; cbn; [|done].
  destruct (Hc t Ht) as [[? ->]|[_ ->]]; cbn; [|done].
  destruct (Hc n1 H1) as [[? ->]|[_ ->]]; cbn; [|done].
  destruct (Hc (t + 1)) as [[? ->]|[_ ->]]; cbn; [nlia| |done].
  destruct (Hc n2 H2) as [[? ->]|[_ ->]]; cbn; [|done].
  destruct (Hc (t + 1 + 1)) as [[? ->]|[_ ->]]; cbn; [nlia| |done].
  destruct (Hc n3 H3) as [[? ->]|[_ ->]]; cbn; [|done].
  destruct (Hc (t + 1 + 1 + 1)) as [[? ->]|[_ ->]]; cbn; [nlia| |done].
  destruct Hn. unfold room. split_and!; (done || lia).
Qed.

Lemma process_vote_effect (vote : V) c b v :
  4 * b + (v + 1) ≤ u64_max →
  pipeline_process_vote vote (pipeline_after c b v) =
    (pipeline_after c b (v + 1), Ok PlCompleted).
Proof.
  intros Hu. unfold pipeline_process_vote, pipeline_after, on_stats,
    count_stage, count_total. run.
  repeat (rewrite add64_ok by lia; cbn). arith_congruence.
Qed.

Inductive PipelineCall := PcBlock (b : B) | PcVote (v : V) | PcQc | PcReset.
(** Whether the call ran to completion, at the loop bound the code needs. *)
Definition run_pipeline (c : PipelineCall) : M Pipeline Error bool :=
  match c with
  | PcBlock b => r ← pipeline_process_block 4 b;
                 mret (from_option is_completed false r)
  | PcVote v => r ← pipeline_process_vote v; mret (is_completed r)
  | PcQc => r ← pipeline_process_qc; mret (is_completed r)
  | PcReset => modify pipeline_reset;; mret true
  end.
Fixpoint run_pipeline_calls (l : list PipelineCall) : M Pipeline Error bool :=
  match l with
  | [] => mret true
  | c :: l => b ← run_pipeline c; b' ← run_pipeline_calls l; mret (b && b')
  end.
Definition blocks_of (l : list PipelineCall) : N :=
  sumN ((λ c, match c with PcBlock _ => 1 | _ => 0 end) <$> l).
Definition votes_of (l : list PipelineCall) : N :=
  sumN ((λ c, match c with PcVote _ => 1 | _ => 0 end) <$> l).
Lemma blocks_of_cons c l :
  blocks_of (c :: l) = match c with PcBlock _ => 1 | _ => 0 end + blocks_of l.
Proof. done. Qed.
Lemma votes_of_cons c l :
  votes_of (c :: l) = match c with PcVote _ => 1 | _ => 0 end + votes_of l.
Proof. done. Qed.

Lemma run_pipeline_calls_effect l c b v :
  4 * (b + blocks_of l) + (v + votes_of l) ≤ u64_max →
  run_pipeline_calls l (pipeline_after c b v) =
    (pipeline_after c (b + blocks_of l) (v + votes_of l), Ok true).
Proof.
  revert b v. induction l as [|x l IH]; intros b v Hu.
  { unfold blocks_of, votes_of. cbn. rewrite sumN_nil, !N.add_0_r. done. }
  rewrite blocks_of_cons, votes_of_cons in *. cbn [run_pipeline_calls].
  destruct x as [blk|vt| |]; cbn [run_pipeline].
  - erewrite bind_ok; [|erewrite bind_ok; [reflexivity|apply process_block_effect; lia]].
    cbn. erewrite bind_ok; [|apply IH; lia]. run. arith_congruence.
  - erewrite bind_ok; [|erewrite bind_ok; [reflexivity|apply process_vote_effect; lia]].
    cbn. erewrite bind_ok; [|apply IH; lia]. run. arith_congruence.
  - erewrite bind_ok; [|reflexivity].
    erewrite bind_ok; [|apply IH; lia]. run. arith_congruence.
  - erewrite bind_ok; [|reflexivity].
    erewrite bind_ok; [|apply IH; lia]. run. arith_congruence.
Qed.
End lemmas.
#[global] Arguments PipelineCall : clear implicits.

Section theorems.
Context `{OV : OverflowMode} {B V : Type}.

(** C39: The stage loop of [process_block] terminates: in every state of the
    pipeline and for every block four iterations are enough and more change
    nothing.  If no counter is at its end the block passes all four stages, being
    counted exactly once in each of them and four times in the total, nothing
    else changes, and the result is [Completed]: as the code is, no stage stops
    or skips a block.  If a counter of 64 bits is at its end, the call panics in
    a build with overflow checks and counts modulo 2^64 in one without. *)
Theorem stage_loop_terminates fuel (block : B) c st n0 n1 n2 n3 t f s :
  (4 ≤ fuel)%nat → is_u64 n0 → is_u64 n1 → is_u64 n2 → is_u64 n3 → is_u64 t →
  let p := mkPipeline c st (counted n0 n1 n2 n3 t f s) in
  let wrap n := n mod bound 64 in
  pipeline_process_block fuel block p = pipeline_process_block 4 block p ∧
  (pipeline_process_block fuel block p).2 ≠ Ok None ∧
  (room n0 n1 n2 n3 t → process_block block p =
     (mkPipeline c st (counted (n0 + 1) (n1 + 1) (n2 + 1) (n3 + 1) (t + 4) f s),
      Ok PlCompleted)) ∧
  (¬ room n0 n1 n2 n3 t →
   if overflow_checks then (process_block block p).2 = Panic
   else process_block block p =
     (mkPipeline c st (counted (wrap (n0 + 1)) (wrap (n1 + 1)) (wrap (n2 + 1))
        (wrap (n3 + 1)) (wrap (t + 4)) f s), Ok PlCompleted)).
Proof.
  intros Hf H0 H1 H2 H3 Ht p wrap. unfold pipeline_process_block.
  rewrite (pipeline_loop_fuel fuel 4) by (cbn; lia). split_and!.
  - done.
  - intros Ho. destruct (pipeline_loop 4 Receiving block p) as [p' r] eqn:E. cbn in Ho.
    rewrite Ho in E. apply pipeline_loop_completes in E; [done|cbn; lia].
  - apply process_block_room.
  - intros Hn. destruct overflow_checks eqn:Ho;
      [by apply process_block_panics|by apply process_block_wraps].
Qed.

(** The pipeline's loop terminates within four iterations and its
    statistics are exact: after any sequence of calls on a new pipeline every
    call has completed, each block has been counted once in every stage and
    four times in the total, each vote once in [Receiving], nothing has failed
    or been skipped, and the stage field has not moved. *)
Theorem pipeline_counts_exact config (calls : list (PipelineCall B V)) :
  4 * blocks_of calls + votes_of calls ≤ u64_max →
  let b := blocks_of calls in let v := votes_of calls in
  run_pipeline_calls calls (Pipeline_new config) =
    (mkPipeline config Receiving (mkPipelineStats [b + v; b; b; b] (4 * b + v) 0 0),
     Ok true).
Proof.
  intros Hu b v. change (Pipeline_new config) with (pipeline_after config 0 0).
  rewrite run_pipeline_calls_effect by lia. by rewrite !N.add_0_l.
Qed.
End theorems.

Section witnesses.
Definition some_calls : list (PipelineCall MockBlock MockVote) :=
  [PcBlock MockBlock_genesis; PcVote (MockVote_new (mkHash 1) (mkHash 2) 3);
   PcQc; PcReset; PcBlock MockBlock_genesis].
Lemma stage_loop_terminates_witness :
  @pipeline_process_block debug_build MockBlock 9 MockBlock_genesis
    (Pipeline_new PipelineConfig_default) =
  (pipeline_after PipelineConfig_default 1 0, Ok (Some PlCompleted)).
Proof.
  destruct (@stage_loop_terminates debug_build MockBlock 9 MockBlock_genesis
    PipelineConfig_default Receiving 0 0 0 0 0 0 0) as (H&_); [lia|by vm_compute..|].
  etransitivity; [exact H|by vm_compute].
Defined.
Lemma pipeline_counts_exact_witness :
  pl_stats (@run_pipeline_calls debug_build _ _ some_calls
    (Pipeline_new PipelineConfig_default)).1 = mkPipelineStats [3; 2; 2; 2] 9 0 0.
Proof.
  rewrite (@pipeline_counts_exact debug_build _ _ PipelineConfig_default some_calls)
    by (by vm_compute).
  reflexivity.
Defined.
End witnesses.
