(* ===== verification/Network.v ===== *)
(** * [network/mod.rs]: network messages, their handler and router *)
From S2P Require Import Prelude.
From S2P Require Import Traits.
From S2P Require Import Mocks.

Inductive NetworkMessage (B V : Type) :=
| NmProposal (block : B)
| NmVote (vote : V)
| NmTimeout (round : N)
| NmSyncRequest (round : N)
| NmSyncResponse (blocks : list B)
| NmEpochChange (epoch : N).
Arguments NmProposal {B V}.
Arguments NmVote {B V}.
Arguments NmTimeout {B V}.
Arguments NmSyncRequest {B V}.
Arguments NmSyncResponse {B V}.
Arguments NmEpochChange {B V}.
Definition NetworkMessage_to_string {B V} (m : NetworkMessage B V) : string :=
  match m with
  | NmProposal _ => "Proposal"
  | NmVote _ => "Vote"
  | NmTimeout round => "Timeout(round=" +:+ pretty round +:+ ")"
  | NmSyncRequest round => "SyncRequest(round=" +:+ pretty round +:+ ")"
  | NmSyncResponse blocks => "SyncResponse(count=" +:+ pretty (N.of_nat (length blocks)) +:+ ")"
  | NmEpochChange epoch => "EpochChange(epoch=" +:+ pretty epoch +:+ ")"
  end.

Inductive ProcessResult :=
| PrSuccess
| PrValidationFailed (reason : string)
| PrIgnored (reason : string)
| PrNeedsAction (action : string).
#[export] Instance ProcessResult_eq_dec : EqDecision ProcessResult.
Proof. solve_decision. Defined.
Definition is_success (r : ProcessResult) : bool :=
  match r with PrSuccess => true | _ => false end.

Record NetworkConfig := mkNetworkConfig {
  max_message_size : N;
  network_timeout_ms : N;
  max_pending_syncs : N;
  validate_immediately : bool;
}.
Definition NetworkConfig_default : NetworkConfig :=
  mkNetworkConfig (10 * 1024 * 1024) 5000 10 true.

Record MessageHandlerStats := mkHandlerStats {
  total_processed : N;
  successful : N;
  validation_failures : N;
  ignored : N;
  needs_action : N;
}.
Definition MessageHandlerStats_default : MessageHandlerStats := mkHandlerStats 0 0 0 0 0.

Section stats.
Context `{OV : OverflowMode}.
Abbreviation SM := (M MessageHandlerStats Error unit).
(** [self.total_processed += 1], the first statement of every recorder. *)
Definition bump_total : SM :=
  n ← gets total_processed; n' ← lift (add64 n 1);
  modify (λ s, mkHandlerStats n' (successful s) (validation_failures s) (ignored s)
                 (needs_action s)).
Definition record_success : SM :=
  bump_total;;
  n ← gets successful; n' ← lift (add64 n 1);
  modify (λ s, mkHandlerStats (total_processed s) n' (validation_failures s)
                 (ignored s) (needs_action s)).
Definition record_validation_failure : SM :=
  bump_total;;
  n ← gets validation_failures; n' ← lift (add64 n 1);
  modify (λ s, mkHandlerStats (total_processed s) (successful s) n' (ignored s)
                 (needs_action s)).
Definition record_ignored : SM :=
  bump_total;;
  n ← gets ignored; n' ← lift (add64 n 1);
  modify (λ s, mkHandlerStats (total_processed s) (successful s)
                 (validation_failures s) n' (needs_action s)).
Definition record_needs_action : SM :=
  bump_total;;
  n ← gets needs_action; n' ← lift (add64 n 1);
  modify (λ s, mkHandlerStats (total_processed s) (successful s)
                 (validation_failures s) (ignored s) n').
End stats.

(** The trait; [validate_message]'s default body is [default_validate]. *)
Class MessageHandler (Hd B V : Type) := {
  process_message : NetworkMessage B V → M Hd Error ProcessResult;
  validate_message : Hd → NetworkMessage B V → bool;
  get_stats : Hd → MessageHandlerStats;
}.
Definition default_validate {Hd B V} (h : Hd) (m : NetworkMessage B V) : bool := true.

Record SimpleMessageHandler := mkSimpleHandler {
  smh_stats : MessageHandlerStats;
  smh_config : NetworkConfig;
}.
Definition SimpleMessageHandler_new (config : NetworkConfig) : SimpleMessageHandler :=
  mkSimpleHandler MessageHandlerStats_default config.

Section handler.
Context `{OV : OverflowMode} {B V : Type}.
Definition on_handler_stats (m : M MessageHandlerStats Error unit) :
    M SimpleMessageHandler Error unit :=
  zoom smh_stats (λ s h, mkSimpleHandler s (smh_config h)) m.

Definition simple_process_message (message : NetworkMessage B V) :
    M SimpleMessageHandler Error ProcessResult :=
  h ← get;
  if validate_immediately (smh_config h) && negb (default_validate h message)
  then
    on_handler_stats record_validation_failure;;
    mret (PrValidationFailed "Message validation failed")
  else
    match message with
    | NmProposal _ | NmVote _ | NmSyncResponse _ =>
        on_handler_stats record_success;; mret PrSuccess
    | NmTimeout _ =>
        on_handler_stats record_needs_action;; mret (PrNeedsAction "Process timeout")
    | NmSyncRequest _ =>
        on_handler_stats record_needs_action;; mret (PrNeedsAction "Handle sync request")
    | NmEpochChange _ =>
        on_handler_stats record_needs_action;; mret (PrNeedsAction "Handle epoch change")
    end.
#[export] Instance SimpleMessageHandler_handler :
  MessageHandler SimpleMessageHandler B V := {|
  process_message := simple_process_message;
  validate_message := default_validate;
  get_stats := smh_stats;
|}.
End handler.

(** [MessageRouter]; [Hd] is the shared handler pointer, which the code cannot
    call mutably, so no branch of [route_message] delivers the message. *)
Section router.
Context {Hd B V : Type}.
Record MessageRouter := mkRouter {
  handlers : gmap string Hd;
  default_handler : option Hd;
  mr_config : NetworkConfig;
}.
Definition MessageRouter_new (config : NetworkConfig) : MessageRouter :=
  mkRouter ∅ None config.
Definition register_handler (message_type : string) (handler : Hd)
    (r : MessageRouter) : MessageRouter :=
  mkRouter (<[message_type := handler]> (handlers r)) (default_handler r) (mr_config r).
Definition set_default_handler (handler : Hd) (r : MessageRouter) : MessageRouter :=
  mkRouter (handlers r) (Some handler) (mr_config r).
Definition get_message_type (m : NetworkMessage B V) : string :=
  match m with
  | NmProposal _ => "proposal"
  | NmVote _ => "vote"
  | NmTimeout _ => "timeout"
  | NmSyncRequest _ => "sync_request"
  | NmSyncResponse _ => "sync_response"
  | NmEpochChange _ => "epoch_change"
  end.
Definition route_message (r : MessageRouter) (message : NetworkMessage B V) :
    res Error (option ProcessResult) :=
  match handlers r !! get_message_type message with
  | Some handler => Ok None
  | None =>
      match default_handler r with
      | Some handler => Ok None
      | None => Ok None
      end
  end.
End router.

(** ** Lemmas *)
Section lemmas.
Context `{OV : OverflowMode} {B V : Type}.

(** The messages that are answered with success, and the answer. *)
Definition msg_succeeds (m : NetworkMessage B V) : bool :=
  match m with NmProposal _ | NmVote _ | NmSyncResponse _ => true | _ => false end.
(** The handler of configuration [c] after [s] successes and [a] actions. *)
Definition handler_after (c : NetworkConfig) (s a : N) : SimpleMessageHandler :=
  mkSimpleHandler (mkHandlerStats (s + a) s 0 0 a) c.

Lemma process_message_effect m c s a :
  s + a + 1 ≤ u64_max →
  ∃ r, simple_process_message m (handler_after c s a) =
    (handler_after c (s + if msg_succeeds m then 1 else 0)
       (a + if msg_succeeds m then 0 else 1), Ok r) ∧
    is_success r = msg_succeeds m.
Proof.
  intros Hu. unfold simple_process_message, handler_after, on_handler_stats,
    record_success, record_needs_action, bump_total, default_validate.
  destruct c as [? ? ? []], m; run; repeat (rewrite add64_ok by lia; cbn);
    eexists; (split; [arith_congruence|reflexivity]).
Qed.

Fixpoint process_messages (l : list (NetworkMessage B V)) :
    M SimpleMessageHandler Error (list bool) :=
  match l with
  | [] => mret []
  | m :: l =>
      r ← process_message m; rs ← process_messages l; mret (is_success r :: rs)
  end.
Definition count_succeeding (l : list (NetworkMessage B V)) : N :=
  sumN ((λ m, if msg_succeeds m then 1 else 0) <$> l).
Lemma count_succeeding_cons m l :
  count_succeeding (m :: l) = (if msg_succeeds m then 1 else 0) + count_succeeding l.
Proof. done. Qed.
Lemma count_succeeding_le l : count_succeeding l ≤ N.of_nat (length l).
Proof.
  induction l as [|m l IH]; [done|]. rewrite count_succeeding_cons. cbn [length].
  destruct (msg_succeeds m); lia.
Qed.
Lemma process_messages_effect l c s a :
  s + a + N.of_nat (length l) ≤ u64_max →
  process_messages l (handler_after c s a) =
    (handler_after c (s + count_succeeding l)
       (a + (N.of_nat (length l) - count_succeeding l)), Ok (msg_succeeds <$> l)).
Proof.
  revert s a. induction l as [|m l IH]; intros s a Hu.
  { unfold count_succeeding. cbn. by rewrite sumN_nil, !N.add_0_r. }
  cbn [process_messages length] in *. rewrite count_succeeding_cons.
  pose proof (count_succeeding_le l).
  destruct (process_message_effect m c s a) as (r&Hr&Hs); [lia|].
  erewrite bind_ok; [|exact Hr].
  erewrite bind_ok; [|apply IH; destruct (msg_succeeds m); lia].
  unfold mret, M_ret. rewrite fmap_cons, Hs. do 2 f_equal;
    destruct (msg_succeeds m); lia.
Qed.
End lemmas.

Section theorems.
Context `{OV : OverflowMode} {B V : Type}.

(** The handler's statistics are exact: after [n] messages the total is
    [n], proposals, votes and sync responses are the successes, everything
    else is waiting for an action, nothing is counted as invalid or ignored,
    whatever the configuration. *)
Theorem handler_stats_exact config (l : list (NetworkMessage B V)) :
  N.of_nat (length l) ≤ u64_max →
  let '(h, r) := process_messages l (SimpleMessageHandler_new config) in
  r = Ok (msg_succeeds <$> l) ∧
  total_processed (smh_stats h) = N.of_nat (length l) ∧
  successful (smh_stats h) = count_succeeding l ∧
  needs_action (smh_stats h) = N.of_nat (length l) - count_succeeding l ∧
  validation_failures (smh_stats h) = 0 ∧ ignored (smh_stats h) = 0.
Proof.
  intros Hu. change (SimpleMessageHandler_new config) with (handler_after config 0 0).
  rewrite process_messages_effect by lia. pose proof (count_succeeding_le l).
  cbn. split_and!; (done || lia).
Qed.
End theorems.

Section witnesses.
Lemma handler_stats_exact_witness :
  let l : list (NetworkMessage MockBlock MockVote) :=
    [NmTimeout 3; NmProposal MockBlock_genesis; NmSyncRequest 4] in
  needs_action (smh_stats (@process_messages debug_build _ _ l
    (SimpleMessageHandler_new NetworkConfig_default)).1) = 2.
Proof.
  intros l. pose proof (@handler_stats_exact debug_build _ _ NetworkConfig_default l
    ltac:(by vm_compute)) as H.
  revert H. destruct (process_messages l _) as [h r]. cbn [fst].
  intros (_&_&_&->&_). by vm_compute.
Defined.
End witnesses.
