(* ===== verification/Consensus.v ===== *)
(** * [consensus/mod.rs]: the consensus coordinator

    The coordinator owns a round manager over the 2-chain rules, a pacemaker with
    exponential back-off, a pipeline and an epoch manager; its lifecycle guards
    every message. *)
From S2P Require Import Prelude.
From S2P Require Import Traits.
From S2P Require Import CommonTypes.
From S2P Require Import SafetyStateData.
From S2P Require Import Timeout.
From S2P Require Import Mocks.
From S2P Require Import TwoChain.
From S2P Require Import RoundState.
From S2P Require Import PendingVotes.
From S2P Require Import RoundManager.
From S2P Require Import Float64.
From S2P Require Import Pacemaker.
From S2P Require Import Proposer.
From S2P Require Import EpochManager.
From S2P Require Import Pipeline.

Record ConsensusConfig := mkConsensusConfig {
  cc_initial_round : Round;
  cc_initial_epoch : Epoch;
  pacemaker_config : PacemakerConfig;
  round_manager_config : RoundManagerConfig;
  pipeline_config : PipelineConfig;
  max_rounds_per_epoch : Round;
}.
Definition ConsensusConfig_default : ConsensusConfig :=
  mkConsensusConfig 1 0 PacemakerConfig_default RoundManagerConfig_default
    PipelineConfig_default 1000.
Definition ConsensusConfig_new (initial_round : Round) (initial_epoch : Epoch)
    (pacemaker_config : PacemakerConfig) (round_manager_config : RoundManagerConfig)
    (pipeline_config : PipelineConfig) : ConsensusConfig :=
  mkConsensusConfig initial_round initial_epoch pacemaker_config round_manager_config
    pipeline_config 1000.

Inductive ConsensusState := Bootstrapping | Running | CatchingUp | Stopping | Stopped.
#[export] Instance ConsensusState_eq_dec : EqDecision ConsensusState.
Proof. solve_decision. Defined.
Definition ConsensusState_to_string (s : ConsensusState) : string :=
  match s with
  | Bootstrapping => "bootstrapping"
  | Running => "running"
  | CatchingUp => "catching_up"
  | Stopping => "stopping"
  | Stopped => "stopped"
  end.

(** The formatted reason of a rejected proposal, by template and argument. *)
Inductive RejectReason :=
| RrText (s : string)
| RrNotRunning (st : ConsensusState)
| RrPipeline (r : PipelineResult).
Record ProposalResult := mkProposalResult {
  pr_accepted : bool;
  pr_reason : option RejectReason;
  pr_round : Round;
  pr_voted : bool;
}.
Record VoteResult := mkVoteResult { vr_accepted : bool; vr_round : Round }.

Section consensus.
Context `{CH : Chain} `{OV : OverflowMode} `{HO : HashOrder}.
Context {PE A : Type} `{!EqDecision A} `{!ProposerElection PE A}.
Context (powf : f64 → f64 → f64).

Record Consensus := mkConsensus {
  c_config : ConsensusConfig;
  c_state : ConsensusState;
  round_manager : RoundManager TwoChainSafetyRules;
  pacemaker : Pacemaker ExponentialIntervalStrategy;
  proposer_election : PE;
  pipeline : Pipeline;
  epoch_manager : EpochManager;
  self_validator_id : option A;
}.
Implicit Types c : Consensus.
Abbreviation CM := (M Consensus Error).

Definition set_state (st : ConsensusState) c : Consensus :=
  mkConsensus (c_config c) st (round_manager c) (pacemaker c) (proposer_election c)
    (pipeline c) (epoch_manager c) (self_validator_id c).
Definition set_round_manager (m : RoundManager TwoChainSafetyRules) c : Consensus :=
  mkConsensus (c_config c) (c_state c) m (pacemaker c) (proposer_election c)
    (pipeline c) (epoch_manager c) (self_validator_id c).
Definition set_pacemaker (p : Pacemaker ExponentialIntervalStrategy) c : Consensus :=
  mkConsensus (c_config c) (c_state c) (round_manager c) p (proposer_election c)
    (pipeline c) (epoch_manager c) (self_validator_id c).
Definition set_pipeline (p : Pipeline) c : Consensus :=
  mkConsensus (c_config c) (c_state c) (round_manager c) (pacemaker c)
    (proposer_election c) p (epoch_manager c) (self_validator_id c).
Definition on_round_manager {X} (m : M (RoundManager TwoChainSafetyRules) Error X) :
    CM X := zoom round_manager set_round_manager m.
Definition on_pacemaker {X} (m : M (Pacemaker ExponentialIntervalStrategy) Error X) :
    CM X := zoom pacemaker set_pacemaker m.
Definition on_pipeline {X} (m : M Pipeline Error X) : CM X :=
  zoom pipeline set_pipeline m.

Definition Consensus_new (config : ConsensusConfig) (proposer_election : PE)
    (self_validator_id : option A) : res Error Consensus :=
  let safety_rules := rules_new (cc_initial_epoch config) in
  let round_manager := RoundManager_new (round_manager_config config) safety_rules in
  let pc := pacemaker_config config in
  interval_strategy ← ExponentialIntervalStrategy_new powf (base_duration pc)
                        (exponent_base pc) (max_exponent pc);
  let pacemaker := Pacemaker_new interval_strategy pc in
  let pipeline := Pipeline_new (pipeline_config config) in
  let epoch_manager :=
    EpochManager_new (mkEpochManagerConfig (cc_initial_epoch config) false) in
  Ok (mkConsensus config Bootstrapping round_manager pacemaker proposer_election
        pipeline epoch_manager self_validator_id).

Definition c_round c : Round := rm_round (round_manager c).
Definition c_epoch c : Epoch := em_epoch (epoch_manager c).
Definition is_running c : bool := bool_decide (c_state c = Running).

Definition start : CM unit :=
  st ← gets c_state;
  ensure (bool_decide (st = Bootstrapping ∨ st = Stopped))
    (Msg "Cannot start consensus from state: {}" [DStr (ConsensusState_to_string st)]);;
  modify (set_state Running).
Definition stop : CM unit :=
  st ← gets c_state;
  ensure (bool_decide (st = Running ∨ st = CatchingUp))
    (Msg "Cannot stop consensus from state: {}" [DStr (ConsensusState_to_string st)]);;
  modify (set_state Stopping);;
  modify (set_state Stopped).
(** The guard of the other methods. *)
Definition ensure_running : CM unit :=
  st ← gets c_state;
  ensure (bool_decide (st = Running))
    (Msg "Not in running state: {}" [DStr (ConsensusState_to_string st)]).

Definition get_highest_quorum_cert c : option QCert :=
  rs_quorum_cert (rm_round_state (round_manager c)).

Definition consensus_process_proposal (proposal : Blk) : CM ProposalResult :=
  let reject reason := mkProposalResult false (Some reason) (block_round proposal) false in
  st ← gets c_state;
  if negb (bool_decide (st = Running)) then mret (reject (RrNotRunning st))
  else
    pipeline_result ← on_pipeline (process_block proposal);
    if negb (is_completed pipeline_result)
    then mret (reject (RrPipeline pipeline_result))
    else
      result ← on_round_manager (process_proposal proposal);
      match result with
      | PpAccepted =>
          id ← gets self_validator_id;
          let voted := match id with Some validator_id => true | None => false end in
          mret (mkProposalResult true None (block_round proposal) voted)
      | PpRejected reason => mret (reject (RrText reason))
      | PpOldRound => mret (reject (RrText "Old round"))
      | PpFutureRound => mret (reject (RrText "Future round"))
      end.

Definition consensus_process_vote (vote : Vot) (verifier : Verifier) : CM VoteResult :=
  ensure_running;;
  let round := md_round (vd_proposed_block (vote_data vote)) in
  _ ← on_round_manager (process_vote vote verifier);
  mret (mkVoteResult true round).

Definition consensus_process_qc (qc : QCert) : CM unit :=
  ensure_running;;
  on_pacemaker (record_ordered_round (qc_round qc)).

Definition consensus_process_timeout (round : Round) : CM unit :=
  ensure_running;;
  next_round ← lift (add64 round 1);
  on_pacemaker (enter_new_round (RI:=exponential_duration powf) next_round);;
  mret tt.

Definition consensus_generate_proposal : CM (option Blk) :=
  ensure_running;;
  c ← get;
  proposer_info ← lift (get_proposer_info (proposer_election c) (c_round c));
  let is_proposer :=
    match self_validator_id c, proposer proposer_info with
    | Some my_id, Some proposer => bool_decide (my_id = proposer)
    | _, _ => false
    end in
  if negb is_proposer then mret None
  else match get_highest_quorum_cert c with
       | Some parent_qc => mret None
       | None => mret None
       end.
End consensus.
#[global] Arguments Consensus {CH} PE A.

(** ** The builder *)
Section builder.
Context `{CH : Chain} {PE A : Type}.
Context (powf : f64 → f64 → f64).
Record ConsensusBuilder := mkConsensusBuilder {
  cb_config : ConsensusConfig;
  cb_proposer_election : option PE;
  cb_self_validator_id : option A;
}.
Definition ConsensusBuilder_new : ConsensusBuilder :=
  mkConsensusBuilder ConsensusConfig_default None None.
Definition with_config (config : ConsensusConfig) (b : ConsensusBuilder) :
    ConsensusBuilder :=
  mkConsensusBuilder config (cb_proposer_election b) (cb_self_validator_id b).
Definition with_proposer_election (pe : PE) (b : ConsensusBuilder) : ConsensusBuilder :=
  mkConsensusBuilder (cb_config b) (Some pe) (cb_self_validator_id b).
Definition with_self_validator_id (id : A) (b : ConsensusBuilder) : ConsensusBuilder :=
  mkConsensusBuilder (cb_config b) (cb_proposer_election b) (Some id).
Definition build_consensus (b : ConsensusBuilder) : res Error (Consensus PE A) :=
  match cb_proposer_election b with
  | None => Err (Msg "Proposer election strategy required" [])
  | Some pe => Consensus_new powf (cb_config b) pe (cb_self_validator_id b)
  end.
End builder.

(** ** Lemmas *)
Section lemmas.
Context `{CH : Chain} `{OV : OverflowMode} `{HO : HashOrder}.
Context {PE A : Type} `{!EqDecision A} `{!ProposerElection PE A}.
Context (powf : f64 → f64 → f64).
Implicit Types (c : Consensus PE A) (m : RoundManager TwoChainSafetyRules).

Lemma bind_ensure_running {X} (f : unit → M (Consensus PE A) Error X) c :
  (ensure_running ≫= f) c =
    if decide (c_state c = Running) then f tt c
    else (c, Err (Msg "Not in running state: {}"
                    [DStr (ConsensusState_to_string (c_state c))])).
Proof.
  unfold ensure_running. rewrite bind_assoc, bind_gets. unfold ensure.
  case_bool_decide; by case_decide.
Qed.

(** The manager's answer to a proposal. *)
Lemma process_proposal_effect p m :
  process_proposal p m =
    if decide (block_round p = rm_round m) then
      match block_verify_signature p with
      | Ok _ => (upd_round_state (set_proposed_block p (rm_round_state m)) m, Ok PpAccepted)
      | Err e => (m, Err e)
      | Panic => (m, Panic)
      end
    else (m, Ok (if decide (block_round p < rm_round m) then PpOldRound
                 else PpFutureRound)).
Proof.
  unfold process_proposal, is_current_round, rm_round. rewrite bind_gets.
  destruct (N.eqb_spec (rs_round (rm_round_state m)) (block_round p)); cbn.
  - rewrite decide_True by done. run. by destruct (block_verify_signature p).
  - rewrite decide_False by done.
    destruct (N.ltb_spec (block_round p) (rs_round (rm_round_state m)));
      by case_decide; try lia.
Qed.

(** Messages leave the manager's round and epoch alone. *)
Definition same_round m m' : Prop :=
  rm_round m' = rm_round m ∧ rm_epoch m' = rm_epoch m.
#[export] Instance same_round_preorder : PreOrder same_round.
Proof. split; [by intros m|]. intros ??? [??] [??]. split; congruence. Qed.
Lemma on_safety_rules_same_round {X} (x : M TwoChainSafetyRules Error X) :
  preserves same_round (on_safety_rules x).
Proof. intros m. unfold on_safety_rules, zoom. by destruct (x _). Qed.
Lemma process_vote_same_round v (vv : Verifier) :
  preserves same_round (process_vote (SR:=TwoChainSafetyRules) v vv).
Proof.
  unfold process_vote, form_quorum_certificate_for_block. frame.
  - intros m. unfold on_pending_votes, zoom. by destruct (add_vote _ _ _).
  - apply on_safety_rules_same_round.
  - by intros m.
  - by intros m.
Qed.
Lemma process_proposal_same_round p :
  preserves same_round (process_proposal (SR:=TwoChainSafetyRules) p).
Proof.
  intros m. rewrite process_proposal_effect. case_decide; [|done].
  by destruct (block_verify_signature p).
Qed.

(** ** Messages and lifecycle calls *)
Inductive ConsCall :=
| CcStart | CcStop
| CcProposal (p : Blk)
| CcVote (v : Vot) (vv : Verifier)
| CcQc (qc : QCert)
| CcTimeout (r : Round)
| CcGenerate.
Definition run_cons (k : ConsCall) : M (Consensus PE A) Error unit :=
  match k with
  | CcStart => start
  | CcStop => stop
  | CcProposal p => consensus_process_proposal p;; mret tt
  | CcVote v vv => consensus_process_vote v vv;; mret tt
  | CcQc qc => consensus_process_qc qc
  | CcTimeout r => consensus_process_timeout powf r
  | CcGenerate => consensus_generate_proposal;; mret tt
  end.
Definition cons_step c c' : Prop := ∃ k, (run_cons k c).1 = c'.
Definition is_lifecycle (k : ConsCall) : bool :=
  match k with CcStart | CcStop => true | _ => false end.

Definition live_state (st : ConsensusState) : Prop :=
  st = Bootstrapping ∨ st = Running ∨ st = Stopped.
(** What the calls do to the manager is whatever its own methods preserve; the
    epoch manager and the configuration are never touched. *)
Section frame.
Context (Q : relation (RoundManager TwoChainSafetyRules)) `{!PreOrder Q}.
Definition cons_frame c c' : Prop :=
  Q (round_manager c) (round_manager c') ∧
  epoch_manager c' = epoch_manager c ∧ c_config c' = c_config c ∧
  (live_state (c_state c) → live_state (c_state c')).
#[local] Instance cons_frame_preorder : PreOrder cons_frame.
Proof.
  split; [by intros c; split_and!|]. intros ??? (S1&?&?&?) (S2&?&?&?).
  split_and!; [by etrans|congruence|congruence|auto].
Qed.
Lemma on_pacemaker_frame {X} (x : M (Pacemaker ExponentialIntervalStrategy) Error X) :
  preserves cons_frame (on_pacemaker x).
Proof. intros c. unfold on_pacemaker, zoom. by destruct (x _); split_and!. Qed.
Lemma on_pipeline_frame {X} (x : M Pipeline Error X) :
  preserves cons_frame (on_pipeline x).
Proof. intros c. unfold on_pipeline, zoom. by destruct (x _); split_and!. Qed.
Lemma on_round_manager_frame {X} (x : M (RoundManager TwoChainSafetyRules) Error X) :
  preserves Q x → preserves cons_frame (on_round_manager x).
Proof.
  intros Hx. eapply preserves_zoom; [exact Hx|]. intros c m Hm. by split_and!.
Qed.

#[local] Opaque process_block process_proposal process_vote enter_new_round
  record_ordered_round.
Lemma proposal_frame p :
  preserves Q (process_proposal p) → preserves cons_frame (consensus_process_proposal p).
Proof.
  intros Hp. unfold consensus_process_proposal. frame.
  - apply on_pipeline_frame.
  - by apply on_round_manager_frame.
  - case_match; frame.
Qed.
Lemma run_cons_frame k :
  (∀ p, preserves Q (process_proposal p)) →
  (∀ v (vv : Verifier), preserves Q (process_vote v vv)) →
  preserves cons_frame (run_cons k).
Proof.
  intros Hp Hv. destruct k as [| |p|v vv|qc|r|]; cbn [run_cons].
  - unfold start. frame. intros c. split_and!; try done. by right; left.
  - intros c. unfold stop. run. case_bool_decide; cbn; split_and!; try done.
    by right; right.
  - apply preserves_bind; [exact _|by apply proposal_frame|frame].
  - unfold consensus_process_vote. frame. by apply on_round_manager_frame.
  - unfold consensus_process_qc. frame. apply on_pacemaker_frame.
  - unfold consensus_process_timeout. frame. apply on_pacemaker_frame.
  - unfold consensus_generate_proposal. frame. case_match; frame.
Qed.
Lemma cons_steps_frame c0 c :
  (∀ p, preserves Q (process_proposal p)) →
  (∀ v (vv : Verifier), preserves Q (process_vote v vv)) →
  rtc cons_step c0 c → cons_frame c0 c.
Proof.
  intros Hp Hv. induction 1 as [|? ? ? [k <-] _ IH]; [done|].
  etrans; [by apply run_cons_frame|done].
Qed.
End frame.

(** The lifecycle calls in one equation each. *)
Lemma start_effect c :
  start c =
    if decide (c_state c = Bootstrapping ∨ c_state c = Stopped)
    then (set_state Running c, Ok tt)
    else (c, Err (Msg "Cannot start consensus from state: {}"
                    [DStr (ConsensusState_to_string (c_state c))])).
Proof. unfold start. run. by case_bool_decide; case_decide. Qed.
Lemma stop_effect c :
  stop c =
    if decide (c_state c = Running ∨ c_state c = CatchingUp)
    then (set_state Stopped c, Ok tt)
    else (c, Err (Msg "Cannot stop consensus from state: {}"
                    [DStr (ConsensusState_to_string (c_state c))])).
Proof. unfold stop. run. by case_bool_decide; case_decide. Qed.

(** Messages never move the lifecycle. *)
Definition same_state c c' : Prop := c_state c' = c_state c.
#[local] Instance same_state_preorder : PreOrder same_state.
Proof. split; [by intros c|]. intros ???. unfold same_state. congruence. Qed.
Lemma zoom_same_state {T X} (proj : Consensus PE A → T) upd (x : M T Error X) :
  (∀ t c, c_state (upd t c) = c_state c) → preserves same_state (zoom proj upd x).
Proof. intros Hu c. unfold zoom. destruct (x _). apply Hu. Qed.
Lemma run_cons_same_state k :
  is_lifecycle k = false → preserves same_state (run_cons k).
Proof.
  destruct k; intros Hk; [done..| | | | |]; cbn [run_cons];
    unfold consensus_process_proposal, consensus_process_vote, consensus_process_qc,
      consensus_process_timeout, consensus_generate_proposal, on_pipeline,
      on_round_manager, on_pacemaker; frame;
    try (by apply zoom_same_state); case_match; frame.
Qed.
(** Outside [Running] a proposal is answered and any other message refused. *)
Lemma run_cons_refused k c :
  is_lifecycle k = false → c_state c ≠ Running →
  run_cons k c = (c, match k with
                     | CcProposal _ => Ok tt
                     | _ => Err (Msg "Not in running state: {}"
                                   [DStr (ConsensusState_to_string (c_state c))])
                     end).
Proof.
  intros Hk Hs. assert (He : ∀ X (f : unit → M (Consensus PE A) Error X),
    (ensure_running ≫= f) c = (c, Err (Msg "Not in running state: {}"
       [DStr (ConsensusState_to_string (c_state c))]))).
  { intros X f. rewrite bind_ensure_running. by rewrite decide_False. }
  destruct k; try done; cbn [run_cons].
  - unfold consensus_process_proposal. rewrite bind_assoc, bind_gets.
    by rewrite bool_decide_eq_false_2.
  - unfold consensus_process_vote. rewrite bind_assoc. apply He.
  - apply He.
  - apply He.
  - unfold consensus_generate_proposal. rewrite bind_assoc. apply He.
Qed.
Lemma run_cons_not_running k c :
  is_lifecycle k = false → c_state c ≠ Running → (run_cons k c).1 = c.
Proof. intros Hk Hs. by rewrite run_cons_refused. Qed.

(** Reaching a state from a new coordinator. *)
Lemma reachable_frame config pe id c0 c :
  Consensus_new powf config pe id = Ok c0 → rtc cons_step c0 c →
  c_round c = 0 ∧ rm_epoch (round_manager c) = 0 ∧
  c_epoch c = cc_initial_epoch config ∧ live_state (c_state c).
Proof.
  intros Hn Hr.
  pose proof (cons_steps_frame same_round c0 c process_proposal_same_round
    process_vote_same_round Hr) as Hf.
  revert Hn. unfold Consensus_new.
  destruct (ExponentialIntervalStrategy_new _ _ _ _); [|done..]. cbn. intros [= <-].
  destruct Hf as ([Hr1 Hr2]&He&_&Hl). cbn in *. unfold c_round, c_epoch.
  rewrite Hr1, Hr2, He. split_and!; [done..|]. apply Hl. by left.
Qed.

(** A proposal in one equation: the pipeline counts it, the manager answers. *)
Definition proposal_answer c (p : Blk) (r : ProposalProcessingResult) : ProposalResult :=
  match r with
  | PpAccepted => mkProposalResult true None (block_round p)
                    (bool_decide (is_Some (self_validator_id c)))
  | PpRejected reason => mkProposalResult false (Some (RrText reason)) (block_round p) false
  | PpOldRound => mkProposalResult false (Some (RrText "Old round")) (block_round p) false
  | PpFutureRound =>
      mkProposalResult false (Some (RrText "Future round")) (block_round p) false
  end.
Lemma proposal_effect p c cfg b v :
  c_state c = Running → pipeline c = pipeline_after cfg b v →
  4 * (b + 1) + v ≤ u64_max →
  consensus_process_proposal p c =
    let '(m, r) := process_proposal p (round_manager c) in
    (set_round_manager m (set_pipeline (pipeline_after cfg (b + 1) v) c),
     a ← r; Ok (proposal_answer c p a)).
Proof.
  intros Hs Hp Hu. unfold consensus_process_proposal.
  rewrite bind_gets, bool_decide_eq_true_2 by done. cbn [negb].
  erewrite bind_ok;
    [|unfold on_pipeline, zoom; by rewrite Hp, process_block_counts]. cbn [is_completed negb].
  unfold on_round_manager. run.
  destruct (process_proposal p (round_manager c)) as [m [[| | |]| |]]; cbn; try done.
  by destruct (self_validator_id c).
Qed.

(** A timeout in one equation. *)
Lemma timeout_effect round c :
  c_state c = Running → round < u64_max →
  highest_ordered_round (pacemaker c) < u64_max →
  consensus_process_timeout powf round c =
    if decide (pm_current_round (pacemaker c) ≤ round)
    then (set_pacemaker (set_current_round (round + 1) (pacemaker c)) c, Ok tt)
    else (c, Err (Msg "Cannot enter round {}: current round is {}"
                    [DNum (round + 1); DNum (pm_current_round (pacemaker c))])).
Proof.
  intros Hs Hr Hh. unfold consensus_process_timeout. rewrite bind_ensure_running.
  rewrite decide_True by done. rewrite add64_ok by nlia.
  rewrite (bind_ok (lift (Ok (round + 1))) _ c c (round + 1)) by done.
  unfold on_pacemaker, zoom, mbind, M_bind. rewrite enter_new_round_effect.
  destruct (decide (pm_current_round (pacemaker c) ≤ round)).
  - rewrite decide_True by lia. by rewrite rounds_since_ordered_ok.
  - rewrite decide_False by lia. by destruct c.
Qed.
(** In the last round the addition overflows, or wraps to a round nobody enters. *)
Lemma timeout_last_round c :
  c_state c = Running →
  let '(c', r) := consensus_process_timeout powf u64_max c in
  c' = c ∧ if overflow_checks then r = Panic else ∃ e, r = Err e.
Proof.
  intros Hs. unfold consensus_process_timeout. rewrite bind_ensure_running.
  rewrite decide_True by done. rewrite succ64_max.
  destruct overflow_checks eqn:Ho; [done|].
  unfold on_pacemaker, zoom, lift, mbind, M_bind. rewrite enter_new_round_effect.
  rewrite decide_False by lia. destruct c; cbn. eauto.
Qed.
(** Timeouts arriving one after the other. *)
Definition run_timeouts (l : list Round) c : Consensus PE A :=
  foldl (λ c r, (consensus_process_timeout powf r c).1) c l.
End lemmas.

Section theorems.
Context `{CH : Chain} `{OV : OverflowMode} `{HO : HashOrder}.
Context {PE A : Type} `{!EqDecision A} `{!ProposerElection PE A}.
Context (powf : f64 → f64 → f64).
Implicit Types (c : Consensus PE A).

(** The lifecycle: [start] succeeds exactly when bootstrapping or stopped
    and [stop] exactly when running or catching up; they change nothing but
    the state, and nothing at all when refused; no other call moves the state,
    and outside [Running] every other call leaves the whole coordinator as it
    was. *)
Theorem consensus_lifecycle k c :
  let '(c', r) := run_cons powf k c in
  match k with
  | CcStart => (r = Ok tt ↔ c_state c = Bootstrapping ∨ c_state c = Stopped) ∧
      (r = Ok tt → c' = set_state Running c) ∧ (r ≠ Ok tt → c' = c)
  | CcStop => (r = Ok tt ↔ c_state c = Running ∨ c_state c = CatchingUp) ∧
      (r = Ok tt → c' = set_state Stopped c) ∧ (r ≠ Ok tt → c' = c)
  | _ => c_state c' = c_state c ∧ (c_state c ≠ Running → c' = c)
  end.
Proof.
  assert (Hm : is_lifecycle k = false → c_state (run_cons powf k c).1 = c_state c ∧
    (c_state c ≠ Running → (run_cons powf k c).1 = c)).
  { split; [by apply run_cons_same_state|by apply run_cons_not_running]. }
  destruct (run_cons powf k c) as [c' r] eqn:E.
  destruct k; try (by apply Hm); clear Hm; revert E; cbn [run_cons].
  - unfold start. run. case_bool_decide; cbn; intros [= <- <-]; naive_solver.
  - unfold stop. run. case_bool_decide; cbn; intros [= <- <-]; naive_solver.
Qed.

(** C38: The coordinator never leaves round 0: in every state reachable from a
    new coordinator by any calls, the round is 0 and the manager's epoch 0,
    whatever round and epoch were configured, the epoch manager is still in
    the configured epoch, the state is one of three, and a proposal is
    accepted only for round 0. *)
Theorem consensus_round_frozen config pe id c0 c :
  Consensus_new powf config pe id = Ok c0 → rtc (cons_step powf) c0 c →
  c_round c = 0 ∧ rm_epoch (round_manager c) = 0 ∧
  c_epoch c = cc_initial_epoch config ∧
  (c_state c = Bootstrapping ∨ c_state c = Running ∨ c_state c = Stopped) ∧
  ∀ p c' r, consensus_process_proposal p c = (c', Ok r) → pr_accepted r = true →
    block_round p = 0.
Proof.
  intros Hn Hr. destruct (reachable_frame powf config pe id c0 c Hn Hr)
    as (Hr0&He&Hep&Hl). split_and!; [done..|]. clear -Hr0.
  intros p c' r. unfold consensus_process_proposal. rewrite bind_gets.
  destruct (negb _); [by intros [= <- <-]|]. intros (c1&pr&Hp&H)%bind_ok_inv Hacc.
  assert (Hc1 : c_round c1 = 0).
  { unfold c_round. destruct (on_pipeline_frame same_round (process_block p) c) as [[Hs _] _].
    rewrite Hp in Hs. cbn in Hs. by rewrite Hs. }
  destruct (negb _); [by injection H as <- <-|].
  apply bind_ok_inv in H as (c2&res&Hm&H). revert Hm. unfold on_round_manager, zoom.
  rewrite process_proposal_effect. case_decide as Hd.
  { intros _. by rewrite Hd. }
  intros [= <- <-]. by case_decide; injection H as <- <-.
Qed.

(** C37: In the running state a proposal goes once through the whole pipeline
    and is then answered by the round manager: accepted, with the block on
    file and a vote announced iff the node is a validator, exactly when it is
    of the current round and its signature verifies; a lower or higher round
    is reported as such, a bad signature is the error, and in these cases only
    the pipeline statistics have changed. *)
Theorem proposal_outcome p c cfg b v :
  c_state c = Running → pipeline c = pipeline_after cfg b v →
  4 * (b + 1) + v ≤ u64_max →
  let c1 := set_pipeline (pipeline_after cfg (b + 1) v) c in
  let m := round_manager c in
  let answer ok reason voted := Ok (mkProposalResult ok reason (block_round p) voted) in
  consensus_process_proposal p c =
    if decide (block_round p = c_round c) then
      match block_verify_signature p with
      | Ok _ =>
          (set_round_manager (upd_round_state
              (set_proposed_block p (rm_round_state m)) m) c1,
           answer true None (bool_decide (is_Some (self_validator_id c))))
      | Err e => (c1, Err e)
      | Panic => (c1, Panic)
      end
    else (c1, answer false (Some (RrText (if decide (block_round p < c_round c)
                                          then "Old round" else "Future round"))) false).
Proof.
  intros Hs Hp Hu c1 m answer. rewrite (proposal_effect p c cfg b v) by done.
  rewrite process_proposal_effect. unfold c_round. fold m c1.
  assert (Hsame : set_round_manager m c1 = c1) by by destruct c.
  case_decide; cbn.
  - destruct (block_verify_signature p); cbn; rewrite ?Hsame; done.
  - rewrite Hsame. by case_decide.
Qed.

(** The answer to a vote says accepted whenever the round manager returns,
    also when the manager rejected the vote; the manager's error is passed on
    and its state is kept in both cases, the rest is untouched. *)
Theorem vote_always_accepted v (vv : Verifier) c m' r :
  c_state c = Running → process_vote v vv (round_manager c) = (m', r) →
  consensus_process_vote v vv c =
    (set_round_manager m' c,
     match r with
     | Ok _ => Ok (mkVoteResult true (md_round (vd_proposed_block (vote_data v))))
     | Err e => Err e
     | Panic => Panic
     end).
Proof.
  intros Hs Hv. unfold consensus_process_vote. rewrite bind_ensure_running.
  rewrite decide_True by done. unfold on_round_manager, zoom, mbind, M_bind.
  rewrite Hv. by destruct r.
Qed.

(** A timeout of round [r] moves only the pacemaker: it succeeds exactly
    when [r + 1] is above the pacemaker's round, the pacemaker is then in round
    [r + 1], and the coordinator's own round, proposal and votes stay; a
    refused timeout changes nothing. *)
Theorem timeout_moves_pacemaker_only round c :
  c_state c = Running → round < u64_max →
  highest_ordered_round (pacemaker c) < u64_max →
  let '(c', r) := consensus_process_timeout powf round c in
  (r = Ok tt ↔ pm_current_round (pacemaker c) ≤ round) ∧
  (r = Ok tt → c' = set_pacemaker (set_current_round (round + 1) (pacemaker c)) c ∧
     pm_current_round (pacemaker c') = round + 1 ∧ c_round c' = c_round c) ∧
  (r ≠ Ok tt → c' = c).
Proof.
  intros Hs Hr Hh. rewrite timeout_effect by done. case_decide; cbn;
    (split_and!; [split; [done|lia]|done|done]) || (split_and!; done).
Qed.

(** C36: Timeouts synchronise.  Let a coordinator be running, with a highest
    ordered round below [u64::MAX].  Whatever timeouts of rounds below [u64::MAX]
    it is told of, in whatever order and however often, its pacemaker ends
    exactly one round above the highest of them, or where it was if it was
    already there; so two such coordinators that have learnt of the same highest
    timeout, and were not ahead of it, end in the same round.  Nothing but the
    pacemaker's round has changed.  A timeout of round [u64::MAX] changes
    nothing: it panics in a build with overflow checks, and is an error
    otherwise. *)
Theorem timeouts_converge l c :
  c_state c = Running → highest_ordered_round (pacemaker c) < u64_max →
  Forall (λ r, r < u64_max) l →
  run_timeouts powf l c =
    set_pacemaker (set_current_round
      (pm_current_round (pacemaker c) `max` maxN (N.succ <$> l)) (pacemaker c)) c ∧
  (let '(c', r) := consensus_process_timeout powf u64_max c in
   c' = c ∧ if overflow_checks then r = Panic else ∃ e, r = Err e) ∧
  ∀ l' c', c_state c' = Running → highest_ordered_round (pacemaker c') < u64_max →
    Forall (λ r, r < u64_max) l' →
    maxN (N.succ <$> l) = maxN (N.succ <$> l') →
    pm_current_round (pacemaker c) ≤ maxN (N.succ <$> l) →
    pm_current_round (pacemaker c') ≤ maxN (N.succ <$> l') →
    pm_current_round (pacemaker (run_timeouts powf l c)) =
      pm_current_round (pacemaker (run_timeouts powf l' c')).
Proof.
  assert (Hrun : ∀ l c, c_state c = Running → highest_ordered_round (pacemaker c) < u64_max →
    Forall (λ r, r < u64_max) l →
    run_timeouts powf l c = set_pacemaker (set_current_round
      (pm_current_round (pacemaker c) `max` maxN (N.succ <$> l)) (pacemaker c)) c).
  { clear l c. intros l c Hs Hh Hl. unfold run_timeouts. revert c Hs Hh.
    induction Hl as [|r l Hr _ IH]; intros c Hs Hh.
    { cbn. rewrite N.max_0_r. destruct c as [? ? ? [] ? ? ? ?]. done. }
    cbn [foldl fmap list_fmap maxN]. rewrite timeout_effect by done. case_decide; cbn [fst].
    - rewrite IH by done. unfold set_pacemaker, set_current_round. cbn. arith_congruence.
    - rewrite IH by done. unfold set_pacemaker, set_current_round. arith_congruence. }
  intros Hs Hh Hl. split; [by apply Hrun|]. split; [by apply timeout_last_round|].
  intros l' c' Hs' Hh' Hl' He Hc Hc'. rewrite !Hrun by done. cbn. lia.
Qed.
End theorems.

(** ** Witnesses: a node of the mock chain with a round-robin election *)
Section witnesses.
Abbreviation Node0 := (@Consensus mock_chain (RoundRobinProposer MockHash) MockHash).
Abbreviation step0 := (@cons_step mock_chain debug_build canonical_order
  (RoundRobinProposer MockHash) MockHash _ _ exact_powf).
Abbreviation run0 := (@run_cons mock_chain debug_build canonical_order
  (RoundRobinProposer MockHash) MockHash _ _ exact_powf).
Definition mock_election : RoundRobinProposer MockHash :=
  mkRoundRobin [mkHash 0; mkHash 1; mkHash 2; mkHash 3] ProposerElectionConfig_default.
Definition new_node : res Error Node0 :=
  @Consensus_new mock_chain _ MockHash exact_powf ConsensusConfig_default
    mock_election (Some (mkHash 0)).
Definition node0 : Node0 :=
  match new_node with
  | Ok c => c
  | _ => mkConsensus ConsensusConfig_default Stopped
           (RoundManager_new RoundManagerConfig_default (rules_new 0))
           (Pacemaker_new (mkExponential 0 f64_zero 0) PacemakerConfig_default)
           mock_election (Pipeline_new PipelineConfig_default)
           (EpochManager_new EpochManagerConfig_default) None
  end.
Lemma node0_new : new_node = Ok node0.
Proof. by vm_compute. Qed.
Definition running0 : Node0 := (run0 CcStart node0).1.

(** After a start and a timeout of round 5 the node is still in round 0 and
    refuses the proposal of round 6. *)
Lemma consensus_round_frozen_witness :
  let c := (run0 (CcTimeout 5) running0).1 in
  pm_current_round (pacemaker c) = 6 ∧ c_round c = 0.
Proof.
  intros c. split; [by vm_compute|].
  refine (proj1 (@consensus_round_frozen mock_chain debug_build canonical_order _ MockHash
    _ _ exact_powf ConsensusConfig_default mock_election (Some (mkHash 0)) node0 c
    node0_new _)).
  eapply rtc_l; [by exists CcStart|]. apply rtc_once. by exists (CcTimeout 5).
Defined.

Lemma proposal_outcome_witness :
  let '(c, r) := @consensus_process_proposal mock_chain debug_build _ MockHash
                   (mock_block_at 0 7) running0 in
  r = Ok (mkProposalResult true None 0 true) ∧ pl_total_processed (pl_stats (pipeline c)) = 4.
Proof.
  rewrite (@proposal_outcome mock_chain debug_build _ MockHash
    (mock_block_at 0 7) running0 PipelineConfig_default 0 0); by vm_compute.
Defined.

(** A repeated vote: the manager rejects it, the answer says accepted. *)
Definition mgr_vote (m : @RoundManager mock_chain TwoChainSafetyRules) :=
  @process_vote mock_chain debug_build canonical_order TwoChainSafetyRules
    SafetyStateData (TwoChainTimeoutCertificate MockSignature)
    (@TwoChain_SafetyRules mock_chain debug_build) (mvote 1 5 1 10) four_vv m.
Lemma vote_always_accepted_witness :
  let c := (run0 (@CcVote mock_chain (mvote 1 5 1 10) four_vv) running0).1 in
  (mgr_vote (round_manager c)).2 = Ok (Rejected VsRejected) ∧
  (@consensus_process_vote mock_chain debug_build canonical_order _ MockHash
     (mvote 1 5 1 10) four_vv c).2 = Ok (mkVoteResult true 0).
Proof.
  intros c. destruct (mgr_vote (round_manager c)) as [m' r] eqn:E.
  assert (Hr : r = Ok (Rejected VsRejected)).
  { transitivity (mgr_vote (round_manager c)).2; [by rewrite E|by vm_compute]. }
  split; [exact Hr|].
  rewrite (@vote_always_accepted mock_chain debug_build canonical_order _ MockHash
    (mvote 1 5 1 10) four_vv c m' r ltac:(by vm_compute) E).
  by rewrite Hr.
Defined.

Lemma timeouts_converge_witness :
  let run l := @run_timeouts mock_chain debug_build _ MockHash exact_powf l running0 in
  pm_current_round (pacemaker (run [3; 7; 5; 7])) = 8 ∧
  pm_current_round (pacemaker (run [3; 7; 5; 7])) = pm_current_round (pacemaker (run [7])).
Proof.
  intros run.
  destruct (@timeouts_converge mock_chain debug_build _ MockHash exact_powf [3; 7; 5; 7]
    running0) as (H&_&H'); [by vm_compute|by vm_compute|by repeat constructor|].
  split; [unfold run; rewrite H; by vm_compute|].
  apply (H' [7] running0); [by vm_compute|by vm_compute|by repeat constructor|..];
    by vm_compute.
Defined.

Lemma timeout_moves_pacemaker_only_witness :
  ∃ e, (run0 (CcTimeout 0) running0).2 = Err e ∧
    (run0 (CcTimeout 5) running0).2 = Ok tt.
Proof.
  pose proof (@timeout_moves_pacemaker_only mock_chain debug_build _ MockHash
    exact_powf 5 running0 ltac:(by vm_compute) ltac:(by vm_compute)
    ltac:(by vm_compute)) as H.
  eexists. split; [by vm_compute|]. cbn [run_cons]. revert H.
  destruct (consensus_process_timeout _ _ _) as [c' r]. intros ([_ H]&_).
  apply H. by vm_compute.
Defined.
End witnesses.
