(* ===== verification/Typing.v ===== *)
(** * Widths are kept, and only overflow panics

    The type discipline of the coordinator and everything below it: all counters
    stay 64-bit values, the array of stage counts keeps its four slots, and a
    build without overflow checks never panics on its own account. *)
From S2P Require Import Prelude.
From S2P Require Import Traits.
From S2P Require Import CommonTypes.
From S2P Require Import SafetyStateData.
From S2P Require Import Timeout.
From S2P Require Import Mocks.
From S2P Require Import TwoChain.
From S2P Require Import RoundState.
From S2P Require Import Aggregator.
From S2P Require Import PendingVotes.
From S2P Require Import RoundManager.
From S2P Require Import Float64.
From S2P Require Import Pacemaker.
From S2P Require Import Proposer.
From S2P Require Import EpochManager.
From S2P Require Import Pipeline.
From S2P Require Import Consensus.

(** ** Pipeline and pacemaker *)
Section counters.
Context `{OV : OverflowMode}.

Lemma add64_sound {E} a b : ok_or_overflow is_u64 (@add64 _ E a b).
Proof.
  pose proof (add_w_overflow (E:=E) 64 a b) as Ho. unfold add64.
  destruct (add_w 64 a b) as [n| |] eqn:H; cbn; [|done..].
  by apply (add64_range (E:=E) a b n).
Qed.

Definition stats_typed (s : PipelineStats) : Prop :=
  length (stage_counts s) = 4%nat ∧ Forall is_u64 (stage_counts s) ∧
  is_u64 (pl_total_processed s) ∧ is_u64 (pl_failed s) ∧ is_u64 (pl_skipped s).
Definition pipeline_typed (p : Pipeline) : Prop := stats_typed (pl_stats p).

Lemma count_stage_sound {E} st :
  sound stats_typed (count_stage (E:=E) st) (λ _, True).
Proof.
  intros s (Hl&Hc&Ht). unfold count_stage. rewrite bind_gets.
  destruct (lookup_lt_is_Some_2 (stage_counts s) (Stage_index st)) as [c Hs];
    [by rewrite Hl; destruct st; cbn; lia|].
  rewrite Hs, bind_lift. pose proof (add64_sound (E:=E) c 1) as Ha.
  destruct (add64 c 1) as [c'| |]; [|done..].
  split; [|done]. unfold stats_typed. cbn [fst modify stage_counts
    pl_total_processed pl_failed pl_skipped].
  rewrite length_insert. split; [done|]. split; [by apply Forall_insert|done].
Qed.
(** The three scalar counters are advanced by the same code. *)
Lemma count_field_sound {E} (f : PipelineStats → N) g :
  (∀ s, stats_typed s → is_u64 (f s)) →
  (∀ s n, stats_typed s → is_u64 n → stats_typed (g s n)) →
  sound stats_typed (n ← gets f; n' ← lift (add64 (E:=E) n 1); modify (λ s, g s n'))
    (λ _, True).
Proof.
  intros Hf Hg. apply sound_bind with (Q := is_u64); [by apply sound_gets|]. intros n _.
  apply sound_bind with (Q := is_u64); [apply sound_lift, add64_sound|].
  intros n' Hn. apply sound_modify; [done|]. auto.
Qed.
Lemma count_total_sound {E} : sound stats_typed (count_total (E:=E)) (λ _, True).
Proof. apply count_field_sound; unfold stats_typed; cbn; naive_solver. Qed.
Lemma count_failed_sound {E} : sound stats_typed (count_failed (E:=E)) (λ _, True).
Proof. apply count_field_sound; unfold stats_typed; cbn; naive_solver. Qed.
Lemma count_skipped_sound {E} : sound stats_typed (count_skipped (E:=E)) (λ _, True).
Proof. apply count_field_sound; unfold stats_typed; cbn; naive_solver. Qed.
Lemma on_stats_sound {E A} (m : M PipelineStats E A) Q :
  sound stats_typed m Q → sound pipeline_typed (on_stats m) Q.
Proof. intros Hm. by apply sound_zoom with (PT := stats_typed). Qed.

Lemma pipeline_loop_sound {B} fuel st (block : B) :
  sound pipeline_typed (pipeline_loop fuel st block) (λ _, True).
Proof.
  revert st. induction fuel as [|fuel IH]; intros st; cbn [pipeline_loop];
    [by apply sound_ret|].
  sound_step; [apply on_stats_sound, count_stage_sound|].
  sound_step; [apply on_stats_sound, count_total_sound|].
  sound_step; [by apply sound_get|].
  apply sound_bind with (Q := λ _, True);
    [apply sound_lift; by rewrite process_at_stage_continues|].
  intros [|reason|reason] _.
  - destruct (Stage_next st); [apply IH|by apply sound_ret].
  - sound_step; [apply on_stats_sound, count_failed_sound|by apply sound_ret].
  - sound_step; [apply on_stats_sound, count_skipped_sound|by apply sound_ret].
Qed.
(** The loop has fuel enough, so the [None] branch is not a panic. *)
Lemma process_block_sound {B} (block : B) :
  sound pipeline_typed (process_block block) (λ _, True).
Proof.
  intros p Hp. unfold process_block, pipeline_process_block.
  destruct (pipeline_loop_sound 4 Receiving block p Hp) as [Ht Ho].
  unfold mbind, M_bind.
  destruct (pipeline_loop 4 Receiving block p) as [p' [o| |]] eqn:E; [|done..].
  apply pipeline_loop_completes in E as ->; [done|cbn; lia].
Qed.

Definition pacemaker_typed {T} (p : Pacemaker T) : Prop :=
  is_u64 (highest_ordered_round p) ∧ is_u64 (pm_current_round p).
Lemma enter_new_round_sound `{RI : RoundIntervalStrategy T} r :
  is_u64 r → sound pacemaker_typed (enter_new_round (T:=T) r) (λ _, True).
Proof.
  intros Hr p [Hh Hc]. rewrite enter_new_round_effect. case_decide; [|done].
  unfold rounds_since_ordered.
  pose proof (add64_sound (E:=Error) (highest_ordered_round p) 1) as Ha.
  by destruct (add64 _ 1).
Qed.
Lemma record_ordered_round_sound {T} r :
  is_u64 r → sound pacemaker_typed (record_ordered_round (T:=T) r) (λ _, True).
Proof. intros Hr p [Hh Hc]. rewrite record_ordered_effect. by case_decide. Qed.
End counters.

(** ** The round manager *)

(** What the application's code promises: no panics of its own, and rounds that
    are [u64]. *)
Class AppSound `{CH : Chain} `{OV : OverflowMode} := {
  app_verify_block : ∀ b : Blk, ok_or_overflow (λ _, True) (block_verify_signature b);
  app_from_votes : ∀ (votes : list Vot) ag,
    ok_or_overflow (λ qc : QCert, is_u64 (qc_round qc)) (qc_from_votes votes ag);
}.
Class VerifierSound `{CH : Chain} `{OV : OverflowMode} (vv : Verifier) := {
  vs_verify : ∀ v : Vot, ok_or_overflow (λ _, True) (vote_verify v vv);
  vs_check : ∀ l b, ok_or_overflow (λ _, True) (check_voting_power vv l b);
  vs_aggregate : ∀ l, ok_or_overflow (λ _, True) (aggregate_signatures vv l);
}.

Section manager.
Context `{CH : Chain} `{OV : OverflowMode} `{HO : HashOrder} `{!AppSound}.
Abbreviation Mgr := (RoundManager TwoChainSafetyRules).
Implicit Types m : Mgr.

Definition rules_typed (r : TwoChainSafetyRules) : Prop := safety_u64 (state r).
Definition round_state_typed (s : RoundState) : Prop :=
  is_u64 (rs_epoch s) ∧ is_u64 (rs_round s) ∧
  (∀ b, rs_proposed_block s = Some b → is_u64 (block_round b)) ∧
  (∀ qc, rs_quorum_cert s = Some qc → is_u64 (qc_round qc)).
Definition votes_typed (p : PendingVotes) : Prop :=
  is_u64 (pv_current_round p) ∧ map_Forall (λ k _, is_u64 k.1) (pv_votes p).
Definition manager_typed m : Prop :=
  round_state_typed (rm_round_state m) ∧ votes_typed (rm_pending_votes m) ∧
  rules_typed (rm_safety_rules m).

Lemma map_err_sound {E F A} (f : E → F) (r : res E A) Q :
  ok_or_overflow Q r → ok_or_overflow Q (map_err f r).
Proof. by destruct r. Qed.
Lemma observe_qc_sound qc :
  is_u64 (qc_round qc) → sound rules_typed (observe_qc qc) (λ _, True).
Proof.
  intros Hq r Hr. rewrite observe_qc_effect by done. unfold rules_typed, safety_u64 in *.
  case_decide as Hd; [by destruct Hd|]. cbn. split; [|done].
  repeat case_decide; split_and!; nlia.
Qed.
Lemma add_signature_sound {E} id sg vp :
  sound (λ _, True) (add_signature (E:=E) id sg vp) (λ _, True).
Proof.
  unfold add_signature. sound_step; [by apply sound_get|]. case_decide; [by apply sound_ret|].
  sound_step.
  { apply sound_lift. unfold add128. pose proof (add_w_overflow (E:=E) 128 (ag_voting_power a) vp).
    by destruct (add_w 128 _ _). }
  sound_step; [by apply sound_modify|]. sound_step; [|].
  { apply sound_lift. pose proof (add64_sound (E:=E) (ag_signer_count a) 1).
    by destruct (add64 _ _). }
  sound_step; [by apply sound_modify|]. by apply sound_modify.
Qed.
Lemma aggregate_votes_sound {E} vv l :
  sound (λ _, True) (aggregate_votes (E:=E) vv l) (λ _, True).
Proof.
  induction l as [|v l IH]; cbn [aggregate_votes]; [by apply sound_ret|].
  sound_step; [|done]. destruct (get_voting_power vv (vote_author v));
    [apply add_signature_sound|by apply sound_ret].
Qed.
Lemma build_aggregator_sound {E} vv l :
  ok_or_overflow (λ _, True) (build_aggregator (E:=E) vv l).
Proof.
  unfold build_aggregator.
  destruct (aggregate_votes_sound (E:=E) vv l aggregator_new I) as [_ Ho].
  by destruct (aggregate_votes vv l aggregator_new) as [a [[]| |]].
Qed.
Lemma pv_check_quorum_sound {E} p k vv `{!VerifierSound vv} :
  ok_or_overflow (λ _, True) (pv_check_quorum (E:=E) p k vv).
Proof.
  unfold pv_check_quorum. destruct (pv_votes p !! k); [|done].
  pose proof (build_aggregator_sound (E:=E) vv (hm_values g)) as Hb.
  destruct (build_aggregator vv (hm_values g)) as [a| |]; cbn; [|done..].
  pose proof (vs_check (signers a) true) as Hc. unfold check_quorum.
  by destruct (check_voting_power vv (signers a) true).
Qed.
Lemma add_vote_sound {E} v vv `{!VerifierSound vv} :
  is_u64 (vote_round v) → sound votes_typed (add_vote (E:=E) v vv) (λ _, True).
Proof.
  intros Hv. unfold add_vote. sound_step; [by apply sound_get|]. rename a into p0.
  case_match; [by apply sound_ret|]. case_decide; [by apply sound_ret|].
  sound_step.
  { apply sound_modify; [done|]. intros p [Hc Hk]. split; [done|].
    by apply map_Forall_insert_2. }
  sound_step; [by apply sound_get|]. sound_step; [|by apply sound_ret].
  by apply sound_lift, pv_check_quorum_sound.
Qed.
Lemma retain_votes_typed P p : votes_typed p → votes_typed (retain_votes P p).
Proof.
  intros [Hc Hk]. split; [done|]. intros k vs. cbn. rewrite lookup_hm_retain.
  case_match; [apply Hk|done].
Qed.

Lemma on_safety_rules_sound {A} (x : M TwoChainSafetyRules Error A) Q :
  sound rules_typed x Q → sound manager_typed (on_safety_rules x) Q.
Proof.
  intros Hx. apply sound_zoom with (PT := rules_typed); [done|by intros m (?&?&?)|].
  intros m r (?&?&?) ?. by split_and!.
Qed.
Lemma on_round_state_sound {A} (x : M RoundState Error A) Q :
  sound round_state_typed x Q →
  sound manager_typed (on_round_state (SR:=TwoChainSafetyRules) x) Q.
Proof.
  intros Hx. apply sound_zoom with (PT := round_state_typed); [done|by intros m (?&?&?)|].
  intros m r (?&?&?) ?. by split_and!.
Qed.
Lemma on_pending_votes_sound {A} (x : M PendingVotes Error A) Q :
  sound votes_typed x Q →
  sound manager_typed (on_pending_votes (SR:=TwoChainSafetyRules) x) Q.
Proof.
  intros Hx. apply sound_zoom with (PT := votes_typed); [done|by intros m (?&?&?)|].
  intros m r (?&?&?) ?. by split_and!.
Qed.

Lemma form_qc_sound b r vv `{!VerifierSound vv} :
  sound manager_typed
    (form_quorum_certificate_for_block (SR:=TwoChainSafetyRules) b r vv) (λ _, True).
Proof.
  unfold form_quorum_certificate_for_block.
  sound_step; [by apply sound_gets|]. rename a into votes.
  sound_step; [apply sound_lift, build_aggregator_sound|]. rename a into ag.
  sound_step; [apply sound_lift, map_err_sound, vs_check|].
  sound_step; [apply sound_lift, vs_aggregate|]. rename a into sg.
  apply sound_bind with (Q := λ qc : QCert, is_u64 (qc_round qc));
    [apply sound_lift, app_from_votes|]. intros qc Hqc.
  sound_step; [by apply on_safety_rules_sound, observe_qc_sound|].
  sound_step.
  - apply on_round_state_sound, sound_modify; [done|].
    intros s (?&?&?&?). split_and!; [done..|]. by intros ? [= <-].
  - apply on_pending_votes_sound, sound_modify; [done|]. intros p. apply retain_votes_typed.
Qed.
Lemma process_vote_sound v vv `{!VerifierSound vv} :
  is_u64 (vote_round v) →
  sound manager_typed (process_vote (SR:=TwoChainSafetyRules) v vv) (λ _, True).
Proof.
  intros Hv. unfold process_vote. sound_step; [apply sound_lift, vs_verify|].
  sound_step; [by apply sound_gets|]. destruct (negb _); [by apply sound_ret|].
  sound_step; [by apply on_pending_votes_sound, add_vote_sound|].
  sound_step; [|by apply sound_ret].
  case_decide; [by apply form_qc_sound|by apply sound_ret].
Qed.
Lemma process_proposal_sound p :
  is_u64 (block_round p) →
  sound manager_typed (process_proposal (SR:=TwoChainSafetyRules) p) (λ _, True).
Proof.
  intros Hp. unfold process_proposal. sound_step; [by apply sound_gets|].
  destruct (negb _); [case_match; by apply sound_ret|].
  sound_step; [apply sound_lift, app_verify_block|]. sound_step; [|by apply sound_ret].
  apply on_round_state_sound, sound_modify; [done|].
  intros s (?&?&?&?). split_and!; [done..| |done]. by intros ? [= <-].
Qed.
Lemma RoundManager_new_typed c r :
  rules_typed r → manager_typed (RoundManager_new (SR:=TwoChainSafetyRules) c r).
Proof. intros Hr. split_and!; done. Qed.

(** The calls that bypass the coordinator. *)
Lemma try_vote_sound p (tc : option (TwoChainTimeoutCertificate BSig)) :
  is_u64 (block_round p) →
  sound manager_typed (try_vote_for_proposal (SR:=TwoChainSafetyRules) p tc) (λ _, True).
Proof.
  intros Hp m (Hr&Hv&Hs). rewrite try_vote_effect. case_decide; [done|].
  assert (Hn : ok_or_overflow (λ _, True) (safe_to_vote (rm_safety_rules m) p tc)).
  { unfold safe_to_vote, safe_to_vote_impl, next_round. run.
    destruct tc; by repeat case_match. }
  destruct (safe_to_vote _ _ _) as [[]| |]; [|done..]. split; [|done].
  split_and!; [done..|]. destruct Hs as (?&?&?&?&?). by split_and!.
Qed.
Lemma process_timeout_sound reason :
  sound manager_typed (process_timeout (SR:=TwoChainSafetyRules) reason) (λ _, True).
Proof.
  unfold process_timeout.
  apply sound_bind with (Q := is_u64); [by apply sound_gets; intros m ((_&?&_)&_)|].
  intros cur Hcur. sound_step; [by apply sound_gets|]. rename a into q.
  sound_step; [by apply sound_gets|]. rename a into sr.
  apply sound_bind with (Q := is_u64); [apply sound_lift, add64_sound|]. intros next _.
  sound_step.
  { apply sound_lift, map_err_sound. cbn. unfold safe_to_timeout, safe_to_timeout_impl,
      next_round. run. by repeat case_match. }
  sound_step.
  { apply on_safety_rules_sound, sound_modify; [done|]. intros r (?&?&?&?&?). cbn.
    rewrite record_timeout_effect. unfold rules_typed, safety_u64. cbn.
    split_and!; [done..|nlia]. }
  sound_step.
  { apply on_round_state_sound. unfold advance_round.
    apply sound_bind with (Q := is_u64); [by apply sound_gets; intros s (_&?&_)|].
    intros r _. apply sound_bind with (Q := is_u64); [apply sound_lift, add64_sound|].
    intros r' Hr'. apply sound_modify; [done|]. intros s (?&?&?&?). by split_and!. }
  apply sound_bind with (Q := is_u64); [by apply sound_gets; intros m ((_&?&_)&_)|].
  intros r Hr. apply on_pending_votes_sound, sound_modify; [done|].
  intros p [_ Hk]. by apply retain_votes_typed.
Qed.
Lemma start_round_sound r :
  is_u64 r → sound manager_typed (start_round (SR:=TwoChainSafetyRules) r) (λ _, True).
Proof.
  intros Hr. unfold start_round. sound_step.
  - apply on_round_state_sound, sound_modify; [done|]. intros s (?&?&?&?). by split_and!.
  - apply on_pending_votes_sound, sound_modify; [done|].
    intros p [_ Hk]. by apply retain_votes_typed.
Qed.
End manager.

(** ** The coordinator *)
Section coordinator.
Context `{CH : Chain} `{OV : OverflowMode} `{HO : HashOrder} `{!AppSound}.
Context {PE A : Type} `{!EqDecision A} `{!ProposerElection PE A}.
Context (powf : f64 → f64 → f64) (pe : PE).
Implicit Types c : Consensus PE A.

Definition coordinator_typed c : Prop :=
  manager_typed (round_manager c) ∧ pacemaker_typed (pacemaker c) ∧
  pipeline_typed (pipeline c) ∧ is_u64 (c_epoch c) ∧ proposer_election c = pe.
(** The arguments a Rust caller can pass. *)
Definition call_typed (k : ConsCall) : Prop :=
  match k with
  | CcProposal p => is_u64 (block_round p)
  | CcVote v vv => is_u64 (vote_round v) ∧ VerifierSound vv
  | CcQc qc => is_u64 (qc_round qc)
  | CcTimeout r => is_u64 r
  | CcGenerate => ∀ r, ok_or_overflow (λ _, True) (get_proposer_info pe r)
  | CcStart | CcStop => True
  end.

Lemma on_round_manager_sound {X} (x : M (RoundManager TwoChainSafetyRules) Error X) Q :
  sound manager_typed x Q → sound coordinator_typed (on_round_manager x) Q.
Proof.
  intros Hx. apply sound_zoom with (PT := manager_typed); [done|by intros c (?&?)|].
  intros c m (?&?&?&?&?) ?. by split_and!.
Qed.
Lemma on_pacemaker_sound {X} (x : M (Pacemaker ExponentialIntervalStrategy) Error X) Q :
  sound pacemaker_typed x Q → sound coordinator_typed (on_pacemaker x) Q.
Proof.
  intros Hx. apply sound_zoom with (PT := pacemaker_typed); [done|by intros c (?&?&?)|].
  intros c m (?&?&?&?&?) ?. by split_and!.
Qed.
Lemma on_pipeline_sound {X} (x : M Pipeline Error X) Q :
  sound pipeline_typed x Q → sound coordinator_typed (on_pipeline x) Q.
Proof.
  intros Hx. apply sound_zoom with (PT := pipeline_typed); [done|by intros c (?&?&?&?)|].
  intros c m (?&?&?&?&?) ?. by split_and!.
Qed.
Lemma set_state_sound st :
  sound (E:=Error) coordinator_typed (modify (set_state st)) (λ _, True).
Proof. by apply sound_modify. Qed.
Lemma ensure_running_sound : sound coordinator_typed ensure_running (λ _, True).
Proof. unfold ensure_running. sound_step; [by apply sound_gets|]. by apply sound_ensure. Qed.

#[local] Opaque process_block process_proposal process_vote.
Lemma run_cons_sound k :
  call_typed k → sound coordinator_typed (run_cons powf k) (λ _, True).
Proof.
  destruct k as [| |p|v vv|qc|r|]; cbn [run_cons call_typed]; intros Hk.
  - unfold start. sound_step; [by apply sound_gets|]. sound_step; [by apply sound_ensure|].
    apply set_state_sound.
  - unfold stop. sound_step; [by apply sound_gets|]. sound_step; [by apply sound_ensure|].
    sound_step; apply set_state_sound.
  - sound_step; [|by apply sound_ret]. unfold consensus_process_proposal.
    sound_step; [by apply sound_gets|]. destruct (negb _); [by apply sound_ret|].
    sound_step; [apply on_pipeline_sound, process_block_sound|].
    destruct (negb _); [by apply sound_ret|].
    sound_step; [by apply on_round_manager_sound, process_proposal_sound|].
    case_match; try by apply sound_ret. sound_step; [by apply sound_gets|].
    by apply sound_ret.
  - destruct Hk. sound_step; [|by apply sound_ret]. unfold consensus_process_vote.
    sound_step; [apply ensure_running_sound|]. sound_step; [|by apply sound_ret].
    by apply on_round_manager_sound, process_vote_sound.
  - unfold consensus_process_qc. sound_step; [apply ensure_running_sound|].
    by apply on_pacemaker_sound, record_ordered_round_sound.
  - unfold consensus_process_timeout. sound_step; [apply ensure_running_sound|].
    apply sound_bind with (Q := is_u64); [apply sound_lift, add64_sound|].
    intros n Hn. sound_step; [|by apply sound_ret].
    by apply on_pacemaker_sound, enter_new_round_sound.
  - sound_step; [|by apply sound_ret]. unfold consensus_generate_proposal.
    sound_step; [apply ensure_running_sound|].
    apply sound_bind with (Q := coordinator_typed); [by apply sound_get|].
    intros c (_&_&_&_&Hpe). rewrite Hpe. sound_step; [apply sound_lift, Hk|].
    destruct (negb _); [by apply sound_ret|].
    by destruct (get_highest_quorum_cert c); apply sound_ret.
Qed.
Inductive typed_step c c' : Prop :=
| typed_step_intro k : call_typed k → (run_cons powf k c).1 = c' → typed_step c c'.
Lemma Consensus_new_typed config id c :
  is_u64 (cc_initial_epoch config) → is_u64 (pc_initial_round (pacemaker_config config)) →
  Consensus_new powf config pe id = Ok c → coordinator_typed c.
Proof.
  intros He Hr. unfold Consensus_new.
  destruct (ExponentialIntervalStrategy_new _ _ _ _) as [st| |]; cbn; [|done..].
  intros [= <-]. split.
  { apply RoundManager_new_typed. unfold rules_typed, safety_u64. cbn. split_and!; nlia. }
  split; [split; cbn; nlia|]. split; [|done].
  split; [done|]. split; [by repeat constructor|]. done.
Qed.
End coordinator.

Section theorems.
Context `{CH : Chain} `{OV : OverflowMode} `{HO : HashOrder} `{!AppSound}.
Context {PE A : Type} `{!EqDecision A} `{!ProposerElection PE A}.
Context (powf : f64 → f64 → f64).

(** C19: The coordinator is well typed.  From a new coordinator, through any
    calls with arguments Rust's types admit, every round, epoch and counter of
    the coordinator and of the components below it stays a [u64], in the build
    with overflow checks and in the one that wraps; the four stage counters stay
    four, so that indexing them never fails; and provided the application's own
    methods do not panic, no call panics but for an overflow in a build that
    checks it. *)
Theorem coordinator_well_typed config (pe : PE) (id : option A) c0 c k :
  is_u64 (cc_initial_epoch config) → is_u64 (pc_initial_round (pacemaker_config config)) →
  Consensus_new powf config pe id = Ok c0 → rtc (typed_step powf pe) c0 c →
  coordinator_typed pe c ∧
  (call_typed pe k → ok_or_overflow (λ _, True) (run_cons powf k c).2).
Proof.
  intros He Hr Hn Hs.
  assert (Ht : coordinator_typed pe c).
  { refine (rtc_invariant _ (coordinator_typed pe) _ _ _ _ Hs).
    - intros c1 c2 Hc [k' Hk <-]. by apply run_cons_sound.
    - by eapply Consensus_new_typed. }
  split; [done|]. intros Hk. exact (proj2 (run_cons_sound powf pe k Hk c Ht)).
Qed.
End theorems.

(** ** Witness: a node of the mock chain in the release build *)
Section witnesses.
#[local] Existing Instance release_build.
#[local] Instance mock_app_sound : @AppSound mock_chain release_build.
Proof. split; [done|]. by vm_compute. Qed.
#[local] Instance mock_verifier_sound :
  @VerifierSound mock_chain release_build (mock_verifier four).
Proof.
  split; [done| |done]. intros l b. cbn. unfold mvs_check_voting_power.
  assert (Hl : ∀ p, ok_or_overflow (λ _, True) (mvs_power_loop four p l)).
  { induction l as [|a l IH]; intros p; cbn [mvs_power_loop]; [done|].
    destruct (mvs_get_voting_power four a) as [vp|]; cbn; [|apply IH].
    unfold add128. pose proof (add_w_overflow (E:=VerifyError) 128 p vp).
    destruct (add_w 128 p vp); cbn; [apply IH|done..]. }
  specialize (Hl 0). destruct (mvs_power_loop four 0 l); cbn; [|done..].
  by destruct (_ && _).
Qed.
Abbreviation RNode := (@Consensus mock_chain (RoundRobinProposer MockHash) MockHash).
Definition release_new : res Error RNode :=
  @Consensus_new mock_chain _ MockHash exact_powf ConsensusConfig_default
    mock_election (Some (mkHash 0)).
Definition release_call (k : @ConsCall mock_chain) (c : RNode) : RNode * res Error unit :=
  @run_cons mock_chain release_build canonical_order (RoundRobinProposer MockHash)
    MockHash _ _ exact_powf k c.
(** A timeout of the largest round: the addition wraps and the call is an
    ordinary error. *)
Lemma coordinator_well_typed_witness :
  ∃ c0, release_new = Ok c0 ∧
    let c := (release_call CcStart c0).1 in
    coordinator_typed mock_election c ∧
    (release_call (CcTimeout u64_max) c).2 ≠ Panic.
Proof.
  destruct release_new as [c0| |] eqn:E; [|by vm_compute in E..].
  exists c0. split; [done|]. intros c.
  destruct (@coordinator_well_typed mock_chain release_build canonical_order _ _ _ _ _
    exact_powf ConsensusConfig_default mock_election (Some (mkHash 0)) c0 c
    (CcTimeout u64_max)) as [Ht Hk]; [by vm_compute|by vm_compute|exact E| |].
  - apply rtc_once. exists CcStart; [done|reflexivity].
  - split; [exact Ht|]. specialize (Hk ltac:(by vm_compute)). intros Hp.
    unfold release_call in Hp. rewrite Hp in Hk. by cbn in Hk.
Defined.
End witnesses.
