(* ===== verification/Runtime.v ===== *)
(** * [consensus/runtime.rs]: the message queue around the coordinator *)
From S2P Require Import Prelude.
From S2P Require Import Traits.
From S2P Require Import CommonTypes.
From S2P Require Import Mocks.
From S2P Require Import TwoChain.
From S2P Require Import PendingVotes.
From S2P Require Import RoundManager.
From S2P Require Import Float64.
From S2P Require Import Pacemaker.
From S2P Require Import Proposer.
From S2P Require Import Consensus.

Record RuntimeConfig := mkRuntimeConfig {
  process_interval_ms : N;
  max_concurrent_tasks : N;
  rt_network_timeout_ms : N;
  network_buffer_size : N;
}.
Definition RuntimeConfig_default : RuntimeConfig :=
  mkRuntimeConfig 100 10 5000 (1024 * 1024).
Definition RuntimeConfig_new (process_interval_ms max_concurrent_tasks
    network_timeout_ms network_buffer_size : N) : RuntimeConfig :=
  mkRuntimeConfig process_interval_ms max_concurrent_tasks network_timeout_ms
    network_buffer_size.
Definition process_interval (c : RuntimeConfig) : Duration :=
  from_millis (process_interval_ms c).
Definition network_timeout (c : RuntimeConfig) : Duration :=
  from_millis (rt_network_timeout_ms c).

(** The message of [ErFailed] is the rendering of the error it holds. *)
Inductive ExecutionResult :=
| ErSuccess
| ErFailed (message : Error)
| ErTimeout
| ErSkipped (reason : string).
#[export] Instance ExecutionResult_eq_dec : EqDecision ExecutionResult.
Proof. solve_decision. Defined.
Definition er_is_success (r : ExecutionResult) : bool :=
  match r with ErSuccess => true | _ => false end.

Section runtime.
Context `{CH : Chain} `{OV : OverflowMode} `{HO : HashOrder}.
Context {PE A : Type} `{!EqDecision A} `{!ProposerElection PE A}.
Context (powf : f64 → f64 → f64).

Inductive RtMessage :=
| RmProposal (block : Blk)
| RmVote (vote : Vot)
| RmQuorumCertificate (qc : QCert)
| RmTimeout (round : Round)
| RmSyncRequest (target_round : Round)
| RmSyncResponse (blocks : list Blk).
Definition RtMessage_to_string (m : RtMessage) : string :=
  match m with
  | RmProposal block => "Proposal(round=" +:+ pretty (block_round block) +:+ ")"
  | RmVote vote =>
      "Vote(round=" +:+ pretty (md_round (vd_proposed_block (vote_data vote))) +:+ ")"
  | RmQuorumCertificate qc => "QC(round=" +:+ pretty (qc_round qc) +:+ ")"
  | RmTimeout round => "Timeout(round=" +:+ pretty round +:+ ")"
  | RmSyncRequest target_round => "SyncRequest(round=" +:+ pretty target_round +:+ ")"
  | RmSyncResponse blocks =>
      "SyncResponse(count=" +:+ pretty (N.of_nat (length blocks)) +:+ ")"
  end.

Record ConsensusRuntime := mkRuntime {
  consensus : Consensus PE A;
  rt_config : RuntimeConfig;
  pending_messages : list RtMessage;
  active_tasks : list N;
  next_task_id : N;
  rt_is_running : bool;
}.
Implicit Types t : ConsensusRuntime.
Abbreviation RtM := (M ConsensusRuntime Error).

Definition ConsensusRuntime_new (consensus : Consensus PE A) (config : RuntimeConfig) :
    ConsensusRuntime := mkRuntime consensus config [] [] 0 false.

Definition set_consensus (c : Consensus PE A) t : ConsensusRuntime :=
  mkRuntime c (rt_config t) (pending_messages t) (active_tasks t) (next_task_id t)
    (rt_is_running t).
Definition set_pending (q : list RtMessage) t : ConsensusRuntime :=
  mkRuntime (consensus t) (rt_config t) q (active_tasks t) (next_task_id t)
    (rt_is_running t).
Definition set_running (b : bool) t : ConsensusRuntime :=
  mkRuntime (consensus t) (rt_config t) (pending_messages t) (active_tasks t)
    (next_task_id t) b.
Definition clear_tasks t : ConsensusRuntime :=
  mkRuntime (consensus t) (rt_config t) (pending_messages t) [] (next_task_id t)
    (rt_is_running t).
Definition on_consensus {X} (m : M (Consensus PE A) Error X) : RtM X :=
  zoom consensus set_consensus m.

(** A use of the [&mut] that the accessor returns: [f] is what the borrower does to
    the coordinator. *)
Definition consensus_mut (f : Consensus PE A → Consensus PE A) : RtM unit :=
  on_consensus (modify f).

Definition add_network_message (message : RtMessage) t : ConsensusRuntime :=
  set_pending (pending_messages t ++ [message]) t.
Definition pending_message_count t : nat := length (pending_messages t).

(** [match call { Ok(()) => success, Err(e) => failed(e.to_string()) }]. *)
Definition to_execution_result (m : RtM unit) : RtM ExecutionResult := λ t,
  match m t with
  | (t', Ok _) => (t', Ok ErSuccess)
  | (t', Err e) => (t', Ok (ErFailed e))
  | (t', Panic) => (t', Panic)
  end.

(** The body of the loop, then the loop: one message per unit of fuel. *)
Definition process_one (message : RtMessage) : RtM ExecutionResult :=
  match message with
  | RmProposal block => mret ErSuccess
  | RmVote vote => mret ErSuccess
  | RmQuorumCertificate qc =>
      to_execution_result (on_consensus (consensus_process_qc qc))
  | RmTimeout round =>
      to_execution_result (on_consensus (consensus_process_timeout powf round))
  | RmSyncRequest _ => mret (ErSkipped "State sync not implemented")
  | RmSyncResponse _ => mret (ErSkipped "State sync not implemented")
  end.
Fixpoint pending_loop (fuel : nat) (results : list (RtMessage * ExecutionResult)) :
    RtM (list (RtMessage * ExecutionResult)) :=
  match fuel with
  | O => mret results
  | S fuel =>
      q ← gets pending_messages;
      match q with
      | [] => mret results
      | message :: rest =>
          modify (set_pending rest);;
          result ← process_one message;
          pending_loop fuel (results ++ [(message, result)])
      end
  end.
(** As much fuel as messages: the loop only takes messages out. *)
Definition process_pending_messages : RtM (list (RtMessage * ExecutionResult)) :=
  n ← gets pending_message_count; pending_loop n [].

Definition execute_block (block : Blk) : RtM ExecutionResult := mret ErSuccess.
Definition broadcast_proposal t (proposal : Blk) : ExecutionResult := ErSuccess.
Definition broadcast_vote t (vote : Vot) : ExecutionResult := ErSuccess.

Definition rt_start : RtM unit :=
  b ← gets rt_is_running;
  if (b : bool) then throw (Msg "Runtime is already running" [])
  else
    modify (set_running true);;
    on_consensus start.
Definition shutdown : RtM unit :=
  b ← gets rt_is_running;
  if negb b then throw (Msg "Runtime is not running" [])
  else
    modify (set_running false);;
    on_consensus stop;;
    modify (set_pending []);;
    modify clear_tasks.

Definition handle_network_message (message : RtMessage) : RtM ExecutionResult :=
  match message with
  | RmProposal block => mret ErSuccess
  | RmVote vote => mret ErSuccess
  | RmQuorumCertificate qc =>
      to_execution_result (on_consensus (consensus_process_qc qc))
  | RmTimeout round =>
      to_execution_result (on_consensus (consensus_process_timeout powf round))
  | RmSyncRequest _ => mret (ErSkipped "State sync not implemented")
  | RmSyncResponse _ => mret (ErSkipped "State sync not implemented")
  end.
End runtime.
#[global] Arguments ConsensusRuntime {CH} PE A.
#[global] Arguments RtMessage {CH}.

(** ** Lemmas *)
Section lemmas.
Context `{CH : Chain} `{OV : OverflowMode} `{HO : HashOrder}.
Context {PE A : Type} `{!EqDecision A} `{!ProposerElection PE A}.
Context (powf : f64 → f64 → f64).
Implicit Types t : ConsensusRuntime PE A.
Abbreviation RtM := (M (ConsensusRuntime PE A) Error).

(** Handling messages one after the other. *)
Fixpoint handle_all (l : list RtMessage) : RtM (list (RtMessage * ExecutionResult)) :=
  match l with
  | [] => mret []
  | m :: l =>
      r ← handle_network_message powf m; rs ← handle_all l; mret ((m, r) :: rs)
  end.

(** Handling a message touches the coordinator only. *)
Lemma handle_frame m t t' r :
  handle_network_message powf m t = (t', r) → ∃ c, t' = set_consensus c t ∧
    c_state c = c_state (consensus t) ∧ ∀ q, handle_network_message powf m
      (set_pending q t) = (set_pending q t', r).
Proof.
  assert (Hsame : t = set_consensus (consensus t) t) by by destruct t.
  destruct m as [p|v|qc|n|n|l]; cbn [handle_network_message];
    try (intros [= <- <-]; exists (consensus t); by split_and!).
  - unfold to_execution_result, on_consensus, zoom. cbn [consensus set_pending].
    pose proof (run_cons_same_state powf (CcQc qc) eq_refl (consensus t)) as Hs.
    cbn [run_cons] in Hs.
    destruct (consensus_process_qc qc (consensus t)) as [c [[]| |]];
      intros [= <- <-]; exists c; by split_and!.
  - unfold to_execution_result, on_consensus, zoom. cbn [consensus set_pending].
    pose proof (run_cons_same_state powf (CcTimeout n) eq_refl (consensus t)) as Hs.
    cbn [run_cons] in Hs.
    destruct (consensus_process_timeout powf n (consensus t)) as [c [[]| |]];
      intros [= <- <-]; exists c; by split_and!.
Qed.
Lemma process_one_handle m : process_one powf m = handle_network_message (PE:=PE) (A:=A) powf m.
Proof. by destruct m. Qed.

Lemma pending_loop_eq q acc t t' rs :
  pending_messages t = q → pending_loop powf (length q) acc t = (t', Ok rs) →
  ∃ rs', rs = acc ++ rs' ∧ rs'.*1 = q ∧ pending_messages t' = [] ∧
    handle_all q (set_pending [] t) = (t', Ok rs').
Proof.
  revert acc t. induction q as [|m q IH]; intros acc t Hq H.
  { injection H as <- <-. exists []. rewrite app_nil_r. split_and!; try done.
    destruct t; cbn in *. by subst. }
  cbn [length pending_loop] in H. rewrite bind_gets, Hq, bind_modify in H.
  apply bind_ok_inv in H as (t1&r&H1&H). rewrite process_one_handle in H1.
  destruct (handle_frame _ _ _ _ H1) as (c&->&_&Hh).
  apply IH in H as (rs'&->&Hm&Hp&Ha); [|done].
  exists ((m, r) :: rs'). rewrite <- app_assoc. split_and!; [done|cbn; by f_equal|done|].
  cbn [handle_all]. specialize (Hh []).
  change (set_pending [] (set_pending q t)) with (set_pending [] t) in Hh.
  rewrite (bind_ok _ _ _ _ _ Hh), (bind_ok _ _ _ _ _ Ha). done.
Qed.

(** Without overflow checks nothing panics. *)
Lemma consensus_timeout_no_panic n (c : Consensus PE A) :
  overflow_checks = false → (consensus_process_timeout powf n c).2 ≠ Panic.
Proof.
  intros Hov. unfold consensus_process_timeout. rewrite bind_ensure_running.
  case_decide; [|done].
  assert (Hadd : ∀ a b, ∃ x, add64 (E:=Error) a b = Ok x).
  { intros a b. unfold add64, add_w, narrow. rewrite Hov. case_decide; eauto. }
  destruct (Hadd n 1) as [x ->]. unfold on_pacemaker. run.
  destruct (enter_new_round _ _) as [p r] eqn:E. rewrite enter_new_round_effect in E.
  unfold rounds_since_ordered in E.
  destruct (Hadd (highest_ordered_round (pacemaker c)) 1) as [y Hy]. rewrite Hy in E.
  cbn in E. by case_decide; injection E as <- <-.
Qed.
Lemma handle_returns m t :
  overflow_checks = false → ∃ t' r, handle_network_message powf m t = (t', Ok r).
Proof.
  intros Hov. destruct m as [p|v|qc|n|n|l]; cbn [handle_network_message]; try by eauto.
  - unfold to_execution_result, on_consensus, zoom, consensus_process_qc.
    rewrite bind_ensure_running. case_decide; [|by eauto].
    unfold on_pacemaker, zoom. rewrite record_ordered_effect. case_decide; by eauto.
  - unfold to_execution_result, on_consensus, zoom.
    pose proof (consensus_timeout_no_panic n (consensus t) Hov) as Hn.
    destruct (consensus_process_timeout powf n (consensus t)) as [c [[]| |]]; by eauto.
Qed.
Lemma pending_loop_returns n acc t :
  overflow_checks = false → ∃ t' rs, pending_loop powf n acc t = (t', Ok rs).
Proof.
  intros Hov. revert acc t. induction n as [|n IH]; intros acc t; [by eauto|].
  cbn [pending_loop]. rewrite bind_gets.
  destruct (pending_messages t) as [|m q]; [by eauto|].
  rewrite bind_modify, process_one_handle.
  destruct (handle_returns m (set_pending q t) Hov) as (t1&r&H1).
  rewrite (bind_ok _ _ _ _ _ H1). apply IH.
Qed.
End lemmas.

(** ** Calls on a runtime *)
Section calls.
Context `{CH : Chain} `{OV : OverflowMode} `{HO : HashOrder}.
Context {PE A : Type} `{!EqDecision A} `{!ProposerElection PE A}.
Context (powf : f64 → f64 → f64).
Implicit Types t : ConsensusRuntime PE A.

(** The public calls.  [RtConsensusMut] is a use of [consensus_mut]: the borrower
    may leave any coordinator whatever. *)
Inductive RtCall :=
| RtAdd (m : RtMessage)
| RtProcess
| RtHandle (m : RtMessage)
| RtExecute (b : Blk)
| RtStart
| RtShutdown
| RtConsensusMut (f : Consensus PE A → Consensus PE A).
Definition run_rt (k : RtCall) : M (ConsensusRuntime PE A) Error unit :=
  match k with
  | RtAdd m => modify (add_network_message m)
  | RtProcess => process_pending_messages powf;; mret tt
  | RtHandle m => handle_network_message powf m;; mret tt
  | RtExecute b => execute_block b;; mret tt
  | RtStart => rt_start
  | RtShutdown => shutdown
  | RtConsensusMut f => consensus_mut f
  end.
Definition rt_step t t' : Prop := ∃ k, (run_rt k t).1 = t'.
(** The coordinator is reached through the runtime only. *)
Definition own_call (k : RtCall) : Prop :=
  match k with RtConsensusMut _ => False | _ => True end.
Definition rt_own_step t t' : Prop := ∃ k, own_call k ∧ (run_rt k t).1 = t'.

(** The runtime's flag says whether the coordinator runs. *)
Definition rt_inv t : Prop :=
  (rt_is_running t = true ↔ c_state (consensus t) = Running) ∧
  live_state (c_state (consensus t)).
(** What messages leave alone. *)
Definition same_run t t' : Prop :=
  rt_is_running t' = rt_is_running t ∧ c_state (consensus t') = c_state (consensus t).
#[export] Instance same_run_preorder : PreOrder same_run.
Proof. split; [by intros t|]. intros ??? [??] [??]. split; congruence. Qed.
Lemma handle_same_run m : preserves same_run (handle_network_message powf m).
Proof.
  intros t. destruct (handle_network_message powf m t) as [t' r] eqn:E.
  destruct (handle_frame _ _ _ _ _ E) as (c&->&Hc&_). by split.
Qed.
Lemma pending_loop_same_run n acc : preserves same_run (pending_loop powf n acc).
Proof.
  revert acc. induction n as [|n IH]; intros acc; cbn [pending_loop]; frame.
  case_match; frame; [by intros t| |apply IH].
  rewrite process_one_handle. apply handle_same_run.
Qed.

(** The two lifecycle calls in one equation each. *)
Lemma rt_start_effect t :
  rt_start t =
    if rt_is_running t then (t, Err (Msg "Runtime is already running" []))
    else let '(c, r) := start (consensus t) in
         (set_consensus c (set_running true t), r).
Proof.
  unfold rt_start. rewrite bind_gets. destruct (rt_is_running t); [done|].
  rewrite bind_modify. unfold on_consensus, zoom. cbn. by destruct (start _).
Qed.
Lemma shutdown_effect t :
  shutdown t =
    if rt_is_running t
    then match stop (consensus t) with
         | (c, Ok _) => (clear_tasks (set_pending [] (set_consensus c (set_running false t))), Ok tt)
         | (c, Err e) => (set_consensus c (set_running false t), Err e)
         | (c, Panic) => (set_consensus c (set_running false t), Panic)
         end
    else (t, Err (Msg "Runtime is not running" [])).
Proof.
  unfold shutdown. rewrite bind_gets. destruct (rt_is_running t); [|done].
  cbn [negb]. rewrite bind_modify. unfold on_consensus. run.
  by destruct (stop (consensus t)) as [c [[]| |]].
Qed.

Lemma same_run_inv t t' : same_run t t' → rt_inv t → rt_inv t'.
Proof. intros [Hr Hc]. unfold rt_inv. by rewrite Hr, Hc. Qed.
Lemma run_rt_inv k t : own_call k → rt_inv t → rt_inv (run_rt k t).1.
Proof.
  intros Hown Hi. assert (Hs : ∀ X (x : M (ConsensusRuntime PE A) Error X),
    preserves same_run x → rt_inv (x t).1) by (intros; by eapply same_run_inv; [|done]).
  destruct k; cbn [run_rt].
  - apply Hs. by apply preserves_modify.
  - apply Hs. unfold process_pending_messages. frame. apply pending_loop_same_run.
  - apply Hs. apply preserves_bind; [exact _|apply handle_same_run|].
    intros. apply preserves_ret. exact _.
  - apply Hs. frame.
  - destruct Hi as [Hi Hl]. rewrite rt_start_effect. unfold rt_inv, live_state in *.
    destruct (rt_is_running t) eqn:Hr; cbn; [naive_solver|].
    rewrite start_effect. case_decide; cbn; naive_solver.
  - destruct Hi as [Hi Hl]. rewrite shutdown_effect.
    unfold rt_inv, live_state in *.
    destruct (rt_is_running t) eqn:Hr; cbn; [|naive_solver].
    rewrite stop_effect. case_decide; cbn; naive_solver.
  - done.
Qed.
End calls.
#[global] Arguments RtCall {CH} PE A.

Section theorems.
Context `{CH : Chain} `{OV : OverflowMode} `{HO : HashOrder}.
Context {PE A : Type} `{!EqDecision A} `{!ProposerElection PE A}.
Context (powf : f64 → f64 → f64).
Implicit Types t : ConsensusRuntime PE A.

(** Draining the queue is handling its messages one by one in the order in
    which they arrived: a run that returns has emptied the queue and its
    results and final state are those of [handle_network_message] folded over
    the queue; without overflow checks every run returns. *)
Theorem process_pending_fifo t :
  (∀ t' rs, process_pending_messages powf t = (t', Ok rs) →
     rs.*1 = pending_messages t ∧ pending_messages t' = [] ∧
     handle_all powf (pending_messages t) (set_pending [] t) = (t', Ok rs)) ∧
  (overflow_checks = false → ∃ t' rs, process_pending_messages powf t = (t', Ok rs)).
Proof.
  unfold process_pending_messages. rewrite bind_gets. unfold pending_message_count.
  split; [|by apply pending_loop_returns].
  intros t' rs H.
  by destruct (pending_loop_eq powf _ _ _ _ _ eq_refl H) as (rs'&->&?&?&?).
Qed.

(** As long as the coordinator is reached through the runtime only, the
    runtime's flag and the coordinator's state agree, so a start succeeds
    exactly when the runtime is not running and a shutdown exactly when it
    is. *)
Theorem runtime_lifecycle config c0 c cfg t :
  Consensus_new (A:=A) powf config c0 c = Ok (consensus t) →
  t = ConsensusRuntime_new (consensus t) cfg →
  ∀ t', rtc (rt_own_step powf) t t' →
  (rt_is_running t' = true ↔ c_state (consensus t') = Running) ∧
  ((rt_start t').2 = Ok tt ↔ rt_is_running t' = false) ∧
  ((shutdown t').2 = Ok tt ↔ rt_is_running t' = true).
Proof.
  intros Hc Ht t' Hs. assert (Hi : rt_inv t').
  { eapply (rtc_invariant (rt_own_step powf) rt_inv); [|
      |exact Hs].
    - intros t1 t2 H1 [k [Hk <-]]. by apply run_rt_inv.
    - destruct (reachable_frame powf _ _ _ _ _ Hc (rtc_refl _ _)) as (_&_&_&Hl).
      revert Hc. unfold Consensus_new.
      destruct (ExponentialIntervalStrategy_new _ _ _ _); [|done..]. cbn.
      intros [= Hc]. split; [|done]. rewrite Ht, <- Hc. cbn. by split. }
  destruct Hi as [Hi Hl]. split; [done|].
  rewrite rt_start_effect, shutdown_effect, start_effect, stop_effect.
  unfold live_state in Hl.
  destruct (rt_is_running t'); case_decide; cbn; naive_solver.
Qed.

(** Through [consensus_mut] the two can disagree, and then the lifecycle
    calls fail half-way: a start over a running coordinator is an error that
    nevertheless marks the runtime running; a shutdown over a stopped one is
    an error that marks it not running and keeps the queued messages. *)
Theorem lifecycle_partial_failure t :
  (rt_is_running t = false → c_state (consensus t) = Running →
     ∃ e, rt_start t = (set_running true t, Err e)) ∧
  (rt_is_running t = true → c_state (consensus t) = Stopped →
     ∃ e, shutdown t = (set_running false t, Err e)).
Proof.
  rewrite rt_start_effect, shutdown_effect, start_effect, stop_effect.
  assert (Hsame : ∀ b, set_consensus (consensus t) (set_running b t) = set_running b t)
    by done.
  split; intros -> ->; rewrite decide_False by naive_solver; rewrite ?Hsame; eauto.
Qed.
End theorems.

Section witnesses.
Abbreviation Rt := (@ConsensusRuntime mock_chain (RoundRobinProposer MockHash) MockHash).
Definition runtime0 : Rt :=
  @ConsensusRuntime_new mock_chain _ _ node0 RuntimeConfig_default.
Abbreviation rt_run0 := (@run_rt mock_chain debug_build
  (RoundRobinProposer MockHash) MockHash exact_powf).
Abbreviation RtCall0 := (@RtCall mock_chain (RoundRobinProposer MockHash) MockHash).
Definition rt_calls (l : list RtCall0) (t : Rt) : Rt :=
  foldl (λ t k, (rt_run0 k t).1) t l.
Lemma rt_calls_reachable (l : list RtCall0) t :
  Forall own_call l →
  rtc (@rt_own_step mock_chain debug_build (RoundRobinProposer MockHash)
    MockHash exact_powf) t (rt_calls l t).
Proof.
  intros Hl. revert t. induction Hl as [|k l Hk _ IH]; intros t; [apply rtc_refl|].
  eapply rtc_l; [|apply IH]. by exists k.
Qed.
Definition queued0 : Rt := rt_calls
  [RtStart; RtAdd (@RmTimeout mock_chain 1); RtAdd (@RmTimeout mock_chain 1)] runtime0.

(** The second copy of a timeout is refused by the pacemaker. *)
Lemma process_pending_fifo_witness :
  ∃ t' rs e, @process_pending_messages mock_chain debug_build _ MockHash exact_powf queued0
      = (t', Ok rs) ∧
    rs = [(@RmTimeout mock_chain 1, ErSuccess); (@RmTimeout mock_chain 1, ErFailed e)] ∧
    pending_messages t' = [].
Proof.
  destruct (@process_pending_messages mock_chain debug_build _ MockHash exact_powf queued0)
    as [t' [rs| |]] eqn:E; try (exfalso; by vm_compute in E).
  destruct (proj1 (process_pending_fifo (OV:=debug_build)
    (HO:=canonical_order) exact_powf queued0) t' rs E) as (_&Hp&_).
  exists t', rs. eexists. split; [done|]. split; [|exact Hp].
  clear Hp. vm_compute in E. injection E as <- <-. reflexivity.
Defined.

Lemma runtime_lifecycle_witness :
  (@shutdown mock_chain _ MockHash queued0).2 = Ok tt.
Proof.
  pose proof (@runtime_lifecycle mock_chain debug_build canonical_order _ MockHash _ _
    exact_powf ConsensusConfig_default mock_election (Some (mkHash 0))
    RuntimeConfig_default runtime0 node0_new eq_refl queued0) as H.
  destruct H as (_&_&[_ H]); [apply rt_calls_reachable; by repeat constructor|]. apply H. by vm_compute.
Defined.

Lemma lifecycle_partial_failure_witness :
  let t := set_consensus running0 runtime0 in
  ∃ e, @rt_start mock_chain _ MockHash t = (set_running true t, Err e).
Proof.
  intros t. apply (proj1 (@lifecycle_partial_failure mock_chain _ MockHash t));
    by vm_compute.
Defined.
End witnesses.
