(* ===== verification/Ballots.v ===== *)
(** * Does the coordinator vote?

    [ProposalResult] has a field [voted], set when a proposal is accepted by a
    node that is a validator.  Casting a vote takes [try_vote_for_proposal] of the
    round manager, which asks the safety rules and records the vote; this file
    follows the safety rules through the coordinator's calls. *)
From S2P Require Import Prelude.
From S2P Require Import Traits.
From S2P Require Import CommonTypes.
From S2P Require Import SafetyStateData.
From S2P Require Import Mocks.
From S2P Require Import TwoChain.
From S2P Require Import RoundState.
From S2P Require Import Aggregator.
From S2P Require Import PendingVotes.
From S2P Require Import RoundManager.
From S2P Require Import Float64.
From S2P Require Import Pacemaker.
From S2P Require Import Proposer.
From S2P Require Import EpochManager.
From S2P Require Import Pipeline.
From S2P Require Import Consensus.

Section ballots.
Context `{CH : Chain} `{OV : OverflowMode} `{HO : HashOrder}.
Context {PE A : Type} `{!EqDecision A} `{!ProposerElection PE A}.
Context (powf : f64 → f64 → f64).
Implicit Types (r : TwoChainSafetyRules) (m : RoundManager TwoChainSafetyRules).
Implicit Types c : Consensus PE A.

(** ** What votes and timeouts leave behind in the safety state *)
Definition same_ballots r r' : Prop :=
  last_voted_round (state r') = last_voted_round (state r) ∧
  highest_timeout_round (state r') = highest_timeout_round (state r).
#[export] Instance same_ballots_preorder : PreOrder same_ballots.
Proof. split; [done|]. intros ??? [??] [??]. split; congruence. Qed.
Lemma observe_qc_ballots qc : preserves same_ballots (observe_qc qc).
Proof.
  unfold observe_qc, update_preferred_round, update_one_chain_round.
  frame; apply preserves_modify; intros r; unfold on_state; by case_match.
Qed.

(** ** Of the manager's methods only the certificate of a quorum reaches the rules *)
Section manager.
Context (R : relation TwoChainSafetyRules) `{!PreOrder R}.
Definition on_rules m m' : Prop := R (rm_safety_rules m) (rm_safety_rules m').
#[export] Instance on_rules_preorder : PreOrder on_rules.
Proof.
  split; [intros m; apply (reflexivity (R := R))|].
  intros m1 m2 m3. apply (transitivity (R := R)).
Qed.
#[local] Hint Extern 0 (on_rules _ _) => apply (reflexivity (R := R)) : core.
Lemma process_proposal_rules p :
  preserves on_rules (process_proposal (SR := TwoChainSafetyRules) p).
Proof.
  intros m. rewrite process_proposal_effect. case_decide; [|done].
  by destruct (block_verify_signature p).
Qed.
Lemma process_vote_rules v (vv : Verifier) :
  (∀ qc, preserves R (observe_qc qc)) →
  preserves on_rules (process_vote (SR := TwoChainSafetyRules) v vv).
Proof.
  intros Hqc. unfold process_vote, form_quorum_certificate_for_block. frame.
  - intros m. unfold on_pending_votes, zoom. by destruct (add_vote _ _ _).
  - by eapply preserves_zoom; [apply Hqc|].
  - by intros m.
  - by intros m.
Qed.
End manager.
End ballots.

Section theorems.
Context `{CH : Chain} `{OV : OverflowMode} `{HO : HashOrder}.
Context {PE A : Type} `{!EqDecision A} `{!ProposerElection PE A}.
Context (powf : f64 → f64 → f64).
Implicit Types c : Consensus PE A.
Definition rules_of c : TwoChainSafetyRules := rm_safety_rules (round_manager c).

Lemma zoomed_id {X} (p : Blk) (k : PipelineResult → M (Consensus PE A) Error X) c c' r :
  (on_pipeline (process_block p) ≫= k) c = (c', Ok r) →
  ∃ c1 x, self_validator_id c1 = self_validator_id c ∧ k x c1 = (c', Ok r).
Proof.
  intros (c1&x&E&H)%bind_ok_inv. exists c1, x. split; [|done]. revert E.
  unfold on_pipeline, zoom. destruct (process_block p (pipeline c)). by intros [= <- _].
Qed.
Lemma voted_iff p c c' r :
  consensus_process_proposal p c = (c', Ok r) →
  pr_voted r = true ↔ pr_accepted r = true ∧ is_Some (self_validator_id c).
Proof.
  unfold consensus_process_proposal. rewrite bind_gets.
  destruct (negb _); [intros [= <- <-]; naive_solver|]. intros (c1&x&<-&H)%zoomed_id.
  destruct (negb _); [injection H as <- <-; naive_solver|]. revert H.
  unfold on_round_manager. run.
  destruct (process_proposal p (round_manager c1)) as [m [[| | |]| |]]; cbn; try done;
    intros [= _ <-]; cbn; try naive_solver.
  rewrite is_Some_alt. destruct (self_validator_id c1); naive_solver.
Qed.

(** C17: The coordinator announces votes and never casts one.  In every state
    reachable from a new coordinator by any calls, the safety rules have no vote
    and no timeout on record; a proposal leaves them exactly as they were, though
    its answer says [voted] whenever it is accepted by a node that is a
    validator. *)
Theorem coordinator_never_votes config pe (id : option A) c0 c :
  Consensus_new powf config pe id = Ok c0 → rtc (cons_step powf) c0 c →
  last_voted_round (state (rules_of c)) = 0 ∧
  highest_timeout_round (state (rules_of c)) = 0 ∧
  ∀ p c' r, consensus_process_proposal p c = (c', Ok r) →
    rules_of c' = rules_of c ∧
    (pr_voted r = true ↔ pr_accepted r = true ∧ is_Some (self_validator_id c)).
Proof.
  intros Hn Hr.
  destruct (cons_steps_frame powf (on_rules same_ballots) c0 c) as ([Hv Ht]&_);
    [apply process_proposal_rules; exact _| |done|].
  { intros v vv. apply process_vote_rules; [exact _|apply observe_qc_ballots]. }
  unfold rules_of. rewrite Hv, Ht. clear Hv Ht.
  revert Hn. unfold Consensus_new.
  destruct (ExponentialIntervalStrategy_new _ _ _ _); [|done..]. cbn. intros [= <-].
  split_and!; [done..|]. intros p c' r E. split; [|by eapply voted_iff].
  destruct (proposal_frame (on_rules eq) p (process_proposal_rules eq p) c) as [H _].
  by rewrite E in H.
Qed.
End theorems.

(** ** Witness: one node announces votes for two proposals of one round *)
Section witnesses.
#[local] Existing Instance mock_chain.
Abbreviation Node0 := (@Consensus mock_chain (RoundRobinProposer MockHash) MockHash).
Definition propose (p : MockBlock) : M Node0 Error ProposalResult :=
  @consensus_process_proposal mock_chain debug_build _ MockHash p.
(** A proposal of the same round by another author. *)
Definition other_block : MockBlock := mkBlock (mkMeta 0 0 (mkHash 1) (mkHash 7) 0) [].
Definition node1 : Node0 := (propose (mock_block_at 0 7) running0).1.
Definition node2 : Node0 := (propose other_block node1).1.
Lemma coordinator_never_votes_witness :
  (propose (mock_block_at 0 7) running0).2 = Ok (mkProposalResult true None 0 true) ∧
  (propose other_block node1).2 = Ok (mkProposalResult true None 0 true) ∧
  block_id (mock_block_at 0 7) ≠ block_id other_block ∧
  last_voted_round (state (rules_of node2)) = 0.
Proof.
  split; [by vm_compute|]. split; [by vm_compute|]. split; [by vm_compute|].
  refine (proj1 (@coordinator_never_votes mock_chain debug_build canonical_order _ MockHash
    _ _ exact_powf ConsensusConfig_default mock_election (Some (mkHash 0)) node0 node2
    node0_new _)).
  apply (rtc_l _ _ running0); [by exists CcStart|].
  apply (rtc_l _ _ node1); [exists (@CcProposal mock_chain (mock_block_at 0 7)); by vm_compute|].
  apply rtc_once. exists (@CcProposal mock_chain other_block). by vm_compute.
Defined.
End witnesses.
