(* ===== verification/CoordinatorSpec.v ===== *)
(** * What the coordinator is: three machines side by side

    [Consensus] holds a lifecycle state, a round manager, a pacemaker, a pipeline
    and an epoch manager.  The specification keeps the first three and says which
    call reaches which of them; the coordinator refines it, and its parts do not
    talk to each other: what the manager does with votes never reaches the
    pacemaker, and the certificates the pacemaker records never reach the
    manager. *)
From S2P Require Import Prelude.
From S2P Require Import Machine.
From S2P Require Import Traits.
From S2P Require Import CommonTypes.
From S2P Require Import SafetyStateData.
From S2P Require Import Mocks.
From S2P Require Import TwoChain.
From S2P Require Import RoundState.
From S2P Require Import PendingVotes.
From S2P Require Import RoundManager.
From S2P Require Import Float64.
From S2P Require Import Pacemaker.
From S2P Require Import Proposer.
From S2P Require Import EpochManager.
From S2P Require Import Pipeline.
From S2P Require Import Consensus.

Section spec.
Context `{CH : Chain} `{OV : OverflowMode} `{HO : HashOrder}.
Context {PE A : Type} `{!EqDecision A} `{!ProposerElection PE A}.
Context (powf : f64 → f64 → f64) (pe : PE).
Abbreviation Mgr := (RoundManager TwoChainSafetyRules).
Abbreviation Pm := (Pacemaker ExponentialIntervalStrategy).
Implicit Types c : Consensus PE A.

(** ** The parts *)
Definition not_running {X} (st : ConsensusState) : res Error X :=
  Err (Msg "Not in running state: {}" [DStr (ConsensusState_to_string st)]).
Definition life_part (k : ConsCall) (st : ConsensusState) : ConsensusState * res Error unit :=
  match k with
  | CcStart =>
      if decide (st = Bootstrapping ∨ st = Stopped) then (Running, Ok tt)
      else (st, Err (Msg "Cannot start consensus from state: {}"
                       [DStr (ConsensusState_to_string st)]))
  | CcStop =>
      if decide (st = Running ∨ st = CatchingUp) then (Stopped, Ok tt)
      else (st, Err (Msg "Cannot stop consensus from state: {}"
                       [DStr (ConsensusState_to_string st)]))
  | CcProposal _ => (st, Ok tt)
  | _ => (st, if decide (st = Running) then Ok tt else not_running st)
  end.
Definition manager_part (k : ConsCall) : M Mgr Error unit :=
  match k with
  | CcProposal p => process_proposal p;; mret tt
  | CcVote v vv => process_vote v vv;; mret tt
  | CcGenerate => m ← get; lift (get_proposer_info pe (rm_round m));; mret tt
  | _ => mret tt
  end.
Definition pacemaker_part (k : ConsCall) : M Pm Error unit :=
  match k with
  | CcQc qc => record_ordered_round (qc_round qc)
  | CcTimeout r =>
      next_round ← lift (add64 r 1);
      enter_new_round (RI := exponential_duration powf) next_round;;
      mret tt
  | _ => mret tt
  end.
(** Which part a message is for. *)
Definition for_manager (k : ConsCall) : bool :=
  match k with CcProposal _ | CcVote _ _ => true | _ => false end.
Definition for_pacemaker (k : ConsCall) : bool :=
  match k with CcQc _ | CcTimeout _ => true | _ => false end.

(** ** The specification *)
Record Parts := mkParts {
  pt_life : ConsensusState;
  pt_manager : Mgr;
  pt_pacemaker : Pm;
}.
Definition parts_of c : Parts := mkParts (c_state c) (round_manager c) (pacemaker c).
(** A lifecycle call moves the lifecycle; a message is dropped unless running,
    and then goes to its part. *)
Definition parts_step (k : ConsCall) (s : Parts) : Parts * res Error unit :=
  if is_lifecycle k || negb (bool_decide (pt_life s = Running))
  then let '(st, r) := life_part k (pt_life s) in
       (mkParts st (pt_manager s) (pt_pacemaker s), r)
  else if for_pacemaker k
  then let '(p, r) := pacemaker_part k (pt_pacemaker s) in
       (mkParts (pt_life s) (pt_manager s) p, r)
  else let '(m, r) := manager_part k (pt_manager s) in
       (mkParts (pt_life s) m (pt_pacemaker s), r).

(** ** The refinement *)

(** The pipeline's counters have room for [n] more proposals; the election is
    the configured one. *)
Definition room (n : nat) c : Prop :=
  proposer_election c = pe ∧
  ∃ cfg b, pipeline c = pipeline_after cfg b 0 ∧ 4 * (b + N.of_nat n) ≤ u64_max.
Lemma room_same n c c' :
  proposer_election c' = proposer_election c → pipeline c' = pipeline c →
  room (S n) c → room n c'.
Proof. intros He Hp (?&cfg&b&?&?). split; [congruence|]. exists cfg, b. split; [congruence|lia]. Qed.

#[local] Opaque process_block process_proposal process_vote enter_new_round
  record_ordered_round.
(** Where a call is run: by the lifecycle, ... *)
Lemma lifecycle_step k n c :
  is_lifecycle k || negb (bool_decide (c_state c = Running)) = true → room (S n) c →
  room n (run_cons powf k c).1 ∧
  life_part k (c_state c) = (c_state (run_cons powf k c).1, (run_cons powf k c).2) ∧
  round_manager (run_cons powf k c).1 = round_manager c ∧
  pacemaker (run_cons powf k c).1 = pacemaker c.
Proof.
  intros Hk Hroom. destruct (is_lifecycle k) eqn:Hl.
  - clear Hk. destruct k; try done; cbn [run_cons life_part];
      rewrite ?start_effect, ?stop_effect; case_decide; cbn;
      (split; [by apply (room_same n c)|done]).
  - apply negb_true_iff, bool_decide_eq_false in Hk. rewrite run_cons_refused by done. cbn.
    split; [by apply (room_same n c)|]. split; [|done].
    by destruct k; cbn in *; rewrite ?decide_False by done.
Qed.
(** ... the pacemaker ... *)
Lemma pacemaker_step k n c :
  for_pacemaker k = true → c_state c = Running → room (S n) c →
  room n (run_cons powf k c).1 ∧
  run_cons powf k c = let '(p, r) := pacemaker_part k (pacemaker c) in (set_pacemaker p c, r).
Proof.
  intros Hk Hs Hroom.
  assert (E : run_cons powf k c =
    let '(p, r) := pacemaker_part k (pacemaker c) in (set_pacemaker p c, r)).
  { destruct k; try done; cbn [run_cons pacemaker_part].
    - unfold consensus_process_qc. by rewrite bind_ensure_running, decide_True.
    - unfold consensus_process_timeout. rewrite bind_ensure_running, decide_True by done.
      unfold on_pacemaker. run. destruct (add64 r 1) as [x| |]; cbn; [|by destruct c..].
      destruct (enter_new_round x (pacemaker c)) as [p [e| |]]; done. }
  split; [|done]. rewrite E. destruct (pacemaker_part k (pacemaker c)) as [p r].
  by apply (room_same n c).
Qed.
(** ... or the manager. *)
Lemma manager_step k n c :
  is_lifecycle k = false → for_pacemaker k = false → c_state c = Running → room (S n) c →
  room n (run_cons powf k c).1 ∧
  (c_state (run_cons powf k c).1 = c_state c ∧
   pacemaker (run_cons powf k c).1 = pacemaker c) ∧
  manager_part k (round_manager c) =
    (round_manager (run_cons powf k c).1, (run_cons powf k c).2).
Proof.
  intros Hl Hk Hs Hroom. destruct k; try done; cbn [run_cons manager_part].
  - pose proof Hroom as (Hpe&cfg&b&Hp&Hu). unfold mbind, M_bind.
    rewrite (proposal_effect p c cfg b 0) by (done || lia).
    destruct (process_proposal p (round_manager c)) as [m [a| |]]; cbn;
      (split_and!; try done; split; [done|]; exists cfg, (b + 1); split; [done|lia]).
  - unfold consensus_process_vote. rewrite bind_assoc, bind_ensure_running, decide_True by done.
    unfold on_round_manager. run.
    destruct (process_vote v vv (round_manager c)) as [m [a| |]]; cbn;
      (split; [by apply (room_same n c)|done]).
  - unfold consensus_generate_proposal. rewrite bind_assoc, bind_ensure_running, decide_True by done.
    pose proof (proj1 Hroom) as Hpe. unfold c_round. run. rewrite Hpe.
    assert (Hn : room n c) by by apply (room_same n c).
    destruct (get_proposer_info pe (rm_round (round_manager c))) as [i| |]; cbn; [|done..].
    destruct (negb _); [done|]. by destruct (get_highest_quorum_cert c).
Qed.
(** Every call is a call of one part. *)
#[export] Instance coordinator_refines :
  Refines (run_cons powf) parts_step parts_of (λ _, True) room.
Proof.
  intros n k c _ Hroom. unfold parts_step. cbn [parts_of pt_life pt_manager pt_pacemaker].
  destruct (is_lifecycle k || negb (bool_decide (c_state c = Running))) eqn:Hk.
  { destruct (lifecycle_step k n c Hk Hroom) as (?&->&Hm&Hp). split; [done|].
    unfold parts_of. by rewrite Hm, Hp. }
  apply orb_false_iff in Hk as [Hl Hs%negb_false_iff%bool_decide_eq_true].
  destruct (for_pacemaker k) eqn:Hp.
  - destruct (pacemaker_step k n c Hp Hs Hroom) as [? E]. split; [done|]. rewrite E.
    by destruct (pacemaker_part k (pacemaker c)).
  - destruct (manager_step k n c Hl Hp Hs Hroom) as (?&[Hc Hpm]&->). split; [done|].
    unfold parts_of. by rewrite Hc, Hpm.
Qed.

(** ** The parts of a run *)

(** The messages of a run that are not dropped: those that arrive while running. *)
Fixpoint admitted (st : ConsensusState) (l : list ConsCall) : list ConsCall :=
  match l with
  | [] => []
  | k :: l =>
      (if bool_decide (st = Running) && negb (is_lifecycle k) then [k] else []) ++
      admitted (life_part k st).1 l
  end.
Definition route_for (f : ConsCall → bool) (s : Parts) (k : ConsCall) : option ConsCall :=
  if bool_decide (pt_life s = Running) && f k then Some k else None.
#[export] Instance life_projects :
  Projects parts_step life_part pt_life (λ _ k, Some k).
Proof.
  intros k s. unfold parts_step.
  destruct (is_lifecycle k) eqn:Hl; cbn [orb].
  { by destruct (life_part k (pt_life s)). }
  destruct (bool_decide_reflect (pt_life s = Running)); cbn [negb].
  - destruct (for_pacemaker k), (pacemaker_part k (pt_pacemaker s)),
      (manager_part k (pt_manager s)); by destruct k.
  - by destruct (life_part k (pt_life s)).
Qed.
#[export] Instance manager_projects :
  Projects parts_step manager_part pt_manager (route_for for_manager).
Proof.
  intros k s. unfold parts_step, route_for.
  destruct (bool_decide_reflect (pt_life s = Running)); cbn [negb orb andb].
  - destruct k; cbn [is_lifecycle for_pacemaker for_manager orb];
      repeat case_match; simplify_eq/=; try done.
    all: by revert H; cbn [manager_part]; run; case_match; intros [= <- <-].
  - rewrite orb_true_r. by destruct (life_part k (pt_life s)).
Qed.
#[export] Instance pacemaker_projects :
  Projects parts_step pacemaker_part pt_pacemaker (route_for for_pacemaker).
Proof.
  intros k s. unfold parts_step, route_for.
  destruct (bool_decide_reflect (pt_life s = Running)); cbn [negb orb andb].
  - destruct k; cbn [is_lifecycle for_pacemaker orb]; repeat case_match; by simplify_eq/=.
  - rewrite orb_true_r. by destruct (life_part k (pt_life s)).
Qed.
Lemma routed_life l s : routed parts_step (λ _ k, Some k) l s = l.
Proof. revert s. induction l as [|k l IH]; intros s; cbn; [done|]. by rewrite IH. Qed.
Lemma routed_admitted (f : ConsCall → bool) l s :
  (∀ k, is_lifecycle k = true → f k = false) →
  routed parts_step (route_for f) l s = filter f (admitted (pt_life s) l).
Proof.
  intros Hf. revert s. induction l as [|k l IH]; intros s; [done|].
  cbn [routed admitted]. rewrite IH, filter_app.
  pose proof (projects_step (proj := pt_life) k s) as Hp. cbn beta iota in Hp. rewrite Hp.
  f_equal. unfold route_for. specialize (Hf k).
  destruct (bool_decide (pt_life s = Running)), (is_lifecycle k), (f k) eqn:E;
    cbn in *; try (by rewrite ?E in *; try specialize (Hf eq_refl)).
Qed.
End spec.

Section theorems.
Context `{CH : Chain} `{OV : OverflowMode} `{HO : HashOrder}.
Context {PE A : Type} `{!EqDecision A} `{!ProposerElection PE A}.
Context (powf : f64 → f64 → f64) (pe : PE).

Lemma Consensus_new_room config (id : option A) c n :
  Consensus_new powf config pe id = Ok c → 4 * N.of_nat n ≤ u64_max →
  room pe n c ∧ c_state c = Bootstrapping.
Proof.
  unfold Consensus_new. destruct (ExponentialIntervalStrategy_new _ _ _ _); [|done..].
  intros [= <-] Hn. split; [|done]. split; [done|]. by exists (pipeline_config config), 0.
Qed.

(** C16: The coordinator is three machines side by side.  Whatever calls a new
    coordinator receives, in any order, as long as the pipeline's counters do not
    overflow (2^62 calls): its answers are those of the specification; its
    lifecycle is that of the lifecycle calls alone; and its round manager and its
    pacemaker are what they would be if each had been given, on its own, the
    messages for it that arrived while running.  So no certificate the manager
    forms moves the pacemaker and no certificate the pacemaker records reaches
    the manager. *)
Theorem coordinator_is_product config (id : option A) c0 l :
  Consensus_new powf config pe id = Ok c0 → 4 * N.of_nat (length l) ≤ u64_max →
  let '(c, answers) := trace (run_cons powf) l c0 in
  let messages := admitted Bootstrapping l in
  answers = (trace (parts_step powf pe) l (parts_of c0)).2 ∧
  c_state c = (trace life_part l Bootstrapping).1 ∧
  round_manager c =
    (trace (manager_part pe) (filter for_manager messages) (round_manager c0)).1 ∧
  pacemaker c =
    (trace (pacemaker_part powf) (filter for_pacemaker messages) (pacemaker c0)).1.
Proof.
  intros Hn Hl. destruct (Consensus_new_room config id c0 (length l + 0) Hn) as [Hr Hs]; [lia|].
  destruct (refines_trace (run_cons powf) (parts_step powf pe) parts_of (λ _, True)
    (room pe) l c0 0) as [_ E]; [by apply Forall_true|done|].
  destruct (trace (run_cons powf) l c0) as [c answers]. rewrite E. split; [done|].
  rewrite <- Hs. change (c_state c0) with (pt_life (parts_of c0)).
  change (c_state c) with (pt_life (parts_of c)).
  change (round_manager c) with (pt_manager (parts_of c)).
  change (pacemaker c) with (pt_pacemaker (parts_of c)).
  replace (parts_of c) with (trace (parts_step powf pe) l (parts_of c0)).1 by by rewrite E.
  rewrite (projects_trace (parts_step powf pe) life_part pt_life (λ _ k, Some k)),
    (projects_trace (parts_step powf pe) (manager_part pe) pt_manager (route_for for_manager)),
    (projects_trace (parts_step powf pe) (pacemaker_part powf) pt_pacemaker
       (route_for for_pacemaker)).
  by rewrite routed_life, !routed_admitted by by intros [].
Qed.
End theorems.

(** ** Witness: messages before, during and after a run of the mock node *)
Section witnesses.
#[local] Existing Instance mock_chain.
Definition node_calls : list ConsCall :=
  [CcTimeout 9; CcStart; CcProposal (mock_block_at 0 7); CcVote (mvote 1 5 1 10) four_vv;
   CcTimeout 5; CcQc (mock_qc_at 3); CcStop; CcTimeout 8].
Lemma coordinator_is_product_witness :
  let c := (trace (@run_cons mock_chain debug_build canonical_order _ MockHash _ _ exact_powf)
              node_calls node0).1 in
  c_state c = Stopped ∧ pm_current_round (pacemaker c) = 6 ∧
  pacemaker c = (trace (@pacemaker_part mock_chain debug_build exact_powf)
    [CcTimeout 5; CcQc (mock_qc_at 3)] (pacemaker node0)).1.
Proof.
  pose proof (@coordinator_is_product mock_chain debug_build canonical_order _ MockHash _ _
    exact_powf mock_election ConsensusConfig_default (Some (mkHash 0)) node0 node_calls
    node0_new ltac:(by vm_compute)) as H.
  destruct (trace _ node_calls node0) as [c answers] eqn:E. cbn [fst].
  destruct H as (_&Hs&_&Hp). split; [rewrite Hs; by vm_compute|].
  split; [|rewrite Hp; by vm_compute]. rewrite Hp. by vm_compute.
Defined.
End witnesses.
