(* ===== verification/RuntimeSpec.v ===== *)
(** * What the runtime is: a mailbox in front of a pacemaker

    [ConsensusRuntime] queues network messages for the coordinator.  Its
    specification is two flags, two round numbers and a queue: certificates raise
    one number, timeouts the other, and everything else is acknowledged or
    skipped without any effect.  Who borrows the coordinator through
    [consensus_mut] tells the mailbox its new rounds and lifecycle. *)
From S2P Require Import Prelude.
From S2P Require Import Machine.
From S2P Require Import Traits.
From S2P Require Import CommonTypes.
From S2P Require Import Mocks.
From S2P Require Import TwoChain.
From S2P Require Import PendingVotes.
From S2P Require Import RoundManager.
From S2P Require Import Float64.
From S2P Require Import Pacemaker.
From S2P Require Import Proposer.
From S2P Require Import EpochManager.
From S2P Require Import Pipeline.
From S2P Require Import Consensus.
From S2P Require Import Runtime.

(** What a caller can tell of the result of a message, and of a call. *)
Inductive Answer := Acknowledged | Refused | Skipped.
Definition answer_of (r : ExecutionResult) : Answer :=
  match r with ErSuccess => Acknowledged | ErSkipped _ => Skipped | _ => Refused end.
Inductive Observation `{CH : Chain} :=
| ObReturned (ok : bool)
| ObHandled (l : list (RtMessage * Answer))
| ObPanicked.

Section spec.
Context `{CH : Chain}.

(** ** The specification *)
Record Mailbox := mkMailbox {
  mb_on : bool;
  mb_life : ConsensusState;
  mb_current : Round;
  mb_ordered : Round;
  mb_queue : list RtMessage;
}.
Implicit Types b : Mailbox.
Definition mb_set_queue (q : list RtMessage) b : Mailbox :=
  mkMailbox (mb_on b) (mb_life b) (mb_current b) (mb_ordered b) q.
Definition mb_set_life (on : bool) (st : ConsensusState) b : Mailbox :=
  mkMailbox on st (mb_current b) (mb_ordered b) (mb_queue b).
Definition mb_set_rounds (current ordered : Round) b : Mailbox :=
  mkMailbox (mb_on b) (mb_life b) current ordered (mb_queue b).

Definition deliver (m : RtMessage) b : Mailbox * Answer :=
  match m with
  | RmProposal _ | RmVote _ => (b, Acknowledged)
  | RmQuorumCertificate qc =>
      if decide (mb_life b = Running ∧ mb_ordered b < qc_round qc)
      then (mb_set_rounds (mb_current b) (qc_round qc) b, Acknowledged)
      else (b, Refused)
  | RmTimeout r =>
      if decide (mb_life b = Running ∧ mb_current b ≤ r)
      then (mb_set_rounds (r + 1) (mb_ordered b) b, Acknowledged)
      else (b, Refused)
  | RmSyncRequest _ | RmSyncResponse _ => (b, Skipped)
  end.
(** What the mailbox is told. *)
Inductive MbInput :=
| MiAdd (m : RtMessage)
| MiProcess
| MiHandle (m : RtMessage)
| MiExecute
| MiStart
| MiShutdown
| MiCoordinator (life : ConsensusState) (current ordered : Round).
Definition mailbox_step (k : MbInput) b : Mailbox * Observation :=
  match k with
  | MiAdd m => (mb_set_queue (mb_queue b ++ [m]) b, ObReturned true)
  | MiProcess =>
      let '(b', answers) := trace deliver (mb_queue b) (mb_set_queue [] b) in
      (b', ObHandled (zip (mb_queue b) answers))
  | MiHandle m => let '(b', a) := deliver m b in (b', ObHandled [(m, a)])
  | MiExecute => (b, ObReturned true)
  | MiStart =>
      if mb_on b then (b, ObReturned false)
      else if decide (mb_life b = Bootstrapping ∨ mb_life b = Stopped)
      then (mb_set_life true Running b, ObReturned true)
      else (mb_set_life true (mb_life b) b, ObReturned false)
  | MiShutdown =>
      if negb (mb_on b) then (b, ObReturned false)
      else if decide (mb_life b = Running ∨ mb_life b = CatchingUp)
      then (mb_set_queue [] (mb_set_life false Stopped b), ObReturned true)
      else (mb_set_life false (mb_life b) b, ObReturned false)
  | MiCoordinator life current ordered =>
      (mb_set_rounds current ordered (mb_set_life (mb_on b) life b), ObReturned true)
  end.
End spec.

Section refinement.
Context `{CH : Chain} `{OV : OverflowMode} `{HO : HashOrder}.
Context {PE A : Type} `{!EqDecision A} `{!ProposerElection PE A}.
Context (powf : f64 → f64 → f64).
Implicit Types t : ConsensusRuntime PE A.

(** ** The runtime as a machine *)
Definition returned {X} (o : ConsensusRuntime PE A * res Error X) :
    ConsensusRuntime PE A * Observation :=
  (o.1, match o.2 with Panic => ObPanicked | r => ObReturned (is_ok r) end).
Definition runtime_step (k : RtCall PE A) t : ConsensusRuntime PE A * Observation :=
  match k with
  | RtAdd m => (add_network_message m t, ObReturned true)
  | RtProcess =>
      match process_pending_messages powf t with
      | (t', Ok rs) => (t', ObHandled (prod_map id answer_of <$> rs))
      | (t', _) => (t', ObPanicked)
      end
  | RtHandle m =>
      match handle_network_message powf m t with
      | (t', Ok r) => (t', ObHandled [(m, answer_of r)])
      | (t', _) => (t', ObPanicked)
      end
  | RtExecute p => returned (execute_block p t)
  | RtStart => returned (rt_start t)
  | RtShutdown => returned (shutdown t)
  | RtConsensusMut f => returned (consensus_mut f t)
  end.
Definition mailbox_of t : Mailbox :=
  mkMailbox (rt_is_running t) (c_state (consensus t))
    (pm_current_round (pacemaker (consensus t)))
    (highest_ordered_round (pacemaker (consensus t))) (pending_messages t).
(** What a call tells the mailbox; a borrower of the coordinator tells what it
    leaves. *)
Definition input_of t (k : RtCall PE A) : MbInput :=
  match k with
  | RtAdd m => MiAdd m
  | RtProcess => MiProcess
  | RtHandle m => MiHandle m
  | RtExecute _ => MiExecute
  | RtStart => MiStart
  | RtShutdown => MiShutdown
  | RtConsensusMut f =>
      let c := f (consensus t) in
      MiCoordinator (c_state c) (pm_current_round (pacemaker c))
        (highest_ordered_round (pacemaker c))
  end.

(** Rounds below [u64::MAX], so that no addition overflows. *)
Definition message_fits (m : RtMessage) : Prop :=
  match m with
  | RmQuorumCertificate qc => qc_round qc < u64_max
  | RmTimeout r => r < u64_max
  | _ => True
  end.
Definition call_in_range (k : RtCall PE A) : Prop :=
  match k with
  | RtAdd m | RtHandle m => message_fits m
  | RtConsensusMut f => ∀ c, highest_ordered_round (pacemaker c) < u64_max →
      highest_ordered_round (pacemaker (f c)) < u64_max
  | _ => True
  end.
Definition in_range t : Prop :=
  highest_ordered_round (pacemaker (consensus t)) < u64_max ∧
  Forall message_fits (pending_messages t).

(** What the runtime's own calls never reach: the parts of the coordinator that vote. *)
Definition untouched t t' : Prop :=
  round_manager (consensus t') = round_manager (consensus t) ∧
  pipeline (consensus t') = pipeline (consensus t) ∧
  epoch_manager (consensus t') = epoch_manager (consensus t).
#[export] Instance untouched_preorder : PreOrder untouched.
Proof. split; [by intros t|]. intros ??? (?&?&?) (?&?&?). split_and!; congruence. Qed.

(** ** One message *)
Lemma qc_effect qc (c : Consensus PE A) :
  consensus_process_qc qc c =
    if decide (c_state c = Running) then
      if decide (highest_ordered_round (pacemaker c) < qc_round qc)
      then (set_pacemaker (set_highest_ordered (qc_round qc) (pacemaker c)) c, Ok tt)
      else (c, Err (Msg "Round {} is not greater than highest ordered round {}"
                      [DNum (qc_round qc); DNum (highest_ordered_round (pacemaker c))]))
    else (c, Err (Msg "Not in running state: {}" [DStr (ConsensusState_to_string (c_state c))])).
Proof.
  unfold consensus_process_qc. rewrite bind_ensure_running. case_decide; [|done].
  unfold on_pacemaker, zoom. rewrite record_ordered_effect. case_decide; [done|].
  by destruct c.
Qed.
Lemma handle_delivers m t :
  message_fits m → in_range t →
  ∃ t' r, handle_network_message powf m t = (t', Ok r) ∧ in_range t' ∧
    untouched t t' ∧ deliver m (mailbox_of t) = (mailbox_of t', answer_of r).
Proof.
  intros Hm [Ho Hq]. assert (Ht : set_consensus (consensus t) t = t) by by destruct t.
  destruct m as [p|v|qc|r|r|l];
    cbn [handle_network_message deliver mailbox_of mb_life mb_ordered mb_current];
    try (by eexists t, _; split_and!).
  - unfold to_execution_result, on_consensus, zoom. rewrite qc_effect.
    destruct (decide (c_state (consensus t) = Running)) as [Hs|Hs].
    2: { rewrite (decide_False (P := _ ∧ _)) by naive_solver. rewrite Ht.
         by eexists t, _; split_and!. }
    case_decide as Hlt.
    + rewrite (decide_True (P := _ ∧ _)) by done. by eexists _, _; split_and!.
    + rewrite (decide_False (P := _ ∧ _)) by naive_solver. rewrite Ht.
      by eexists t, _; split_and!.
  - unfold to_execution_result, on_consensus, zoom.
    destruct (decide (c_state (consensus t) = Running)) as [Hs|Hs].
    2: { pose proof (run_cons_refused powf (CcTimeout r) (consensus t) eq_refl Hs) as E.
         cbn [run_cons] in E. rewrite E.
         rewrite (decide_False (P := _ ∧ _)) by naive_solver. rewrite Ht.
         by eexists t, _; split_and!. }
    rewrite timeout_effect by done. case_decide as Hle.
    + rewrite (decide_True (P := _ ∧ _)) by done. by eexists _, _; split_and!.
    + rewrite (decide_False (P := _ ∧ _)) by naive_solver. rewrite Ht.
      by eexists t, _; split_and!.
Qed.

(** ** Draining the queue *)
Lemma in_range_pending q t :
  Forall message_fits q → in_range t → in_range (set_pending q t).
Proof. intros Hq [Ho _]. by split. Qed.
Lemma handle_keeps_queue m t t' r :
  handle_network_message powf m t = (t', r) → pending_messages t' = pending_messages t.
Proof. intros (c&->&_)%handle_frame. done. Qed.
Lemma pending_loop_delivers q acc t :
  pending_messages t = q → in_range t →
  ∃ t' rs, pending_loop powf (length q) acc t = (t', Ok (acc ++ rs)) ∧
    in_range t' ∧ untouched t t' ∧
    trace deliver q (mailbox_of (set_pending [] t)) =
      (mailbox_of t', answer_of ∘ snd <$> rs) ∧ rs.*1 = q.
Proof.
  revert acc t. induction q as [|m q IH]; intros acc t Hq Hi.
  { exists t, []. rewrite app_nil_r. split_and!; try done. by destruct t; cbn in *; subst. }
  pose proof Hi as [_ Hfit]. rewrite Hq in Hfit. apply Forall_cons in Hfit as [Hm Hfit].
  destruct (handle_delivers m (set_pending q t)) as (t1&r&Hh&Hi1&Hu&_);
    [done|by apply in_range_pending|].
  destruct (handle_delivers m (set_pending [] t)) as (t2&r2&Hh2&_&_&Hd);
    [done|by apply in_range_pending|].
  assert (t2 = set_pending [] t1 ∧ r2 = r) as [-> ->].
  { destruct (handle_frame _ _ _ _ _ Hh) as (c&_&_&Hq0). specialize (Hq0 []).
    change (set_pending [] (set_pending q t)) with (set_pending [] t) in Hq0.
    rewrite Hh2 in Hq0. by simplify_eq. }
  destruct (IH (acc ++ [(m, r)]) t1) as (t'&rs&Hl&Hi'&Hu'&Ht&Hf);
    [by rewrite (handle_keeps_queue _ _ _ _ Hh)|done|].
  exists t', ((m, r) :: rs). split_and!.
  - cbn [length pending_loop]. rewrite bind_gets, Hq, bind_modify, process_one_handle.
    rewrite (bind_ok _ _ _ _ _ Hh), Hl. by rewrite <- app_assoc.
  - done.
  - by etrans; [|exact Hu'].
  - rewrite trace_cons, Hd. cbn. by rewrite Ht.
  - cbn. by f_equal.
Qed.

(** ** The refinement *)
Lemma zip_answers (rs : list (RtMessage * ExecutionResult)) :
  zip rs.*1 (answer_of ∘ snd <$> rs) = prod_map id answer_of <$> rs.
Proof. induction rs as [|[m r] rs IH]; [done|]. cbn. by f_equal. Qed.
Lemma runtime_step_refines k t :
  call_in_range k → in_range t →
  in_range (runtime_step k t).1 ∧
  mailbox_step (input_of t k) (mailbox_of t) =
    (mailbox_of (runtime_step k t).1, (runtime_step k t).2) ∧
  (own_call k → untouched t (runtime_step k t).1).
Proof.
  intros Hk Hi. pose proof Hi as [Ho Hq].
  destruct k as [m| |m|p| | |f]; cbn [runtime_step mailbox_step input_of].
  - split_and!; try done. split; [done|]. by apply Forall_app; split; [|constructor].
  - unfold process_pending_messages. rewrite bind_gets. unfold pending_message_count.
    destruct (pending_loop_delivers (pending_messages t) [] t eq_refl Hi)
      as (t'&rs&->&?&?&Ht&Hf). split_and!; [done| |done]. cbn [fst snd app].
    change (mb_set_queue [] (mailbox_of t)) with (mailbox_of (set_pending [] t)).
    cbn [mailbox_of mb_queue] in Ht |- *. rewrite Ht, <- Hf at 1. by rewrite zip_answers.
  - destruct (handle_delivers m t Hk Hi) as (t'&r&->&?&?&->). by split_and!.
  - by split_and!.
  - unfold returned. rewrite rt_start_effect, start_effect. cbn [mailbox_of mb_on mb_life].
    destruct (rt_is_running t); [by split_and!|]. by case_decide; split_and!.
  - unfold returned. rewrite shutdown_effect, stop_effect. cbn [mailbox_of mb_on mb_life].
    destruct (rt_is_running t); cbn [negb]; [|by split_and!].
    by case_decide; split_and!.
  - split_and!; [|done|by intros []]. split; [by apply Hk|done].
Qed.
Lemma own_calls_untouched l t :
  Forall own_call l → Forall call_in_range l → in_range t →
  untouched t (trace runtime_step l t).1.
Proof.
  intros Ho Hl. revert t. induction Hl as [|k l Hk _ IH]; intros t Hi; [done|].
  apply Forall_cons in Ho as [Hown Ho].
  destruct (runtime_step_refines k t Hk Hi) as (Hi'&_&Hu).
  rewrite trace_cons. cbn [fst]. etrans; [by apply Hu|]. by apply IH.
Qed.
End refinement.

Section theorems.
Context `{CH : Chain} `{OV : OverflowMode} `{HO : HashOrder}.
Context {PE A : Type} `{!EqDecision A} `{!ProposerElection PE A}.
Context (powf : f64 → f64 → f64).
Implicit Types t : ConsensusRuntime PE A.

(** C15: The runtime is a mailbox in front of a pacemaker.  Take any public calls
    on a runtime, in any order, uses of [consensus_mut] that leave any
    coordinator whatever included, as long as the rounds in the messages and the
    highest ordered round stay below [u64::MAX].  They answer as the mailbox
    does and leave the mailbox's state, the mailbox being told after each use of
    [consensus_mut] which lifecycle state and rounds it has left: queued messages
    are handled in order of arrival, a certificate is acknowledged if and only if
    it raises the highest ordered round of a running node, a timeout if and only
    if its round is not behind the pacemaker's; nothing panics.  Every proposal
    and every vote is acknowledged, but none of them, nor any other call except
    [consensus_mut], ever reaches the round manager, the pipeline or the epoch
    manager: from the last use of [consensus_mut] on they stay as they are. *)
Theorem runtime_is_mailbox t l :
  highest_ordered_round (pacemaker (consensus t)) < u64_max →
  Forall message_fits (pending_messages t) → Forall call_in_range l →
  let '(t', observed) := trace (runtime_step powf) l t in
  trace mailbox_step (inputs (runtime_step powf) input_of l t) (mailbox_of t)
    = (mailbox_of t', observed) ∧
  ∀ l1 l2, l = l1 ++ l2 → Forall own_call l2 →
    let t1 := (trace (runtime_step powf) l1 t).1 in
    round_manager (consensus t') = round_manager (consensus t1) ∧
    pipeline (consensus t') = pipeline (consensus t1) ∧
    epoch_manager (consensus t') = epoch_manager (consensus t1).
Proof.
  intros Ho Hq Hl.
  assert (Hstep : ∀ k (s : ConsensusRuntime PE A), call_in_range k → in_range s → in_range (runtime_step powf k s).1 ∧
    mailbox_step (input_of s k) (mailbox_of s) =
      (mailbox_of (runtime_step powf k s).1, (runtime_step powf k s).2)).
  { intros k s Hk Hs. by destruct (runtime_step_refines powf k s Hk Hs) as (?&?&_). }
  pose proof (λ l' Hl', inputs_trace (runtime_step powf) mailbox_step input_of mailbox_of
    call_in_range in_range l' t Hstep Hl' (conj Ho Hq)) as Hrun.
  destruct (Hrun l Hl) as [_ E].
  assert (Hu : ∀ l1 l2, l = l1 ++ l2 → Forall own_call l2 →
    untouched (trace (runtime_step powf) l1 t).1 (trace (runtime_step powf) l t).1).
  { intros l1 l2 -> Hown. apply Forall_app in Hl as [Hl1 Hl2].
    rewrite trace_app. cbn [fst]. by apply own_calls_untouched; [..|apply Hrun]. }
  by destruct (trace (runtime_step powf) l t) as [t' observed].
Qed.
End theorems.

(** ** Witness: a mock node's runtime *)
Section witnesses.
#[local] Existing Instances mock_chain canonical_order.
Definition node_runtime : ConsensusRuntime (RoundRobinProposer MockHash) MockHash :=
  ConsensusRuntime_new node0 RuntimeConfig_default.
(** The coordinator is stopped behind the runtime's back before the last
    timeout. *)
Definition runtime_calls : list (RtCall (RoundRobinProposer MockHash) MockHash) :=
  [RtAdd (RmTimeout 7); RtStart; RtAdd (RmProposal (mock_block_at 0 7));
   RtAdd (RmQuorumCertificate (mock_qc_at 3)); RtProcess; RtHandle (RmTimeout 2);
   RtConsensusMut (λ c, (stop c).1); RtHandle (RmTimeout 9)].
Lemma runtime_is_mailbox_witness :
  let '(t', observed) := trace (runtime_step (OV:=debug_build) exact_powf)
                           runtime_calls node_runtime in
  mailbox_of t' = mkMailbox true Stopped 8 3 [] ∧
  drop 4 observed =
    [ObHandled [(RmTimeout 7, Acknowledged); (RmProposal (mock_block_at 0 7), Acknowledged);
                (RmQuorumCertificate (mock_qc_at 3), Acknowledged)];
     ObHandled [(RmTimeout 2, Refused)]; ObReturned true;
     ObHandled [(RmTimeout 9, Refused)]] ∧
  round_manager (consensus t') = round_manager node0.
Proof.
  assert (Hl : Forall call_in_range runtime_calls).
  { repeat apply List.Forall_cons; try exact I; try exact eq_refl; [|apply Forall_nil_2].
    intros c Hc. rewrite stop_effect. by case_decide. }
  pose proof (runtime_is_mailbox (OV:=debug_build) exact_powf node_runtime
    runtime_calls eq_refl (Forall_nil_2 _) Hl) as H.
  destruct (trace _ runtime_calls node_runtime) as [t' observed].
  destruct H as (E&Hm). split; [|split].
  - apply (f_equal fst) in E. cbn [fst] in E. rewrite <- E. by vm_compute.
  - apply (f_equal snd) in E. cbn [snd] in E. rewrite <- E. by vm_compute.
  - destruct (Hm (take 7 runtime_calls) (drop 7 runtime_calls)) as [-> _];
      [done|by repeat constructor|by vm_compute].
Defined.
End witnesses.
