(* ===== verification/StateSync.v ===== *)
(** * [consensus/state_sync.rs]: catching up with the network *)
From S2P Require Import Prelude.
From S2P Require Import Traits.
From S2P Require Import CommonTypes.
From S2P Require Import Mocks.
From S2P Require Import TwoChain.

Record StateSyncConfig := mkStateSyncConfig {
  max_batch_size : N;
  sync_timeout_ms : N;
  max_retries : N;
  verify_from_multiple_peers : bool;
}.
Definition StateSyncConfig_default : StateSyncConfig := mkStateSyncConfig 100 5000 3 true.

Inductive SyncStatus :=
| SyIdle
| SyInProgress (target_round current_round : Round) (blocks_received : N)
| SyCompleted (blocks_synced : N)
| SyFailed (error : string).
#[export] Instance SyncStatus_eq_dec : EqDecision SyncStatus.
Proof. solve_decision. Defined.
Definition sy_is_in_progress (s : SyncStatus) : bool :=
  match s with SyInProgress _ _ _ => true | _ => false end.
Definition sy_is_completed (s : SyncStatus) : bool :=
  match s with SyCompleted _ => true | _ => false end.
Definition sy_is_failed (s : SyncStatus) : bool :=
  match s with SyFailed _ => true | _ => false end.
Definition sy_target_round (s : SyncStatus) : option Round :=
  match s with SyInProgress target_round _ _ => Some target_round | _ => None end.
Definition sy_current_round (s : SyncStatus) : option Round :=
  match s with SyInProgress _ current_round _ => Some current_round | _ => None end.

Record SyncRequest := mkSyncRequest {
  rq_target_round : Round;
  rq_start_round : Round;
  rq_epoch : Epoch;
}.
#[export] Instance SyncRequest_eq_dec : EqDecision SyncRequest.
Proof. solve_decision. Defined.
Definition covers_round (r : SyncRequest) (round : Round) : bool :=
  (rq_start_round r <=? round) && (round <=? rq_target_round r).

(** [Iterator::max]. *)
Definition list_max (l : list N) : option N :=
  foldr (λ x m, Some (default x (N.max x <$> m))) None l.

Section state_sync.
Context `{CH : Chain} `{OV : OverflowMode} `{HO : HashOrder}.

Definition round_count {E} (r : SyncRequest) : res E N :=
  add64 (rq_target_round r - rq_start_round r) 1.

Record SyncResponse := mkSyncResponse {
  rp_blocks : list Blk;
  rp_epoch : Epoch;
  is_final : bool;
}.
Definition rp_is_empty (r : SyncResponse) : bool := bool_decide (rp_blocks r = []).
Definition rp_len (r : SyncResponse) : nat := length (rp_blocks r).
Definition highest_round (r : SyncResponse) : option Round :=
  (λ b, block_round b) <$> last (rp_blocks r).
Definition lowest_round (r : SyncResponse) : option Round :=
  (λ b, block_round b) <$> head (rp_blocks r).

(** The loop over [windows(2)]. *)
Fixpoint sequential_loop (blocks : list Blk) : res Error unit :=
  match blocks with
  | b1 :: (b2 :: _) as rest =>
      let current_round := block_round b1 in
      let next_round := block_round b2 in
      expected ← add64 current_round 1;
      if next_round =? expected then sequential_loop rest
      else Err (Msg "Blocks not sequential: round {} followed by round {}"
                  [DNum current_round; DNum next_round])
  | _ => Ok tt
  end.
Definition verify_sequential (r : SyncResponse) : res Error unit :=
  sequential_loop (rp_blocks r).

Record StateSync := mkStateSync {
  sync_config : StateSyncConfig;
  sync_status : SyncStatus;
  pending_requests : list SyncRequest;
  received_blocks : gmap Round Blk;
  highest_known_round : option Round;
  sync_current_round : Round;
}.
Implicit Types s : StateSync.
Abbreviation SM := (M StateSync Error).

Definition StateSync_new (config : StateSyncConfig) (current_round : Round) : StateSync :=
  mkStateSync config SyIdle [] ∅ None current_round.

Definition set_status (st : SyncStatus) s : StateSync :=
  mkStateSync (sync_config s) st (pending_requests s) (received_blocks s)
    (highest_known_round s) (sync_current_round s).
Definition push_request (r : SyncRequest) s : StateSync :=
  mkStateSync (sync_config s) (sync_status s) (pending_requests s ++ [r])
    (received_blocks s) (highest_known_round s) (sync_current_round s).
Definition set_received (m : gmap Round Blk) s : StateSync :=
  mkStateSync (sync_config s) (sync_status s) (pending_requests s) m
    (highest_known_round s) (sync_current_round s).
Definition set_sync_round (r : Round) s : StateSync :=
  mkStateSync (sync_config s) (sync_status s) (pending_requests s)
    (received_blocks s) (highest_known_round s) r.

Definition start_sync (target_round : Round) (epoch : Epoch) : SM unit :=
  s ← get;
  ensure (negb (sy_is_in_progress (sync_status s))) (Msg "Sync already in progress" []);;
  if target_round <=? sync_current_round s
  then modify (set_status (SyCompleted 0))
  else
    let round_count := target_round - sync_current_round s in
    let batch_size := N.min round_count (max_batch_size (sync_config s)) in
    modify (set_status (SyInProgress target_round (sync_current_round s) 0));;
    request_end ← lift (add64 (sync_current_round s) batch_size);
    request_start ← lift (add64 (sync_current_round s) 1);
    modify (push_request (mkSyncRequest request_end request_start epoch)).

Definition add_sync_response (response : SyncResponse) : SM unit :=
  s ← get;
  match sy_target_round (sync_status s) with
  | None => throw (Msg "No sync in progress" [])
  | Some target_round =>
      lift (verify_sequential response);;
      let expected_epoch := rp_epoch response in
      modify (λ s, set_received
        (foldl (λ m block, <[block_round block := block]> m) (received_blocks s)
           (rp_blocks response)) s);;
      s ← get;
      let blocks_received := N.of_nat (size (received_blocks s)) in
      match list_max (hm_keys (received_blocks s)) with
      | None => mret tt
      | Some highest =>
          if target_round <=? highest
          then modify (set_status (SyCompleted blocks_received))
          else
            modify (set_status (SyInProgress target_round highest blocks_received));;
            if is_final response && (highest <? target_round) then
              next_start ← lift (add64 highest 1);
              batch_end ← lift (add64 highest (max_batch_size (sync_config s)));
              let next_end := N.min target_round batch_end in
              modify (push_request (mkSyncRequest next_end next_start expected_epoch))
            else mret tt
      end
  end.

(** [Vec::pop]: the last request pushed. *)
Definition take_next_request s : StateSync * option SyncRequest :=
  match last (pending_requests s) with
  | None => (s, None)
  | Some r =>
      (mkStateSync (sync_config s) (sync_status s)
         (take (length (pending_requests s) - 1) (pending_requests s))
         (received_blocks s) (highest_known_round s) (sync_current_round s), Some r)
  end.

(** One block per unit of fuel; every iteration removes one, so the size of
    the map is enough. *)
Fixpoint ready_loop (fuel : nat) (next_round : Round) (ready : list Blk) :
    SM (list Blk) :=
  match fuel with
  | O => mret ready
  | S fuel =>
      s ← get;
      match received_blocks s !! next_round with
      | None => mret ready
      | Some block =>
          modify (λ s, set_received (delete next_round (received_blocks s)) s);;
          modify (set_sync_round next_round);;
          next_round' ← lift (add64 next_round 1);
          ready_loop fuel next_round' (ready ++ [block])
      end
  end.
Definition ready_blocks : SM (list Blk) :=
  s ← get;
  next_round ← lift (add64 (sync_current_round s) 1);
  ready_loop (size (received_blocks s)) next_round [].

Definition update_highest_known_round (round : Round) s : StateSync :=
  mkStateSync (sync_config s) (sync_status s) (pending_requests s) (received_blocks s)
    (Some (match highest_known_round s with
           | Some current => N.max current round
           | None => round
           end)) (sync_current_round s).
Definition needs_sync s : bool :=
  match highest_known_round s with
  | Some highest =>
      (sync_current_round s <? highest) && negb (sy_is_in_progress (sync_status s))
  | None => false
  end.
Definition sync_cancel s : StateSync :=
  mkStateSync (sync_config s) SyIdle [] ∅ (highest_known_round s) (sync_current_round s).
Definition sync_reset s : StateSync :=
  mkStateSync (sync_config s) SyIdle [] ∅ None (sync_current_round s).
Definition pending_block_count s : nat := size (received_blocks s).
Definition has_block s (round : Round) : bool :=
  bool_decide (is_Some (received_blocks s !! round)).
Definition get_block s (round : Round) : option Blk := received_blocks s !! round.
End state_sync.

(** ** Lemmas *)
Section lemmas.
Context `{CH : Chain} `{OV : OverflowMode} `{HO : HashOrder}.
Implicit Types (s : StateSync) (m : gmap Round Blk).

Lemma list_max_cons x l : list_max (x :: l) = Some (default x (N.max x <$> list_max l)).
Proof. done. Qed.
Lemma list_max_spec l n : list_max l = Some n ↔ n ∈ l ∧ ∀ x, x ∈ l → x ≤ n.
Proof.
  assert (Hs : ∀ l, match list_max l with
    | None => l = [] | Some n => n ∈ l ∧ ∀ x, x ∈ l → x ≤ n end).
  { induction l0 as [|x l0 IH]; [done|]. rewrite list_max_cons.
    destruct (list_max l0) as [n0|]; cbn.
    - destruct IH as [Hin Hle]. split.
      + destruct (N.max_spec x n0) as [[_ ->]|[_ ->]]; [by right|left].
      + intros y [->|Hy]%elem_of_cons; [lia|]. specialize (Hle y Hy). lia.
    - subst. split; [left|]. intros y [->|Hy]%elem_of_cons; [done|].
      by apply not_elem_of_nil in Hy. }
  specialize (Hs l). split.
  - intros E. by rewrite E in Hs.
  - intros [Hin Hle]. destruct (list_max l) as [n'|].
    + destruct Hs as [Hin' Hle']. f_equal. apply N.le_antisymm; auto.
    + subst. by apply not_elem_of_nil in Hin.
Qed.
(** The highest received round, independent of the iteration order. *)
Lemma highest_received_spec m n :
  list_max (hm_keys m) = Some n ↔ is_Some (m !! n) ∧ ∀ k, is_Some (m !! k) → k ≤ n.
Proof. rewrite list_max_spec. setoid_rewrite elem_of_hm_keys. done. Qed.

(** Consecutive rounds. *)
Definition sequential (l : list Blk) : Prop :=
  ∀ i b1 b2, l !! i = Some b1 → l !! S i = Some b2 → block_round b2 = block_round b1 + 1.
Lemma sequential_short l : (length l ≤ 1)%nat → sequential l.
Proof.
  intros Hl i b1 b2 _ H2. apply lookup_lt_Some in H2. lia.
Qed.
Lemma sequential_cons b1 b2 l :
  sequential (b1 :: b2 :: l) ↔ block_round b2 = block_round b1 + 1 ∧ sequential (b2 :: l).
Proof.
  split.
  - intros H. split; [by apply (H 0%nat)|]. intros i. apply (H (S i)).
  - intros [H1 H2] [|i]; [by intros ? ? [= <-] [= <-]|]. apply H2.
Qed.
Lemma sequential_loop_cons b1 b2 l :
  block_round b1 < u64_max →
  sequential_loop (b1 :: b2 :: l) =
    if block_round b2 =? block_round b1 + 1 then sequential_loop (b2 :: l)
    else Err (Msg "Blocks not sequential: round {} followed by round {}"
                [DNum (block_round b1); DNum (block_round b2)]).
Proof.
  intros. change (sequential_loop (b1 :: b2 :: l)) with
    (expected ← add64 (block_round b1) 1;
     if block_round b2 =? expected then sequential_loop (b2 :: l)
     else Err (Msg "Blocks not sequential: round {} followed by round {}"
                [DNum (block_round b1); DNum (block_round b2)])).
  by rewrite (add64_ok (block_round b1)) by nlia.
Qed.
Lemma sequential_loop_spec l :
  Forall (λ b, block_round b < u64_max) l →
  (sequential_loop l = Ok tt ↔ sequential l) ∧
  (¬ sequential l → ∃ e, sequential_loop l = Err e).
Proof.
  induction l as [|b1 [|b2 l] IH]; intros Hl.
  - split; [|intros []; apply sequential_short; cbn; lia].
    split; [|done]. intros _. apply sequential_short. cbn. lia.
  - split; [|intros []; apply sequential_short; cbn; lia].
    split; [|done]. intros _. apply sequential_short. cbn. lia.
  - apply Forall_cons in Hl as [H1 Hl]. destruct (IH Hl) as [IH1 IH2].
    rewrite sequential_loop_cons by done. rewrite sequential_cons.
    destruct (N.eqb_spec (block_round b2) (block_round b1 + 1)) as [E|E].
    + rewrite IH1. split; [naive_solver|]. intros Hn. apply IH2. naive_solver.
    + split; [split; [done|naive_solver]|]. eauto.
Qed.
Lemma sequential_loop_cases l : is_ok (sequential_loop l) = false ∨ sequential_loop l = Ok tt.
Proof. destruct (sequential_loop l) as [[]| |]; auto. Qed.

(** Filing a batch. *)
Definition file_blocks m (l : list Blk) : gmap Round Blk :=
  foldl (λ m block, <[block_round block := block]> m) m l.
Definition keyed m : Prop := ∀ r b, m !! r = Some b → block_round b = r.
Lemma keyed_empty : keyed ∅.
Proof. intros r b. by rewrite lookup_empty. Qed.
Lemma file_blocks_keyed l m : keyed m → keyed (file_blocks m l).
Proof.
  revert m. induction l as [|b l IH]; intros m Hm; [done|]. apply IH.
  intros r b'. rewrite lookup_insert. case_decide; [naive_solver|apply Hm].
Qed.
Lemma file_blocks_dom l m k :
  is_Some (file_blocks m l !! k) ↔ is_Some (m !! k) ∨ ∃ b, b ∈ l ∧ block_round b = k.
Proof.
  revert m. induction l as [|b l IH]; intros m; cbn.
  - split; [by left|]. intros [?|(b&Hb&_)]; [done|]. by apply not_elem_of_nil in Hb.
  - unfold file_blocks in IH. rewrite IH, lookup_insert. setoid_rewrite elem_of_cons.
    case_decide; naive_solver.
Qed.
End lemmas.

Section ready.
Context `{CH : Chain} `{OV : OverflowMode} `{HO : HashOrder}.
Implicit Types (s : StateSync) (m : gmap Round Blk).

(** The run of consecutive rounds [cur+1, ..., cur+n] of [m], maximal, as the
    list [l] of its blocks. *)
Definition maximal_run m (cur : Round) (l : list Blk) : Prop :=
  (∀ i b, l !! i = Some b → m !! (cur + 1 + N.of_nat i) = Some b) ∧
  m !! (cur + 1 + N.of_nat (length l)) = None.
(** [m] without the run. *)
Definition after_run m (cur : Round) (l : list Blk) m' : Prop :=
  ∀ r, m' !! r = if decide (cur < r ≤ cur + N.of_nat (length l)) then None else m !! r.

Lemma maximal_run_nil m cur : m !! (cur + 1) = None → maximal_run m cur [].
Proof. intros Hn. split; [done|]. cbn. by rewrite N.add_0_r. Qed.
Lemma after_run_nil m cur : after_run m cur [] m.
Proof. intros r. cbn. by rewrite decide_False by lia. Qed.
Lemma maximal_run_cons m cur b l :
  m !! (cur + 1) = Some b → maximal_run (delete (cur + 1) m) (cur + 1) l →
  maximal_run m cur (b :: l).
Proof.
  intros Hb [Hrun Hend]. split.
  - intros [|i] b'; cbn [lookup list_lookup]; [intros [= <-]; by rewrite N.add_0_r|].
    intros Hi%Hrun. rewrite lookup_delete_ne in Hi by lia. rewrite <- Hi. f_equal. lia.
  - rewrite lookup_delete_ne in Hend by lia. rewrite <- Hend. cbn [length]. f_equal. lia.
Qed.
Lemma after_run_cons m cur b l m' :
  after_run (delete (cur + 1) m) (cur + 1) l m' → after_run m cur (b :: l) m'.
Proof.
  intros Hafter r. rewrite (Hafter r). cbn [length]. repeat case_decide; try lia; try done.
  - rewrite lookup_delete. case_decide; [done|lia].
  - by rewrite lookup_delete_ne by lia.
Qed.
Lemma ready_loop_stops fuel cur acc s :
  sync_current_round s = cur → received_blocks s !! (cur + 1) = None →
  ready_loop fuel (cur + 1) acc s =
    (set_sync_round (cur + 0) (set_received (received_blocks s) s), Ok (acc ++ [])).
Proof.
  intros Hc Hn. rewrite app_nil_r, N.add_0_r, <- Hc.
  replace (set_sync_round _ _) with s by by destruct s.
  destruct fuel; cbn [ready_loop]; [done|]. by rewrite bind_get, Hc, Hn.
Qed.
Lemma ready_loop_spec fuel cur acc s :
  (size (received_blocks s) ≤ fuel)%nat → sync_current_round s = cur →
  (∀ r, is_Some (received_blocks s !! r) → r < u64_max) →
  ∃ l m', ready_loop fuel (cur + 1) acc s =
      (set_sync_round (cur + N.of_nat (length l)) (set_received m' s), Ok (acc ++ l)) ∧
    maximal_run (received_blocks s) cur l ∧ after_run (received_blocks s) cur l m'.
Proof.
  revert cur acc s. induction fuel as [|fuel IH]; intros cur acc s Hf Hc Hu;
    destruct (received_blocks s !! (cur + 1)) as [b|] eqn:Hb.
  1: { replace (received_blocks s) with (∅ : gmap Round Blk) in Hb
         by (symmetry; apply map_size_empty_iff; lia). by rewrite lookup_empty in Hb. }
  1, 3: exists [], (received_blocks s);
    eauto using ready_loop_stops, maximal_run_nil, after_run_nil.
  cbn [ready_loop]. rewrite bind_get, Hb, !bind_modify.
  rewrite add64_ok by (pose proof (Hu (cur + 1) ltac:(eauto)); lia). rewrite bind_lift.
  set (s1 := set_sync_round (cur + 1) (set_received (delete (cur + 1) (received_blocks s)) s)).
  destruct (IH (cur + 1) (acc ++ [b]) s1) as (l&m'&Hl&Hrun&Hafter).
  { cbn. rewrite map_size_delete_Some by eauto. lia. }
  { done. }
  { intros r Hr. apply Hu. cbn in Hr. rewrite lookup_delete in Hr.
    case_decide; [by destruct Hr|done]. }
  exists (b :: l), m'. split; [|eauto using maximal_run_cons, after_run_cons].
  rewrite Hl, <- app_assoc. unfold s1, set_sync_round, set_received. cbn. arith_congruence.
Qed.
Lemma ready_blocks_spec s :
  sync_current_round s < u64_max →
  (∀ r, is_Some (received_blocks s !! r) → r < u64_max) →
  ∃ l m', ready_blocks s =
      (set_sync_round (sync_current_round s + N.of_nat (length l)) (set_received m' s),
       Ok l) ∧
    maximal_run (received_blocks s) (sync_current_round s) l ∧
    after_run (received_blocks s) (sync_current_round s) l m'.
Proof.
  intros Hc Hu. unfold ready_blocks.
  rewrite bind_get, bind_lift, add64_ok by nlia.
  by apply (ready_loop_spec _ _ []).
Qed.
End ready.

(** ** Calls *)
Section calls.
Context `{CH : Chain} `{OV : OverflowMode} `{HO : HashOrder}.
Implicit Types (s : StateSync) (m : gmap Round Blk).

Inductive SyncCall :=
| ScStart (target : Round) (epoch : Epoch)
| ScResponse (r : SyncResponse)
| ScTake
| ScReady
| ScUpdateHighest (round : Round)
| ScCancel
| ScReset.
Definition run_sync (c : SyncCall) : M StateSync Error unit :=
  match c with
  | ScStart target epoch => start_sync target epoch
  | ScResponse r => add_sync_response r
  | ScTake => modify (λ s, (take_next_request s).1)
  | ScReady => ready_blocks;; mret tt
  | ScUpdateHighest round => modify (update_highest_known_round round)
  | ScCancel => modify sync_cancel
  | ScReset => modify sync_reset
  end.
Definition sync_step s s' : Prop := ∃ c, (run_sync c s).1 = s'.

(** A received block is filed under its own round. *)
Definition sync_frame s s' : Prop :=
  keyed (received_blocks s) → keyed (received_blocks s').
#[local] Instance sync_frame_preorder : PreOrder sync_frame.
Proof. split; [by intros s Hs|]. intros ???. unfold sync_frame. auto. Qed.
Lemma ready_loop_frame n next acc : preserves sync_frame (ready_loop n next acc).
Proof.
  revert next acc. induction n as [|n IH]; intros next acc; cbn [ready_loop]; frame.
  case_match; frame; [|by intros s Hs|apply IH].
  intros s Hk r b'. cbn. rewrite lookup_delete. case_decide; [done|apply Hk].
Qed.
Lemma run_sync_frame c : preserves sync_frame (run_sync c).
Proof.
  destruct c as [t e|r| | |n| |]; cbn [run_sync].
  - unfold start_sync. frame; by intros s Hs.
  - unfold add_sync_response. frame. case_match; frame; [|case_match; frame; by intros s Hs].
    intros s Hk. by apply file_blocks_keyed.
  - apply preserves_modify. intros s Hs. unfold take_next_request.
    by destruct (last (pending_requests s)).
  - unfold ready_blocks. frame. apply ready_loop_frame.
  - apply preserves_modify. by intros s Hs.
  - apply preserves_modify. intros s Hs. apply keyed_empty.
  - apply preserves_modify. intros s Hs. apply keyed_empty.
Qed.
Lemma reachable_keyed cfg cur s :
  rtc sync_step (StateSync_new cfg cur) s → keyed (received_blocks s).
Proof.
  intros Hs. apply (rtc_invariant sync_step (λ s, keyed (received_blocks s))
    (StateSync_new cfg cur) s); [|apply keyed_empty|exact Hs]. intros s1 s2 H1 [c <-]. by apply run_sync_frame.
Qed.
End calls.

Section response.
Context `{CH : Chain} `{OV : OverflowMode} `{HO : HashOrder}.
Implicit Types (s : StateSync) (m : gmap Round Blk).

(** What a response leaves: the status decided by the highest filed round, and
    the request after a final batch. *)
Definition next_request (resp : SyncResponse) s (target high : Round) : SyncRequest :=
  mkSyncRequest (N.min target (high + max_batch_size (sync_config s))) (high + 1)
    (rp_epoch resp).
Definition after_response (resp : SyncResponse) s (target : Round) (high : option Round) :
    StateSync :=
  let m := file_blocks (received_blocks s) (rp_blocks resp) in
  let s1 := set_received m s in
  let n := N.of_nat (size m) in
  match high with
  | None => s1
  | Some high =>
      if decide (target ≤ high) then set_status (SyCompleted n) s1
      else
        let s2 := set_status (SyInProgress target high n) s1 in
        if is_final resp then push_request (next_request resp s target high) s2 else s2
  end.
(** The rounds involved leave room for a batch. *)
Definition rounds_fit (resp : SyncResponse) s : Prop :=
  (∀ r, is_Some (received_blocks s !! r) → r + max_batch_size (sync_config s) < u64_max) ∧
  Forall (λ b, block_round b + max_batch_size (sync_config s) < u64_max) (rp_blocks resp).

Lemma rounds_fit_seq resp s :
  rounds_fit resp s → Forall (λ b, block_round b < u64_max) (rp_blocks resp).
Proof. intros [_ Hf]. eapply Forall_impl; [exact Hf|]. cbn. intros; lia. Qed.
Lemma add_sync_response_effect resp s target :
  rounds_fit resp s → sy_target_round (sync_status s) = Some target →
  sequential (rp_blocks resp) →
  add_sync_response resp s =
    (after_response resp s target
       (list_max (hm_keys (file_blocks (received_blocks s) (rp_blocks resp)))), Ok tt).
Proof.
  intros Hf Ht Hs. pose proof (rounds_fit_seq _ _ Hf) as Hb.
  set (m := file_blocks (received_blocks s) (rp_blocks resp)).
  unfold add_sync_response. rewrite bind_get, Ht.
  unfold verify_sequential. rewrite (proj2 (proj1 (sequential_loop_spec _ Hb)) Hs).
  rewrite bind_lift, bind_modify, bind_get.
  fold (file_blocks (received_blocks s) (rp_blocks resp)). fold m.
  unfold after_response. fold m.
  cbn [received_blocks set_received sync_config].
  destruct (list_max (hm_keys m)) as [high|] eqn:Hm; [|done].
  apply highest_received_spec in Hm as [Hm _].
  assert (Hh : high + max_batch_size (sync_config s) < u64_max).
  { destruct Hf as [Hf1 Hf2].
    apply file_blocks_dom in Hm as [?|(b&Hin&<-)]; [by apply Hf1|].
    by apply (proj1 (Forall_forall _ _) Hf2). }
  destruct (N.leb_spec target high); [by rewrite decide_True|].
  rewrite decide_False by lia. rewrite bind_modify.
  destruct (N.ltb_spec high target); [|lia]. rewrite andb_true_r.
  destruct (is_final resp); [|done].
  rewrite (add64_ok high 1) by nlia. rewrite bind_lift, add64_ok by nlia. done.
Qed.
Lemma add_sync_response_refused resp s :
  rounds_fit resp s →
  sy_target_round (sync_status s) = None ∨ ¬ sequential (rp_blocks resp) →
  ∃ e, add_sync_response resp s = (s, Err e).
Proof.
  intros Hf Hr. pose proof (rounds_fit_seq _ _ Hf) as Hb.
  unfold add_sync_response. rewrite bind_get.
  destruct (sy_target_round (sync_status s)); [|by eauto]. destruct Hr as [|Hr]; [done|].
  destruct (proj2 (sequential_loop_spec _ Hb) Hr) as [e He].
  unfold verify_sequential. rewrite bind_lift, He. eauto.
Qed.
End response.

Section theorems.
Context `{CH : Chain} `{OV : OverflowMode} `{HO : HashOrder}.
Implicit Types (s : StateSync).

(** Starting a sync: refused, without effect, while one is in progress; a
    target that is not ahead is reported as completed; otherwise progress
    starts from the current round and exactly one request is queued, from the
    next round to the end of the first batch, which never passes the target
    and never overflows. *)
Theorem start_sync_correct target epoch s :
  is_u64 target →
  let '(s', r) := start_sync target epoch s in
  let cur := sync_current_round s in
  (sy_is_in_progress (sync_status s) = true → s' = s ∧ ∃ e, r = Err e) ∧
  (sy_is_in_progress (sync_status s) = false →
     r = Ok tt ∧
     (target ≤ cur → s' = set_status (SyCompleted 0) s) ∧
     (cur < target → ∃ last,
        s' = push_request (mkSyncRequest last (cur + 1) epoch)
               (set_status (SyInProgress target cur 0) s) ∧
        last = N.min target (cur + max_batch_size (sync_config s)))).
Proof.
  intros Hu. unfold start_sync. rewrite bind_get.
  destruct (sy_is_in_progress (sync_status s)); [cbn; split; [by eauto|done]|].
  cbn [negb]. unfold ensure. rewrite bind_ret.
  destruct (N.leb_spec target (sync_current_round s)).
  - cbn. split; [done|]. intros _. split_and!; [done|done|lia].
  - rewrite bind_modify, (add64_ok (sync_current_round s)) by nlia.
    run. rewrite (add64_ok (sync_current_round s)) by nlia. cbn.
    split; [done|]. intros _. split_and!; [done|lia|]. intros _.
    eexists. split; [reflexivity|]. lia.
Qed.


(** A response is taken exactly when a sync is in progress and its blocks
    are consecutive, else nothing changes.  Taken, its blocks are filed by
    round over those already there; the sync is complete as soon as the highest
    filed round reaches the target, otherwise it continues from that round and
    a final batch queues a request for the rounds after it, up to the target.
    The order in which the hash map is iterated does not matter. *)
Theorem add_sync_response_correct resp s :
  rounds_fit resp s →
  let m := file_blocks (received_blocks s) (rp_blocks resp) in
  (∀ target, sy_target_round (sync_status s) = Some target →
     sequential (rp_blocks resp) →
     ∃ s', add_sync_response resp s = (s', Ok tt) ∧ received_blocks s' = m ∧
       ∀ high, is_Some (m !! high) → (∀ k, is_Some (m !! k) → k ≤ high) →
         s' = after_response resp s target (Some high)) ∧
  (sy_target_round (sync_status s) = None ∨ ¬ sequential (rp_blocks resp) →
     ∃ e, add_sync_response resp s = (s, Err e)).
Proof.
  intros Hf m. split; [|by apply add_sync_response_refused].
  intros target Ht Hs. rewrite (add_sync_response_effect resp s target) by done.
  fold m. eexists. split; [done|]. split.
  - unfold after_response. destruct (list_max _); [|done]. case_decide; [done|].
    by destruct (is_final resp).
  - intros high Hin Hle. f_equal. by apply highest_received_spec.
Qed.

(** C20: In every reachable state whose current round and whose received rounds
    are below [u64::MAX], so that the round after them exists, [ready_blocks]
    returns the maximal run of received blocks following the current round, in
    round order and without a gap, takes exactly these out of the store, and
    advances the current round to the last of them; the loop needs no more
    iterations than there are stored blocks.  In current round [u64::MAX] a
    build with overflow checks panics instead, and changes nothing. *)
Theorem ready_blocks_maximal cfg cur s :
  rtc sync_step (StateSync_new cfg cur) s →
  let c := sync_current_round s in
  (c < u64_max → (∀ r, is_Some (received_blocks s !! r) → r < u64_max) →
   ∃ l m', ready_blocks s =
       (set_sync_round (c + N.of_nat (length l)) (set_received m' s), Ok l) ∧
     (∀ i b, l !! i = Some b → block_round b = c + 1 + N.of_nat i) ∧
     (∀ i b, l !! i = Some b → received_blocks s !! (c + 1 + N.of_nat i) = Some b) ∧
     received_blocks s !! (c + 1 + N.of_nat (length l)) = None ∧
     (∀ r, m' !! r = if decide (c < r ≤ c + N.of_nat (length l)) then None
                     else received_blocks s !! r)) ∧
  (c = u64_max → overflow_checks = true → ready_blocks s = (s, Panic)).
Proof.
  intros Hr. cbn. split.
  2: { intros Hc Ho. unfold ready_blocks. rewrite bind_get, Hc, succ64_max, Ho. done. }
  intros Hc Hu. pose proof (reachable_keyed _ _ _ Hr) as Hk.
  destruct (ready_blocks_spec s Hc Hu) as (l&m'&He&[Hrun Hend]&Ha).
  exists l, m'. split_and!; [done| |done|done|done].
  intros i b Hi. by apply Hk, Hrun.
Qed.

(** Completion does not mean that the blocks are there: a response with
    the single block of the target round completes a sync from any lower
    round, and if the next round is missing nothing is ready to be
    committed. *)
Theorem sync_completes_with_gaps b epoch fin s target cur n :
  sync_status s = SyInProgress target cur n →
  rounds_fit (mkSyncResponse [b] epoch fin) s →
  block_round b = target → sync_current_round s + 1 < target →
  received_blocks s !! (sync_current_round s + 1) = None →
  ∃ s' k, add_sync_response (mkSyncResponse [b] epoch fin) s = (s', Ok tt) ∧
    sync_status s' = SyCompleted k ∧ (ready_blocks s').2 = Ok [].
Proof.
  intros Hst Hf Hb Hlt Hn.
  rewrite (add_sync_response_effect _ s target) by
    first [done | by rewrite Hst | by apply sequential_short].
  set (m := file_blocks (received_blocks s) [b]).
  change (file_blocks (received_blocks s) (rp_blocks _)) with m.
  assert (Hbt : is_Some (m !! target)).
  { apply file_blocks_dom. right. exists b. split; [apply list_elem_of_here|done]. }
  assert (Hmf : ∀ r, is_Some (m !! r) → r < u64_max).
  { destruct Hf as [Hf1 Hf2]. cbn in Hf2.
    apply Forall_cons in Hf2 as [Hf2 _]. cbv beta in Hf2.
    intros r [Hr|(b'&Hin&<-)]%file_blocks_dom.
    - specialize (Hf1 r Hr). lia.
    - apply list_elem_of_singleton in Hin as ->. lia. }
  destruct (list_max (hm_keys m)) as [high|] eqn:Hm.
  2: { exfalso. destruct Hbt as [x Hx]. unfold hm_keys in Hm.
       assert (Hin : target ∈ hm_keys m) by (apply elem_of_hm_keys; eauto).
       destruct (hm_keys m) as [|y l] eqn:E; [by apply not_elem_of_nil in Hin|].
       unfold hm_keys in E. by rewrite E in Hm. }
  apply highest_received_spec in Hm as [_ Hle].
  unfold after_response.
  change (file_blocks (received_blocks s) (rp_blocks _)) with m.
  rewrite decide_True by auto. eexists _, _. split; [done|]. split; [done|].
  destruct (ready_blocks_spec (set_status (SyCompleted (N.of_nat (size m)))
    (set_received m s))) as (l&m'&->&[Hrun _]&_); [|done|].
  { cbn. specialize (Hmf target Hbt). lia. }
  cbn in Hrun. destruct l as [|x l]; [done|]. specialize (Hrun 0%nat x eq_refl).
  rewrite N.add_0_r in Hrun. unfold m, file_blocks in Hrun. cbn in Hrun.
  rewrite lookup_insert_ne in Hrun by lia. congruence.
Qed.
End theorems.

Section witnesses.
#[local] Existing Instances debug_build canonical_order.
#[local] Existing Instance mock_chain.
Definition sync_at (cur : Round) : @StateSync mock_chain :=
  StateSync_new StateSyncConfig_default cur.
Definition sync_calls (l : list (@SyncCall mock_chain)) (s : @StateSync mock_chain) :=
  foldl (λ s c, (run_sync c s).1) s l.
Lemma sync_calls_reachable l s : rtc sync_step s (sync_calls l s).
Proof.
  revert s. induction l as [|c l IH]; intros s; [apply rtc_refl|].
  eapply rtc_l; [|apply IH]. by exists c.
Qed.
Definition response (rounds : list N) (fin : bool) : @SyncResponse mock_chain :=
  @mkSyncResponse mock_chain ((λ r, mock_block_at r 0) <$> rounds) 0 fin.
Definition syncing : @StateSync mock_chain := sync_calls [ScStart 250 0] (sync_at 4).

Lemma start_sync_correct_witness :
  pending_requests (start_sync (CH:=mock_chain) 250 0 (sync_at 4)).1
    = [mkSyncRequest 104 5 0].
Proof.
  pose proof (start_sync_correct (CH:=mock_chain) 250 0 (sync_at 4) ltac:(by vm_compute)) as H.
  destruct (start_sync 250 0 (sync_at 4)) as [s' r]. destruct H as [_ H].
  destruct (H eq_refl) as (_&_&H'). destruct (H' ltac:(by vm_compute)) as (last&->&->).
  by vm_compute.
Defined.

Lemma add_sync_response_correct_witness :
  let s' := (add_sync_response (response [5; 6; 7] true) syncing).1 in
  sync_status s' = SyInProgress 250 7 3 ∧
  last (pending_requests s') = Some (mkSyncRequest 107 8 0).
Proof.
  intros s'. destruct (add_sync_response_correct (response [5; 6; 7] true) syncing)
    as [H _].
  { split; [|by repeat constructor; vm_compute].
    intros r [x Hx]. by vm_compute in Hx. }
  destruct (H 250) as (s2&He&_&Hh); [done| |].
  { apply (proj1 (sequential_loop_spec (response [5; 6; 7] true).(rp_blocks)
      ltac:(by repeat constructor; vm_compute))). by vm_compute. }
  unfold s'. rewrite He. cbn [fst]. rewrite (Hh 7); [by split; vm_compute|by vm_compute; eauto|].
  intros k [?|(b&Hb&<-)]%file_blocks_dom; [by destruct H0 as [x Hx]; vm_compute in Hx|].
  revert b Hb. apply Forall_forall. by repeat constructor; vm_compute.
Defined.

(** Rounds 5, 6 and 8 are there, 7 is missing. *)
Definition gappy : @StateSync mock_chain :=
  sync_calls [ScStart 250 0; ScResponse (response [5; 6] false);
              ScResponse (response [8] false)] (sync_at 4).
Lemma gappy_rounds r : is_Some (received_blocks gappy !! r) → r < u64_max.
Proof.
  intros [b Hb]. revert r b Hb.
  apply (map_Forall_to_list (λ r (_ : MockBlock), r < u64_max)).
  by repeat constructor; vm_compute.
Qed.
Lemma ready_blocks_maximal_witness :
  ∃ l s', ready_blocks gappy = (s', Ok l) ∧ sync_current_round s' = 6 ∧
    received_blocks s' !! 8 = Some (mock_block_at 8 0).
Proof.
  destruct (ready_blocks_maximal StateSyncConfig_default 4 gappy) as [Hready _];
    [apply sync_calls_reachable|].
  destruct (Hready ltac:(by vm_compute) gappy_rounds) as (l&m'&He&_&Hrun&Hend&Hm).
  assert (Hl : length l = 2%nat).
  { apply (f_equal snd) in He. cbn [snd] in He.
    assert (Hv : (ready_blocks gappy).2 = Ok [mock_block_at 5 0; mock_block_at 6 0])
      by by vm_compute.
    rewrite Hv in He. by injection He as <-. }
  eexists l, _. split; [exact He|]. cbn [sync_current_round set_sync_round
    received_blocks set_received]. rewrite Hl. split; [by vm_compute|].
  rewrite Hm, Hl. rewrite decide_False by (intros [_ H]; by vm_compute in H).
  by vm_compute.
Defined.

Lemma sync_completes_with_gaps_witness :
  ∃ s' k, add_sync_response (@mkSyncResponse mock_chain [mock_block_at 250 0] 0 true) syncing
    = (s', Ok tt) ∧ sync_status s' = SyCompleted k ∧ (ready_blocks s').2 = Ok [].
Proof.
  apply (sync_completes_with_gaps (CH:=mock_chain) (mock_block_at 250 0) 0 true syncing 250 4 0);
    [by vm_compute| |by vm_compute..].
  split; [|by repeat constructor; vm_compute]. intros r [x Hx]. by vm_compute in Hx.
Defined.
End witnesses.
