(* ===== verification/SyncLiveness.v ===== *)
(** * Catching up with an honest peer

    The progress side of [StateSync]: an application that answers every queued
    request with the blocks of the chain brings a node to its target, if it marks
    the batches before the last one as final, and else leaves it waiting. *)
From S2P Require Import Prelude.
From S2P Require Import Traits.
From S2P Require Import CommonTypes.
From S2P Require Import Mocks.
From S2P Require Import TwoChain.
From S2P Require Import StateSync.

Section peer.
Context `{CH : Chain} `{OV : OverflowMode} `{HO : HashOrder}.
Context (chain : Round → Blk).
(** Which answers the peer marks as final. *)
Context (fin : SyncRequest → bool).
Implicit Types s : StateSync.

(** [n] blocks of the chain from round [a]. *)
Definition blocks_from (a : Round) (n : nat) : list Blk :=
  (λ i, chain (a + N.of_nat i)) <$> seq 0 n.
Definition honest_response (q : SyncRequest) : SyncResponse :=
  mkSyncResponse
    (blocks_from (rq_start_round q) (N.to_nat (rq_target_round q + 1 - rq_start_round q)))
    (rq_epoch q) (fin q).
(** One request taken and answered; [false] when none is queued. *)
Definition exchange : M StateSync Error bool := λ s,
  match take_next_request s with
  | (s', None) => (s', Ok false)
  | (s', Some q) => (add_sync_response (honest_response q);; mret true) s'
  end.
Fixpoint catch_up (fuel : nat) : M StateSync Error unit :=
  match fuel with
  | O => mret tt
  | S fuel => more ← exchange; if (more : bool) then catch_up fuel else mret tt
  end.

(** The trait's promise about the chain of blocks: a block knows its round. *)
Context (chain_round : ∀ r, block_round (chain r) = r).

Lemma lookup_blocks a n i b :
  blocks_from a n !! i = Some b ↔ (i < n)%nat ∧ b = chain (a + N.of_nat i).
Proof.
  unfold blocks_from. rewrite list_lookup_fmap_Some. setoid_rewrite lookup_seq.
  split; [intros (j&->&->&?)|intros [? ->]]; [done|]. by exists i.
Qed.
Lemma elem_of_blocks a n b :
  b ∈ blocks_from a n ↔ ∃ r, a ≤ r < a + N.of_nat n ∧ b = chain r.
Proof.
  rewrite list_elem_of_lookup. setoid_rewrite lookup_blocks. split.
  - intros (i&?&->). exists (a + N.of_nat i). split; [lia|done].
  - intros (r&?&->). exists (N.to_nat (r - a)). split; [lia|]. f_equal. lia.
Qed.
Lemma blocks_app a n k : blocks_from a (n + k) = blocks_from a n ++ blocks_from (a + N.of_nat n) k.
Proof.
  unfold blocks_from. rewrite seq_app, fmap_app. f_equal. rewrite (Nat.add_comm 0 n), <- fmap_add_seq.
  rewrite <- list_fmap_compose. apply list_fmap_ext. intros i x _. cbn. f_equal. lia.
Qed.
Lemma length_blocks a n : length (blocks_from a n) = n.
Proof. unfold blocks_from. by rewrite length_fmap, length_seq. Qed.
Lemma blocks_sequential a n : sequential (blocks_from a n).
Proof.
  intros i b1 b2 [_ ->]%lookup_blocks [_ ->]%lookup_blocks. rewrite !chain_round. lia.
Qed.

(** The store after [n] blocks from round [a]. *)
Definition blocks_map a n : gmap Round Blk := file_blocks ∅ (blocks_from a n).
Lemma blocks_map_app a n k :
  file_blocks (blocks_map a n) (blocks_from (a + N.of_nat n) k) = blocks_map a (n + k).
Proof. unfold blocks_map, file_blocks. by rewrite blocks_app, foldl_app. Qed.
Lemma blocks_map_dom a n r : is_Some (blocks_map a n !! r) ↔ a ≤ r < a + N.of_nat n.
Proof.
  unfold blocks_map. rewrite file_blocks_dom. setoid_rewrite elem_of_blocks.
  split.
  - intros [[? Hx]|(b&(r'&?&->)&<-)]; [done|]. by rewrite chain_round.
  - intros ?. right. exists (chain r). split; [|by rewrite chain_round]. by exists r.
Qed.
Lemma blocks_map_S a n :
  blocks_map a (S n) = <[a + N.of_nat n := chain (a + N.of_nat n)]> (blocks_map a n).
Proof.
  replace (S n) with (n + 1)%nat by lia. rewrite <- blocks_map_app. cbn.
  rewrite N.add_0_r. by rewrite chain_round.
Qed.
Lemma blocks_map_size a n : size (blocks_map a n) = n.
Proof.
  induction n as [|n IH]; [by apply map_size_empty|].
  rewrite blocks_map_S, map_size_insert_None; [by rewrite IH|].
  apply eq_None_not_Some. rewrite blocks_map_dom. lia.
Qed.
Lemma blocks_map_lookup a n r b : blocks_map a n !! r = Some b → b = chain r.
Proof.
  induction n as [|n IH]; [done|].
  rewrite blocks_map_S, lookup_insert. case_decide; [|done]. by intros [= <-]; subst.
Qed.
Lemma blocks_map_max a n :
  (0 < n)%nat → list_max (hm_keys (blocks_map a n)) = Some (a + N.of_nat n - 1).
Proof.
  intros Hn. apply highest_received_spec. setoid_rewrite blocks_map_dom. split; lia.
Qed.

(** ** One exchange *)

(** Between two exchanges: the rounds up to [h] are there and the next batch has
    been requested. *)
Record syncing_at (cur target : Round) (ep : Epoch) (batch : N) (h : Round) s : Prop := {
  sa_bounds : cur ≤ h < target;
  sa_batch : max_batch_size (sync_config s) = batch;
  sa_status : sy_target_round (sync_status s) = Some target;
  sa_pending : pending_requests s
    = [mkSyncRequest (N.min target (h + batch)) (h + 1) ep];
  sa_blocks : received_blocks s = blocks_map (cur + 1) (N.to_nat (h - cur));
  sa_current : sync_current_round s = cur;
}.
(** The next batch has not been requested. *)
Definition stalled (target h n : N) s : Prop :=
  sync_status s = SyInProgress target h n ∧ pending_requests s = [].
(** All rounds are there. *)
Definition synced (cur target : Round) s : Prop :=
  sync_status s = SyCompleted (target - cur) ∧
  received_blocks s = blocks_map (cur + 1) (N.to_nat (target - cur)) ∧
  sync_current_round s = cur ∧ pending_requests s = [].

Lemma exchange_progress cur target ep batch h s :
  syncing_at cur target ep batch h s → 0 < batch → target + batch < u64_max →
  let e := N.min target (h + batch) in
  ∃ s', exchange s = (s', Ok true) ∧
    if decide (e = target) then synced cur target s'
    else if fin (mkSyncRequest e (h + 1) ep) then syncing_at cur target ep batch e s'
    else stalled target e (e - cur) s'.
Proof.
  intros [Hb Hc Hst Hp Hr Hcur] Hbatch Hfit e. unfold exchange, take_next_request.
  rewrite Hp. cbn [last length take Nat.sub].
  set (s1 := mkStateSync _ _ _ _ _ _). set (resp := honest_response _).
  assert (Hresp : rp_blocks resp = blocks_from (h + 1) (N.to_nat (e - h)))
    by (unfold resp, honest_response; cbn; f_equal; lia).
  assert (Hm : file_blocks (received_blocks s1) (rp_blocks resp) =
    blocks_map (cur + 1) (N.to_nat (e - cur))).
  { rewrite Hresp. unfold s1. cbn [received_blocks]. rewrite Hr.
    replace (h + 1) with (cur + 1 + N.of_nat (N.to_nat (h - cur))) by lia.
    rewrite blocks_map_app. f_equal. lia. }
  assert (Hmax : list_max (hm_keys (file_blocks (received_blocks s1) (rp_blocks resp)))
    = Some e) by (rewrite Hm, blocks_map_max; [f_equal|]; lia).
  assert (Hadd : add_sync_response resp s1 =
    (after_response resp s1 target (Some e), Ok tt)).
  { rewrite <- Hmax. apply (add_sync_response_effect resp s1 target);
      [|by unfold s1|rewrite Hresp; apply blocks_sequential].
    unfold rounds_fit. rewrite Hresp. unfold s1. cbn [received_blocks sync_config].
    rewrite Hc, Hr.
    split; [intros r; rewrite blocks_map_dom; lia|].
    apply Forall_forall. intros b (r&?&->)%elem_of_blocks. rewrite chain_round. lia. }
  rewrite (bind_ok _ _ _ _ _ Hadd). eexists. split; [reflexivity|].
  unfold after_response. rewrite Hm, blocks_map_size.
  destruct (decide (e = target)) as [He|He].
  - rewrite decide_True by lia. split; [|by rewrite <- He]. cbn. f_equal. lia.
  - rewrite decide_False by lia. unfold resp. cbn [is_final honest_response].
    fold e. destruct (fin _).
    + split; try done; [lia|]. cbn. unfold next_request. cbn. by rewrite Hc.
    + split; [|done]. cbn. f_equal. lia.
Qed.
(** With nothing queued the loop stops. *)
Lemma exchange_done s : pending_requests s = [] → exchange s = (s, Ok false).
Proof. intros Hp. unfold exchange, take_next_request. by rewrite Hp. Qed.

(** The marks the code waits for. *)
Definition marks_short (target : Round) : Prop :=
  ∀ q, rq_target_round q < target → fin q = true.

Lemma catch_up_progress cur target ep batch fuel h s :
  marks_short target →
  syncing_at cur target ep batch h s → 0 < batch → target + batch < u64_max →
  (N.to_nat (target - h) ≤ fuel)%nat →
  ∃ s', catch_up fuel s = (s', Ok tt) ∧ synced cur target s'.
Proof.
  intros Hmark Hs Hb Hf. revert h s Hs. induction fuel as [|fuel IH]; intros h s Hs Hn.
  { destruct (sa_bounds _ _ _ _ _ _ Hs). lia. }
  cbn [catch_up]. destruct (exchange_progress _ _ _ _ _ _ Hs Hb Hf) as (s1&He&Hs1).
  rewrite (bind_ok _ _ _ _ _ He).
  destruct (sa_bounds _ _ _ _ _ _ Hs). case_decide as He'.
  - exists s1. split; [|done]. destruct fuel as [|fuel]; [done|]. cbn [catch_up].
    by rewrite (bind_ok _ _ _ _ _ (exchange_done s1 (proj2 (proj2 (proj2 Hs1))))).
  - rewrite Hmark in Hs1 by (cbn; lia). apply (IH _ _ Hs1). lia.
Qed.
(** A first batch that is short and not marked is the last one. *)
Lemma catch_up_stalls cur target ep batch fuel s :
  syncing_at cur target ep batch cur s → 0 < batch → target + batch < u64_max →
  cur + batch < target → fin (mkSyncRequest (cur + batch) (cur + 1) ep) = false →
  ∃ s', catch_up (S fuel) s = (s', Ok tt) ∧ stalled target (cur + batch) batch s'.
Proof.
  intros Hs Hb Hf Hlt Hfin. cbn [catch_up].
  destruct (exchange_progress _ _ _ _ _ _ Hs Hb Hf) as (s1&He&Hs1).
  rewrite (bind_ok _ _ _ _ _ He). rewrite decide_False in Hs1 by lia.
  rewrite N.min_r, Hfin in Hs1 by lia. replace (cur + batch - cur) with batch in Hs1 by lia.
  exists s1. split; [|done]. destruct fuel as [|fuel]; [done|]. cbn [catch_up].
  by rewrite (bind_ok _ _ _ _ _ (exchange_done s1 (proj2 Hs1))).
Qed.
End peer.

(** A sync that starts: the first request. *)
Section start.
Context `{CH : Chain} `{OV : OverflowMode} `{HO : HashOrder}.
Context (chain : Round → Blk).

Lemma start_sync_begins target ep s :
  sy_is_in_progress (sync_status s) = false → sync_current_round s < target →
  target + max_batch_size (sync_config s) < u64_max →
  received_blocks s = ∅ → pending_requests s = [] →
  ∃ s', start_sync target ep s = (s', Ok tt) ∧
    syncing_at chain (sync_current_round s) target ep (max_batch_size (sync_config s))
      (sync_current_round s) s'.
Proof.
  intros Hi Hlt Hf Hr Hp. unfold start_sync. rewrite bind_get, Hi. cbn [negb].
  unfold ensure. rewrite bind_ret.
  destruct (N.leb_spec target (sync_current_round s)); [lia|].
  rewrite bind_modify, (add64_ok (sync_current_round s)) by nlia. rewrite bind_lift.
  rewrite (add64_ok (sync_current_round s)) by nlia. rewrite bind_lift.
  eexists. split; [reflexivity|].
  split; cbn; [lia|done|done| | |done].
  - rewrite Hp. cbn. do 2 f_equal. lia.
  - rewrite Hr, N.sub_diag. done.
Qed.
End start.

Section theorems.
Context `{CH : Chain} `{OV : OverflowMode} `{HO : HashOrder}.

(** C21: State sync and when it terminates with the chain.  Let a node be idle,
    with nothing stored or queued, behind the target, with a batch size of at
    least one that fits between the target and [u64::MAX], and let every queued
    request be answered with exactly the blocks it asks for.  If the answers that
    stop short of the target are marked as final, at most one exchange per
    missing round ends the sync as completed with no request left, having counted
    exactly the missing blocks; [ready_blocks] then hands out all of them in
    order and the node is at the target round.  But if the first answer stops
    short of the target and is not marked as final, as the documentation of the
    mark (whether this is the final batch) suggests, the sync stalls for ever in
    progress after that batch, with no request queued. *)
Theorem honest_sync_completes (chain : Round → Blk) (fin : SyncRequest → bool) target ep s :
  (∀ r, block_round (chain r) = r) →
  sy_is_in_progress (sync_status s) = false →
  received_blocks s = ∅ → pending_requests s = [] →
  let cur := sync_current_round s in
  let batch := max_batch_size (sync_config s) in
  cur < target → 0 < batch → target + batch < u64_max →
  ∃ s1, start_sync target ep s = (s1, Ok tt) ∧
    (marks_short fin target → ∃ s2 s3,
       catch_up chain fin (N.to_nat (target - cur)) s1 = (s2, Ok tt) ∧
       sync_status s2 = SyCompleted (target - cur) ∧ pending_requests s2 = [] ∧
       ready_blocks s2 = (s3, Ok (blocks_from chain (cur + 1) (N.to_nat (target - cur)))) ∧
       sync_current_round s3 = target) ∧
    (cur + batch < target → fin (mkSyncRequest (cur + batch) (cur + 1) ep) = false →
     ∀ fuel, ∃ s2, catch_up chain fin (S fuel) s1 = (s2, Ok tt) ∧
       sync_status s2 = SyInProgress target (cur + batch) batch ∧
       pending_requests s2 = []).
Proof.
  intros Hc Hi Hr Hp cur batch Hlt Hb Hf.
  destruct (start_sync_begins chain target ep s) as (s1&Hs1&Hat); [done..|].
  exists s1. split; [done|]. split.
  2: { intros Hshort Hfin fuel. by eapply catch_up_stalls. }
  intros Hmark.
  destruct (catch_up_progress chain fin Hc _ _ _ _ (N.to_nat (target - cur)) _ _ Hmark Hat Hb Hf)
    as (s2&Hs2&Hst&Hblocks&Hcur&Hpend); [done|].
  assert (Hdom : ∀ r, is_Some (received_blocks s2 !! r) ↔ cur < r ≤ target).
  { intros r. rewrite Hblocks, blocks_map_dom by done. fold cur. lia. }
  destruct (ready_blocks_spec s2) as (l&m'&He&[Hrun Hend]&_).
  { rewrite Hcur. fold cur. lia. }
  { intros r Hr'%Hdom. lia. }
  rewrite Hcur in Hrun, Hend. fold cur in Hrun, Hend.
  assert (Hlen : length l = N.to_nat (target - cur)).
  { destruct (decide (cur < cur + 1 + N.of_nat (length l) ≤ target)) as [Hd|Hd].
    - apply Hdom in Hd. rewrite Hend in Hd. by destruct Hd.
    - destruct (decide (length l = 0%nat)) as [E|E]; [lia|].
      destruct (lookup_lt_is_Some_2 l (length l - 1)) as [b Hbl]; [lia|].
      apply Hrun in Hbl. assert (H : is_Some (received_blocks s2 !!
        (cur + 1 + N.of_nat (length l - 1)))) by (by rewrite Hbl).
      apply Hdom in H. lia. }
  assert (Hl : l = blocks_from chain (cur + 1) (N.to_nat (target - cur))).
  { apply list_eq. intros i. destruct (l !! i) as [b|] eqn:E.
    - symmetry. apply lookup_blocks. apply lookup_lt_Some in E as Hlt'.
      split; [lia|]. apply Hrun in E. rewrite Hblocks in E.
      by apply blocks_map_lookup in E.
    - symmetry. apply lookup_ge_None. apply lookup_ge_None in E.
      rewrite length_blocks. lia. }
  eexists s2, _. split_and!; [done|done|done|by rewrite He, Hl|].
  cbn. rewrite Hcur, ?length_blocks, ?Hlen. fold cur. lia.
Qed.
End theorems.

Section witnesses.
Definition mock_blocks (r : Round) : @Blk mock_chain := mock_block_at r 0.
Definition idle_node : @StateSync mock_chain :=
  StateSync_new (mkStateSyncConfig 3 5000 3 true) 4.
(** Eight missing rounds in batches of three: with every answer marked the sync
    completes, with only the last one marked it stalls at round 7. *)
Definition only_last (q : SyncRequest) : bool := rq_target_round q =? 12.
Lemma honest_sync_completes_witness :
  (∃ s1 s2, @start_sync mock_chain debug_build 12 0 idle_node = (s1, Ok tt) ∧
    @catch_up mock_chain debug_build reversed_order mock_blocks (λ _, true) 8 s1
      = (s2, Ok tt) ∧ sync_status s2 = SyCompleted 8) ∧
  ∃ s1 s2, @start_sync mock_chain debug_build 12 0 idle_node = (s1, Ok tt) ∧
    @catch_up mock_chain debug_build reversed_order mock_blocks only_last 100 s1
      = (s2, Ok tt) ∧ sync_status s2 = SyInProgress 12 7 3.
Proof.
  split.
  - destruct (@honest_sync_completes mock_chain debug_build reversed_order mock_blocks
      (λ _, true) 12 0 idle_node) as (s1&H1&H2&_); [done|by vm_compute..|].
    destruct (H2 ltac:(done)) as (s2&s3&Hc&Hst&_).
    exists s1, s2. split; [exact H1|]. split; [exact Hc|exact Hst].
  - destruct (@honest_sync_completes mock_chain debug_build reversed_order mock_blocks
      only_last 12 0 idle_node) as (s1&H1&_&H2); [done|by vm_compute..|].
    destruct (H2 ltac:(by vm_compute) ltac:(by vm_compute) 99%nat) as (s2&Hc&Hst&_).
    exists s1, s2. split; [exact H1|]. split; [exact Hc|exact Hst].
Defined.
End witnesses.
