(* ===== verification/Reconfig.v ===== *)
(** * [consensus/reconfig.rs]: epoch transitions and validator set changes *)
From S2P Require Import Prelude.
From S2P Require Import Traits.
From S2P Require Import CommonTypes.
From S2P Require Import Mocks.
From S2P Require Import TwoChain.
From S2P Require Import EpochManager.

Record ReconfigConfig := mkReconfigConfig {
  preparation_window : N;
  verify_signatures : bool;
  reconfig_timeout_ms : N;
}.
Definition ReconfigConfig_default : ReconfigConfig := mkReconfigConfig 5 true 30000.

Inductive ReconfigStatus :=
| RcIdle
| RcPreparing (current_epoch next_epoch : Epoch)
| RcInProgress (new_epoch : Epoch) (validators_processed total_validators : N)
| RcCompleted (epoch : Epoch) (validator_count : N)
| RcFailed (error : string).
#[export] Instance ReconfigStatus_eq_dec : EqDecision ReconfigStatus.
Proof. solve_decision. Defined.
Definition rc_is_in_progress (s : ReconfigStatus) : bool :=
  match s with RcPreparing _ _ | RcInProgress _ _ _ => true | _ => false end.
Definition rc_is_completed (s : ReconfigStatus) : bool :=
  match s with RcCompleted _ _ => true | _ => false end.
Definition rc_is_failed (s : ReconfigStatus) : bool :=
  match s with RcFailed _ => true | _ => false end.
Definition rc_new_epoch (s : ReconfigStatus) : option Epoch :=
  match s with
  | RcPreparing _ next_epoch => Some next_epoch
  | RcInProgress new_epoch _ _ => Some new_epoch
  | RcCompleted epoch _ => Some epoch
  | _ => None
  end.

Section reconfig.
Context `{OV : OverflowMode} `{HO : HashOrder} {A : Type} `{Countable A}.

Definition rc_current_epoch (s : ReconfigStatus) : res Error (option Epoch) :=
  match s with
  | RcPreparing current_epoch _ => Ok (Some current_epoch)
  | RcInProgress new_epoch _ _ => e ← sub64 new_epoch 1; Ok (Some e)
  | RcCompleted epoch _ => Ok (Some epoch)
  | _ => Ok None
  end.

(** ** Validator sets *)
Record ValidatorSet := mkVSet {
  vs_epoch : Epoch;
  validators : gmap A N;
  vs_total_voting_power : N;
}.
Definition ValidatorSet_new (epoch : Epoch) (validators : gmap A N) :
    res Error ValidatorSet :=
  total ← sum128 (hm_values validators);
  Ok (mkVSet epoch validators total).
Definition vs_len (vs : ValidatorSet) : N := N.of_nat (size (validators vs)).
Definition vs_is_empty (vs : ValidatorSet) : bool := bool_decide (validators vs = ∅).
Definition vs_get_voting_power (vs : ValidatorSet) (v : A) : option N :=
  validators vs !! v.
Definition vs_contains (vs : ValidatorSet) (v : A) : bool :=
  bool_decide (is_Some (validators vs !! v)).
Definition validator_ids (vs : ValidatorSet) : list A := hm_keys (validators vs).
Definition quorum_threshold (vs : ValidatorSet) : res Error N :=
  t ← mul128 (vs_total_voting_power vs) 2; add128 (t / 3) 1.
Definition has_quorum (vs : ValidatorSet) (voters : list A) : res Error bool :=
  voting_power ← sum128 (omap (vs_get_voting_power vs) voters);
  threshold ← quorum_threshold vs;
  Ok (threshold <=? voting_power).

Inductive ReconfigEvent :=
| ReNewEpoch (epoch : Epoch) (start_round : Round)
| ReValidatorSetChanged (validator_set : ValidatorSet)
| RePolicyChanged (description : string).

(** ** The handler *)
Context {PE : Type}.
Record ReconfigHandler := mkHandler {
  rc_config : ReconfigConfig;
  rc_status : ReconfigStatus;
  rc_epoch_manager : EpochManager;
  validator_sets : gmap Epoch ValidatorSet;
  pending_events : list ReconfigEvent;
  rc_proposer_election : option PE;
}.
Implicit Types h : ReconfigHandler.
Abbreviation HM := (M ReconfigHandler Error).

Definition ReconfigHandler_new (config : ReconfigConfig) (epoch_manager : EpochManager) :
    ReconfigHandler := mkHandler config RcIdle epoch_manager ∅ [] None.
Definition set_rc_status (s : ReconfigStatus) h : ReconfigHandler :=
  mkHandler (rc_config h) s (rc_epoch_manager h) (validator_sets h) (pending_events h)
    (rc_proposer_election h).
Definition set_rc_epoch_manager (m : EpochManager) h : ReconfigHandler :=
  mkHandler (rc_config h) (rc_status h) m (validator_sets h) (pending_events h)
    (rc_proposer_election h).
Definition set_rc_events (l : list ReconfigEvent) h : ReconfigHandler :=
  mkHandler (rc_config h) (rc_status h) (rc_epoch_manager h) (validator_sets h) l
    (rc_proposer_election h).

Definition current_epoch h : Epoch := em_epoch (rc_epoch_manager h).
Definition validator_set h (epoch : Epoch) : option ValidatorSet :=
  validator_sets h !! epoch.
Definition current_validator_set h : option ValidatorSet :=
  validator_set h (current_epoch h).
Definition set_proposer_election (pe : PE) h : ReconfigHandler :=
  mkHandler (rc_config h) (rc_status h) (rc_epoch_manager h) (validator_sets h)
    (pending_events h) (Some pe).
Definition set_validator_set (epoch : Epoch) (vs : ValidatorSet) h : ReconfigHandler :=
  mkHandler (rc_config h) (rc_status h) (rc_epoch_manager h)
    (<[epoch := vs]> (validator_sets h)) (pending_events h) (rc_proposer_election h).

Definition prepare_reconfig (new_epoch : Epoch) : HM unit :=
  h ← get;
  ensure (negb (rc_is_in_progress (rc_status h)))
    (Msg "Reconfiguration already in progress" []);;
  next ← lift (add64 (current_epoch h) 1);
  ensure (new_epoch =? next) (Msg "Can only transition to the next epoch" []);;
  modify (set_rc_status (RcPreparing (current_epoch h) new_epoch)).

Definition begin_reconfig (vs : ValidatorSet) : HM unit :=
  h ← get;
  match rc_status h with
  | RcPreparing _ next_epoch =>
      ensure (negb (vs_is_empty vs)) (Msg "Validator set cannot be empty" []);;
      modify (set_rc_status (RcInProgress next_epoch 0 (vs_len vs)));;
      modify (set_validator_set next_epoch vs)
  | _ => throw (Msg "Not in preparing state" [])
  end.

(** [?] converts the epoch manager's error by its rendering. *)
Definition complete_reconfig (now : option N) : HM unit :=
  h ← get;
  match rc_status h with
  | RcInProgress new_epoch validators_processed total_validators =>
      ensure (validators_processed =? total_validators)
        (Msg "Not all validators processed: {}/{}"
           [DNum validators_processed; DNum total_validators]);;
      zoom rc_epoch_manager set_rc_epoch_manager
        (map_err_m (λ e, Msg "{}" [DStr (EpochTransitionError_to_string e)])
           (start_new_epoch new_epoch now));;
      modify (set_rc_status (RcCompleted new_epoch total_validators));;
      modify (set_rc_status RcIdle)
  | _ => throw (Msg "Not in progress state" [])
  end.

Definition add_event (event : ReconfigEvent) h : ReconfigHandler :=
  set_rc_events (pending_events h ++ [event]) h.
Definition take_pending_events h : ReconfigHandler * list ReconfigEvent :=
  (set_rc_events [] h, pending_events h).
Definition rc_cancel h : ReconfigHandler := set_rc_events [] (set_rc_status RcIdle h).
Definition should_reconfigure h (round epoch_end_round : Round) : bool :=
  epoch_end_round - preparation_window (rc_config h) <=? round.
Definition rc_process_block {B Tx MD S H Node HM} `{!BlockMetadata MD Node HM}
    `{!BlockTrait B Tx MD S H} (block : B) h : option ReconfigEvent :=
  let epoch := md_epoch (block_metadata block) in
  if current_epoch h <? epoch
  then Some (ReNewEpoch epoch (md_round (block_metadata block)))
  else None.
Definition epoch_quorum_cert h : option Epoch := Some (current_epoch h).
Definition update_progress (validators_processed : N) h : ReconfigHandler :=
  match rc_status h with
  | RcInProgress new_epoch _ total_validators =>
      set_rc_status (RcInProgress new_epoch validators_processed total_validators) h
  | _ => h
  end.
Definition pending_event_count h : nat := length (pending_events h).
End reconfig.
#[global] Arguments ValidatorSet A {_ _}.
#[global] Arguments ReconfigEvent A {_ _}.
#[global] Arguments ReconfigHandler A {_ _} PE.

(** ** Lemmas: voting power *)
Section power.
Context `{OV : OverflowMode} `{HO : HashOrder} {A : Type} `{Countable A}.
Implicit Types (vs : ValidatorSet A) (m : gmap A N).

(** What a voter counts. *)
Definition vote_weight m (a : A) : N := default 0 (m !! a).
Definition total_weight m : N := sumN (map_to_list m).*2.

Lemma omap_weight m l : sumN (omap (λ a, m !! a) l) = weight_of (vote_weight m) l.
Proof.
  induction l as [|a l IH]; [done|]. rewrite weight_of_cons, <- IH.
  unfold vote_weight. cbn. by destruct (m !! a).
Qed.
Lemma weight_of_dom m : weight_of (vote_weight m) (elements (dom m)) = total_weight m.
Proof.
  unfold total_weight, weight_of.
  assert (He : elements (dom m) ≡ₚ (map_to_list m).*1).
  { apply NoDup_Permutation; [apply NoDup_elements|apply NoDup_fst_map_to_list|].
    intros a. rewrite elem_of_elements, elem_of_dom, list_elem_of_fmap. split.
    - intros [p Hp]. exists (a, p). by rewrite elem_of_map_to_list.
    - intros ([b p]&->&Hp). apply elem_of_map_to_list in Hp. eauto. }
  rewrite He, <- list_fmap_compose. f_equal. apply list_fmap_ext.
  intros i [a p] Ha%list_elem_of_lookup_2%elem_of_map_to_list. unfold vote_weight.
  cbn. by rewrite Ha.
Qed.
(** Voters outside the set add nothing. *)
Lemma weight_of_dom_union m (X : gset A) :
  weight_of (vote_weight m) (elements (dom m ∪ X)) = total_weight m.
Proof.
  replace (dom m ∪ X) with (dom m ∪ X ∖ dom m)
    by (apply leibniz_equiv; intros a; destruct (decide (a ∈ dom m)); set_solver).
  rewrite elements_disj_union by set_solver. rewrite weight_of_app, weight_of_dom.
  rewrite (weight_of_zero _ (elements (X ∖ dom m))); [lia|].
  intros a [_ Ha]%elem_of_elements%elem_of_difference. unfold vote_weight.
  by rewrite (proj1 (not_elem_of_dom m a) Ha).
Qed.
Lemma weight_of_le_total m l : NoDup l → weight_of (vote_weight m) l ≤ total_weight m.
Proof.
  intros Hl. rewrite <- (weight_of_dom_union m (list_to_set l)).
  apply weight_of_submseteq, NoDup_submseteq; [done|]. set_solver.
Qed.
Lemma weight_of_common m l k :
  NoDup l → NoDup k →
  weight_of (vote_weight m) l + weight_of (vote_weight m) k ≤
    total_weight m + weight_of (vote_weight m) (list_intersection l k).
Proof.
  intros Hl Hk. rewrite <- (weight_of_dom_union m (list_to_set l ∪ list_to_set k)).
  apply weight_of_overlap; [done|done| | |apply NoDup_elements].
  - intros a Ha. apply elem_of_elements. set_solver.
  - intros a Ha. apply elem_of_elements. set_solver.
Qed.

Lemma ValidatorSet_new_ok e m :
  total_weight m < bound 128 →
  ValidatorSet_new e m = Ok (mkVSet e m (total_weight m)).
Proof.
  intros Hm. assert (Hs : sumN (hm_values m) = total_weight m).
  { unfold hm_values, total_weight. by rewrite hm_iter_perm. }
  unfold ValidatorSet_new. rewrite sum128_ok by (by rewrite Hs). by rewrite Hs.
Qed.
Lemma quorum_threshold_ok e m :
  2 * total_weight m < bound 128 →
  quorum_threshold (mkVSet e m (total_weight m)) = Ok (total_weight m * 2 / 3 + 1).
Proof.
  generalize (total_weight m). intros t Ht. unfold quorum_threshold. cbn.
  unfold mul128. rewrite mul_w_ok by lia. cbn. apply add_w_ok.
  assert (3 < bound 128) by done.
  pose proof (N.Div0.mul_div_le (t * 2) 3). lia.
Qed.
Lemma has_quorum_ok e m l :
  2 * total_weight m < bound 128 → weight_of (vote_weight m) l < bound 128 →
  has_quorum (mkVSet e m (total_weight m)) l =
    Ok (bool_decide (total_weight m * 2 / 3 + 1 ≤ weight_of (vote_weight m) l)).
Proof.
  intros Ht Hl. unfold has_quorum. rewrite quorum_threshold_ok by done.
  change (omap (vs_get_voting_power (mkVSet e m (total_weight m))) l)
    with (omap (λ a, m !! a) l).
  rewrite sum128_ok by (by rewrite omap_weight). cbn. rewrite omap_weight. f_equal.
  apply eq_true_iff_eq. by rewrite N.leb_le, bool_decide_eq_true.
Qed.
End power.

(** ** Calls on a handler *)
Section calls.
Context `{OV : OverflowMode} `{HO : HashOrder} {A : Type} `{Countable A} {PE : Type}.
Implicit Types h : ReconfigHandler A PE.

Lemma prepare_effect e h :
  current_epoch h < u64_max →
  prepare_reconfig e h =
    if rc_is_in_progress (rc_status h)
    then (h, Err (Msg "Reconfiguration already in progress" []))
    else if decide (e = current_epoch h + 1)
    then (set_rc_status (RcPreparing (current_epoch h) e) h, Ok tt)
    else (h, Err (Msg "Can only transition to the next epoch" [])).
Proof.
  intros Hc. unfold prepare_reconfig. rewrite bind_get, bind_ensure.
  destruct (rc_is_in_progress (rc_status h)); [done|]. cbn [negb].
  rewrite bind_lift, add64_ok, bind_ensure by nlia.
  destruct (N.eqb_spec e (current_epoch h + 1)) as [->|].
  - by rewrite decide_True.
  - by rewrite decide_False.
Qed.
Lemma prepare_last_epoch e h :
  current_epoch h = u64_max → rc_is_in_progress (rc_status h) = false →
  let '(h', r) := prepare_reconfig e h in
  if overflow_checks then h' = h ∧ r = Panic else r = Ok tt ↔ e = 0.
Proof.
  intros Hc Hi. unfold prepare_reconfig. rewrite bind_get, bind_ensure, Hi.
  cbn [negb]. rewrite bind_lift, Hc, succ64_max.
  destruct overflow_checks; [done|]. rewrite bind_ensure.
  by destruct (N.eqb_spec e 0).
Qed.
Lemma begin_effect vs h :
  begin_reconfig vs h =
    match rc_status h with
    | RcPreparing _ next =>
        if decide (validators vs = ∅)
        then (h, Err (Msg "Validator set cannot be empty" []))
        else (set_validator_set next vs (set_rc_status (RcInProgress next 0 (vs_len vs)) h),
              Ok tt)
    | _ => (h, Err (Msg "Not in preparing state" []))
    end.
Proof.
  unfold begin_reconfig. rewrite bind_get. destruct (rc_status h); try done.
  rewrite bind_ensure. unfold vs_is_empty. case_bool_decide; by case_decide.
Qed.
(** Completion when the status names the next epoch. *)
Lemma complete_effect now h n t :
  rc_status h = RcInProgress (current_epoch h + 1) n t →
  current_epoch h < u64_max →
  complete_reconfig now h =
    if decide (n = t)
    then (set_rc_status RcIdle (set_rc_epoch_manager
            (mkEpochManager (mkEpochState (current_epoch h + 1) (default 0 now))
               (em_config (rc_epoch_manager h))) h), Ok tt)
    else (h, Err (Msg "Not all validators processed: {}/{}" [DNum n; DNum t])).
Proof.
  intros Hs Hc. unfold complete_reconfig. rewrite bind_get, Hs, bind_ensure.
  destruct (N.eqb_spec n t) as [->|];
    [rewrite decide_True by done|by rewrite decide_False].
  unfold zoom, map_err_m, mbind, M_bind.
  rewrite start_new_epoch_effect by nlia. unfold current_epoch in *.
  rewrite decide_False by lia. by rewrite decide_True.
Qed.
(** Completion only ever changes anything by a successful transition. *)
Lemma complete_cases now h :
  (∃ e, complete_reconfig now h = (h, Err e)) ∨ complete_reconfig now h = (h, Panic) ∨
  ∃ e m n, rc_status h = RcInProgress e n n ∧
    start_new_epoch e now (rc_epoch_manager h) = (m, Ok tt) ∧
    complete_reconfig now h = (set_rc_status RcIdle (set_rc_epoch_manager m h), Ok tt).
Proof.
  unfold complete_reconfig. rewrite bind_get. destruct (rc_status h); try by eauto.
  rewrite bind_ensure.
  destruct (N.eqb_spec validators_processed total_validators) as [->|]; [|by eauto].
  unfold zoom, map_err_m, mbind, M_bind.
  destruct (start_new_epoch new_epoch now (rc_epoch_manager h)) as [m r] eqn:E.
  assert (Hm : r ≠ Ok tt → m = rc_epoch_manager h).
  { revert E. unfold start_new_epoch. rewrite bind_gets. case_match; [by intros [= <- <-]|].
    rewrite bind_lift. destruct (add64 _ 1); [|by intros [= <- <-]..].
    case_match; [by intros [= <- <-]|]. by intros [= <- <-]. }
  assert (Hsame : set_rc_epoch_manager (rc_epoch_manager h) h = h) by by destruct h.
  destruct r as [[]|e|]; cbn.
  - right; right. eexists _, m, _. done.
  - left. rewrite Hm, Hsame by done. eauto.
  - right; left. by rewrite Hm, Hsame by done.
Qed.

Inductive RcCall :=
| RcPrepare (e : Epoch) | RcBegin (vs : ValidatorSet A) | RcComplete (now : option N)
| RcProgress (n : N) | RcCancel | RcAddEvent (ev : ReconfigEvent A) | RcTakeEvents
| RcSetSet (e : Epoch) (vs : ValidatorSet A) | RcSetElection (pe : PE).
Definition run_rc (c : RcCall) : M (ReconfigHandler A PE) Error unit :=
  match c with
  | RcPrepare e => prepare_reconfig e
  | RcBegin vs => begin_reconfig vs
  | RcComplete now => complete_reconfig now
  | RcProgress n => modify (update_progress n)
  | RcCancel => modify rc_cancel
  | RcAddEvent ev => modify (add_event ev)
  | RcTakeEvents => modify (λ h, (take_pending_events h).1)
  | RcSetSet e vs => modify (set_validator_set e vs)
  | RcSetElection pe => modify (set_proposer_election pe)
  end.
Definition rc_step h h' : Prop := ∃ c, (run_rc c h).1 = h'.

(** The status, relative to the current epoch [e]. *)
Definition rc_live (st : ReconfigStatus) : Prop :=
  match st with RcCompleted _ _ | RcFailed _ => False | _ => True end.
Definition rc_next (e : Epoch) (st : ReconfigStatus) : Prop :=
  match st with
  | RcPreparing c n => c = e ∧ n = e + 1
  | RcInProgress n _ _ => n = e + 1
  | _ => True
  end.
Definition rc_inv h : Prop :=
  is_u64 (current_epoch h) ∧ rc_live (rc_status h) ∧
  (current_epoch h < u64_max → rc_next (current_epoch h) (rc_status h)).

Lemma start_new_epoch_grows e now m m' :
  is_u64 (em_epoch m) →
  start_new_epoch e now m = (m', Ok tt) →
  is_u64 (em_epoch m') ∧ em_epoch m' = em_epoch m + 1.
Proof.
  intros Hm. unfold start_new_epoch. rewrite bind_gets.
  destruct (N.leb_spec e (em_epoch m)); [done|]. rewrite bind_lift.
  destruct (succ64_cases (E:=EpochTransitionError) (em_epoch m) Hm) as [[Hlt ->]|[Heq ->]].
  - destruct (N.eqb_spec e (em_epoch m + 1)) as [->|]; [|done]. cbn. intros [= <-].
    cbn. split; [nlia|done].
  - destruct overflow_checks; [done|].
    destruct (N.eqb_spec e 0); [lia|done].
Qed.
Lemma complete_last_epoch now h :
  current_epoch h = u64_max → (complete_reconfig now h).2 ≠ Ok tt.
Proof.
  intros Hc. destruct (complete_cases now h) as [[e ->]|[->|(e&m&n&_&He&_)]]; [done..|].
  unfold current_epoch in Hc. apply start_new_epoch_grows in He as [Hu He]; [|nlia].
  rewrite He, Hc in Hu. nlia.
Qed.
Lemma run_rc_inv c h :
  rc_inv h → rc_inv (run_rc c h).1 ∧ current_epoch h ≤ current_epoch (run_rc c h).1.
Proof.
  intros (Hu&Hl&Hn). unfold rc_inv.
  destruct c; cbn [run_rc]; try (split; [by split_and!|done]).
  - destruct (decide (current_epoch h = u64_max)) as [E|E].
    + unfold prepare_reconfig. rewrite bind_get.
      rewrite bind_ensure. destruct (rc_is_in_progress (rc_status h)); [by split|].
      cbn [negb].
      assert (Ha : add64 (E:=Error) (current_epoch h) 1 =
        if overflow_checks then Panic else Ok 0) by (rewrite E; apply succ64_max).
      rewrite bind_lift, Ha.
      destruct overflow_checks; [by split; [split_and!|]|].
      rewrite bind_ensure. case_match; (split; [|done]); cbn; split_and!; try done;
        unfold current_epoch in *; cbn; lia.
    + rewrite prepare_effect by nlia. case_match; [by split|].
      case_decide; [|by split]. subst. split; [|done]. by split_and!.
  - rewrite begin_effect. destruct (rc_status h) eqn:Hs; try by (rewrite <- Hs in *; split).
    case_decide; [rewrite <- Hs in *; by split|]. split; [|done]. split_and!; [done..|].
    cbn. intros Hlt. by destruct (Hn Hlt).
  - destruct (complete_cases now h) as [[e ->]|[->|(e&m&n&Hs&He&->)]];
      [by split..|]. destruct (start_new_epoch_grows _ _ _ _ Hu He) as [Hu' He'].
    unfold current_epoch in *. cbn. split; [by split_and!|lia].
  - unfold update_progress. destruct (rc_status h) eqn:Hs; cbn; rewrite ?Hs; by split.
Qed.
Lemma reachable_rc_inv cfg m h :
  is_u64 (em_epoch m) → rtc rc_step (ReconfigHandler_new cfg m) h →
  rc_inv h ∧ em_epoch m ≤ current_epoch h.
Proof.
  intros Hm Hr. apply (rtc_invariant rc_step (λ h, rc_inv h ∧ em_epoch m ≤ current_epoch h)
    (ReconfigHandler_new cfg m) h); [|by split; [split_and!|]|done].
  intros h1 h2 [Hi Hle] [c <-]. destruct (run_rc_inv c h1 Hi). split; [done|lia].
Qed.
End calls.
#[global] Arguments RcCall A {_ _} PE.

(** ** Driving reconfigurations *)
Section driving.
Context `{OV : OverflowMode} `{HO : HashOrder} {A : Type} `{Countable A} {PE : Type}.
Implicit Types h : ReconfigHandler A PE.

(** The calls an operator makes to install [vs], whatever was going on. *)
Definition reconfigure (vs : ValidatorSet A) (now : option N) :
    M (ReconfigHandler A PE) Error unit :=
  modify rc_cancel;;
  h ← get;
  prepare_reconfig (current_epoch h + 1);;
  begin_reconfig vs;;
  modify (update_progress (vs_len vs));;
  complete_reconfig now.
Fixpoint reconfigure_all (l : list (ValidatorSet A * option N)) :
    M (ReconfigHandler A PE) Error unit :=
  match l with
  | [] => mret tt
  | (vs, now) :: l => reconfigure vs now;; reconfigure_all l
  end.

Lemma reconfigure_ok vs now h :
  validators vs ≠ ∅ → current_epoch h < u64_max →
  ∃ h', reconfigure vs now h = (h', Ok tt) ∧
    current_epoch h' = current_epoch h + 1 ∧ rc_status h' = RcIdle ∧
    validator_sets h' = <[current_epoch h + 1 := vs]> (validator_sets h).
Proof.
  intros Hvs He. unfold reconfigure. rewrite bind_modify, bind_get.
  set (h1 := rc_cancel h).
  rewrite (bind_ok _ _ _ (set_rc_status (RcPreparing (current_epoch h1)
    (current_epoch h1 + 1)) h1) tt).
  2: { rewrite prepare_effect by done. cbn. by rewrite decide_True. }
  erewrite (bind_ok (begin_reconfig vs)).
  2: { rewrite begin_effect. cbn. rewrite decide_False by done. reflexivity. }
  rewrite bind_modify. unfold update_progress. cbn.
  erewrite complete_effect; [|reflexivity|done].
  rewrite decide_True by done. by eexists.
Qed.
End driving.

Section theorems.
Context `{OV : OverflowMode} `{HO : HashOrder} {A : Type} `{Countable A} {PE : Type}.
Implicit Types h : ReconfigHandler A PE.

(** C14: The reconfiguration protocol.  In every reachable state the handler is
    idle, preparing or in progress, never [Completed] or [Failed], and beginning
    succeeds exactly when preparing with a non-empty set.  In every reachable
    state whose epoch is below [u64::MAX], so that there is a next one, a running
    reconfiguration is one to the epoch after the current one; preparing succeeds
    exactly when none is running and the next epoch is named; completing exactly
    when every validator has been processed, and then the epoch is one higher
    and the handler idle.  Refused calls change nothing.  In epoch [u64::MAX] no
    reconfiguration ever completes; preparing one, when none is running, panics
    in a build with overflow checks and otherwise takes epoch 0 for the next
    one. *)
Theorem reconfig_protocol cfg em h now e vs :
  is_u64 (em_epoch em) → rtc rc_step (ReconfigHandler_new cfg em) h →
  rc_live (rc_status h) ∧
  (let '(h', r) := begin_reconfig vs h in
   (r = Ok tt ↔ (∃ c n, rc_status h = RcPreparing c n) ∧ validators vs ≠ ∅) ∧
   (r ≠ Ok tt → h' = h)) ∧
  (current_epoch h < u64_max →
   rc_next (current_epoch h) (rc_status h) ∧
   (let '(h', r) := prepare_reconfig e h in
    (r = Ok tt ↔ rc_is_in_progress (rc_status h) = false ∧ e = current_epoch h + 1) ∧
    (r ≠ Ok tt → h' = h)) ∧
   (let '(h', r) := complete_reconfig now h in
    (r = Ok tt ↔ ∃ n, rc_status h = RcInProgress (current_epoch h + 1) n n) ∧
    (r = Ok tt → current_epoch h' = current_epoch h + 1 ∧ rc_status h' = RcIdle ∧
       validator_sets h' = validator_sets h) ∧
    (r ≠ Ok tt → h' = h))) ∧
  (current_epoch h = u64_max →
   (complete_reconfig now h).2 ≠ Ok tt ∧
   (rc_is_in_progress (rc_status h) = false →
    let '(h', r) := prepare_reconfig e h in
    if overflow_checks then h' = h ∧ r = Panic else r = Ok tt ↔ e = 0)).
Proof.
  intros Hm Hr. destruct (reachable_rc_inv _ _ _ Hm Hr) as [(_&Hl&Hn) _].
  split_and!; [done| |intros Hc; specialize (Hn Hc); split_and!; [done|..]|].
  - rewrite begin_effect. destruct (rc_status h); try naive_solver.
    case_decide; naive_solver.
  - rewrite prepare_effect by done. destruct (rc_is_in_progress (rc_status h)); [naive_solver|].
    case_decide; naive_solver.
  - destruct (rc_status h) as [|c n|n k t|n k|er] eqn:Hs; cbn in Hl, Hn; try done;
      try (unfold complete_reconfig; rewrite bind_get, Hs; naive_solver).
    subst n. rewrite (complete_effect now h k t) by done.
    case_decide; cbn; naive_solver.
  - intros Hc. split; [by apply complete_last_epoch|]. by apply prepare_last_epoch.
Qed.

(** C24: A reconfiguration never gets stuck: from any state of a handler, one left
    in the middle of a reconfiguration included, any sequence of non-empty
    validator sets can be installed, one per epoch, as long as the epoch of the
    last one is at most [u64::MAX]; every call succeeds, the epoch ends exactly
    as many higher as there are sets, each set is on file under its
    own epoch, and the handler is idle again. *)
Theorem reconfiguration_progresses (l : list (ValidatorSet A * option N)) h :
  Forall (λ x, validators x.1 ≠ ∅) l → current_epoch h + N.of_nat (length l) ≤ u64_max →
  ∃ h', reconfigure_all l h = (h', Ok tt) ∧
    current_epoch h' = current_epoch h + N.of_nat (length l) ∧
    (l ≠ [] → rc_status h' = RcIdle) ∧
    (∀ e, e ≤ current_epoch h → validator_sets h' !! e = validator_sets h !! e) ∧
    ∀ i vs now, l !! i = Some (vs, now) →
      validator_sets h' !! (current_epoch h + 1 + N.of_nat i) = Some vs.
Proof.
  revert h. induction l as [|[vs now] l IH]; intros h Hl He.
  { exists h. split_and!; [done|cbn; lia|done|done|done]. }
  apply Forall_cons in Hl as [Hvs Hl]. cbn [length] in He.
  destruct (reconfigure_ok vs now h Hvs ltac:(lia)) as (h1&H1&He1&Hs1&Hv1).
  destruct (IH h1 Hl ltac:(lia)) as (h'&H'&He'&Hs'&Hold&Hnew).
  exists h'. cbn [reconfigure_all length]. rewrite (bind_ok _ _ _ _ _ H1).
  split_and!; [done|lia| | |].
  - intros _. destruct l; [by injection H' as <-|by apply Hs'].
  - intros e Hle. rewrite Hold by lia. rewrite Hv1. apply lookup_insert_ne. lia.
  - intros [|i] vs' now'; cbn.
    + intros [= -> ->]. rewrite Hold by lia. rewrite Hv1, N.add_0_r.
      apply lookup_insert_eq.
    + intros Hi%Hnew. rewrite <- Hi. f_equal. lia.
Qed.

(** C22: Two quorums of one validator set share more than a third of its power:
    for duplicate-free voter lists that both pass [has_quorum], whatever the
    iteration order of the map, the common voters have more than a third of
    the total, so one of them is honest when the faulty have at most a
    third. *)
Theorem quorums_intersect epoch (m : gmap A N) vs (l k : list A) :
  ValidatorSet_new epoch m = Ok vs → 2 * total_weight m < bound 128 →
  NoDup l → NoDup k → has_quorum vs l = Ok true → has_quorum vs k = Ok true →
  total_weight m < 3 * weight_of (vote_weight m) (list_intersection l k) ∧
  ∃ a, a ∈ l ∧ a ∈ k ∧ 0 < vote_weight m a.
Proof.
  intros Hn Ht Hl Hk. rewrite ValidatorSet_new_ok in Hn by lia. injection Hn as <-.
  pose proof (weight_of_le_total m l Hl). pose proof (weight_of_le_total m k Hk).
  rewrite !has_quorum_ok by lia.
  intros [= Hql%bool_decide_eq_true] [= Hqk%bool_decide_eq_true].
  pose proof (weight_of_common m l k Hl Hk) as Hcommon.
  assert (Hlt : total_weight m < 3 * weight_of (vote_weight m) (list_intersection l k)).
  { pose proof (N.Div0.div_mod (total_weight m * 2) 3).
    pose proof (N.mod_lt (total_weight m * 2) 3 ltac:(done)). lia. }
  split; [done|].
  destruct (decide (Exists (λ a, 0 < vote_weight m a) (list_intersection l k)))
    as [(a&Ha&Hp)%Exists_exists|Hno].
  - apply list_elem_of_intersection in Ha as [? ?]. eauto.
  - exfalso. rewrite weight_of_zero in Hlt; [lia|]. intros a Ha.
    destruct (decide (0 < vote_weight m a)); [|lia]. destruct Hno.
    apply Exists_exists. eauto.
Qed.

(** The threshold is sound but [has_quorum] does not look at identities: a
    single voter of positive power, repeated often enough, is a quorum. *)
Theorem repeated_voter_quorum epoch (m : gmap A N) vs a p (n : nat) :
  ValidatorSet_new epoch m = Ok vs → 2 * total_weight m < bound 128 →
  m !! a = Some p → total_weight m < N.of_nat n * p < bound 128 →
  has_quorum vs (replicate n a) = Ok true.
Proof.
  intros Hn Ht Ha Hp. rewrite ValidatorSet_new_ok in Hn by lia. injection Hn as <-.
  assert (Hw : weight_of (vote_weight m) (replicate n a) = N.of_nat n * p).
  { unfold weight_of. rewrite fmap_replicate, sumN_replicate.
    unfold vote_weight. by rewrite Ha. }
  rewrite has_quorum_ok by lia. f_equal. apply bool_decide_eq_true. rewrite Hw.
  pose proof (N.Div0.mul_div_le (total_weight m * 2) 3). lia.
Qed.
End theorems.

Section witnesses.
#[local] Existing Instances debug_build reversed_order.
Abbreviation RH := (ReconfigHandler MockHash unit).
Definition powers4 : gmap MockHash N :=
  {[mkHash 0 := 1; mkHash 1 := 1; mkHash 2 := 1; mkHash 3 := 1]}.
Definition set4 : ValidatorSet MockHash :=
  match ValidatorSet_new 1 powers4 with Ok vs => vs | _ => mkVSet 0 ∅ 0 end.
Lemma set4_new : ValidatorSet_new 1 powers4 = Ok set4.
Proof. by vm_compute. Qed.
Definition rc_calls (l : list (RcCall MockHash unit)) (h : RH) : RH :=
  foldl (λ h c, (run_rc c h).1) h l.
Lemma rc_calls_reachable l h : rtc rc_step h (rc_calls l h).
Proof.
  revert h. induction l as [|c l IH]; intros h; [apply rtc_refl|].
  eapply rtc_l; [|apply IH]. by exists c.
Qed.
Definition handler0 : RH :=
  ReconfigHandler_new ReconfigConfig_default (EpochManager_new EpochManagerConfig_default).
Definition in_progress : RH :=
  rc_calls [RcPrepare 1; RcBegin set4; RcProgress 4] handler0.

Lemma reconfig_protocol_witness :
  (complete_reconfig None in_progress).2 = Ok tt ∧
  current_epoch (complete_reconfig None in_progress).1 = 1.
Proof.
  destruct (reconfig_protocol (PE:=unit) ReconfigConfig_default
    (EpochManager_new EpochManagerConfig_default) in_progress None 0 set4)
    as (_&_&H&_); [by vm_compute|apply rc_calls_reachable|].
  destruct (H ltac:(by vm_compute)) as (_&_&H'). clear H. rename H' into H.
  destruct (complete_reconfig None in_progress) as [h' r]. destruct H as ([_ H1]&H2&_).
  assert (Hr : r = Ok tt) by (apply H1; exists 4; by vm_compute).
  cbn [fst snd]. split; [exact Hr|]. by destruct (H2 Hr) as [-> _].
Defined.

Lemma reconfiguration_progresses_witness :
  ∃ h', reconfigure_all [(set4, None); (set4, Some 7)] in_progress = (h', Ok tt) ∧
    current_epoch h' = 2 ∧ rc_status h' = RcIdle.
Proof.
  destruct (reconfiguration_progresses (PE:=unit) [(set4, None); (set4, Some 7)] in_progress)
    as (h'&Hr&He&Hs&_); [|by vm_compute|].
  - do 2 (apply Forall_cons_2; [by vm_compute|]). apply Forall_nil_2.
  - exists h'. split; [exact Hr|]. split; [by rewrite He|by apply Hs].
Defined.

Lemma quorums_intersect_witness :
  ∃ a, a ∈ [mkHash 0; mkHash 1; mkHash 2] ∧ a ∈ [mkHash 3; mkHash 2; mkHash 1] ∧
    0 < vote_weight powers4 a.
Proof.
  refine (proj2 (quorums_intersect 1 powers4 set4 [mkHash 0; mkHash 1; mkHash 2]
    [mkHash 3; mkHash 2; mkHash 1] set4_new _ _ _ _ _)); [by vm_compute| | |by vm_compute..].
  - apply (bool_decide_unpack _). by vm_compute.
  - apply (bool_decide_unpack _). by vm_compute.
Defined.

Lemma repeated_voter_quorum_witness :
  has_quorum set4 [mkHash 0; mkHash 0; mkHash 0; mkHash 0; mkHash 0] = Ok true.
Proof.
  apply (repeated_voter_quorum 1 powers4 set4 (mkHash 0) 1 5 set4_new); by vm_compute.
Defined.
End witnesses.
