(* ===== verification/DagTypes.v ===== *)
(** * [consensus-traits/dag.rs] and [dag/types.rs], [dag/testing.rs]: DAG nodes

    One class per trait; the records are the crate's generic implementations
    and implement the classes. *)
From S2P Require Import Prelude.
From S2P Require Import Traits.
From S2P Require Import CommonTypes.

(** ** The traits *)
Class DagNodeIdTrait (ID E R A : Type) := {
  nid_new : E → R → A → ID;
  nid_epoch : ID → E;
  nid_round : ID → R;
  nid_author : ID → A;
}.
Class DagNodeMetadata (MD ID E R A H : Type) := {
  dm_node_id : MD → ID;
  dm_epoch : MD → E;
  dm_round : MD → R;
  dm_author : MD → A;
  dm_timestamp : MD → N;
  dm_digest : MD → H;
}.
Class DagPayload (P H : Type) := {
  dp_hash : P → H;
  dp_is_empty : P → bool;
  dp_size : P → N;
}.
Class ParentCertificates (Ps MD : Type) := {
  pcs_len : Ps → N;
  pcs_is_empty : Ps → bool;
  pcs_iter : Ps → list MD;
  pcs_add : MD → Ps → Ps;
}.
Class DagNode (Nd MD P Ps : Type) := {
  nd_metadata : Nd → MD;
  nd_payload : Nd → P;
  nd_parents : Nd → Ps;
}.
(** The default methods of [DagNode]. *)
Definition nd_timestamp {Nd MD P Ps ID E R A H} `{!DagNode Nd MD P Ps}
    `{!DagNodeMetadata MD ID E R A H} (n : Nd) : N := dm_timestamp (nd_metadata n).
Definition nd_node_id {Nd MD P Ps ID E R A H} `{!DagNode Nd MD P Ps}
    `{!DagNodeMetadata MD ID E R A H} (n : Nd) : ID := dm_node_id (nd_metadata n).
Class NodeCertificate (C MD Sig : Type) := {
  nc_metadata : C → MD;
  nc_signatures : C → Sig;
}.
Class CertifiedNode (CN Nd C : Type) := {
  cn_node : CN → Nd;
  cn_certificate : CN → C;
}.
Class DagVote (V MD S : Type) := {
  dv_metadata : V → MD;
  dv_signature : V → S;
}.

(** ** Node identifiers *)
Record DagNodeId (E R A : Type) := mkNodeId {
  di_epoch : E;
  di_round : R;
  di_author : A;
}.
Arguments mkNodeId {E R A}.
Arguments di_epoch {E R A}.
Arguments di_round {E R A}.
Arguments di_author {E R A}.
#[export] Instance DagNodeId_eq_dec {E R A} `{EqDecision E, EqDecision R, EqDecision A} :
  EqDecision (DagNodeId E R A).
Proof. solve_decision. Defined.
#[export] Instance DagNodeId_trait {E R A} : DagNodeIdTrait (DagNodeId E R A) E R A := {|
  nid_new := mkNodeId;
  nid_epoch := di_epoch;
  nid_round := di_round;
  nid_author := di_author;
|}.
(** [Ord] and [PartialOrd]: by round only.  [Hash] feeds the three fields to the
    hasher in this order. *)
Definition DagNodeId_cmp {E R A} (cmp : R → R → comparison) (x y : DagNodeId E R A) :
    comparison := cmp (di_round x) (di_round y).
Definition DagNodeId_partial_cmp {E R A} (partial_cmp : R → R → option comparison)
    (x y : DagNodeId E R A) : option comparison :=
  match partial_cmp (di_round x) (di_round y) with
  | Some Eq => Some Eq
  | other => other
  end.
Definition DagNodeId_hash {E R A St} (hash_e : E → St → St) (hash_r : R → St → St)
    (hash_a : A → St → St) (x : DagNodeId E R A) (st : St) : St :=
  hash_a (di_author x) (hash_r (di_round x) (hash_e (di_epoch x) st)).
Definition DagNodeId_to_string {E R A} (se : E → string) (sr : R → string)
    (sa : A → string) (x : DagNodeId E R A) : string :=
  "DagNodeId[epoch=" +:+ se (di_epoch x) +:+ ", round=" +:+ sr (di_round x)
    +:+ ", author=" +:+ sa (di_author x) +:+ "]".

(** ** Metadata, payload, parents, node, certificate, vote *)
Record DagNodeMetadataImpl (ID H : Type) := mkNodeMetadata {
  mi_node_id : ID;
  mi_timestamp : N;
  mi_digest : H;
}.
Arguments mkNodeMetadata {ID H}.
Arguments mi_node_id {ID H}.
Arguments mi_timestamp {ID H}.
Arguments mi_digest {ID H}.
#[export] Instance DagNodeMetadataImpl_trait {ID E R A H} `{!DagNodeIdTrait ID E R A} :
  DagNodeMetadata (DagNodeMetadataImpl ID H) ID E R A H := {|
  dm_node_id := mi_node_id;
  dm_epoch m := nid_epoch (mi_node_id m);
  dm_round m := nid_round (mi_node_id m);
  dm_author m := nid_author (mi_node_id m);
  dm_timestamp := mi_timestamp;
  dm_digest := mi_digest;
|}.

Record DagPayloadImpl (H : Type) := mkPayload { pi_data : list N; pi_hash : H }.
Arguments mkPayload {H}.
Arguments pi_data {H}.
Arguments pi_hash {H}.
Definition DagPayloadImpl_empty {H} `{!HashTrait H} : DagPayloadImpl H :=
  mkPayload [] hash_zero.
#[export] Instance DagPayloadImpl_trait {H} : DagPayload (DagPayloadImpl H) H := {|
  dp_hash := pi_hash;
  dp_is_empty p := bool_decide (pi_data p = []);
  dp_size p := N.of_nat (length (pi_data p));
|}.

Record ParentCertificatesImpl (MD : Type) := mkParents { pi_parents : list MD }.
Arguments mkParents {MD}.
Arguments pi_parents {MD}.
Definition ParentCertificatesImpl_empty {MD} : ParentCertificatesImpl MD := mkParents [].
Definition ParentCertificatesImpl_add {MD} (certificate : MD)
    (ps : ParentCertificatesImpl MD) : ParentCertificatesImpl MD :=
  mkParents (pi_parents ps ++ [certificate]).
#[export] Instance ParentCertificatesImpl_trait {MD} :
  ParentCertificates (ParentCertificatesImpl MD) MD := {|
  pcs_len ps := N.of_nat (length (pi_parents ps));
  pcs_is_empty ps := match pi_parents ps with [] => true | _ => false end;
  pcs_iter := pi_parents;
  pcs_add := ParentCertificatesImpl_add;
|}.

Record DagNodeImpl (MD P Ps : Type) := mkDagNode {
  ni_metadata : MD;
  ni_payload : P;
  ni_parents : Ps;
}.
Arguments mkDagNode {MD P Ps}.
Arguments ni_metadata {MD P Ps}.
Arguments ni_payload {MD P Ps}.
Arguments ni_parents {MD P Ps}.
#[export] Instance DagNodeImpl_trait {MD P Ps} : DagNode (DagNodeImpl MD P Ps) MD P Ps := {|
  nd_metadata := ni_metadata;
  nd_payload := ni_payload;
  nd_parents := ni_parents;
|}.

Record NodeCertificateImpl (MD Sig : Type) := mkNodeCertificate {
  ci_metadata : MD;
  ci_signatures : Sig;
}.
Arguments mkNodeCertificate {MD Sig}.
Arguments ci_metadata {MD Sig}.
Arguments ci_signatures {MD Sig}.
#[export] Instance NodeCertificateImpl_trait {MD Sig} :
  NodeCertificate (NodeCertificateImpl MD Sig) MD Sig := {|
  nc_metadata := ci_metadata;
  nc_signatures := ci_signatures;
|}.

Record CertifiedNodeImpl (Nd C : Type) := mkCertifiedNode {
  cni_node : Nd;
  cni_certificate : C;
}.
Arguments mkCertifiedNode {Nd C}.
Arguments cni_node {Nd C}.
Arguments cni_certificate {Nd C}.
#[export] Instance CertifiedNodeImpl_trait {Nd C} :
  CertifiedNode (CertifiedNodeImpl Nd C) Nd C := {|
  cn_node := cni_node;
  cn_certificate := cni_certificate;
|}.

Record DagVoteImpl (MD S : Type) := mkDagVote {
  dvi_metadata : MD;
  dvi_signature : S;
}.
Arguments mkDagVote {MD S}.
Arguments dvi_metadata {MD S}.
Arguments dvi_signature {MD S}.
#[export] Instance DagVoteImpl_trait {MD S} : DagVote (DagVoteImpl MD S) MD S := {|
  dv_metadata := dvi_metadata;
  dv_signature := dvi_signature;
|}.

(** ** Test nodes

    [TestRound], [TestAuthor] and [TestEpoch] wrap integers. *)
Record TestRound := mkTestRound { tr_inner : N }.
Record TestAuthor := mkTestAuthor { ta_inner : N }.
Record TestEpoch := mkTestEpoch { te_inner : N }.
#[export] Instance TestRound_hash : HashTrait TestRound := {|
  hash_zero := mkTestRound 0;
  hash_from_bytes _ := Ok (mkTestRound 0);
  hash_as_bytes _ := [];
|}.
#[export] Instance TestAuthor_hash : HashTrait TestAuthor := {|
  hash_zero := mkTestAuthor 0;
  hash_from_bytes _ := Ok (mkTestAuthor 0);
  hash_as_bytes _ := [];
|}.
#[export] Instance TestEpoch_hash : HashTrait TestEpoch := {|
  hash_zero := mkTestEpoch 0;
  hash_from_bytes _ := Ok (mkTestEpoch 0);
  hash_as_bytes _ := [];
|}.
Definition TestNodeId : Type := DagNodeId TestEpoch TestRound TestAuthor.
Definition TestMetadata : Type := DagNodeMetadataImpl TestNodeId TestRound.
Definition TestPayload : Type := DagPayloadImpl TestRound.
Definition TestParents : Type := ParentCertificatesImpl TestMetadata.
Definition TestNode : Type := DagNodeImpl TestMetadata TestPayload TestParents.
Definition TestCertificate : Type := NodeCertificateImpl TestMetadata TestRound.
Definition TestCertifiedNode : Type := CertifiedNodeImpl TestNode TestCertificate.

Record TestNodeBuilder := mkTestNodeBuilder {
  tb_epoch : TestEpoch;
  tb_round : TestRound;
  tb_author : TestAuthor;
  tb_timestamp : N;
}.
Definition TestNodeBuilder_new : TestNodeBuilder :=
  mkTestNodeBuilder (mkTestEpoch 1) (mkTestRound 1) (mkTestAuthor 1) 0.
Definition tb_with_epoch (e : N) (b : TestNodeBuilder) : TestNodeBuilder :=
  mkTestNodeBuilder (mkTestEpoch e) (tb_round b) (tb_author b) (tb_timestamp b).
Definition tb_with_round (r : N) (b : TestNodeBuilder) : TestNodeBuilder :=
  mkTestNodeBuilder (tb_epoch b) (mkTestRound r) (tb_author b) (tb_timestamp b).
Definition tb_with_author (a : N) (b : TestNodeBuilder) : TestNodeBuilder :=
  mkTestNodeBuilder (tb_epoch b) (tb_round b) (mkTestAuthor a) (tb_timestamp b).
Definition tb_with_timestamp (t : N) (b : TestNodeBuilder) : TestNodeBuilder :=
  mkTestNodeBuilder (tb_epoch b) (tb_round b) (tb_author b) t.
Definition tb_build (b : TestNodeBuilder) : TestCertifiedNode :=
  let node_id := mkNodeId (tb_epoch b) (tb_round b) (tb_author b) in
  let metadata := mkNodeMetadata node_id (tb_timestamp b) (tb_round b) in
  let payload := mkPayload [] (tb_round b) in
  let parents := ParentCertificatesImpl_empty in
  let node := mkDagNode metadata payload parents in
  let cert := mkNodeCertificate (ni_metadata node) (tb_round b) in
  mkCertifiedNode node cert.

Section test_dag.
Context `{OV : OverflowMode}.
(** The inner loop over [enumerate()], the timestamp at 64 bits. *)
Fixpoint test_round_nodes (round : N) (i : N) (authors : list TestAuthor) :
    res Error (list TestCertifiedNode) :=
  match authors with
  | [] => Ok []
  | author :: authors =>
      t ← mul_w 64 round 1000;
      timestamp ← add64 t i;
      let node := tb_build (tb_with_timestamp timestamp (tb_with_author (ta_inner author)
                    (tb_with_round round (tb_with_epoch 1 TestNodeBuilder_new)))) in
      rest ← test_round_nodes round (i + 1) authors;
      Ok (node :: rest)
  end.
(** The rounds of [1..=rounds]. *)
Fixpoint test_dag_from (round : N) (n : nat) (authors : list TestAuthor) :
    res Error (list TestCertifiedNode) :=
  match n with
  | O => Ok []
  | S n =>
      nodes ← test_round_nodes round 0 authors;
      rest ← test_dag_from (round + 1) n authors;
      Ok (nodes ++ rest)
  end.
Definition create_test_dag (rounds : N) (authors : list TestAuthor) :
    res Error (list TestCertifiedNode) :=
  test_dag_from 1 (N.to_nat rounds) authors.
End test_dag.
Definition create_test_authors (count : N) : list TestAuthor :=
  (λ i, mkTestAuthor (N.of_nat i)) <$> seq 1 (N.to_nat count).

(** The derived equalities, hashes and orders. *)
#[export] Instance TestRound_eq_dec : EqDecision TestRound.
Proof. solve_decision. Defined.
#[export] Instance TestAuthor_eq_dec : EqDecision TestAuthor.
Proof. solve_decision. Defined.
#[export] Instance TestEpoch_eq_dec : EqDecision TestEpoch.
Proof. solve_decision. Defined.
#[export] Instance TestRound_countable : Countable TestRound.
Proof. by apply (inj_countable' tr_inner mkTestRound); intros []. Defined.
#[export] Instance TestAuthor_countable : Countable TestAuthor.
Proof. by apply (inj_countable' ta_inner mkTestAuthor); intros []. Defined.
(** The derived [PartialOrd] and [Ord]. *)
Definition TestRound_le (r s : TestRound) : Prop := tr_inner r ≤ tr_inner s.
#[export] Instance TestRound_le_dec : RelDecision TestRound_le.
Proof. intros r s. unfold TestRound_le. apply _. Defined.
Definition TestEpoch_le (r s : TestEpoch) : Prop := te_inner r ≤ te_inner s.
#[export] Instance TestEpoch_le_dec : RelDecision TestEpoch_le.
Proof. intros r s. unfold TestEpoch_le. apply _. Defined.
Definition TestRound_default : TestRound := mkTestRound 0.
(** [Display] writes the number. *)
Definition TestRound_to_string (r : TestRound) : string := pretty (tr_inner r).
Definition TestAuthor_to_string (a : TestAuthor) : string := pretty (ta_inner a).
Definition TestEpoch_to_string (e : TestEpoch) : string := pretty (te_inner e).

(** ** Comparison forgets the author *)
Section theorems.
Context {E R A : Type} `{EqDecision R}.

(** The order on node identifiers is not the order of their equality: with
    a lawful order on rounds two identifiers compare [Equal] exactly when
    their rounds agree, so nodes of different authors or epochs in one round
    are ordering-equal although they are different. *)
Theorem node_id_order_ignores_author (cmp : R → R → comparison) (x y : DagNodeId E R A) :
  (∀ r s, cmp r s = Eq ↔ r = s) →
  (DagNodeId_cmp cmp x y = Eq ↔ di_round x = di_round y) ∧
  ∀ e a, a ≠ di_author x →
    DagNodeId_cmp cmp x (mkNodeId e (di_round x) a) = Eq ∧
    x ≠ mkNodeId e (di_round x) a.
Proof.
  intros Hc. unfold DagNodeId_cmp. split; [apply Hc|].
  intros e a Ha. split; [by apply Hc|]. intros Hx%(f_equal di_author). by apply Ha.
Qed.
End theorems.

Lemma node_id_order_ignores_author_witness :
  DagNodeId_cmp N.compare (mkNodeId 1 5 7) (mkNodeId 1 5 8) = Eq.
Proof.
  refine (proj1 (proj2 (node_id_order_ignores_author N.compare (mkNodeId 1 5 7)
    (mkNodeId 1 5 7) N.compare_eq_iff) 1 8 _)). done.
Defined.
