(* ===== verification/DagStore.v ===== *)
(** * [dag/store.rs]: the in-memory DAG

    A [BTreeMap] from rounds to vectors of slots is a [gmap] whose keys are
    enumerated in the order [R_le] of [R: Ord]; a vector is a list. *)
From stdpp Require Import sorting.
From S2P Require Import Prelude.
From S2P Require Import Traits.
From S2P Require Import CommonTypes.
From S2P Require Import DagTypes.

Inductive StoredNodeStatus (NN : Type) :=
| StUnordered (node : NN) (aggregated_voting_power : N)
| StOrdered (node : NN).
Arguments StUnordered {NN}.
Arguments StOrdered {NN}.
Section status.
Context {NN : Type}.
Definition as_node (s : StoredNodeStatus NN) : NN :=
  match s with StUnordered node _ | StOrdered node => node end.
Definition st_voting_power (s : StoredNodeStatus NN) : option N :=
  match s with
  | StUnordered _ aggregated_voting_power => Some aggregated_voting_power
  | StOrdered _ => None
  end.
Definition is_ordered (s : StoredNodeStatus NN) : bool :=
  match s with StOrdered _ => true | _ => false end.
Definition mark_as_ordered : M (StoredNodeStatus NN) Error unit :=
  s ← get;
  ensure (negb (is_ordered s)) (Msg "Node is already ordered" []);;
  modify (λ s, StOrdered (as_node s)).
End status.

Record DagStoreConfig := mkDagStoreConfig { start_round : N; window_size : N }.
Definition DagStoreConfig_default : DagStoreConfig := mkDagStoreConfig 0 100.

Section in_mem_dag.
Context {R A NN : Type} `{Countable R} `{Countable A}.
Context (R_le : relation R) `{!RelDecision R_le} `{!TotalOrder R_le}.
Context (R_default : R).
(** The node's id: [node().metadata().node_id()]. *)
Context (node_id : NN → DagNodeId R R A).

Abbreviation Slots := (list (option (StoredNodeStatus NN))).
Record InMemDag := mkDag {
  nodes_by_round : gmap R Slots;
  author_to_index : gmap A nat;
  dag_config : DagStoreConfig;
}.
Implicit Types d : InMemDag.
Abbreviation DM := (M InMemDag Error).

(** The keys of the tree, in order. *)
Definition bt_keys {B} (m : gmap R B) : list R := merge_sort R_le (map_to_list m).*1.
Definition bt_values {B} (m : gmap R B) : list B := omap (λ k, m !! k) (bt_keys m).
Definition split_off {B} (k0 : R) (m : gmap R B) : gmap R B :=
  filter (λ kv, R_le k0 kv.1) m.

(** [enumerate().collect()]: a later occurrence of an author overrides. *)
Definition index_authors (authors : list A) : gmap A nat :=
  foldl (λ m ai, <[ai.2 := ai.1]> m) ∅ (imap pair authors).
Definition InMemDag_new (authors : list A) (config : DagStoreConfig) : InMemDag :=
  mkDag ∅ (index_authors authors) config.

Definition lowest_round d : R := default R_default (head (bt_keys (nodes_by_round d))).
Definition dag_highest_round d : R :=
  default R_default (last (bt_keys (nodes_by_round d))).
Definition num_authors d : nat := size (author_to_index d).

Definition set_round_nodes (round : R) (l : Slots) d : InMemDag :=
  mkDag (<[round := l]> (nodes_by_round d)) (author_to_index d) (dag_config d).
Definition resize_slots (n : nat) (l : Slots) : Slots :=
  if (length l <? n)%nat then l ++ replicate (n - length l) None else take n l.

Definition slot_empty (slot : option (StoredNodeStatus NN)) : bool :=
  match slot with None => true | Some _ => false end.

Definition unknown_author {X} (author : A) : DM X :=
  throw (Msg "Unknown author: {:?}" [DKey (encode author)]).

Definition add_node (node : NN) : DM unit :=
  let round := di_round (node_id node) in
  let author := di_author (node_id node) in
  d ← get;
  match author_to_index d !! author with
  | None => unknown_author author
  | Some author_index =>
      let round_nodes := default (replicate (size (author_to_index d)) None)
                           (nodes_by_round d !! round) in
      modify (set_round_nodes round round_nodes);;
      let round_nodes :=
        if (length round_nodes <=? author_index)%nat
        then resize_slots (author_index + 1) round_nodes else round_nodes in
      modify (set_round_nodes round round_nodes);;
      match round_nodes !! author_index with
      | None => lift Panic
      | Some slot =>
          ensure (slot_empty slot)
            (Msg "Node already exists for round {:?}, author {:?}"
               [DKey (encode round); DKey (encode author)]);;
          modify (set_round_nodes round
            (<[author_index := Some (StUnordered node 0)]> round_nodes))
      end
  end.

Definition get_node_status d (round : R) (author : A) : option (StoredNodeStatus NN) :=
  author_index ← author_to_index d !! author;
  round_nodes ← nodes_by_round d !! round;
  status ← round_nodes !! author_index;
  status.
Definition get_node d (round : R) (author : A) : option NN :=
  author_index ← author_to_index d !! author;
  round_nodes ← nodes_by_round d !! round;
  status ← round_nodes !! author_index;
  as_node <$> status.
Definition dag_exists d (round : R) (author : A) : bool :=
  match get_node d round author with Some _ => true | None => false end.

Definition mark_ordered (round : R) (author : A) : DM unit :=
  d ← get;
  match author_to_index d !! author with
  | None => unknown_author author
  | Some author_index =>
      match nodes_by_round d !! round with
      | None => throw (Msg "Round {:?} not found" [DKey (encode round)])
      | Some round_nodes =>
          if (length round_nodes <=? author_index)%nat
          then throw (Msg "Author index out of bounds" [])
          else
            match round_nodes !! author_index with
            | None => lift Panic
            | Some None => throw (Msg "Node not found" [])
            | Some (Some status) =>
                zoom (λ _, status)
                  (λ st d, set_round_nodes round (<[author_index := Some st]> round_nodes) d)
                  mark_as_ordered
            end
      end
  end.

(** [filter_map] over the slots of a round. *)
Definition slot_nodes (l : Slots) : list NN := omap (fmap as_node) l.
Definition get_round d (round : R) : list NN :=
  default [] (slot_nodes <$> nodes_by_round d !! round).
Definition all_nodes d : list NN := bt_values (nodes_by_round d) ≫= slot_nodes.
Definition count_slots (l : Slots) : nat :=
  length (filter (λ s, is_Some s) l).
Definition dag_len d : nat :=
  foldr Nat.add 0%nat (count_slots <$> bt_values (nodes_by_round d)).
Definition dag_is_empty d : bool := (dag_len d =? 0)%nat.
Definition prune_below (min_round : R) d : InMemDag :=
  mkDag (split_off min_round (nodes_by_round d)) (author_to_index d) (dag_config d).
Definition dag_clear d : InMemDag := mkDag ∅ (author_to_index d) (dag_config d).
End in_mem_dag.
#[global] Arguments InMemDag R A NN {_ _ _ _}.

(** ** Lemmas: slots *)
Section slots.
Context {NN : Type}.
Implicit Types l : list (option (StoredNodeStatus NN)).

(** An absent slot and an empty one are the same to a reader. *)
Definition slot_at l (i : nat) : option (StoredNodeStatus NN) := mjoin (l !! i).
Lemma slot_at_replicate n i : slot_at (replicate n None) i = None.
Proof.
  unfold slot_at. destruct (decide (i < n)%nat).
  - by rewrite lookup_replicate_2.
  - by rewrite lookup_ge_None_2 by (rewrite length_replicate; lia).
Qed.
Lemma slot_at_resize n l i :
  (length l < n)%nat → slot_at (resize_slots n l) i = slot_at l i.
Proof.
  intros Hn. unfold resize_slots. rewrite (proj2 (Nat.ltb_lt _ _) Hn).
  unfold slot_at. destruct (decide (i < length l)%nat).
  - by rewrite lookup_app_l.
  - rewrite lookup_app_r by lia. rewrite (lookup_ge_None_2 l) by lia.
    apply slot_at_replicate.
Qed.
Lemma length_resize n l : (length l < n)%nat → length (resize_slots n l) = n.
Proof.
  intros Hn. unfold resize_slots. rewrite (proj2 (Nat.ltb_lt _ _) Hn).
  rewrite length_app, length_replicate. lia.
Qed.
Lemma slot_at_insert i j s l :
  (i < length l)%nat → slot_at (<[i := s]> l) j = if decide (i = j) then s else slot_at l j.
Proof.
  intros Hi. unfold slot_at. case_decide as E.
  - subst. by rewrite list_lookup_insert_eq.
  - by rewrite list_lookup_insert_ne.
Qed.
Lemma elem_of_slot_nodes l n :
  n ∈ slot_nodes l ↔ ∃ i s, slot_at l i = Some s ∧ as_node s = n.
Proof.
  unfold slot_nodes, slot_at. rewrite list_elem_of_omap. split.
  - intros ([s|]&[i Hi]%list_elem_of_lookup_1&Hs); [|done].
    exists i, s. rewrite Hi. by injection Hs as ->.
  - intros (i&s&Hs&<-). destruct (l !! i) as [[s'|]|] eqn:Hi; [|done..].
    injection Hs as ->. exists (Some s). split; [by eapply list_elem_of_lookup_2|done].
Qed.
Lemma count_slots_length l : count_slots l = length (slot_nodes l).
Proof.
  induction l as [|[s|] l IH]; [done|..]; unfold count_slots, slot_nodes in *;
    rewrite filter_cons; case_decide as Hd; cbn.
  - by f_equal.
  - destruct Hd. by eexists.
  - by destruct Hd.
  - exact IH.
Qed.
End slots.

(** ** Lemmas: the store as a map from rounds and authors to statuses *)
Section store.
Context {R A NN : Type} `{Countable R} `{Countable A}.
Context (R_le : relation R) `{!RelDecision R_le} `{!TotalOrder R_le}.
Context (node_id : NN → DagNodeId R R A).
Implicit Types d : InMemDag R A NN.
Abbreviation round_of n := (di_round (node_id n)).
Abbreviation author_of n := (di_author (node_id n)).

Definition slots d (r : R) : list (option (StoredNodeStatus NN)) :=
  default [] (nodes_by_round d !! r).
Lemma get_node_status_slot d r a :
  get_node_status d r a = i ← author_to_index d !! a; slot_at (slots d r) i.
Proof.
  unfold get_node_status, slots, slot_at. destruct (author_to_index d !! a) as [i|]; [|done].
  cbn. destruct (nodes_by_round d !! r) as [l|]; cbn; [|done]. by destruct (l !! i).
Qed.
Lemma get_node_status_node d r a :
  get_node d r a = as_node <$> get_node_status d r a.
Proof.
  unfold get_node, get_node_status. destruct (author_to_index d !! a) as [i|]; [|done].
  cbn. destruct (nodes_by_round d !! r) as [l|]; cbn; [|done]. by destruct (l !! i) as [[]|].
Qed.

Lemma set_round_nodes_same r l d :
  nodes_by_round d !! r = Some l → set_round_nodes r l d = d.
Proof. intros Hl. destruct d. unfold set_round_nodes. cbn in *. by rewrite insert_id. Qed.
Lemma set_round_nodes_twice r l l' d :
  set_round_nodes r l (set_round_nodes r l' d) = set_round_nodes r l d.
Proof. unfold set_round_nodes. cbn. by rewrite insert_insert_eq. Qed.
Lemma slots_set r r' l d :
  slots (set_round_nodes r l d) r' = if decide (r = r') then l else slots d r'.
Proof. unfold slots. cbn. rewrite lookup_insert. by case_decide. Qed.

(** Adding a node of a known author, by the state of its slot. *)
Lemma add_node_known n d i :
  author_to_index d !! author_of n = Some i →
  match slot_at (slots d (round_of n)) i with
  | Some _ => ∃ e, add_node node_id n d = (d, Err e)
  | None => ∃ l, add_node node_id n d = (set_round_nodes (round_of n) l d, Ok tt) ∧
      ∀ j, slot_at l j = if decide (i = j) then Some (StUnordered n 0)
                         else slot_at (slots d (round_of n)) j
  end.
Proof.
  intros Hi. unfold add_node. rewrite bind_get, Hi.
  set (l0 := default (replicate _ None) _). rewrite !bind_modify, set_round_nodes_twice.
  set (l1 := if (length l0 <=? i)%nat then _ else _).
  assert (Hl0 : ∀ j, slot_at l0 j = slot_at (slots d (round_of n)) j).
  { intros j. unfold l0, slots. destruct (nodes_by_round d !! round_of n); [done|].
    apply slot_at_replicate. }
  assert (Hl1 : (i < length l1)%nat ∧ ∀ j, slot_at l1 j = slot_at l0 j).
  { unfold l1. destruct (Nat.leb_spec (length l0) i).
    - rewrite length_resize by lia. split; [lia|]. intros j.
      apply slot_at_resize. lia.
    - by split. }
  destruct Hl1 as [Hlen Hl1]. destruct (lookup_lt_is_Some_2 l1 i Hlen) as [sl Hsl].
  rewrite Hsl, bind_ensure.
  assert (Hat : slot_at (slots d (round_of n)) i = sl).
  { rewrite <- Hl0, <- Hl1. unfold slot_at. by rewrite Hsl. }
  rewrite Hat. destruct sl as [st|]; cbn [slot_empty].
  - eexists. f_equal. apply set_round_nodes_same.
    unfold slots, slot_at in Hat. destruct (nodes_by_round d !! round_of n) as [l|] eqn:Hr;
      cbn in Hat; [|done]. f_equal. unfold l1, l0. cbn.
    destruct (Nat.leb_spec (length l) i); [|done].
    by rewrite (lookup_ge_None_2 l i) in Hat by lia.
  - eexists. unfold modify. rewrite set_round_nodes_twice. split; [done|].
    intros j. rewrite slot_at_insert by done. case_decide; [done|].
    by rewrite Hl1, Hl0.
Qed.
Lemma add_node_unknown n d :
  author_to_index d !! author_of n = None → ∃ e, add_node node_id n d = (d, Err e).
Proof. intros Hi. unfold add_node. rewrite bind_get, Hi. by eexists. Qed.

Lemma mark_as_ordered_effect (st : StoredNodeStatus NN) :
  mark_as_ordered st =
    match st with
    | StUnordered n _ => (StOrdered n, Ok tt)
    | StOrdered n => (StOrdered n, Err (Msg "Node is already ordered" []))
    end.
Proof. by destruct st. Qed.
Lemma mark_ordered_effect r a d :
  match get_node_status d r a with
  | Some (StUnordered n p) => ∃ i l, author_to_index d !! a = Some i ∧
      mark_ordered r a d = (set_round_nodes r l d, Ok tt) ∧
      ∀ j, slot_at l j = if decide (i = j) then Some (StOrdered n)
                         else slot_at (slots d r) j
  | _ => ∃ e, mark_ordered r a d = (d, Err e)
  end.
Proof.
  unfold get_node_status, mark_ordered. rewrite bind_get.
  destruct (author_to_index d !! a) as [i|]; cbn; [|by eexists].
  destruct (nodes_by_round d !! r) as [l|] eqn:Hr; cbn; [|by eexists].
  destruct (Nat.leb_spec (length l) i) as [Hlen|Hlen].
  { rewrite lookup_ge_None_2 by lia. by eexists. }
  destruct (lookup_lt_is_Some_2 l i Hlen) as [[st|] Hst]; rewrite Hst; cbn; [|by eexists].
  unfold zoom. rewrite mark_as_ordered_effect. destruct st as [n p|n]; cbn.
  - eexists _, _. split_and!; [done|done|]. intros j. rewrite slot_at_insert by done.
    unfold slots. by rewrite Hr.
  - eexists. f_equal. apply set_round_nodes_same. rewrite list_insert_id; done.
Qed.

(** ** Well-formed stores *)
Definition index_inj (m : gmap A nat) : Prop :=
  ∀ a b i, m !! a = Some i → m !! b = Some i → a = b.
Definition dag_wf d : Prop :=
  index_inj (author_to_index d) ∧
  ∀ r i st, slot_at (slots d r) i = Some st →
    round_of (as_node st) = r ∧ author_to_index d !! author_of (as_node st) = Some i.
Lemma index_authors_inj authors : index_inj (index_authors authors).
Proof.
  assert (Hg : ∀ l k (m : gmap A nat), (∀ a i, m !! a = Some i → (i < k)%nat) →
    index_inj m →
    index_inj (foldl (λ m ai, <[ai.2 := ai.1]> m) m (imap (λ i a, ((k + i)%nat, a)) l))).
  { induction l as [|x l IH]; intros k m Hk Hm; [done|].
    rewrite imap_cons. cbn [foldl fst snd].
    rewrite (imap_ext _ (λ i a, ((S k + i)%nat, a))) by (intros; cbn; f_equal; lia).
    apply IH.
    - intros a i. rewrite lookup_insert. case_decide; [intros [= <-]; lia|].
      intros Hi%Hk. lia.
    - intros a b i. rewrite !lookup_insert. repeat case_decide; intros Ha Hb; simplify_eq;
        try done; try (apply Hk in Ha; lia); try (apply Hk in Hb; lia).
      by eapply Hm. }
  apply (Hg authors 0%nat ∅); intros a; rewrite lookup_empty; [done|].
  by intros b i; rewrite lookup_empty.
Qed.
Lemma InMemDag_new_wf authors c : dag_wf (InMemDag_new authors c).
Proof.
  split; [apply index_authors_inj|]. intros r i st. unfold slots. cbn.
  by rewrite lookup_empty.
Qed.
Lemma set_slot_wf r i st l d :
  dag_wf d → round_of (as_node st) = r →
  author_to_index d !! author_of (as_node st) = Some i →
  (∀ j, slot_at l j = if decide (i = j) then Some st else slot_at (slots d r) j) →
  dag_wf (set_round_nodes r l d).
Proof.
  intros [Hinj Hs] Hr Ha Hl. split; [done|]. intros r' j st'. rewrite slots_set.
  case_decide as Er; [|apply Hs]. subst r'. rewrite Hl. case_decide as Ej; [|apply Hs].
  intros [= <-]. by subst.
Qed.
(** The view after one slot has changed. *)
Lemma get_node_status_set r i st l d a r' a' :
  dag_wf d → author_to_index d !! a = Some i →
  (∀ j, slot_at l j = if decide (i = j) then Some st else slot_at (slots d r) j) →
  get_node_status (set_round_nodes r l d) r' a' =
    if decide (r = r' ∧ a = a') then Some st else get_node_status d r' a'.
Proof.
  intros [Hinj _] Ha Hl. rewrite !get_node_status_slot. cbn [author_to_index set_round_nodes].
  destruct (author_to_index d !! a') as [i'|] eqn:Ha'; cbn.
  - rewrite slots_set. case_decide as Er.
    + subst r'. rewrite Hl. case_decide as Ei.
      * subst i'. rewrite decide_True; [done|]. split; [done|by eapply Hinj].
      * rewrite decide_False; [done|]. intros [_ ->]. congruence.
    + rewrite decide_False by naive_solver. done.
  - rewrite decide_False; [done|]. intros [_ ->]. congruence.
Qed.
Lemma slots_prune m d r :
  slots (prune_below R_le m d) r = if decide (R_le m r) then slots d r else [].
Proof.
  unfold slots, prune_below, split_off. cbn. case_decide.
  - f_equal. destruct (nodes_by_round d !! r) as [l|] eqn:E.
    + by apply map_lookup_filter_Some_2.
    + apply map_lookup_filter_None_2. by left.
  - rewrite map_lookup_filter_None_2; [done|]. by right.
Qed.
End store.

Section calls.
Context {R A NN : Type} `{Countable R} `{Countable A}.
Context (R_le : relation R) `{!RelDecision R_le} `{!TotalOrder R_le}.
Context (node_id : NN → DagNodeId R R A).
Implicit Types d : InMemDag R A NN.
Abbreviation round_of n := (di_round (node_id n)).
Abbreviation author_of n := (di_author (node_id n)).

Inductive DagCall := DcAdd (n : NN) | DcMark (r : R) (a : A) | DcPrune (m : R) | DcClear.
Definition run_dag (c : DagCall) : M (InMemDag R A NN) Error unit :=
  match c with
  | DcAdd n => add_node node_id n
  | DcMark r a => mark_ordered r a
  | DcPrune m => modify (prune_below R_le m)
  | DcClear => modify dag_clear
  end.
Definition dag_step d d' : Prop := ∃ c, (run_dag c d).1 = d'.

Lemma add_node_wf n d : dag_wf node_id d → dag_wf node_id (add_node node_id n d).1.
Proof.
  intros Hw. destruct (author_to_index d !! author_of n) as [i|] eqn:Hi.
  - pose proof (add_node_known node_id n d i Hi) as Ha.
    destruct (slot_at _ _); [by destruct Ha as [e ->]|].
    destruct Ha as (l&->&Hl).
    by apply (set_slot_wf node_id (round_of n) i (StUnordered n 0)).
  - by destruct (add_node_unknown node_id n d Hi) as [e ->].
Qed.
Lemma get_node_status_wf d r a st :
  dag_wf node_id d → get_node_status d r a = Some st →
  round_of (as_node st) = r ∧ author_of (as_node st) = a.
Proof.
  intros [Hinj Hw]. rewrite get_node_status_slot.
  destruct (author_to_index d !! a) as [i|] eqn:Hi; [|done]. cbn.
  intros [Hr Ha]%Hw. split; [done|by eapply Hinj].
Qed.
Lemma mark_ordered_wf r a d : dag_wf node_id d → dag_wf node_id (mark_ordered r a d).1.
Proof.
  intros Hw. pose proof (mark_ordered_effect r a d) as Hm.
  destruct (get_node_status d r a) as [[n p|n]|] eqn:Hs; [|by destruct Hm as [e ->]..].
  destruct Hm as (i&l&Hi&->&Hl).
  destruct (get_node_status_wf _ _ _ _ Hw Hs) as [Hr Ha].
  apply (set_slot_wf node_id r i (StOrdered n)); [done|done| |done]. by subst a.
Qed.
Lemma run_dag_wf c d : dag_wf node_id d → dag_wf node_id (run_dag c d).1.
Proof.
  intros Hw. destruct c; cbn [run_dag].
  - by apply add_node_wf.
  - by apply mark_ordered_wf.
  - destruct Hw as [Hinj Hw]. split; [done|]. intros r i st. cbn.
    rewrite slots_prune. case_decide; [apply Hw|done].
  - destruct Hw as [Hinj Hw]. split; [done|]. intros r i st. unfold slots. cbn.
    by rewrite lookup_empty.
Qed.
Lemma reachable_wf authors c d :
  rtc dag_step (InMemDag_new authors c) d → dag_wf node_id d.
Proof.
  intros Hr. apply (rtc_invariant dag_step (dag_wf node_id) (InMemDag_new authors c) d);
    [|apply InMemDag_new_wf|done]. intros d1 d2 Hw [k <-]. by apply run_dag_wf.
Qed.

(** ** Enumeration *)
Lemma bt_keys_sorted {B} (m : gmap R B) : StronglySorted R_le (bt_keys R_le m).
Proof. apply StronglySorted_merge_sort; exact _. Qed.
Lemma elem_of_bt_keys {B} (m : gmap R B) k : k ∈ bt_keys R_le m ↔ is_Some (m !! k).
Proof.
  unfold bt_keys. rewrite merge_sort_Permutation, list_elem_of_fmap. split.
  - intros ([k' b]&->&Hin). apply elem_of_map_to_list in Hin. eauto.
  - intros [b Hb]. exists (k, b). by rewrite elem_of_map_to_list.
Qed.
(** The nodes of the given rounds. *)
Definition nodes_of d (ks : list R) : list NN := ks ≫= λ k, slot_nodes (slots d k).
Lemma all_nodes_eq d : all_nodes R_le d = nodes_of d (bt_keys R_le (nodes_by_round d)).
Proof.
  unfold all_nodes, nodes_of, bt_values.
  assert (Hk : Forall (λ k, is_Some (nodes_by_round d !! k)) (bt_keys R_le (nodes_by_round d)))
    by (apply Forall_forall; intros k; apply elem_of_bt_keys).
  induction Hk as [|k ks [l Hl] _ IH]; [done|]. cbn. rewrite Hl. cbn.
  unfold slots at 1. rewrite Hl. cbn. by f_equal.
Qed.
Lemma dag_len_eq d : dag_len R_le d = length (all_nodes R_le d).
Proof.
  unfold dag_len, all_nodes. induction (bt_values R_le (nodes_by_round d)) as [|l ls IH];
    [done|]. cbn. rewrite length_app, count_slots_length. by f_equal.
Qed.
Lemma elem_of_all_nodes d n :
  dag_wf node_id d →
  n ∈ all_nodes R_le d ↔ ∃ r a, get_node d r a = Some n.
Proof.
  intros Hw. rewrite all_nodes_eq. unfold nodes_of. rewrite list_elem_of_bind. split.
  - intros (r&(i&st&Hst&<-)%elem_of_slot_nodes&_).
    destruct Hw as [_ Hw]. destruct (Hw _ _ _ Hst) as [Hr Ha].
    exists r, (author_of (as_node st)). rewrite get_node_status_node, get_node_status_slot.
    rewrite Ha. cbn. by rewrite Hst.
  - intros (r&a&Hn). rewrite get_node_status_node, get_node_status_slot in Hn.
    destruct (author_to_index d !! a) as [i|]; [|done]. cbn in Hn.
    destruct (slot_at (slots d r) i) as [st|] eqn:Hst; [|done]. injection Hn as <-.
    exists r. split; [apply elem_of_slot_nodes; eauto|]. apply elem_of_bt_keys.
    unfold slots in Hst. destruct (nodes_by_round d !! r); [by eexists|done].
Qed.
Lemma nodes_of_sorted d ks :
  dag_wf node_id d → StronglySorted R_le ks →
  StronglySorted R_le ((λ n, round_of n) <$> nodes_of d ks).
Proof.
  intros [_ Hw]. assert (Hin : ∀ k n, n ∈ slot_nodes (slots d k) → round_of n = k).
  { intros k n (i&st&Hst&<-)%elem_of_slot_nodes. by apply Hw in Hst as [? _]. }
  induction 1 as [|k ks Hs IH Hk]; [constructor|]. unfold nodes_of in *. cbn.
  rewrite fmap_app. apply StronglySorted_app. split_and!; [| |done].
  - intros x1 x2 (n1&->&H1)%list_elem_of_fmap
      (n2&->&(k2&H2&Hk2)%list_elem_of_bind)%list_elem_of_fmap.
    rewrite (Hin _ _ H1), (Hin _ _ H2). by eapply Forall_forall in Hk.
  - assert (Hall : Forall (λ n, round_of n = k) (slot_nodes (slots d k)))
      by (by apply Forall_forall; intros n Hn; apply Hin).
    induction Hall as [|n l Hn Hl IHl]; cbn; constructor; [done|].
    apply Forall_fmap. eapply Forall_impl; [exact Hl|]. intros n' Hn'. cbn.
    by rewrite Hn, Hn'.
Qed.
End calls.

Section theorems.
Context {R A NN : Type} `{Countable R} `{Countable A}.
Context (R_le : relation R) `{!RelDecision R_le} `{!TotalOrder R_le}.
Context (node_id : NN → DagNodeId R R A).
Implicit Types d : InMemDag R A NN.
Abbreviation round_of n := (di_round (node_id n)).
Abbreviation author_of n := (di_author (node_id n)).
Abbreviation reachable := (rtc (dag_step R_le node_id)).

(** C9: The store implements a finite map from rounds and authors to node
    statuses, in every state reachable from an empty store: a node is found
    only under its own round and author; adding succeeds exactly for a known
    author with no node in that round and then sets that entry only; marking
    succeeds exactly once per node; pruning restricts the map to the rounds
    kept; refused calls change nothing, and no call panics. *)
Theorem dag_store_refines_map authors cfg d :
  reachable (InMemDag_new authors cfg) d →
  (∀ r a st, get_node_status d r a = Some st →
     round_of (as_node st) = r ∧ author_of (as_node st) = a) ∧
  (∀ n, let '(d', res) := add_node node_id n d in
     (res = Ok tt ↔ is_Some (author_to_index d !! author_of n) ∧
        get_node_status d (round_of n) (author_of n) = None) ∧
     (res = Ok tt → ∀ r a, get_node_status d' r a =
        if decide (round_of n = r ∧ author_of n = a) then Some (StUnordered n 0)
        else get_node_status d r a) ∧
     (res ≠ Ok tt → d' = d ∧ res ≠ Panic)) ∧
  (∀ r a, let '(d', res) := mark_ordered r a d in
     (res = Ok tt ↔ ∃ n p, get_node_status d r a = Some (StUnordered n p)) ∧
     (res = Ok tt → ∀ r' a', get_node_status d' r' a' =
        if decide (r = r' ∧ a = a') then StOrdered <$> get_node d r a
        else get_node_status d r' a') ∧
     (res ≠ Ok tt → d' = d ∧ res ≠ Panic)) ∧
  (∀ m r a, get_node_status (prune_below R_le m d) r a =
     if decide (R_le m r) then get_node_status d r a else None).
Proof.
  intros Hr. pose proof (reachable_wf R_le node_id _ _ _ Hr) as Hw. split_and!.
  - intros r a st. by apply get_node_status_wf.
  - intros n. destruct (author_to_index d !! author_of n) as [i|] eqn:Hi.
    + pose proof (add_node_known node_id n d i Hi) as Ha.
      assert (Hst : get_node_status d (round_of n) (author_of n) =
        slot_at (slots d (round_of n)) i) by (rewrite get_node_status_slot; by rewrite Hi).
      rewrite Hst. destruct (slot_at (slots d (round_of n)) i).
      { destruct Ha as [e ->]. split_and!; [naive_solver|done|done]. }
      destruct Ha as (l&->&Hl). split_and!; [split; [by eauto|done]| |done].
      intros _ r a. by apply (get_node_status_set node_id (round_of n) i (StUnordered n 0)).
    + destruct (add_node_unknown node_id n d Hi) as [e ->].
      split_and!; [|done|done]. split; [done|]. by intros [[? ?] _].
  - intros r a. pose proof (mark_ordered_effect r a d) as Hm.
    rewrite get_node_status_node.
    destruct (get_node_status d r a) as [[n p|n]|] eqn:Hs;
      [|by destruct Hm as [e ->]; split_and!; [naive_solver|..]..].
    destruct Hm as (i&l&Hi&->&Hl). split_and!; [by split; [eauto|]| |done].
    intros _ r' a'. by apply (get_node_status_set node_id r i (StOrdered n)).
  - intros m r a. rewrite !get_node_status_slot. cbn [author_to_index prune_below].
    destruct (author_to_index d !! a) as [i|]; cbn; [|by case_decide].
    rewrite slots_prune. by case_decide.
Qed.

(** Enumeration is complete and in round order: in every reachable store
    [all_nodes] holds exactly the nodes that can be looked up, their rounds
    never decrease along the list, and [len] is its length. *)
Theorem all_nodes_complete authors cfg d :
  reachable (InMemDag_new authors cfg) d →
  (∀ n, n ∈ all_nodes R_le d ↔ ∃ r a, get_node d r a = Some n) ∧
  StronglySorted R_le ((λ n, round_of n) <$> all_nodes R_le d) ∧
  dag_len R_le d = length (all_nodes R_le d).
Proof.
  intros Hr. pose proof (reachable_wf R_le node_id _ _ _ Hr) as Hw. split_and!.
  - intros n. by apply (elem_of_all_nodes R_le node_id).
  - rewrite all_nodes_eq. apply nodes_of_sorted; try done. by apply bt_keys_sorted.
  - apply dag_len_eq.
Qed.

(** Pruning is not remembered: a node of a known author in a round below
    the pruning point is accepted again, although [add_node] documents an
    error for it. *)
Theorem pruned_round_readmitted m n d :
  is_Some (author_to_index d !! author_of n) → ¬ R_le m (round_of n) →
  ∃ d', add_node node_id n (prune_below R_le m d) = (d', Ok tt) ∧
    get_node d' (round_of n) (author_of n) = Some n.
Proof.
  intros [i Hi] Hm.
  pose proof (add_node_known node_id n (prune_below R_le m d) i Hi) as Ha.
  rewrite slots_prune, decide_False in Ha by done.
  destruct Ha as (l&->&Hl). eexists. split; [done|].
  rewrite get_node_status_node, get_node_status_slot. cbn [author_to_index set_round_nodes
    prune_below]. rewrite Hi. cbn. rewrite slots_set, decide_True, Hl by done.
  by rewrite decide_True.
Qed.
End theorems.

Section witnesses.
(** Nodes are their own identifiers, rounds are integers. *)
Abbreviation Id := (DagNodeId N N N).
#[export] Instance N_le_total_order : TotalOrder N.le.
Proof.
  split; [apply _|]. intros x y. unfold strict.
  destruct (N.lt_total x y) as [?|[?|?]]; [left|right; left|right; right]; lia.
Qed.
Abbreviation step := (run_dag N.le (λ n : Id, n)).
Definition dag_calls (l : list DagCall) (d : InMemDag N N Id) : InMemDag N N Id :=
  foldl (λ d c, (step c d).1) d l.
Lemma dag_calls_reachable l d : rtc (dag_step N.le (λ n : Id, n)) d (dag_calls l d).
Proof.
  revert d. induction l as [|c l IH]; intros d; [apply rtc_refl|].
  eapply rtc_l; [|apply IH]. by exists c.
Qed.
Definition dag0 : InMemDag N N Id := InMemDag_new [10; 11; 12] DagStoreConfig_default.
Definition dag3 : InMemDag N N Id :=
  dag_calls [DcAdd (mkNodeId 0 5 11); DcAdd (mkNodeId 0 3 10);
             DcAdd (mkNodeId 0 5 10); DcMark 3 10] dag0.

Lemma dag_store_refines_map_witness :
  (mark_ordered 5 11 dag3).2 = Ok tt ∧
  get_node_status (mark_ordered 5 11 dag3).1 5 11 = Some (StOrdered (mkNodeId 0 5 11)) ∧
  (mark_ordered 3 10 dag3).2 ≠ Ok tt.
Proof.
  destruct (dag_store_refines_map N.le (λ n : Id, n) [10; 11; 12] DagStoreConfig_default
    dag3) as (_&_&Hm&_); [apply dag_calls_reachable|].
  pose proof (Hm 5 11) as H1. pose proof (Hm 3 10) as H2. clear Hm.
  destruct (mark_ordered 5 11 dag3) as [d1 r1], (mark_ordered 3 10 dag3) as [d2 r2].
  destruct H1 as ([_ H1]&H1'&_), H2 as ([H2 _]&_). cbn [fst snd].
  assert (Hr : r1 = Ok tt) by (apply H1; do 2 eexists; by vm_compute).
  split; [exact Hr|]. split; [rewrite (H1' Hr); by vm_compute|].
  intros (n&p&E)%H2. by vm_compute in E.
Defined.

Lemma all_nodes_complete_witness :
  dag_len N.le dag3 = 3%nat ∧
  StronglySorted N.le ((λ n, di_round n) <$> all_nodes N.le dag3).
Proof.
  destruct (all_nodes_complete N.le (λ n : Id, n) [10; 11; 12] DagStoreConfig_default
    dag3) as (_&Hs&Hl); [apply dag_calls_reachable|].
  split; [rewrite Hl; by vm_compute|exact Hs].
Defined.

Lemma pruned_round_readmitted_witness :
  ∃ d', add_node (λ n : Id, n) (mkNodeId 0 3 12) (prune_below N.le 5 dag3) = (d', Ok tt) ∧
    get_node d' 3 12 = Some (mkNodeId 0 3 12).
Proof.
  apply (pruned_round_readmitted N.le (λ n : Id, n) 5 (mkNodeId 0 3 12) dag3);
    [by vm_compute; eexists|by vm_compute].
Defined.
End witnesses.
