(* ===== verification/DagOrdering.v ===== *)
(** * [dag/ordering.rs]: anchor election and the ordering rule

    The ordering rule of the source is a framework: its methods return empty
    results, and the definitions do the same. *)
From stdpp Require Import sorting.
From S2P Require Import Prelude.
From S2P Require Import CommonTypes.
From S2P Require Import DagTypes.
From S2P Require Import DagStore.

Record OrderingConfig := mkOrderingConfig {
  oc_window_size : N;
  oc_anchor_interval : N;
}.
Definition OrderingConfig_default : OrderingConfig := mkOrderingConfig 100 2.

Record CommitEvent (ID A : Type) := mkCommitEvent {
  anchor_id : ID;
  ce_parents : list A;
  failed_authors : list A;
}.
Arguments mkCommitEvent {ID A}.
Arguments anchor_id {ID A}.
Arguments ce_parents {ID A}.
Arguments failed_authors {ID A}.

Record OrderingResult (NN ID A : Type) := mkOrderingResult {
  ordered_nodes : list NN;
  commit_event : CommitEvent ID A;
}.
Arguments mkOrderingResult {NN ID A}.
Arguments ordered_nodes {NN ID A}.
Arguments commit_event {NN ID A}.

(** The trait; [get_anchor] may panic. *)
Class AnchorElection (AE R A : Type) := {
  get_anchor : AE → R → res Error A;
  ae_update_reputation : AE → CommitEvent R A → AE;
}.

Section round_robin.
Context {R A : Type} `{EqDecision A}.
Record RoundRobinAnchorElection := mkAnchorElection { ae_authors : list A }.
Definition get_author_index (e : RoundRobinAnchorElection) (author : A) : option nat :=
  fst <$> list_find (λ a, a = author) (ae_authors e).
Definition round_robin_anchor (e : RoundRobinAnchorElection) (round : R) : res Error A :=
  let index := 0%nat in
  match ae_authors e !! index with
  | Some a => Ok a
  | None => match head (ae_authors e) with Some a => Ok a | None => Panic end
  end.
#[export] Instance RoundRobinAnchorElection_election :
  AnchorElection RoundRobinAnchorElection R A := {|
  get_anchor := round_robin_anchor;
  ae_update_reputation e _ := e;
|}.
End round_robin.
#[global] Arguments RoundRobinAnchorElection A : clear implicits.

Section order_rule.
Context {R A NN AE : Type} `{Countable R} `{Countable A} `{!AnchorElection AE R A}.
Record OrderRule := mkOrderRule {
  or_dag : InMemDag R A NN;
  or_anchor_election : AE;
  lowest_unordered_round : R;
  or_config : OrderingConfig;
}.
Implicit Types o : OrderRule.
Abbreviation OM := (M OrderRule Error).
Definition OrderRule_new (dag : InMemDag R A NN) (anchor_election : AE)
    (lowest_unordered_round : R) (config : OrderingConfig) : OrderRule :=
  mkOrderRule dag anchor_election lowest_unordered_round config.
Definition process_new_node (node : NN) : OM (option (OrderingResult NN R A)) := mret None.
Definition process_all : OM (list (OrderingResult NN R A)) := mret [].
Definition try_order_from_round (start_round : R) : OM (option (OrderingResult NN R A)) :=
  mret None.
Definition find_anchor_with_enough_votes o (start_round : R) : res Error (option NN) :=
  Ok None.
Definition order_anchor (anchor : NN) : OM (list NN) := mret [].
Definition create_commit_event o (ordered_nodes : list NN) : CommitEvent R A :=
  mkCommitEvent (lowest_unordered_round o) [] [].
Definition can_trigger_ordering o (round : R) : bool := false.
Definition compare_rounds o (r1 r2 : R) : comparison := Eq.
Definition or_next_round o (round : R) : R := round.
End order_rule.
#[global] Arguments OrderRule R A NN AE {_ _ _ _}.

Section theorems.
Context {R A : Type} `{EqDecision A}.

(** The round-robin anchor election does not rotate: for every non-empty
    author list the anchor of every round is the first author, and an empty
    list panics. *)
Theorem anchor_is_first_author (e : RoundRobinAnchorElection A) (r1 r2 : R) :
  get_anchor e r1 = get_anchor e r2 ∧
  (∀ a, get_anchor e r1 = Ok a ↔ head (ae_authors e) = Some a) ∧
  (get_anchor e r1 = Panic ↔ ae_authors e = []).
Proof.
  cbn. unfold round_robin_anchor. destruct (ae_authors e) as [|a l]; cbn.
  - by split_and!.
  - split_and!; [done| |done]. intros b. split; by intros [= <-].
Qed.
End theorems.
