(* ===== verification/DagDriver.v ===== *)
(** * [dag/driver.rs]: the DAG consensus driver *)
From stdpp Require Import sorting.
From S2P Require Import Prelude.
From S2P Require Import CommonTypes.
From S2P Require Import DagTypes.
From S2P Require Import DagStore.
From S2P Require Import DagOrdering.

Record DagDriverConfig := mkDriverConfig {
  dd_window_size : N;
  dd_anchor_interval : N;
  max_concurrent_rounds : N;
}.
Definition DagDriverConfig_default : DagDriverConfig := mkDriverConfig 100 2 10.

Section driver.
Context {R A NN AE : Type} `{Countable R} `{Countable A} `{!AnchorElection AE R A}.
Context (R_le : relation R) `{!RelDecision R_le} `{!TotalOrder R_le}.

(** The [Arc]s are shared but never mutated. *)
Record DagDriver := mkDriver {
  dag : InMemDag R A NN;
  order_rule : OrderRule R A NN AE;
  dd_config : DagDriverConfig;
  dd_current_round : R;
  pending_nodes : list NN;
  is_processing : bool;
}.
Implicit Types v : DagDriver.
Abbreviation DM := (M DagDriver Error).

Definition DagDriver_new (authors : list A) (anchor_election : AE) (start_round : R)
    (config : DagDriverConfig) : DagDriver :=
  let dag_store_config := mkDagStoreConfig 0 (dd_window_size config) in
  let dag := InMemDag_new authors dag_store_config in
  let ordering_config :=
    mkOrderingConfig (dd_window_size config) (dd_anchor_interval config) in
  let order_rule := OrderRule_new dag anchor_election start_round ordering_config in
  mkDriver dag order_rule config start_round [] false.

Definition set_pending_nodes (l : list NN) v : DagDriver :=
  mkDriver (dag v) (order_rule v) (dd_config v) (dd_current_round v) l (is_processing v).
Definition set_processing (b : bool) v : DagDriver :=
  mkDriver (dag v) (order_rule v) (dd_config v) (dd_current_round v) (pending_nodes v) b.
Definition set_driver_round (r : R) v : DagDriver :=
  mkDriver (dag v) (order_rule v) (dd_config v) r (pending_nodes v) (is_processing v).

Definition handle_ordered_nodes (result : OrderingResult NN R A) : DM unit := mret tt.
(** The loop of [check_ordering], whose batch is always empty; [None] when the
    fuel runs out. *)
Fixpoint ordering_loop (fuel : nat) (ordered_results : list (OrderingResult NN R A)) :
    DM (option (list (OrderingResult NN R A))) :=
  match fuel with
  | O => mret None
  | S fuel =>
      v ← get;
      let results : list (OrderingResult NN R A) := [] in
      match results with
      | [] => mret (Some ordered_results)
      | _ => ordering_loop fuel (ordered_results ++ results)
      end
  end.
Fixpoint handle_all_ordered (l : list (OrderingResult NN R A)) : DM unit :=
  match l with
  | [] => mret tt
  | result :: l => handle_ordered_nodes result;; handle_all_ordered l
  end.
Definition check_ordering : DM unit :=
  r ← ordering_loop 1 [];
  match r with Some l => handle_all_ordered l | None => lift Panic end.
Definition process_certified_node (node : NN) : DM unit :=
  check_ordering;;
  mret tt.

Definition dd_enter_new_round (new_round : R) : DM unit :=
  cur ← gets dd_current_round;
  if decide (strict R_le new_round cur)
  then throw (Msg "Cannot move to round {:?} from {:?}"
                [DKey (encode new_round); DKey (encode cur)])
  else modify (set_driver_round new_round).
Definition get_strong_links v (round : R) : list NN := get_round (dag v) round.
Definition create_proposal v : res Error unit := Ok tt.

(** [if let Err(e) = call { eprintln!(..) }]. *)
Definition report_error (m : DM unit) : DM unit := λ v,
  match m v with
  | (v', Panic) => (v', Panic)
  | (v', _) => (v', Ok tt)
  end.
(** One node per unit of fuel. *)
Fixpoint drain_pending (fuel : nat) : DM unit :=
  match fuel with
  | O => mret tt
  | S fuel =>
      v ← get;
      match pending_nodes v with
      | [] => mret tt
      | node :: rest =>
          modify (set_pending_nodes rest);;
          report_error (process_certified_node node);;
          drain_pending fuel
      end
  end.
Definition process_pending : DM unit :=
  v ← get;
  if is_processing v then mret tt
  else
    modify (set_processing true);;
    drain_pending (length (pending_nodes v));;
    modify (set_processing false).
Definition add_pending (node : NN) v : DagDriver :=
  set_pending_nodes (pending_nodes v ++ [node]) v.
Definition pending_count v : nat := length (pending_nodes v).
Definition dd_prune : DM unit :=
  _ ← gets (λ v, lowest_unordered_round (order_rule v)); mret tt.
End driver.
#[global] Arguments DagDriver R A NN AE {_ _ _ _}.

(** ** Lemmas *)
Section lemmas.
Context {R A NN AE : Type} `{Countable R} `{Countable A} `{!AnchorElection AE R A}.
Context (R_le : relation R) `{!RelDecision R_le} `{!TotalOrder R_le}.
Implicit Types v : DagDriver R A NN AE.

Lemma process_certified_node_effect (n : NN) v : process_certified_node n v = (v, Ok tt).
Proof. done. Qed.
Lemma drain_pending_effect l v :
  pending_nodes v = l → drain_pending (length l) v = (set_pending_nodes [] v, Ok tt).
Proof.
  revert v. induction l as [|n l IH]; intros v Hv; cbn [length drain_pending].
  - destruct v; cbn in *. by subst.
  - rewrite bind_get, Hv, bind_modify.
    rewrite (bind_ok _ _ _ (set_pending_nodes l v) tt) by done.
    by rewrite IH.
Qed.
Lemma process_pending_effect v :
  process_pending v =
    (if is_processing v then v else set_pending_nodes [] v, Ok tt).
Proof.
  unfold process_pending. rewrite bind_get. destruct (is_processing v) eqn:Hp; [done|].
  rewrite bind_modify.
  assert (Hd : drain_pending (length (pending_nodes v)) (set_processing true v) =
    (set_pending_nodes [] (set_processing true v), Ok tt))
    by (by apply drain_pending_effect).
  rewrite (bind_ok _ _ _ _ _ Hd). unfold modify. destruct v; cbn in *. by subst.
Qed.

Inductive DriverCall :=
| DdNode (n : NN) | DdEnter (r : R) | DdPending | DdAdd (n : NN) | DdPrune.
Definition run_driver (c : DriverCall) : M (DagDriver R A NN AE) Error unit :=
  match c with
  | DdNode n => process_certified_node n
  | DdEnter r => dd_enter_new_round R_le r
  | DdPending => process_pending
  | DdAdd n => modify (add_pending n)
  | DdPrune => dd_prune
  end.
Definition driver_step v v' : Prop := ∃ c, (run_driver c v).1 = v'.

Definition driver_frame v v' : Prop :=
  dag v' = dag v ∧ R_le (dd_current_round v) (dd_current_round v') ∧
  is_processing v' = is_processing v.
Lemma not_strict_le x y : ¬ strict R_le x y → R_le y x.
Proof.
  intros Hn. destruct (trichotomy (strict R_le) x y) as [?|[->|[? _]]]; [done|reflexivity|done].
Qed.
Lemma run_driver_frame c v : driver_frame v (run_driver c v).1.
Proof.
  destruct c; cbn [run_driver]; try (split_and!; [done|reflexivity|done]).
  - unfold dd_enter_new_round. rewrite bind_gets. case_decide as Hd;
      (split_and!; [done| |done]); [reflexivity|by apply not_strict_le].
  - rewrite process_pending_effect. cbn. destruct (is_processing v);
      (split_and!; [done|reflexivity|done]).
Qed.
Lemma driver_reachable_frame v v' : rtc driver_step v v' → driver_frame v v'.
Proof.
  induction 1 as [v|v1 v2 v3 [c <-] _ (H1&H2&H3)]; [by split_and!; [|reflexivity|]|].
  destruct (run_driver_frame c v1) as (H1'&H2'&H3').
  split_and!; [congruence|by etrans|congruence].
Qed.
End lemmas.
#[global] Arguments DriverCall : clear implicits.

Section theorems.
Context {R A NN AE : Type} `{Countable R} `{Countable A} `{!AnchorElection AE R A}.
Context (R_le : relation R) `{!RelDecision R_le} `{!TotalOrder R_le}.
Implicit Types v : DagDriver R A NN AE.

(** C40: Between any two moments of a run the driver's round does not go back, and
    a round is entered exactly when it is not below the current one; pending
    nodes are all consumed by [process_pending], but no certified node ever
    reaches the DAG: in every reachable state the store is still empty, so there
    are no strong links in any round. *)
Theorem driver_never_stores_nodes authors e start config v :
  rtc (driver_step R_le) (DagDriver_new authors e start config) v →
  R_le start (dd_current_round v) ∧
  (∀ v', rtc (driver_step R_le) v v' → R_le (dd_current_round v) (dd_current_round v')) ∧
  (∀ r, dd_enter_new_round R_le r v = (set_driver_round r v, Ok tt) ↔
     R_le (dd_current_round v) r) ∧
  process_pending v = (set_pending_nodes [] v, Ok tt) ∧
  dag_len R_le (dag v) = 0%nat ∧ (∀ r, get_strong_links v r = []).
Proof.
  intros Hr. destruct (driver_reachable_frame R_le _ _ Hr) as (Hd&Hround&Hp).
  split_and!.
  - exact Hround.
  - by intros v' (_&?&_)%driver_reachable_frame.
  - intros r. unfold dd_enter_new_round. rewrite bind_gets. case_decide as Hs.
    + split; [done|]. intros Hle. destruct Hs as [_ Hs]. done.
    + split; [|done]. intros _. by apply (not_strict_le R_le).
  - rewrite process_pending_effect, Hp. done.
  - rewrite Hd. unfold dag_len, bt_values, bt_keys. cbn.
    by rewrite map_to_list_empty.
  - intros r. unfold get_strong_links, get_round. rewrite Hd. cbn.
    by rewrite lookup_empty.
Qed.
End theorems.

Section witnesses.
Abbreviation Id := (DagNodeId N N N).
Abbreviation Drv := (DagDriver N N Id (RoundRobinAnchorElection N)).
Definition driver0 : Drv :=
  DagDriver_new [10; 11] (mkAnchorElection [10; 11]) 1 DagDriverConfig_default.
Definition driver_calls (l : list (DriverCall N Id)) (v : Drv) : Drv :=
  foldl (λ v c, (run_driver N.le c v).1) v l.
Lemma driver_calls_reachable l v : rtc (driver_step N.le) v (driver_calls l v).
Proof.
  revert v. induction l as [|c l IH]; intros v; [apply rtc_refl|].
  eapply rtc_l; [|apply IH]. by exists c.
Qed.
Lemma driver_never_stores_nodes_witness :
  let v := driver_calls [DdNode (mkNodeId 0 1 10); DdEnter 2;
                         DdAdd (mkNodeId 0 1 11); DdPending] driver0 in
  dd_current_round v = 2 ∧ get_strong_links v 1 = [].
Proof.
  intros v. split; [by vm_compute|].
  destruct (driver_never_stores_nodes N.le [10; 11] (mkAnchorElection [10; 11]) 1
    DagDriverConfig_default v) as (_&_&_&_&_&H); [apply driver_calls_reachable|apply H].
Defined.
End witnesses.
