(* ===== verification/DebugFmt.v ===== *)
(** * [Debug] output

    The structs of the crates derive [Debug]; [TwoChainSafetyRules] implements it
    by hand (safety_rules/two_chain.rs) with the standard library's
    [debug_struct].  Output is for logs and no operation reads it; what the tests
    look at are the names in it. *)
From S2P Require Import Prelude.
From S2P Require Import Traits.
From S2P Require Import SafetyStateData.
From S2P Require Import Timeout.
From S2P Require Import TwoChain.
From S2P Require Import DagTypes.

(** [{:?}]. *)
Class Debug (T : Type) := debug : T → string.
(** [Formatter::debug_struct]: [Name { field: value, .. }], and the name alone
    when there are no fields. *)
Fixpoint debug_fields (fields : list (string * string)) : string :=
  match fields with
  | [] => ""
  | [(f, v)] => f +:+ ": " +:+ v
  | (f, v) :: fields => f +:+ ": " +:+ v +:+ ", " +:+ debug_fields fields
  end.
Definition debug_struct (name : string) (fields : list (string * string)) : string :=
  match fields with
  | [] => name
  | _ => name +:+ " { " +:+ debug_fields fields +:+ " }"
  end.
(** A newtype: [Name(value)]. *)
Definition debug_newtype `{!Debug T} (name : string) (x : T) : string :=
  name +:+ "(" +:+ debug x +:+ ")".

#[export] Instance N_debug : Debug N := pretty.
#[export] Instance SafetyStateData_debug : Debug SafetyStateData := λ s,
  debug_struct "SafetyStateData"
    [("epoch"%string, debug (epoch s)); ("last_voted_round"%string, debug (last_voted_round s));
     ("preferred_round"%string, debug (preferred_round s));
     ("one_chain_round"%string, debug (one_chain_round s));
     ("highest_timeout_round"%string, debug (highest_timeout_round s))].
#[export] Instance TwoChainSafetyRules_debug : Debug TwoChainSafetyRules := λ r,
  debug_struct "TwoChainSafetyRules" [("state"%string, debug (state r))].
#[export] Instance TwoChainTimeout_debug : Debug TwoChainTimeout := λ t,
  debug_struct "TwoChainTimeout"
    [("epoch"%string, debug (to_epoch t)); ("round"%string, debug (to_round t));
     ("hqc_round"%string, debug (to_hqc_round t))].
#[export] Instance TC_debug {S : Type} `{!Debug S} : Debug (TwoChainTimeoutCertificate S) := λ tc,
  debug_struct "TwoChainTimeoutCertificate"
    [("epoch"%string, debug (tcc_epoch tc)); ("round"%string, debug (tcc_round tc));
     ("hqc_round"%string, debug (tcc_hqc_round tc));
     ("highest_tc_round"%string, debug (tcc_highest_tc_round tc));
     ("timeout"%string, debug (tcc_timeout tc));
     ("aggregated_signature"%string, debug (tcc_aggregated_signature tc))].
#[export] Instance DagNodeId_debug {E R A : Type} `{!Debug E, !Debug R, !Debug A} :
    Debug (DagNodeId E R A) := λ id,
  debug_struct "DagNodeId"
    [("epoch"%string, debug (di_epoch id)); ("round"%string, debug (di_round id));
     ("author"%string, debug (di_author id))].
#[export] Instance DagNodeMetadataImpl_debug {ID H : Type} `{!Debug ID, !Debug H} :
    Debug (DagNodeMetadataImpl ID H) := λ m,
  debug_struct "DagNodeMetadataImpl"
    [("node_id"%string, debug (mi_node_id m)); ("timestamp"%string, debug (mi_timestamp m));
     ("digest"%string, debug (mi_digest m))].
