(* ===== verification/Testing.v ===== *)
(** * The vocabulary of the repository's tests

    A Rust test passes when it runs to its end: every assertion holds and
    nothing panics.  A test is translated to the conjunction of its assertions,
    over the values the model's operations return; [assert!(r.is_err())] and the
    like are the functions below.  Messages are rendered as [format!] does. *)
From S2P Require Import Prelude.
From S2P Require Import Traits.
From Stdlib Require Import Ascii.

Definition is_err {E A} (r : res E A) : bool :=
  match r with Err _ => true | _ => false end.
(** [assert_eq!]. *)
Definition eqb {A} `{EqDecision A} (x y : A) : bool := bool_decide (x = y).
(** [assert!(r.is_ok() && p(r.unwrap()))]. *)
Definition ok_and {E A} (p : A → bool) (r : res E A) : bool :=
  match r with Ok a => p a | _ => false end.
(** [assert!(r.is_err() && p(r.unwrap_err()))]. *)
Definition err_and {E A} (p : E → bool) (r : res E A) : bool :=
  match r with Err e => p e | _ => false end.
(** Neither assertion nor value: the call must return. *)
Definition returns {E A} (r : res E A) : bool := negb (is_panic r).
Definition none_or {A} (p : A → bool) (o : option A) : bool :=
  match o with Some a => p a | None => false end.
Definition is_none {A} (o : option A) : bool :=
  match o with Some _ => false | None => true end.
Definition is_some {A} (o : option A) : bool := negb (is_none o).

(** A test over a mutable value is a program: [assert!] and [unwrap] panic. *)
Definition assert {S E} (b : bool) : M S E unit := lift (if b then Ok tt else Panic).
Definition attempt {S E E' A} (m : M S E A) : M S E' (res E A) :=
  λ s, match m s with
       | (s, Ok a) => (s, Ok (Ok a))
       | (s, Err e) => (s, Ok (Err e))
       | (s, Panic) => (s, Panic)
       end.
Definition unwrap {S E E' A} (m : M S E A) : M S E' A :=
  λ s, match m s with (s, Ok a) => (s, Ok a) | (s, _) => (s, Panic) end.
Definition test {S} (s : S) (m : M S Error unit) : bool := is_ok (m s).2.
(** [for x in l]. *)
Definition for_each {S E A} (l : list A) (f : A → M S E unit) : M S E unit :=
  foldr (λ x k, f x;; k) (mret tt) l.

(** ** Constant implementations

    Most tests define unit structs and implement the traits by constants: zero
    numbers, one hash, one author. *)
Section constants.
Context {H Node : Type} (zero : H) (node : Node).

Definition const_hash : HashTrait H := {|
  hash_zero := zero; hash_from_bytes _ := Ok zero; hash_as_bytes _ := [];
|}.
Definition const_transaction : TransactionTrait unit H := {|
  tx_hash _ := zero; tx_size _ := 0;
|}.
Definition const_metadata {MD} : BlockMetadata MD Node H := {|
  md_epoch _ := 0; md_round _ := 0; md_author _ := node; md_parent_id _ := zero;
  md_timestamp _ := 0;
|}.
Definition const_quorum_cert {QC MD} (md : MD) : QuorumCertificate QC MD H := {|
  qc_certified_block _ := md; qc_block_id _ := zero; qc_verify _ := Ok tt;
|}.
Definition const_block {MD S} (md : MD) (sig : S) : BlockTrait unit unit MD S H := {|
  block_id _ := zero; block_metadata _ := md; block_transactions _ := [];
  block_signature _ := Some sig; block_parent_id _ := zero;
  block_is_genesis _ := false; block_is_nil _ := false;
  block_verify_signature _ := Ok tt; block_new_genesis := tt;
|}.
Definition const_vote_data {MD} (md : MD) : VoteDataTrait unit MD := {|
  vd_proposed_block _ := md; vd_parent_block _ := md; vd_verify _ := Ok tt;
|}.
Definition const_commit_info : CommitInfoTrait unit H := {|
  ci_block_id _ := zero; ci_round _ := 0; ci_epoch _ := 0; ci_version _ := 0;
  ci_timestamp _ := 0;
|}.
Definition const_ledger_info : LedgerInfoTrait unit unit H := {|
  li_commit_info _ := tt; li_epoch _ := 0; li_round _ := 0;
  li_accumulated_state _ := zero;
|}.
Definition const_node_id : NodeIdTrait Node := {|
  node_id_from_bytes _ := Ok node; node_id_as_bytes _ := [];
|}.
Definition const_signature : SignatureTrait unit unit unit Empty_set := {|
  sig_verify _ _ _ := Ok tt; sig_to_bytes _ := []; sig_from_bytes _ := Ok tt;
  sig_aggregate _ := Ok tt;
|}.
Definition const_public_key : PublicKeyTrait unit := {|
  pk_to_bytes _ := []; pk_from_bytes _ := Ok tt;
|}.
End constants.

(** [[u8; 32]] and the conversion that copies a slice of that length. *)
Definition bytes32 (b : N) : list N := replicate 32 b.
Definition bytes32_from_bytes (bytes : list N) : res Error (list N) :=
  if decide (length bytes = 32%nat) then Ok bytes else Err (Msg "Invalid length" []).
Definition bytes32_hash : HashTrait (list N) := {|
  hash_zero := bytes32 0; hash_from_bytes := bytes32_from_bytes; hash_as_bytes h := h;
|}.
Definition bytes32_node_id : NodeIdTrait (list N) := {|
  node_id_from_bytes := bytes32_from_bytes; node_id_as_bytes h := h;
|}.
(** [MockSignature(u8)]-like newtypes. *)
Definition byte_from_bytes (bytes : list N) : res Error N :=
  match bytes with [] => Err (Msg "Empty bytes" []) | b :: _ => Ok b end.

(** The verifier of the tests: every signer has power 100. *)
Section verifier.
Context `{OV : OverflowMode} {B V Node S : Type} (total quorum : N).
Fixpoint count_power {E} (power : N) (signers : list Node) : res E N :=
  match signers with
  | [] => Ok power
  | _ :: signers => power' ← add128 power 100; count_power power' signers
  end.
Definition flat_verifier : ValidatorVerifier B V Node S unit := {|
  verify_vote _ := Ok tt;
  verify_block _ := Ok tt;
  get_voting_power _ := Some 100;
  total_voting_power := total;
  quorum_voting_power := quorum;
  check_voting_power signers check_quorum :=
    power ← count_power 0 signers;
    if check_quorum && (power <? quorum) then Err (TooLittleVotingPower power quorum)
    else Ok tt;
  aggregate_signatures _ := Ok tt;
|}.
End verifier.

(** ** Messages *)

Definition show_arg (a : fmt_arg) : string :=
  match a with
  | DNum n => pretty n
  | DOpt None => "None"
  | DOpt (Some n) => "Some(" +:+ pretty n +:+ ")"
  | DKey p => pretty (Npos p)
  | DStr s => s
  end.
(** [format!] with [{}] and [{:?}] placeholders. *)
Fixpoint render (f : string) (args : list fmt_arg) : string :=
  match f with
  | String "{" (String "}" f') | String "{" (String ":" (String "?" (String "}" f'))) =>
      match args with
      | a :: args => show_arg a +:+ render f' args
      | [] => render f' []
      end
  | String c f => String c (render f args)
  | EmptyString => EmptyString
  end.
Definition VerifyError_to_string (e : VerifyError) : string :=
  match e with
  | UnknownAuthor => "Author is unknown"
  | TooLittleVotingPower v x =>
      render "The voting power ({}) is less than expected ({})" [DNum v; DNum x]
  | InvalidSignature => "Signature verification failed"
  | InvalidAggregatedSignature => "Aggregated signature is invalid"
  end.
Fixpoint error_to_string (e : Error) : string :=
  match e with
  | Msg f args => render f args
  | Caused f e => render f [DStr (error_to_string e)]
  | FromVerify e => VerifyError_to_string e
  end.
Definition contains (pat s : string) : bool :=
  match String.index 0 pat s with Some _ => true | None => false end.
Definition says (pat : string) (e : Error) : bool := contains pat (error_to_string e).

(** A suite: named tests. *)
Definition Suite : Type := list (string * bool).
Definition passes (s : Suite) : Prop := Forall (λ t, t.2 = true) s.
#[export] Instance passes_dec s : Decision (passes s).
Proof. unfold passes. apply _. Defined.
