(* ===== verification/UnitTestsSafety.v ===== *)
(** * The unit tests of the safety rules, run on the model

    The tests of safety_rules/state.rs, safety_rules/two_chain.rs,
    safety_rules/recovery.rs and timeout/two_chain.rs, translated with the types
    they define for themselves.  The tests that serialize run on the fixed-width
    format of [Wire]. *)
From S2P Require Import Prelude.
From S2P Require Import Traits.
From S2P Require Import SafetyStateData.
From S2P Require Import Timeout.
From S2P Require Import Mocks.
From S2P Require Import TwoChain.
From S2P Require Import Recovery.
From S2P Require Import Wire.
From S2P Require Import DagTypes.
From S2P Require Import DebugFmt.
From S2P Require Import Testing.

(** ** safety_rules/state.rs *)

Definition st_test_safety_state_creation : bool :=
  let state := SafetyStateData_new 1 5 10 8 3 in
  eqb (ss_epoch state) 1 && eqb (ss_last_voted_round state) 5 &&
  eqb (ss_preferred_round state) 10 && eqb (ss_one_chain_round state) 8 &&
  eqb (ss_highest_timeout_round state) 3.
Definition st_test_can_vote_in_round : bool :=
  let state := SafetyStateData_new 0 5 10 8 3 in
  can_vote_in_round state 5 && can_vote_in_round state 6 &&
  negb (can_vote_in_round state 4).
Definition st_test_update_one_chain_round : bool :=
  let state := SafetyStateData_new 0 0 0 5 0 in
  let '(state, b1) := update_one_chain_round 10 state in
  let '(state', b2) := update_one_chain_round 8 state in
  b1 && eqb (ss_one_chain_round state) 10 && negb b2 && eqb (ss_one_chain_round state') 10.
Definition st_test_new_epoch : bool :=
  let new_state := new_epoch (SafetyStateData_new 1 10 20 15 5) 2 in
  eqb (ss_epoch new_state) 2 && eqb (ss_last_voted_round new_state) 0 &&
  eqb (ss_preferred_round new_state) 20 && eqb (ss_one_chain_round new_state) 0 &&
  eqb (ss_highest_timeout_round new_state) 0.
Definition st_test_display : bool :=
  let display := SafetyStateData_to_string (SafetyStateData_new 1 5 10 8 3) in
  contains "epoch = 1" display && contains "last_voted_round = 5" display.

Definition state_tests : Suite := [
  ("creation"%string, st_test_safety_state_creation);
  ("can_vote_in_round"%string, st_test_can_vote_in_round);
  ("update_one_chain_round"%string, st_test_update_one_chain_round);
  ("new_epoch"%string, st_test_new_epoch);
  ("display"%string, st_test_display)].

(** ** timeout/two_chain.rs *)
Section timeout.
Context `{OV : OverflowMode}.
Implicit Types timeout : TwoChainTimeout.

(** Unit structs and a hash that is a number. *)
Definition tt_MockHash_hash : HashTrait N := const_hash 0.
Definition tt_MockHash_node_id : NodeIdTrait N := const_node_id 0.
Definition tt_MockTransaction_impl : TransactionTrait unit N := const_transaction 0.
Definition tt_MockSignature_impl : SignatureTrait unit unit unit Empty_set :=
  const_signature.
Definition tt_MockPublicKey_impl : PublicKeyTrait unit := const_public_key.
Definition tt_MockQuorumCert_impl : QuorumCertificate unit unit N :=
  const_quorum_cert 0 tt.
Definition tt_from_votes {V} : QcFromVotes unit V unit := λ _ _, Ok tt.
Definition tt_MockBlock_impl : BlockTrait unit unit unit unit N := {|
  block_id _ := 0; block_metadata _ := tt; block_transactions _ := [];
  block_signature _ := Some tt; block_parent_id _ := 0; block_is_genesis _ := true;
  block_is_nil _ := true; block_verify_signature _ := Ok tt; block_new_genesis := tt;
|}.
Definition tt_MockMetadata_impl : BlockMetadata unit N N := const_metadata 0 0.

(** A unit struct is serialized as nothing at all and prints its name. *)
#[local] Instance tt_MockSignature_serde : Serde unit := {|
  wire_type := WtUnit; to_wire s := s; of_wire := Some;
|}.
#[local] Instance tt_MockSignature_debug : Debug unit :=
  λ _, debug_struct "MockSignature" [].

(** The certificate over the test's own signature type, a unit. *)
Definition tt_tc (epoch round hqc_round highest_tc_round : N) (timeout : TwoChainTimeout) :
    TwoChainTimeoutCertificate unit :=
  TC_new epoch round hqc_round highest_tc_round timeout tt.

Definition tt_test_timeout_creation : bool :=
  let timeout := TwoChainTimeout_new 0 5 4 in
  eqb (to_epoch timeout) 0 && eqb (to_round timeout) 5 && eqb (to_hqc_round timeout) 4.
Definition tt_test_timeout_verify_valid : bool :=
  is_ok (timeout_verify (TwoChainTimeout_new 0 5 4)).
Definition tt_test_timeout_verify_invalid : bool :=
  is_err (timeout_verify (TwoChainTimeout_new 0 5 5)).
Definition tt_test_tc_allows_advance : bool :=
  let tc := tt_tc 0 5 4 0 (TwoChainTimeout_new 0 5 4) in
  ok_and id (allows_advance (E:=Error) tc).
Definition tt_test_tc_effective_hqc_round : bool :=
  let tc := tt_tc 0 10 5 8 (TwoChainTimeout_new 0 10 5) in
  eqb (effective_hqc_round tc) 8.
Definition tt_test_timeout_default : bool :=
  let timeout := TwoChainTimeout_default in
  eqb (to_epoch timeout) 0 && eqb (to_round timeout) 0 && eqb (to_hqc_round timeout) 0.
Definition tt_test_timeout_verify_error_message : bool :=
  let result := timeout_verify (TwoChainTimeout_new 1 3 5) in
  is_err result &&
  err_and (λ e, says "hqc_round" e && says "5" e && says "3" e) result.
Definition tt_test_timeout_partial_eq : bool :=
  let timeout1 := TwoChainTimeout_new 1 5 4 in
  let timeout2 := TwoChainTimeout_new 1 5 4 in
  let timeout3 := TwoChainTimeout_new 1 5 3 in
  eqb timeout1 timeout2 && negb (eqb timeout1 timeout3).
Definition tt_test_tc_verify_valid : bool :=
  is_ok (tcc_verify (tt_tc 0 10 5 8 (TwoChainTimeout_new 0 10 5))).
Definition tt_test_tc_verify_invalid_hqc_round : bool :=
  let result := tcc_verify (tt_tc 0 5 5 0 (TwoChainTimeout_new 0 5 5)) in
  is_err result && err_and (λ e, says "hqc_round" e || says "round" e) result.
Definition tt_test_tc_verify_invalid_highest_tc_round : bool :=
  let result := tcc_verify (tt_tc 0 5 3 5 (TwoChainTimeout_new 0 5 3)) in
  is_err result && err_and (λ e, says "Invalid TC" e && says "highest_tc_round" e) result.
Definition tt_test_tc_allows_advance_with_highest_tc_round : bool :=
  ok_and id (allows_advance (E:=Error) (tt_tc 0 10 3 9 (TwoChainTimeout_new 0 10 3))).
Definition tt_test_tc_does_not_allow_advance : bool :=
  ok_and negb (allows_advance (E:=Error) (tt_tc 0 10 3 7 (TwoChainTimeout_new 0 10 3))).
Definition tt_test_tc_effective_hqc_round_uses_hqc_round : bool :=
  eqb (effective_hqc_round (tt_tc 0 10 8 5 (TwoChainTimeout_new 0 10 8))) 8.
Definition tt_test_tc_timeout_accessor : bool :=
  let timeout := TwoChainTimeout_new 1 10 9 in
  let tc := tt_tc 1 10 9 0 timeout in
  eqb (tcc_timeout tc) timeout && eqb (to_round (tcc_timeout tc)) 10.
Definition tt_test_timeout_clone : bool :=
  let timeout1 := TwoChainTimeout_new 1 10 9 in
  let timeout2 := timeout1 in
  eqb timeout1 timeout2.
#[local] Instance TC_eq_dec : EqDecision (TwoChainTimeoutCertificate unit).
Proof. solve_decision. Defined.
Definition tt_test_tc_clone : bool :=
  let tc1 := tt_tc 1 5 4 0 (TwoChainTimeout_new 1 5 4) in
  let tc2 := tc1 in
  eqb tc1 tc2.
Definition tt_test_timeout_serialization : bool :=
  let timeout := TwoChainTimeout_new 1 5 4 in
  ok_and (λ bytes, ok_and (eqb timeout) (deserialize fixint bytes)) (serialize fixint timeout).
Definition tt_test_tc_serialization : bool :=
  let tc := tt_tc 1 5 4 0 (TwoChainTimeout_new 1 5 4) in
  ok_and (λ bytes, ok_and (λ d,
      eqb (tcc_epoch tc) (tcc_epoch d) && eqb (tcc_round tc) (tcc_round d) &&
      eqb (tcc_hqc_round tc) (tcc_hqc_round d) &&
      eqb (tcc_highest_tc_round tc) (tcc_highest_tc_round d))
    (deserialize (T := TwoChainTimeoutCertificate unit) fixint bytes)) (serialize fixint tc).
Definition tt_test_timeout_debug_formatting : bool :=
  let debug_str := debug (TwoChainTimeout_new 1 5 4) in
  contains "TwoChainTimeout" debug_str && contains "epoch" debug_str &&
  contains "round" debug_str && contains "hqc_round" debug_str.
Definition tt_test_tc_debug_formatting : bool :=
  contains "TwoChainTimeoutCertificate"
    (debug (tt_tc 1 5 4 0 (TwoChainTimeout_new 1 5 4))).
Definition tt_test_timeout_trait_impl_timeout_certificate : bool :=
  let tc := tt_tc 1 10 9 0 (TwoChainTimeout_new 1 10 9) in
  eqb (tc_round tc) 10 && eqb (tc_epoch tc) 1 && eqb (tc_highest_qc_round tc) 9 &&
  eqb (tc_highest_tc_round tc) 0.
Definition tt_test_timeout_new_zero_values : bool :=
  let timeout := TwoChainTimeout_new 0 0 0 in
  eqb (to_epoch timeout) 0 && eqb (to_round timeout) 0 && eqb (to_hqc_round timeout) 0 &&
  is_err (timeout_verify timeout).
Definition tt_test_timeout_with_epoch : bool :=
  let timeout := TwoChainTimeout_new 10 5 4 in
  eqb (to_epoch timeout) 10 && is_ok (timeout_verify timeout).
Definition tt_test_tc_with_nonzero_epoch : bool :=
  let tc := tt_tc 5 10 9 0 (TwoChainTimeout_new 5 10 9) in
  eqb (tcc_epoch tc) 5 && eqb (tcc_round tc) 10.
Definition tt_test_tc_all_fields_distinct : bool :=
  let tc := tt_tc 3 20 15 12 (TwoChainTimeout_new 3 20 15) in
  eqb (tcc_epoch tc) 3 && eqb (tcc_round tc) 20 && eqb (tcc_hqc_round tc) 15 &&
  eqb (tcc_highest_tc_round tc) 12 && eqb (to_round (tcc_timeout tc)) 20.
Definition tt_test_timeout_partial_eq_different_epoch : bool :=
  negb (eqb (TwoChainTimeout_new 1 5 4) (TwoChainTimeout_new 2 5 4)).
Definition tt_test_timeout_partial_eq_different_round : bool :=
  negb (eqb (TwoChainTimeout_new 1 5 4) (TwoChainTimeout_new 1 6 4)).
Definition tt_test_timeout_partial_eq_different_hqc_round : bool :=
  negb (eqb (TwoChainTimeout_new 1 5 4) (TwoChainTimeout_new 1 5 3)).
Definition tt_test_tc_verify_both_checks_fail : bool :=
  is_err (tcc_verify (tt_tc 0 5 5 5 (TwoChainTimeout_new 0 5 5))).
Definition tt_test_tc_effective_hqc_round_equal : bool :=
  eqb (effective_hqc_round (tt_tc 0 10 8 8 (TwoChainTimeout_new 0 10 8))) 8.
Definition tt_test_timeout_round_accessor : bool :=
  eqb (to_round (TwoChainTimeout_new 5 100 99)) 100.
Definition tt_test_timeout_hqc_round_accessor : bool :=
  eqb (to_hqc_round (TwoChainTimeout_new 5 100 99)) 99.
Definition tt_test_tc_hqc_round_accessor : bool :=
  eqb (tcc_hqc_round (tt_tc 0 10 5 3 (TwoChainTimeout_new 0 10 5))) 5.
Definition tt_test_tc_highest_tc_round_accessor : bool :=
  eqb (tcc_highest_tc_round (tt_tc 0 10 5 7 (TwoChainTimeout_new 0 10 5))) 7.

Definition timeout_tests : Suite := [
  ("creation"%string, tt_test_timeout_creation);
  ("verify_valid"%string, tt_test_timeout_verify_valid);
  ("verify_invalid"%string, tt_test_timeout_verify_invalid);
  ("tc_allows_advance"%string, tt_test_tc_allows_advance);
  ("tc_effective_hqc_round"%string, tt_test_tc_effective_hqc_round);
  ("default"%string, tt_test_timeout_default);
  ("verify_error_message"%string, tt_test_timeout_verify_error_message);
  ("partial_eq"%string, tt_test_timeout_partial_eq);
  ("tc_verify_valid"%string, tt_test_tc_verify_valid);
  ("tc_verify_invalid_hqc_round"%string, tt_test_tc_verify_invalid_hqc_round);
  ("tc_verify_invalid_highest_tc_round"%string, tt_test_tc_verify_invalid_highest_tc_round);
  ("tc_allows_advance_highest_tc"%string, tt_test_tc_allows_advance_with_highest_tc_round);
  ("tc_does_not_allow_advance"%string, tt_test_tc_does_not_allow_advance);
  ("tc_effective_uses_hqc_round"%string, tt_test_tc_effective_hqc_round_uses_hqc_round);
  ("tc_timeout_accessor"%string, tt_test_tc_timeout_accessor);
  ("clone"%string, tt_test_timeout_clone);
  ("tc_clone"%string, tt_test_tc_clone);
  ("serialization"%string, tt_test_timeout_serialization);
  ("tc_serialization"%string, tt_test_tc_serialization);
  ("debug_formatting"%string, tt_test_timeout_debug_formatting);
  ("tc_debug_formatting"%string, tt_test_tc_debug_formatting);
  ("trait_impl"%string, tt_test_timeout_trait_impl_timeout_certificate);
  ("new_zero_values"%string, tt_test_timeout_new_zero_values);
  ("with_epoch"%string, tt_test_timeout_with_epoch);
  ("tc_with_nonzero_epoch"%string, tt_test_tc_with_nonzero_epoch);
  ("tc_all_fields_distinct"%string, tt_test_tc_all_fields_distinct);
  ("different_epoch"%string, tt_test_timeout_partial_eq_different_epoch);
  ("different_round"%string, tt_test_timeout_partial_eq_different_round);
  ("different_hqc_round"%string, tt_test_timeout_partial_eq_different_hqc_round);
  ("tc_verify_both_checks_fail"%string, tt_test_tc_verify_both_checks_fail);
  ("tc_effective_equal"%string, tt_test_tc_effective_hqc_round_equal);
  ("round_accessor"%string, tt_test_timeout_round_accessor);
  ("hqc_round_accessor"%string, tt_test_timeout_hqc_round_accessor);
  ("tc_hqc_round_accessor"%string, tt_test_tc_hqc_round_accessor);
  ("tc_highest_tc_round_accessor"%string, tt_test_tc_highest_tc_round_accessor)].
End timeout.

(** ** safety_rules/two_chain.rs *)

(** [TestHash] wraps an integer; the signatures, the vote's data and its ledger
    information are unit structs. *)
Record TestMetadata := mkTestMetadata {
  tm_epoch : N; tm_round : N; tm_parent_id : N;
}.
Record TestBlock := mkTestBlock {
  tb_epoch : N; tb_round : N; tb_parent_round : N; tb_metadata : TestMetadata;
}.
Record TestQuorumCert := mkTestQuorumCert {
  tq_certified_block : TestMetadata; tq_block_id : N;
}.
#[export] Instance TestHash_hash : HashTrait N := {|
  hash_zero := 0; hash_from_bytes _ := Ok 0; hash_as_bytes _ := [];
|}.
#[export] Instance TestHash_node_id : NodeIdTrait N := {|
  node_id_from_bytes _ := Ok 0; node_id_as_bytes _ := [];
|}.
#[export] Instance TestTransaction_impl : TransactionTrait unit N := {|
  tx_hash _ := 0; tx_size _ := 0;
|}.
#[export] Instance TestMetadata_impl : BlockMetadata TestMetadata N N := {|
  md_epoch := tm_epoch; md_round := tm_round; md_author _ := 0;
  md_parent_id := tm_parent_id; md_timestamp _ := 0;
|}.
Definition TestQuorumCert_from_votes : QcFromVotes TestQuorumCert unit unit :=
  λ _ _, Ok (mkTestQuorumCert (mkTestMetadata 0 0 0) 0).
#[export] Instance TestQuorumCert_impl : QuorumCertificate TestQuorumCert TestMetadata N := {|
  qc_certified_block := tq_certified_block; qc_block_id := tq_block_id;
  qc_verify _ := Ok tt;
|}.
#[export] Instance TestBlock_impl : BlockTrait TestBlock unit TestMetadata unit N := {|
  block_id := tb_round; block_metadata := tb_metadata; block_transactions _ := [];
  block_signature _ := Some tt; block_parent_id := tb_parent_round;
  block_is_genesis b := (tb_epoch b =? 0) && (tb_round b =? 0);
  block_is_nil _ := true; block_verify_signature _ := Ok tt;
  block_new_genesis := mkTestBlock 0 0 0 (mkTestMetadata 0 0 0);
|}.
#[export] Instance TestSignature_impl : SignatureTrait unit unit unit Empty_set := {|
  sig_verify _ _ _ := Ok tt; sig_to_bytes _ := []; sig_from_bytes _ := Ok tt;
  sig_aggregate _ := Ok tt;
|}.
#[export] Instance TestPublicKey_impl : PublicKeyTrait unit := {|
  pk_to_bytes _ := []; pk_from_bytes _ := Ok tt;
|}.
#[export] Instance TestVoteData_impl : VoteDataTrait unit TestMetadata := {|
  vd_proposed_block _ := mkTestMetadata 0 0 0;
  vd_parent_block _ := mkTestMetadata 0 0 0;
  vd_verify _ := Ok tt;
|}.
#[export] Instance TestCommitInfo_impl : CommitInfoTrait unit N := {|
  ci_block_id _ := 0; ci_round _ := 0; ci_epoch _ := 0; ci_version _ := 0;
  ci_timestamp _ := 0;
|}.
#[export] Instance TestLedgerInfo_impl : LedgerInfoTrait unit unit N := {|
  li_commit_info _ := tt; li_epoch _ := 0; li_round _ := 0;
  li_accumulated_state _ := 0;
|}.
#[export] Instance TestVote_impl : VoteTrait unit TestBlock unit N unit unit unit N := {|
  vote_data _ := tt; vote_author _ := 0; vote_ledger_info _ := tt;
  vote_signature _ := tt; vote_block_id _ := 0; vote_round _ := 0;
  vote_verify _ _ := Ok tt;
|}.
Definition TestChain : Chain := {|
  Blk := TestBlock; Tx := unit; Meta := TestMetadata; BSig := unit; BHash := N;
  QCert := TestQuorumCert; QHash := N; MNode := N; MHash := N;
  Vot := unit; VData := unit; VMeta := TestMetadata; VMNode := N; VMHash := N;
  VNode := N; VSig := unit; VAgg := unit; VHash := N;
  LInfo := unit; CInfo := unit; LHash := N;
  chain_from_votes := TestQuorumCert_from_votes;
|}.
#[local] Existing Instance TestChain.

(** The proposal the tests build for a round, and their certificates. *)
Definition proposal_at (round parent_round : N) : TestBlock :=
  mkTestBlock 0 round parent_round (mkTestMetadata 0 round parent_round).
Definition qc_at (round : N) : TestQuorumCert :=
  mkTestQuorumCert (mkTestMetadata 0 round (round - 1)) round.

Section two_chain.
Context `{OV : OverflowMode}.
Abbreviation TestTC := (TwoChainTimeoutCertificate unit).

Definition tr_test_safety_rules_new : bool :=
  let safety_rules := rules_new 0 in
  eqb (ss_epoch (state safety_rules)) 0 &&
  eqb (ss_last_voted_round (state safety_rules)) 0.
Definition tr_test_safe_to_vote_normal_progression : bool :=
  is_ok (safe_to_vote (rules_new 0) (proposal_at 5 4) None).
Definition tr_test_safe_to_vote_normal_progression_always_passes : bool :=
  is_ok (safe_to_vote (rules_new 0) (proposal_at 10 5) None).
Definition tr_test_safe_to_timeout_normal : bool :=
  is_ok (safe_to_timeout (with_state (mkSafetyState 0 0 0 3 0)) 4 3 (None : option TestTC)).
Definition tr_test_safe_to_timeout_unsafe : bool :=
  is_err (safe_to_timeout (with_state (mkSafetyState 0 0 0 5 0)) 4 3 (None : option TestTC)).
Definition tr_test_record_vote : bool :=
  let '(safety_rules, r1) := record_vote 5 (rules_new 0) in
  let '(_, r2) := record_vote 3 safety_rules in
  is_ok r1 && eqb (ss_last_voted_round (state safety_rules)) 5 && is_err r2.
Definition tr_test_observe_qc : bool :=
  is_ok (observe_qc (qc_at 5) (rules_new 0)).2.
Definition tr_test_record_timeout : bool :=
  let safety_rules := record_timeout 10 (rules_new 0) in
  let safety_rules' := record_timeout 15 safety_rules in
  eqb (ss_highest_timeout_round (state safety_rules)) 10 &&
  eqb (ss_highest_timeout_round (state safety_rules')) 15.
Definition tr_test_safety_rules_with_state : bool :=
  let safety_rules := with_state (mkSafetyState 5 10 10 8 7) in
  eqb (ss_epoch (state safety_rules)) 5 &&
  eqb (ss_last_voted_round (state safety_rules)) 10 &&
  eqb (ss_one_chain_round (state safety_rules)) 8.
Definition tr_test_observe_tc : bool :=
  let tc : TestTC := TC_new 0 10 5 8 (TwoChainTimeout_new 0 10 5) tt in
  let '(safety_rules, r) := observe_tc tc (rules_new 0) in
  is_ok r && eqb (ss_highest_timeout_round (state safety_rules)) 10 &&
  eqb (ss_one_chain_round (state safety_rules)) 5.
Definition tr_test_should_commit : bool :=
  let safety_rules := on_state (update_one_chain_round 5) (rules_new 0) in
  let commit_hash := should_commit safety_rules (proposal_at 6 5) in
  is_some commit_hash && none_or (eqb 5) commit_hash.
Definition tr_test_should_commit_no_commit : bool :=
  let commit_hash := should_commit (rules_new 0) (proposal_at 1 0) in
  is_some commit_hash && none_or (eqb 0) commit_hash.
Definition tr_test_should_commit_different_round : bool :=
  let safety_rules := on_state (update_one_chain_round 5) (rules_new 0) in
  is_none (should_commit safety_rules (proposal_at 7 6)).
Definition tr_test_should_commit_genesis : bool :=
  is_none (should_commit (rules_new 0) (proposal_at 0 0)).
Definition tr_test_record_vote_error_message : bool :=
  let '(safety_rules, r1) := record_vote 10 (rules_new 0) in
  let '(_, result) := record_vote 5 safety_rules in
  is_ok r1 && is_err result &&
  err_and (λ e, says "Cannot record vote" e && says "5" e && says "10" e) result.
Definition tr_test_safe_to_vote_with_timeout_cert : bool :=
  let tc : TestTC := TC_new 0 10 8 5 (TwoChainTimeout_new 0 10 8) tt in
  is_ok (safe_to_vote (rules_new 0) (proposal_at 11 10) (Some tc)).
Definition tr_test_observe_qc_updates_preferred_round : bool :=
  let '(s1, r1) := observe_qc (qc_at 5) (rules_new 0) in
  let '(s2, r2) := observe_qc (qc_at 6) s1 in
  is_ok r1 && eqb (ss_one_chain_round (state s1)) 5 &&
  is_ok r2 && eqb (ss_one_chain_round (state s2)) 6 &&
  eqb (ss_preferred_round (state s2)) 6.
Definition tr_test_safe_to_vote_with_overflow_qc_round : bool :=
  is_ok (safe_to_vote (rules_new 0) (proposal_at u64_max u64_max) None).
Definition tr_test_safe_to_vote_with_tc_overflow : bool :=
  let tc : TestTC := TC_new 0 u64_max (u64_max - 1) (u64_max - 2)
    (TwoChainTimeout_new 0 u64_max (u64_max - 1)) tt in
  returns (safe_to_vote (rules_new 0) (proposal_at u64_max (u64_max - 1)) (Some tc)).
Definition tr_test_safe_to_timeout_with_tc_overflow : bool :=
  let safety_rules := with_state (mkSafetyState 0 0 0 (u64_max - 10) 0) in
  let tc : TestTC := TC_new 0 u64_max (u64_max - 1) (u64_max - 2)
    (TwoChainTimeout_new 0 u64_max (u64_max - 1)) tt in
  returns (safe_to_timeout safety_rules u64_max (u64_max - 1) (Some tc)).
Definition tr_test_safe_to_timeout_normal_case_with_tc : bool :=
  let tc : TestTC := TC_new 0 10 9 8 (TwoChainTimeout_new 0 10 9) tt in
  is_ok (safe_to_timeout (rules_new 0) 11 9 (Some tc)).
Definition tr_test_safe_to_timeout_tc_round_progression : bool :=
  let tc : TestTC := TC_new 0 10 5 0 (TwoChainTimeout_new 0 10 5) tt in
  is_ok (safe_to_timeout (rules_new 0) 11 9 (Some tc)).

Definition tr_test_debug_formatting : bool :=
  let debug_str := debug (rules_new 0) in
  contains "TwoChainSafetyRules" debug_str && contains "state" debug_str.
Definition two_chain_tests : Suite := [
  ("debug_formatting"%string, tr_test_debug_formatting);
  ("new"%string, tr_test_safety_rules_new);
  ("normal_progression"%string, tr_test_safe_to_vote_normal_progression);
  ("always_passes"%string, tr_test_safe_to_vote_normal_progression_always_passes);
  ("timeout_normal"%string, tr_test_safe_to_timeout_normal);
  ("timeout_unsafe"%string, tr_test_safe_to_timeout_unsafe);
  ("record_vote"%string, tr_test_record_vote);
  ("observe_qc"%string, tr_test_observe_qc);
  ("record_timeout"%string, tr_test_record_timeout);
  ("with_state"%string, tr_test_safety_rules_with_state);
  ("observe_tc"%string, tr_test_observe_tc);
  ("should_commit"%string, tr_test_should_commit);
  ("no_commit"%string, tr_test_should_commit_no_commit);
  ("different_round"%string, tr_test_should_commit_different_round);
  ("commit_genesis"%string, tr_test_should_commit_genesis);
  ("error_message"%string, tr_test_record_vote_error_message);
  ("with_timeout_cert"%string, tr_test_safe_to_vote_with_timeout_cert);
  ("preferred_round"%string, tr_test_observe_qc_updates_preferred_round);
  ("overflow_qc_round"%string, tr_test_safe_to_vote_with_overflow_qc_round);
  ("tc_overflow"%string, tr_test_safe_to_vote_with_tc_overflow);
  ("timeout_tc_overflow"%string, tr_test_safe_to_timeout_with_tc_overflow);
  ("normal_case_with_tc"%string, tr_test_safe_to_timeout_normal_case_with_tc);
  ("tc_round_progression"%string, tr_test_safe_to_timeout_tc_round_progression)].
End two_chain.

(** ** safety_rules/recovery.rs *)

(** The tests' storage; a state read back went through a serialization round
    trip, which is the identity. *)
Record MockStorage := mkMockStorage {
  ms_state : option SafetyStateData; ms_should_fail : bool;
}.
Definition MockStorage_new : MockStorage := mkMockStorage None false.
Definition MockStorage_with_state (state : SafetyStateData) : MockStorage :=
  mkMockStorage (Some state) false.
Definition with_error (s : MockStorage) : MockStorage := mkMockStorage (ms_state s) true.
Definition RecoveryError_to_string (e : RecoveryError) : string :=
  match e with
  | NoState => "No safety state found in storage"
  | Storage m => "Storage error: " +:+ m
  | Deserialization m => "Failed to deserialize safety state: " +:+ m
  | Validation m => "Safety state validation failed: " +:+ error_to_string m
  end.
Definition rc_says (pat : string) (e : RecoveryError) : bool :=
  contains pat (RecoveryError_to_string e).
Definition MockStorage_save_safety_state (state : SafetyStateData) :
    M MockStorage RecoveryError unit :=
  fail ← gets ms_should_fail;
  if (fail : bool) then throw (Storage "Storage error")
  else modify (λ s, mkMockStorage (Some state) (ms_should_fail s)).
(** The stored state is written and read once more on the way out. *)
Definition MockStorage_get_safety_state (F : Format) (s : MockStorage) :
    res RecoveryError (option SafetyStateData) :=
  if ms_should_fail s then Err (Storage "Storage error")
  else match ms_state s with
  | None => Ok None
  | Some state =>
      match serialize F state with
      | Ok serialized =>
          match deserialize F serialized with
          | Ok s => Ok (Some s)
          | Err e => Err (Deserialization ("Deserialization failed: " +:+ error_to_string e))
          | Panic => Panic
          end
      | Err e => Err (Storage ("Serialization failed: " +:+ error_to_string e))
      | Panic => Panic
      end
  end.
#[export] Instance MockStorage_storage :
    ConsensusStorage MockStorage MockBlock MockQuorumCert MockHash RecoveryError := {|
  save_block _ := mret tt;
  get_block _ _ := Ok None;
  save_quorum_cert _ := mret tt;
  get_quorum_cert _ _ := Ok None;
  storage_prune _ := mret tt;
  save_safety_state := MockStorage_save_safety_state;
  get_safety_state := MockStorage_get_safety_state fixint;
  serr_to_string := RecoveryError_to_string;
|}.

Section recovery.
Context `{OV : OverflowMode}.

Definition rc_load (state : SafetyStateData) : res RecoveryError TwoChainSafetyRules :=
  load_safety_rules (MockStorage_with_state state) 0.
Definition rc_persist : SafetyStateData → M MockStorage RecoveryError unit :=
  persist_safety_state.

Definition rc_test_load_safety_rules_no_state : bool :=
  ok_and (λ r, eqb (ss_epoch (state r)) 0) (load_safety_rules MockStorage_new 0).
Definition rc_test_load_safety_rules_with_state : bool :=
  ok_and (λ r, eqb (ss_epoch (state r)) 5 && eqb (ss_last_voted_round (state r)) 10)
    (rc_load (mkSafetyState 5 10 10 9 0)).
Definition rc_test_load_safety_rules_storage_error : bool :=
  err_and (rc_says "Storage error") (load_safety_rules (with_error MockStorage_new) 0).
Definition rc_test_persist_safety_state : bool :=
  let '(storage, result) := rc_persist (mkSafetyState 3 7 7 6 0) MockStorage_new in
  is_ok result && is_some (ms_state storage) &&
  none_or (λ s, eqb (ss_epoch s) 3) (ms_state storage).
Definition rc_test_persist_safety_state_error : bool :=
  err_and (rc_says "Storage error")
    (rc_persist (mkSafetyState 0 0 0 0 0) (with_error MockStorage_new)).2.
Definition rc_test_load_safety_rules_invalid_epoch : bool :=
  err_and (λ e, rc_says "Validation" e || rc_says "epoch" e)
    (rc_load (mkSafetyState (u64_max - 500) 10 10 9 0)).
Definition rc_test_load_safety_rules_invariant_violation : bool :=
  err_and (λ e, negb (eqb (RecoveryError_to_string e) EmptyString))
    (rc_load (mkSafetyState 5 10 8 10 0)).
Definition rc_test_load_safety_rules_preferred_round_too_far : bool :=
  err_and (λ e, negb (eqb (RecoveryError_to_string e) EmptyString))
    (rc_load (mkSafetyState 5 10 150 9 0)).
Definition rc_test_load_safety_rules_epoch_at_threshold : bool :=
  ok_and (λ r, eqb (ss_epoch (state r)) (u64_max - 1000))
    (rc_load (mkSafetyState (u64_max - 1000) 10 10 9 0)).
Definition rc_test_load_safety_rules_preferred_round_at_threshold : bool :=
  is_ok (rc_load (mkSafetyState 5 10 110 9 0)).
Definition rc_test_load_safety_rules_new_state_with_epoch : bool :=
  ok_and (λ r, eqb (ss_epoch (state r)) 5 && eqb (ss_last_voted_round (state r)) 0 &&
               eqb (ss_one_chain_round (state r)) 0)
    (load_safety_rules MockStorage_new 5).
Definition rc_test_load_safety_rules_with_timeout_round : bool :=
  ok_and (λ r, eqb (ss_highest_timeout_round (state r)) 7)
    (rc_load (mkSafetyState 5 10 10 9 7)).
Definition rc_test_persist_safety_state_high_rounds : bool :=
  let '(storage, result) := rc_persist (mkSafetyState 1000 10000 10000 9999 5000) MockStorage_new in
  is_ok result && is_some (ms_state storage) &&
  none_or (λ s, eqb (ss_epoch s) 1000 && eqb (ss_last_voted_round s) 10000) (ms_state storage).
Definition rc_test_safety_state_round_trip : bool :=
  let original_state := mkSafetyState 10 20 20 19 5 in
  let '(storage, result) := rc_persist (mkSafetyState 10 20 20 19 5) MockStorage_new in
  is_ok result &&
  ok_and (λ serialized, ok_and (λ deserialized,
      eqb (ss_epoch deserialized) (ss_epoch original_state) &&
      eqb (ss_last_voted_round deserialized) (ss_last_voted_round original_state) &&
      eqb (ss_preferred_round deserialized) (ss_preferred_round original_state) &&
      eqb (ss_one_chain_round deserialized) (ss_one_chain_round original_state) &&
      eqb (ss_highest_timeout_round deserialized) (ss_highest_timeout_round original_state))
    (deserialize (T := SafetyStateData) fixint serialized)) (serialize fixint original_state).
Definition rc_test_persist_safety_state_doesnt_modify_original : bool :=
  let state := mkSafetyState 3 7 7 6 0 in
  let original_epoch := ss_epoch state in
  let original_last_voted := ss_last_voted_round state in
  let '(storage, result) := rc_persist state MockStorage_new in
  returns result && eqb (ss_epoch state) original_epoch &&
  eqb (ss_last_voted_round state) original_last_voted.
Definition rc_test_recovery_error_no_state_display : bool :=
  eqb (RecoveryError_to_string NoState) "No safety state found in storage"%string.
Definition rc_test_recovery_error_storage_display : bool :=
  eqb (RecoveryError_to_string (Storage "disk full")) "Storage error: disk full"%string.
Definition rc_test_recovery_error_deserialization_display : bool :=
  eqb (RecoveryError_to_string (Deserialization "invalid json"))
    "Failed to deserialize safety state: invalid json"%string.
Definition rc_test_recovery_error_validation_display : bool :=
  eqb (RecoveryError_to_string (Validation (Msg "epoch overflow" [])))
    "Safety state validation failed: epoch overflow"%string.
Definition rc_test_storage_save_block : bool :=
  is_ok (save_block MockBlock_genesis MockStorage_new).2.
Definition rc_test_storage_get_block : bool :=
  ok_and is_none (get_block (mkHash 0) MockStorage_new).
Definition rc_test_storage_save_quorum_cert : bool :=
  is_ok (save_quorum_cert (MockQuorumCert_new (mkHash 0)) MockStorage_new).2.
Definition rc_test_storage_get_quorum_cert : bool :=
  ok_and is_none (get_quorum_cert (mkHash 0) MockStorage_new).
Definition rc_test_storage_prune : bool :=
  is_ok (storage_prune 100 MockStorage_new).2.
Definition rc_test_storage_save_block_with_error : bool :=
  returns (save_block MockBlock_genesis (with_error MockStorage_new)).2.
Definition rc_test_get_safety_state_with_storage_error : bool :=
  err_and (rc_says "Storage error") (get_safety_state (with_error MockStorage_new)).

Definition recovery_tests : Suite := [
  ("load_no_state"%string, rc_test_load_safety_rules_no_state);
  ("load_with_state"%string, rc_test_load_safety_rules_with_state);
  ("load_storage_error"%string, rc_test_load_safety_rules_storage_error);
  ("persist"%string, rc_test_persist_safety_state);
  ("persist_error"%string, rc_test_persist_safety_state_error);
  ("invalid_epoch"%string, rc_test_load_safety_rules_invalid_epoch);
  ("invariant_violation"%string, rc_test_load_safety_rules_invariant_violation);
  ("preferred_round_too_far"%string, rc_test_load_safety_rules_preferred_round_too_far);
  ("epoch_at_threshold"%string, rc_test_load_safety_rules_epoch_at_threshold);
  ("preferred_at_threshold"%string, rc_test_load_safety_rules_preferred_round_at_threshold);
  ("new_state_with_epoch"%string, rc_test_load_safety_rules_new_state_with_epoch);
  ("with_timeout_round"%string, rc_test_load_safety_rules_with_timeout_round);
  ("high_rounds"%string, rc_test_persist_safety_state_high_rounds);
  ("round_trip"%string, rc_test_safety_state_round_trip);
  ("persist_keeps_original"%string, rc_test_persist_safety_state_doesnt_modify_original);
  ("no_state_display"%string, rc_test_recovery_error_no_state_display);
  ("storage_display"%string, rc_test_recovery_error_storage_display);
  ("deserialization_display"%string, rc_test_recovery_error_deserialization_display);
  ("validation_display"%string, rc_test_recovery_error_validation_display);
  ("save_block"%string, rc_test_storage_save_block);
  ("get_block"%string, rc_test_storage_get_block);
  ("save_quorum_cert"%string, rc_test_storage_save_quorum_cert);
  ("get_quorum_cert"%string, rc_test_storage_get_quorum_cert);
  ("prune"%string, rc_test_storage_prune);
  ("save_block_with_error"%string, rc_test_storage_save_block_with_error);
  ("get_safety_state_error"%string, rc_test_get_safety_state_with_storage_error)].
End recovery.

(** ** The suites pass *)

(** Every translated test passes, in debug and in release builds. *)
Theorem safety_unit_tests_pass `{OV : OverflowMode} :
  passes (state_tests ++ timeout_tests ++ two_chain_tests ++ recovery_tests).
Proof. destruct OV; apply (bool_decide_unpack _); vm_compute; exact I. Qed.
