(* ===== verification/UnitTestsVotes.v ===== *)
(** * The unit tests of the vote collection, run on the model

    The tests of state/round_state.rs, crypto/signature_aggregator.rs and
    votes/pending_votes.rs, each file with the chain its test module defines. *)
From S2P Require Import Prelude.
From S2P Require Import Traits.
From S2P Require Import CommonTypes.
From S2P Require Import RoundState.
From S2P Require Import Aggregator.
From S2P Require Import PendingVotes.
From S2P Require Import Testing.

(** ** state/round_state.rs *)
Module RoundStateTests.
Definition rt_MockHash_hash : HashTrait (list N) := bytes32_hash.
Definition rt_MockTransaction_impl : TransactionTrait unit (list N) :=
  const_transaction (bytes32 0).
Definition rt_MockNodeId_hash : HashTrait (list N) := bytes32_hash.
Definition rt_MockNodeId_node_id : NodeIdTrait (list N) := bytes32_node_id.
Definition rt_MockSignature_impl : SignatureTrait unit unit unit Empty_set :=
  const_signature.
Definition rt_MockPublicKey_impl : PublicKeyTrait unit := const_public_key.
Definition rt_MockMetadata_impl : BlockMetadata unit (list N) (list N) :=
  const_metadata (bytes32 0) (bytes32 0).
Definition rt_MockQuorumCert_impl : QuorumCertificate unit unit (list N) :=
  const_quorum_cert (bytes32 0) tt.
Definition rt_from_votes : QcFromVotes unit unit unit := λ _ _, Ok tt.
Definition rt_MockBlock_impl : BlockTrait unit unit unit unit (list N) :=
  const_block (bytes32 0) tt tt.
Definition rt_MockVoteData_impl : VoteDataTrait unit unit := const_vote_data tt.
Definition rt_MockLedgerInfo_impl : LedgerInfoTrait unit unit (list N) :=
  const_ledger_info (bytes32 0).
Definition rt_MockCommitInfo_impl : CommitInfoTrait unit (list N) :=
  const_commit_info (bytes32 0).
Definition rt_MockVote_impl :
    VoteTrait unit unit unit (list N) unit unit unit (list N) := {|
  vote_data _ := tt; vote_author _ := bytes32 0; vote_ledger_info _ := tt;
  vote_signature _ := tt; vote_block_id _ := bytes32 0; vote_round _ := 0;
  vote_verify _ _ := Ok tt;
|}.
Definition rt_chain : Chain := {|
  Blk := unit; Tx := unit; Meta := unit; BSig := unit; BHash := list N;
  QCert := unit; QHash := list N; MNode := list N; MHash := list N;
  Vot := unit; VData := unit; VMeta := unit; VMNode := list N; VMHash := list N;
  VNode := list N; VSig := unit; VAgg := unit; VHash := list N;
  LInfo := unit; CInfo := unit; LHash := list N;
  chain_metadata := rt_MockMetadata_impl; chain_qc := rt_MockQuorumCert_impl;
  chain_from_votes := rt_from_votes; chain_block := rt_MockBlock_impl;
  chain_vmeta := rt_MockMetadata_impl; chain_vote_data := rt_MockVoteData_impl;
  chain_ledger_info := rt_MockLedgerInfo_impl; chain_vote := rt_MockVote_impl;
|}.
#[local] Existing Instance rt_chain.

Section tests.
Context `{OV : OverflowMode}.

Definition rt_test_round_state_initialization : bool :=
  let state := RoundState_new RoundStateConfig_default in
  eqb (rs_epoch state) 0 && eqb (rs_round state) 0 && is_none (rs_proposed_block state).
Definition rt_test_round_state_advance : bool :=
  test (RoundState_new RoundStateConfig_default)
    (advance_round;;
     s ← get;
     assert (eqb (rs_round s) 1);;
     assert (is_none (rs_proposed_block s))).
Definition rt_test_round_state_set_round : bool :=
  let state := set_proposed_block tt (RoundState_new RoundStateConfig_default) in
  let state' := set_round 5 state in
  is_some (rs_proposed_block state) && eqb (rs_round state') 5 &&
  is_none (rs_proposed_block state').
Definition rt_test_round_state_buffered_round : bool :=
  let state := RoundState_new (mkRoundStateConfig 0 5 3) in
  ok_and id (is_buffered_round (E:=Error) 6 state) &&
  ok_and id (is_buffered_round (E:=Error) 8 state) &&
  ok_and negb (is_buffered_round (E:=Error) 9 state) &&
  ok_and negb (is_buffered_round (E:=Error) 5 state).
Definition rt_test_round_state_is_current_round : bool :=
  let state := RoundState_new RoundStateConfig_default in
  is_current_round 0 state && negb (is_current_round 1 state) &&
  negb (is_current_round 100 state).
Definition rt_test_round_state_is_current_epoch : bool :=
  let state := RoundState_new RoundStateConfig_default in
  is_current_epoch 0 state && negb (is_current_epoch 1 state) &&
  negb (is_current_epoch 100 state).
Definition rt_test_round_state_set_epoch : bool :=
  let state := RoundState_new (mkRoundStateConfig 0 5 3) in
  let state := set_epoch 10 (set_quorum_cert tt (set_proposed_block tt state)) in
  eqb (rs_epoch state) 10 && eqb (rs_round state) 5 &&
  is_none (rs_proposed_block state) && is_none (rs_quorum_cert state).
Definition rt_test_round_state_quorum_cert : bool :=
  let state := RoundState_new RoundStateConfig_default in
  is_none (rs_quorum_cert state) && is_some (rs_quorum_cert (set_quorum_cert tt state)).
Definition rt_test_round_state_set_quorum_cert : bool :=
  let state := set_quorum_cert tt (RoundState_new RoundStateConfig_default) in
  is_some (rs_quorum_cert state) && is_some (rs_quorum_cert (set_quorum_cert tt state)).
Definition rt_test_round_state_config_default : bool :=
  let config := RoundStateConfig_default in
  eqb (initial_epoch config) 0 && eqb (initial_round config) 0 &&
  eqb (rsc_max_buffered_rounds config) 10.
Definition rt_test_round_state_config_custom : bool :=
  let config := mkRoundStateConfig 5 10 20 in
  eqb (initial_epoch config) 5 && eqb (initial_round config) 10 &&
  eqb (rsc_max_buffered_rounds config) 20.
Definition rt_test_round_state_with_custom_initial_values : bool :=
  let state := RoundState_new (mkRoundStateConfig 5 10 3) in
  eqb (rs_epoch state) 5 && eqb (rs_round state) 10 && is_current_epoch 5 state &&
  is_current_round 10 state.
Definition rt_test_round_state_advance_multiple_rounds : bool :=
  test (RoundState_new RoundStateConfig_default)
    (for_each [1; 2; 3] (λ n,
       advance_round;;
       s ← get;
       assert (eqb (rs_round s) n))).
Definition rt_test_round_state_proposed_block : bool :=
  let state := RoundState_new RoundStateConfig_default in
  let retrieved := rs_proposed_block (set_proposed_block tt state) in
  is_none (rs_proposed_block state) && is_some retrieved &&
  none_or (λ b, eqb (block_id b) (block_id (tt : Blk))) retrieved.

Definition round_state_tests : Suite := [
  ("initialization"%string, rt_test_round_state_initialization);
  ("advance"%string, rt_test_round_state_advance);
  ("set_round"%string, rt_test_round_state_set_round);
  ("buffered_round"%string, rt_test_round_state_buffered_round);
  ("is_current_round"%string, rt_test_round_state_is_current_round);
  ("is_current_epoch"%string, rt_test_round_state_is_current_epoch);
  ("set_epoch"%string, rt_test_round_state_set_epoch);
  ("quorum_cert"%string, rt_test_round_state_quorum_cert);
  ("set_quorum_cert"%string, rt_test_round_state_set_quorum_cert);
  ("config_default"%string, rt_test_round_state_config_default);
  ("config_custom"%string, rt_test_round_state_config_custom);
  ("custom_initial_values"%string, rt_test_round_state_with_custom_initial_values);
  ("advance_multiple_rounds"%string, rt_test_round_state_advance_multiple_rounds);
  ("proposed_block"%string, rt_test_round_state_proposed_block)].
End tests.
End RoundStateTests.

(** ** crypto/signature_aggregator.rs *)
Module AggregatorTests.
Record TestVote := mkTestVote { tv_author : N; tv_signature : N }.
Definition at_TestNodeId_hash : HashTrait N := {|
  hash_zero := 0; hash_from_bytes := byte_from_bytes; hash_as_bytes _ := [];
|}.
Definition at_TestNodeId_node_id : NodeIdTrait N := {|
  node_id_from_bytes := byte_from_bytes; node_id_as_bytes _ := [];
|}.
Definition at_TestHash_hash : HashTrait unit := const_hash tt.
Definition at_TestSignature_impl : SignatureTrait N unit unit Empty_set := {|
  sig_verify _ _ _ := Ok tt; sig_to_bytes s := [s]; sig_from_bytes := byte_from_bytes;
  sig_aggregate _ := Ok tt;
|}.
Definition at_TestPublicKey_impl : PublicKeyTrait unit := const_public_key.
Definition at_TestMetadata_impl : BlockMetadata unit N unit := const_metadata tt 0.
Definition at_TestQuorumCert_impl : QuorumCertificate unit unit unit :=
  const_quorum_cert tt tt.
Definition at_from_votes : QcFromVotes unit TestVote unit := λ _ _, Ok tt.
Definition at_TestBlock_impl : BlockTrait unit unit unit N unit := const_block tt tt 0.
Definition at_TestVoteData_impl : VoteDataTrait unit unit := const_vote_data tt.
Definition at_TestLedgerInfo_impl : LedgerInfoTrait unit unit unit := const_ledger_info tt.
Definition at_TestCommitInfo_impl : CommitInfoTrait unit unit := const_commit_info tt.
Definition at_TestTransaction_impl : TransactionTrait unit unit := const_transaction tt.
Definition at_TestVote_impl :
    VoteTrait TestVote unit unit N unit N unit unit := {|
  vote_data _ := tt; vote_author := tv_author; vote_ledger_info _ := tt;
  vote_signature := tv_signature; vote_block_id _ := tt; vote_round _ := 0;
  vote_verify _ _ := Ok tt;
|}.
Definition at_chain : Chain := {|
  Blk := unit; Tx := unit; Meta := unit; BSig := N; BHash := unit;
  QCert := unit; QHash := unit; MNode := N; MHash := unit;
  Vot := TestVote; VData := unit; VMeta := unit; VMNode := N; VMHash := unit;
  VNode := N; VSig := N; VAgg := unit; VHash := unit;
  LInfo := unit; CInfo := unit; LHash := unit;
  chain_metadata := at_TestMetadata_impl; chain_qc := at_TestQuorumCert_impl;
  chain_from_votes := at_from_votes; chain_block := at_TestBlock_impl;
  chain_vmeta := at_TestMetadata_impl; chain_vote_data := at_TestVoteData_impl;
  chain_ledger_info := at_TestLedgerInfo_impl; chain_vote := at_TestVote_impl;
|}.
#[local] Existing Instance at_chain.

Section tests.
Context `{OV : OverflowMode} `{HO : HashOrder}.

Definition TestVerifier (total_power quorum_threshold : N) : Verifier :=
  flat_verifier total_power quorum_threshold.

Definition at_test_signature_aggregator_new : bool :=
  let aggregator := aggregator_new in
  eqb (ag_voting_power aggregator) 0 && eqb (ag_signer_count aggregator) 0 &&
  negb (has_signed aggregator 1).
Definition at_test_signature_aggregator_add_signature : bool :=
  test aggregator_new
    (add_signature 1 1 100;;
     a ← get;
     assert (eqb (ag_voting_power a) 100);;
     assert (eqb (ag_signer_count a) 1);;
     assert (has_signed a 1);;
     assert (eqb (get_signature a 1) (Some 1))).
Definition at_test_signature_aggregator_duplicate_signer : bool :=
  test aggregator_new
    (add_signature 1 1 100;;
     add_signature 1 2 100;;
     a ← get;
     assert (eqb (ag_voting_power a) 100);;
     assert (eqb (ag_signer_count a) 1)).
Definition at_test_signature_aggregator_multiple_signers : bool :=
  test aggregator_new
    (add_signature 1 1 100;;
     add_signature 2 2 150;;
     add_signature 3 3 200;;
     a ← get;
     assert (eqb (ag_voting_power a) 450);;
     assert (eqb (ag_signer_count a) 3)).
Definition at_test_signature_aggregator_check_quorum : bool :=
  let verifier := TestVerifier 400 267 in
  test aggregator_new
    (add_signature 1 1 100;;
     add_signature 2 2 100;;
     a ← get;
     assert (is_err (check_quorum a verifier));;
     add_signature 3 3 100;;
     a ← get;
     assert (is_ok (check_quorum a verifier))).
Definition at_test_signature_aggregator_clear : bool :=
  test aggregator_new
    (add_signature 1 1 100;;
     add_signature 2 2 100;;
     modify aggregator_clear;;
     a ← get;
     assert (eqb (ag_voting_power a) 0);;
     assert (eqb (ag_signer_count a) 0);;
     assert (negb (has_signed a 1))).
Definition at_test_signature_aggregator_aggregate : bool :=
  let verifier := TestVerifier 400 267 in
  test aggregator_new
    (add_signature 1 1 100;;
     add_signature 2 2 100;;
     add_signature 3 3 100;;
     a ← get;
     assert (is_ok (aggregate a verifier))).
Definition at_test_signature_aggregator_default : bool :=
  eqb (ag_voting_power aggregator_new) 0 && eqb (ag_signer_count aggregator_new) 0.

Definition aggregator_tests : Suite := [
  ("new"%string, at_test_signature_aggregator_new);
  ("add_signature"%string, at_test_signature_aggregator_add_signature);
  ("duplicate_signer"%string, at_test_signature_aggregator_duplicate_signer);
  ("multiple_signers"%string, at_test_signature_aggregator_multiple_signers);
  ("check_quorum"%string, at_test_signature_aggregator_check_quorum);
  ("clear"%string, at_test_signature_aggregator_clear);
  ("aggregate"%string, at_test_signature_aggregator_aggregate);
  ("default"%string, at_test_signature_aggregator_default)].
End tests.
End AggregatorTests.

(** ** votes/pending_votes.rs *)
Module PendingVotesTests.
Record MockVote := mkMockVote {
  mv_round : N; mv_block_id : list N; mv_signature : N; mv_author : list N;
}.
Definition vt_MockHash_hash : HashTrait (list N) := bytes32_hash.
Definition vt_MockNodeId_hash : HashTrait (list N) := bytes32_hash.
Definition vt_MockNodeId_node_id : NodeIdTrait (list N) := bytes32_node_id.
Definition vt_MockPublicKey_impl : PublicKeyTrait unit := const_public_key.
Definition vt_MockMetadata_impl : BlockMetadata unit (list N) (list N) :=
  const_metadata (bytes32 0) (bytes32 0).
Definition vt_MockTransaction_impl : TransactionTrait unit (list N) :=
  const_transaction (bytes32 0).
Definition vt_MockQuorumCert_impl : QuorumCertificate unit unit (list N) :=
  const_quorum_cert (bytes32 0) tt.
Definition vt_from_votes : QcFromVotes unit MockVote unit := λ _ _, Ok tt.
Definition vt_MockBlock_impl : BlockTrait unit unit unit N (list N) :=
  const_block (bytes32 0) tt 0.
Definition vt_MockVoteData_impl : VoteDataTrait unit unit := const_vote_data tt.
Definition vt_MockLedgerInfo_impl : LedgerInfoTrait unit unit (list N) :=
  const_ledger_info (bytes32 0).
Definition vt_MockCommitInfo_impl : CommitInfoTrait unit (list N) :=
  const_commit_info (bytes32 0).
Definition vt_MockSignature_impl : SignatureTrait N unit unit Empty_set := {|
  sig_verify _ _ _ := Ok tt; sig_to_bytes s := [s]; sig_from_bytes := byte_from_bytes;
  sig_aggregate _ := Ok tt;
|}.
Definition vt_MockVote_impl :
    VoteTrait MockVote unit unit (list N) unit N unit (list N) := {|
  vote_data _ := tt; vote_author := mv_author; vote_ledger_info _ := tt;
  vote_signature := mv_signature; vote_block_id := mv_block_id;
  vote_round := mv_round; vote_verify _ _ := Ok tt;
|}.
Definition vt_chain : Chain := {|
  Blk := unit; Tx := unit; Meta := unit; BSig := N; BHash := list N;
  QCert := unit; QHash := list N; MNode := list N; MHash := list N;
  Vot := MockVote; VData := unit; VMeta := unit; VMNode := list N; VMHash := list N;
  VNode := list N; VSig := N; VAgg := unit; VHash := list N;
  LInfo := unit; CInfo := unit; LHash := list N;
  chain_metadata := vt_MockMetadata_impl; chain_qc := vt_MockQuorumCert_impl;
  chain_from_votes := vt_from_votes; chain_block := vt_MockBlock_impl;
  chain_vmeta := vt_MockMetadata_impl; chain_vote_data := vt_MockVoteData_impl;
  chain_ledger_info := vt_MockLedgerInfo_impl; chain_vote := vt_MockVote_impl;
|}.
#[local] Existing Instance vt_chain.

Definition create_vote (round byte sig_byte : N) : MockVote :=
  mkMockVote round (bytes32 byte) sig_byte (bytes32 sig_byte).

Section tests.
Context `{OV : OverflowMode} `{HO : HashOrder}.

Definition MockValidatorVerifier : Verifier := flat_verifier 400 267.

Definition vt_test_pending_votes_new : bool :=
  let pending := PendingVotes_new 10 in
  eqb (pv_current_round pending) 0 && ok_and (eqb 0) (total_votes (E:=Error) pending).
Definition vt_test_pending_votes_add_vote : bool :=
  test (PendingVotes_new 10)
    (result ← add_vote (create_vote 0 1 1) MockValidatorVerifier;
     assert (eqb result Accepted);;
     p ← get;
     n ← lift (total_votes p);
     assert (eqb n 1)).
Definition vt_test_pending_votes_duplicate : bool :=
  let vote := create_vote 0 1 1 in
  test (PendingVotes_new 10)
    (add_vote vote MockValidatorVerifier;;
     result ← add_vote vote MockValidatorVerifier;
     assert (eqb result (Rejected VsRejected))).
Definition vt_test_pending_votes_old_round : bool :=
  test (PendingVotes_new 10)
    (modify (pv_set_round 5);;
     result ← add_vote (create_vote 3 1 1) MockValidatorVerifier;
     assert (eqb result OldRound)).
Definition vt_test_pending_votes_set_round_cleanup : bool :=
  test (PendingVotes_new 3)
    (for_each [0; 1; 2] (λ round, for_each [0; 1; 2] (λ byte,
       add_vote (create_vote round byte byte) MockValidatorVerifier;; mret tt));;
     p ← get;
     n ← lift (total_votes p);
     assert (eqb n 9);;
     modify (pv_set_round 5);;
     p ← get;
     assert (eqb (vote_count p 0 (bytes32 0)) 0)).
Definition vt_test_pending_votes_vote_count : bool :=
  test (PendingVotes_new 10)
    (for_each [0; 1; 2] (λ i,
       add_vote (mkMockVote 0 (bytes32 1) i (bytes32 i)) MockValidatorVerifier;; mret tt);;
     p ← get;
     assert (eqb (vote_count p 0 (bytes32 1)) 3)).
Definition vt_test_aggregated_voting_power : bool :=
  test (PendingVotes_new 10)
    (for_each [0; 1; 2] (λ i,
       add_vote (create_vote 0 1 i) MockValidatorVerifier;; mret tt);;
     p ← get;
     vp ← lift (aggregated_voting_power p 0 (bytes32 1) MockValidatorVerifier);
     assert (eqb vp 300)).
Definition vt_test_aggregated_voting_power_no_votes : bool :=
  ok_and (eqb 0) (aggregated_voting_power (E:=Error) (PendingVotes_new 10) 0 (bytes32 1)
    MockValidatorVerifier).
Definition vt_test_can_form_quorum : bool :=
  test (PendingVotes_new 10)
    (for_each [0; 1] (λ i,
       add_vote (create_vote 0 1 i) MockValidatorVerifier;; mret tt);;
     p ← get;
     b ← lift (can_form_quorum p 0 (bytes32 1) MockValidatorVerifier);
     assert (negb b);;
     add_vote (create_vote 0 1 2) MockValidatorVerifier;;
     p ← get;
     b ← lift (can_form_quorum p 0 (bytes32 1) MockValidatorVerifier);
     assert b).
Definition vt_test_quorum_with_voting_power : bool :=
  test (PendingVotes_new 10)
    (for_each [0; 1; 2] (λ i,
       result ← add_vote (create_vote 0 1 i) MockValidatorVerifier;
       assert (if i <? 2 then eqb result Accepted else eqb result QuorumCompleted))).

Definition pending_votes_tests : Suite := [
  ("new"%string, vt_test_pending_votes_new);
  ("add_vote"%string, vt_test_pending_votes_add_vote);
  ("duplicate"%string, vt_test_pending_votes_duplicate);
  ("old_round"%string, vt_test_pending_votes_old_round);
  ("set_round_cleanup"%string, vt_test_pending_votes_set_round_cleanup);
  ("vote_count"%string, vt_test_pending_votes_vote_count);
  ("aggregated_voting_power"%string, vt_test_aggregated_voting_power);
  ("no_votes"%string, vt_test_aggregated_voting_power_no_votes);
  ("can_form_quorum"%string, vt_test_can_form_quorum);
  ("quorum_with_voting_power"%string, vt_test_quorum_with_voting_power)].
End tests.
End PendingVotesTests.

(** ** The suites pass *)

(** Every translated test passes, in debug and in release builds, and whichever
    of the two orders the hash maps are iterated in. *)
Theorem vote_unit_tests_pass `{OV : OverflowMode} :
  Forall (λ HO : HashOrder,
    passes (RoundStateTests.round_state_tests ++ AggregatorTests.aggregator_tests ++
            PendingVotesTests.pending_votes_tests)) [canonical_order; reversed_order].
Proof. destruct OV; repeat constructor; vm_compute; reflexivity. Qed.
