(* ===== verification/UnitTestsRounds.v ===== *)
(** * The unit tests of round_manager/mod.rs, run on the model

    With the chain the test module defines and the crate's 2-chain rules. *)
From S2P Require Import Prelude.
From S2P Require Import Traits.
From S2P Require Import CommonTypes.
From S2P Require Import SafetyStateData.
From S2P Require Import Timeout.
From S2P Require Import TwoChain.
From S2P Require Import RoundState.
From S2P Require Import PendingVotes.
From S2P Require Import RoundManager.
From S2P Require Import Testing.

(** [SimpleHash(u8)] and [SimpleSignature(u8)] are bytes; the certificate, the
    vote's data and its commit information are unit structs. *)
Record SimpleMetadata := mkSimpleMetadata { sm_epoch : N; sm_round : N }.
Record SimpleBlock := mkSimpleBlock {
  sb_epoch : N; sb_round : N; sb_metadata : SimpleMetadata;
}.
Record SimpleLedgerInfo := mkSimpleLedgerInfo { sl_epoch : N; sl_round : N }.
Record SimpleVote := mkSimpleVote {
  sv_epoch : N; sv_round : N; sv_signature : N; sv_author_id : N;
  sv_ledger_info : SimpleLedgerInfo;
}.
Definition SimpleHash_hash : HashTrait N := const_hash 0.
Definition SimpleHash_node_id : NodeIdTrait N := {|
  node_id_from_bytes _ := Ok 0; node_id_as_bytes _ := [];
|}.
Definition SimpleTransaction_impl : TransactionTrait unit N := const_transaction 0.
Definition SimpleMetadata_impl : BlockMetadata SimpleMetadata N N := {|
  md_epoch := sm_epoch; md_round := sm_round; md_author _ := 0; md_parent_id _ := 0;
  md_timestamp _ := 0;
|}.
Definition SimpleQuorumCert_impl : QuorumCertificate unit SimpleMetadata N :=
  const_quorum_cert 0 (mkSimpleMetadata 0 0).
Definition SimpleQuorumCert_from_votes : QcFromVotes unit SimpleVote unit := λ _ _, Ok tt.
Definition SimpleBlock_impl : BlockTrait SimpleBlock unit SimpleMetadata N N := {|
  block_id _ := 0; block_metadata := sb_metadata; block_transactions _ := [];
  block_signature _ := Some 0; block_parent_id _ := 0;
  block_is_genesis b := (sb_epoch b =? 0) && (sb_round b =? 0);
  block_is_nil _ := false; block_verify_signature _ := Ok tt;
  block_new_genesis := mkSimpleBlock 0 0 (mkSimpleMetadata 0 0);
|}.
Definition SimpleVoteData_impl : VoteDataTrait unit SimpleMetadata :=
  const_vote_data (mkSimpleMetadata 0 0).
Definition SimpleCommitInfo_impl : CommitInfoTrait unit N := const_commit_info 0.
Definition SimpleLedgerInfo_impl : LedgerInfoTrait SimpleLedgerInfo unit N := {|
  li_commit_info _ := tt; li_epoch := sl_epoch; li_round := sl_round;
  li_accumulated_state _ := 0;
|}.
Definition SimpleSignature_from_bytes (bytes : list N) : res Error N :=
  match bytes with
  | [] => Err (Msg "Empty bytes for SimpleSignature" [])
  | b :: _ => Ok b
  end.
Definition SimpleSignature_impl : SignatureTrait N unit unit Empty_set := {|
  sig_verify _ _ _ := Ok tt; sig_to_bytes s := [s];
  sig_from_bytes := SimpleSignature_from_bytes; sig_aggregate _ := Ok tt;
|}.
Definition SimplePublicKey_impl : PublicKeyTrait unit := const_public_key.
Definition SimpleVote_impl :
    VoteTrait SimpleVote SimpleBlock unit N SimpleLedgerInfo N unit N := {|
  vote_data _ := tt; vote_author := sv_author_id; vote_ledger_info := sv_ledger_info;
  vote_signature := sv_signature; vote_block_id _ := 0; vote_round := sv_round;
  vote_verify _ _ := Ok tt;
|}.
Definition simple_chain : Chain := {|
  Blk := SimpleBlock; Tx := unit; Meta := SimpleMetadata; BSig := N; BHash := N;
  QCert := unit; QHash := N; MNode := N; MHash := N;
  Vot := SimpleVote; VData := unit; VMeta := SimpleMetadata; VMNode := N; VMHash := N;
  VNode := N; VSig := N; VAgg := unit; VHash := N;
  LInfo := SimpleLedgerInfo; CInfo := unit; LHash := N;
  chain_metadata := SimpleMetadata_impl; chain_qc := SimpleQuorumCert_impl;
  chain_from_votes := SimpleQuorumCert_from_votes; chain_block := SimpleBlock_impl;
  chain_vmeta := SimpleMetadata_impl; chain_vote_data := SimpleVoteData_impl;
  chain_ledger_info := SimpleLedgerInfo_impl; chain_vote := SimpleVote_impl;
|}.
#[local] Existing Instance simple_chain.

Definition simple_block (round : N) : SimpleBlock :=
  mkSimpleBlock 0 round (mkSimpleMetadata 0 round).
Definition create_vote_with_sig (epoch round sig : N) : SimpleVote :=
  mkSimpleVote epoch round sig sig (mkSimpleLedgerInfo epoch round).
Definition create_test_safety_rules : TwoChainSafetyRules := rules_new 0.

Section tests.
Context `{OV : OverflowMode} `{HO : HashOrder}.
Abbreviation TC := (TwoChainTimeoutCertificate (@BSig simple_chain)).
Implicit Types m : RoundManager TwoChainSafetyRules.

Definition SimpleVerifier : Verifier := flat_verifier 400 267.
(** The manager every test starts from. *)
Definition new_manager : RoundManager TwoChainSafetyRules :=
  RoundManager_new RoundManagerConfig_default create_test_safety_rules.
Definition rm_vote (vote : Vot) :
    M (RoundManager TwoChainSafetyRules) Error VoteReceptionResult :=
  unwrap (process_vote (SR := TwoChainSafetyRules) vote SimpleVerifier).
Definition rm_last_voted : M (RoundManager TwoChainSafetyRules) Error N :=
  gets (λ m, ss_last_voted_round (state (rm_safety_rules m))).
Definition rm_try_vote (proposal : SimpleBlock) :
    M (RoundManager TwoChainSafetyRules) Error unit :=
  try_vote_for_proposal proposal (None : option TC).
Definition rm_timeout : M (RoundManager TwoChainSafetyRules) Error unit :=
  unwrap (process_timeout (SR := TwoChainSafetyRules) NoQuorum).

Definition rm_test_round_manager_new : bool :=
  eqb (rm_round new_manager) 0 && eqb (rm_epoch new_manager) 0.
Definition rm_test_round_manager_start_round : bool :=
  test new_manager
    (unwrap (start_round 5);;
     m ← get;
     assert (eqb (rm_round m) 5)).
Definition rm_test_round_manager_process_timeout : bool :=
  test new_manager
    (rm_timeout;;
     m ← get;
     assert (eqb (rm_round m) 1)).
Definition rm_test_round_manager_process_proposal : bool :=
  test new_manager
    (result ← unwrap (process_proposal (simple_block 0));
     assert (eqb result PpAccepted)).
Definition rm_test_quorum_certificate_formation : bool :=
  test new_manager
    (for_each [0; 1; 2] (λ i,
       result ← rm_vote (create_vote_with_sig 0 0 i);
       assert (implb (i <? 2) (eqb result Accepted)));;
     m ← get;
     assert (eqb (vote_count (rm_pending_votes m) 0 0) 0)).
Definition rm_test_no_quorum_with_insufficient_votes : bool :=
  test new_manager
    (for_each [0; 1] (λ i, rm_vote (create_vote_with_sig 0 0 i);; mret tt);;
     m ← get;
     assert (eqb (vote_count (rm_pending_votes m) 0 0) 2)).
Definition rm_test_has_quorum_certificate : bool :=
  test new_manager
    (m ← get;
     assert (negb (has_quorum_certificate m 0 0));;
     for_each [0; 1; 2] (λ i, rm_vote (create_vote_with_sig 0 0 i);; mret tt);;
     unwrap (start_round 1);;
     m ← get;
     assert (has_quorum_certificate m 0 0)).
Definition rm_test_vote_rejection_after_quorum : bool :=
  test new_manager
    (for_each [0; 1; 2] (λ i, rm_vote (create_vote_with_sig 0 0 i);; mret tt);;
     rm_timeout;;
     result ← rm_vote (create_vote_with_sig 0 0 3);
     assert (eqb result OldRound)).
Definition rm_test_integration_full_consensus_flow : bool :=
  test new_manager
    (unwrap (start_round 0);;
     result ← unwrap (process_proposal (simple_block 0));
     assert (eqb result PpAccepted);;
     for_each [0; 1; 2] (λ i,
       result ← rm_vote (create_vote_with_sig 0 0 i);
       assert (implb (i <? 2) (eqb result Accepted)));;
     rm_timeout;;
     m ← get;
     assert (eqb (rm_round m) 1);;
     assert (has_quorum_certificate m 0 0)).
Definition rm_test_safety_rules_accessor : bool :=
  eqb (ss_epoch (state (rm_safety_rules new_manager))) 0.
(** A mutable borrow is the state itself. *)
Definition rm_test_safety_rules_mut_accessor : bool :=
  test new_manager
    (e ← on_safety_rules (gets (λ r, ss_epoch (state r))); assert (eqb e 0)).
Definition rm_test_proposal_processing_result_variants : bool :=
  let accepted := PpAccepted in
  let rejected := PpRejected "invalid" in
  let old_round := PpOldRound in
  let future_round := PpFutureRound in
  eqb accepted PpAccepted && eqb rejected (PpRejected "invalid") &&
  eqb old_round PpOldRound && eqb future_round PpFutureRound.
Definition rm_test_try_vote_for_proposal_success : bool :=
  test new_manager
    (result ← attempt (rm_try_vote (simple_block 1));
     assert (is_ok result);;
     lv ← rm_last_voted;
     assert (eqb lv 1)).
Definition rm_test_try_vote_for_proposal_old_round_rejection : bool :=
  test new_manager
    (unwrap (rm_try_vote (simple_block 1));;
     lv ← rm_last_voted;
     assert (eqb lv 1);;
     result ← attempt (rm_try_vote (simple_block 0));
     assert (is_err result);;
     assert (err_and (says "already voted") result)).
Definition rm_test_process_vote_epoch_mismatch : bool :=
  test new_manager
    (result ← rm_vote (mkSimpleVote 5 0 0 0 (mkSimpleLedgerInfo 5 0));
     assert (eqb result (Rejected VsRejected))).
Definition rm_test_try_vote_for_proposal_with_timeout_cert : bool :=
  test new_manager
    (result ← attempt (rm_try_vote (simple_block 1));
     assert (is_ok result);;
     lv ← rm_last_voted;
     assert (eqb lv 1)).
Definition rm_test_round_state_accessor : bool :=
  let state := rm_round_state new_manager in
  eqb (rs_epoch state) 0 && eqb (rs_round state) 0.
Definition rm_test_epoch_accessor : bool := eqb (rm_epoch new_manager) 0.
Definition rm_test_round_accessor : bool := eqb (rm_round new_manager) 0.
Definition rm_test_try_vote_for_proposal_same_round_twice : bool :=
  test new_manager
    (unwrap (rm_try_vote (simple_block 1));;
     lv ← rm_last_voted;
     assert (eqb lv 1);;
     result ← attempt (rm_try_vote (simple_block 1));
     assert (is_ok result)).
Definition rm_test_process_vote_current_epoch_accepted : bool :=
  test new_manager
    (result ← rm_vote (create_vote_with_sig 0 0 0);
     assert (eqb result Accepted)).
Definition rm_test_round_manager_config_default : bool :=
  let config := RoundManagerConfig_default in
  eqb (rmc_max_buffered_rounds config) 10 && eqb (rmc_round_timeout_ms config) 5000 &&
  eqb (rmc_max_pending_votes config) 1000.
Definition rm_test_round_manager_config_custom : bool :=
  let config := mkRoundManagerConfig 20 10000 2000 in
  eqb (rmc_max_buffered_rounds config) 20 && eqb (rmc_round_timeout_ms config) 10000 &&
  eqb (rmc_max_pending_votes config) 2000.
Definition rm_test_process_proposal_old_round : bool :=
  test new_manager
    (unwrap (start_round 5);;
     result ← unwrap (process_proposal (simple_block 3));
     assert (eqb result PpOldRound)).
Definition rm_test_process_proposal_future_round : bool :=
  test new_manager
    (result ← unwrap (process_proposal (simple_block 10));
     assert (eqb result PpFutureRound)).

Definition round_manager_tests : Suite := [
  ("new"%string, rm_test_round_manager_new);
  ("start_round"%string, rm_test_round_manager_start_round);
  ("process_timeout"%string, rm_test_round_manager_process_timeout);
  ("process_proposal"%string, rm_test_round_manager_process_proposal);
  ("certificate_formation"%string, rm_test_quorum_certificate_formation);
  ("insufficient_votes"%string, rm_test_no_quorum_with_insufficient_votes);
  ("has_quorum_certificate"%string, rm_test_has_quorum_certificate);
  ("rejection_after_quorum"%string, rm_test_vote_rejection_after_quorum);
  ("full_consensus_flow"%string, rm_test_integration_full_consensus_flow);
  ("safety_rules_accessor"%string, rm_test_safety_rules_accessor);
  ("safety_rules_mut_accessor"%string, rm_test_safety_rules_mut_accessor);
  ("proposal_result_variants"%string, rm_test_proposal_processing_result_variants);
  ("try_vote_success"%string, rm_test_try_vote_for_proposal_success);
  ("old_round_rejection"%string, rm_test_try_vote_for_proposal_old_round_rejection);
  ("epoch_mismatch"%string, rm_test_process_vote_epoch_mismatch);
  ("with_timeout_cert"%string, rm_test_try_vote_for_proposal_with_timeout_cert);
  ("round_state_accessor"%string, rm_test_round_state_accessor);
  ("epoch_accessor"%string, rm_test_epoch_accessor);
  ("round_accessor"%string, rm_test_round_accessor);
  ("same_round_twice"%string, rm_test_try_vote_for_proposal_same_round_twice);
  ("current_epoch_accepted"%string, rm_test_process_vote_current_epoch_accepted);
  ("config_default"%string, rm_test_round_manager_config_default);
  ("config_custom"%string, rm_test_round_manager_config_custom);
  ("proposal_old_round"%string, rm_test_process_proposal_old_round);
  ("proposal_future_round"%string, rm_test_process_proposal_future_round)].
End tests.

(** Every translated test passes, in both builds and both iteration orders. *)
Theorem round_unit_tests_pass `{OV : OverflowMode} :
  Forall (λ HO : HashOrder, passes round_manager_tests)
    [canonical_order; reversed_order].
Proof. destruct OV; repeat constructor; vm_compute; reflexivity. Qed.
