(* ===== verification/UnitTestsLiveness.v ===== *)
(** * The unit tests of the liveness components, run on the model

    The tests of liveness/pacemaker.rs, liveness/proposer.rs, the trait's tests
    in consensus-traits/src/proposer.rs, and those of epoch_manager/mod.rs.  The
    back-off is run with [exact_powf], which is exact on integral exponents. *)
From Stdlib Require Import SpecFloat.
From S2P Require Import Prelude.
From S2P Require Import Traits.
From S2P Require Import CommonTypes.
From S2P Require Import Float64.
From S2P Require Import Pacemaker.
From S2P Require Import Proposer.
From S2P Require Import EpochManager.
From S2P Require Import Testing.

(** [==] of floats. *)
Definition f64_eq (x y : f64) : bool := SFeqb x y.
(** The literal 0.5. *)
Definition half : f64 := f64_lit 1 2.

(** ** liveness/pacemaker.rs *)
Section pacemaker.
Context `{OV : OverflowMode}.
#[local] Instance exponential_strategy : RoundIntervalStrategy ExponentialIntervalStrategy :=
  exponential_duration exact_powf.
Abbreviation Strategy := ExponentialIntervalStrategy.

Definition pk_config (initial_round : N) : PacemakerConfig :=
  mkPacemakerConfig 100 (f64_of_N 2) 4 initial_round.
(** [ExponentialIntervalStrategy::fixed] and [new], which may panic. *)
Definition pk_fixed (ms : N) : res Error Strategy := fixed exact_powf (from_millis ms).
Definition pk_strategy (ms : N) (base : f64) (max : N) : res Error Strategy :=
  ExponentialIntervalStrategy_new exact_powf (from_millis ms) base max.
Definition create_test_pacemaker : res Error (Pacemaker Strategy) :=
  strategy ← pk_fixed 100; Ok (Pacemaker_new strategy (pk_config 1)).
(** A test on the pacemaker so created. *)
Definition pk_test (m : M (Pacemaker Strategy) Error unit) : bool :=
  ok_and (λ p, test p m) create_test_pacemaker.
Definition duration_ms (s : Strategy) (n ms : N) : bool :=
  eqb (exponential_duration exact_powf s n) (from_millis ms).

Definition pk_test_pacemaker_creation : bool :=
  ok_and (λ p, eqb (pm_current_round p) 1 && eqb (highest_ordered_round p) 0)
    create_test_pacemaker.
Definition pk_test_enter_new_round : bool :=
  pk_test
    (event ← unwrap (enter_new_round 2);
     assert (eqb (ev_round event) 2);;
     p ← get;
     assert (eqb (pm_current_round p) 2);;
     assert (eqb (ev_timeout_duration event) (from_millis 100))).
Definition pk_test_cannot_enter_past_round : bool :=
  pk_test (result ← attempt (enter_new_round 1); assert (is_err result)).
Definition pk_test_record_ordered_round : bool :=
  pk_test
    (unwrap (record_ordered_round 1);;
     p ← get;
     assert (eqb (highest_ordered_round p) 1)).
Definition pk_test_exponential_interval : bool :=
  ok_and (λ s, duration_ms s 0 100 && duration_ms s 1 200 && duration_ms s 2 400 &&
               duration_ms s 3 800) (pk_strategy 100 (f64_of_N 2) 4).
Definition pk_test_exponential_interval_capped : bool :=
  ok_and (λ s, duration_ms s 10 400) (pk_strategy 100 (f64_of_N 2) 2).
Definition pk_test_new_round_reason_display : bool :=
  eqb (NewRoundReason_to_string NrQuorumCertificate) "QCReady"%string &&
  eqb (NewRoundReason_to_string (NrTimeout 5)) "Timeout(rounds_since_ordered=5)"%string.
Definition pk_test_pacemaker_builder : bool :=
  ok_and (λ p, eqb (pm_current_round p) 2 && eqb (highest_ordered_round p) 1)
    (build_exponential (E:=Error) exact_powf
       (with_initial_round 2 (with_max_exponent 5 (with_exponent_base (f64_of_N 3)
          (with_base_duration_ms 500 PacemakerBuilder_new))))).
Definition pk_test_pacemaker_config_default : bool :=
  let config := PacemakerConfig_default in
  eqb (base_duration_ms config) 1000 && f64_eq (exponent_base config) (f64_of_N 2) &&
  eqb (max_exponent config) 8 && eqb (pc_initial_round config) 1.
Definition pk_test_pacemaker_config_new : bool :=
  let config := PacemakerConfig_new 2000 (f64_of_N 3) 10 5 in
  eqb (base_duration_ms config) 2000 && f64_eq (exponent_base config) (f64_of_N 3) &&
  eqb (max_exponent config) 10 && eqb (pc_initial_round config) 5.
Definition pk_test_pacemaker_config_base_duration : bool :=
  eqb (base_duration (mkPacemakerConfig 5000 (f64_of_N 2) 8 1)) (from_millis 5000).
Definition pk_test_exponential_interval_fixed : bool :=
  ok_and (λ s, duration_ms s 0 200 && duration_ms s 100 200) (pk_fixed 200).
Definition pk_test_pacemaker_can_enter_round : bool :=
  ok_and (λ p, can_enter_round p 2 && can_enter_round p 100 &&
               negb (can_enter_round p 1) && negb (can_enter_round p 0))
    create_test_pacemaker.
Definition pk_test_record_ordered_round_error : bool :=
  pk_test
    (unwrap (record_ordered_round 5);;
     result ← attempt (record_ordered_round 3);
     assert (is_err result);;
     result2 ← attempt (record_ordered_round 5);
     assert (is_err result2)).
Definition pk_test_current_round_timeout : bool :=
  pk_test
    (p ← get;
     d ← lift (current_round_timeout p);
     assert (eqb d (from_millis 100));;
     unwrap (enter_new_round 10);;
     p ← get;
     d ← lift (current_round_timeout p);
     assert (eqb d (from_millis 100))).
Definition pk_test_check_timeout : bool :=
  ok_and (λ p, negb (check_timeout p (from_millis 100000)) &&
               negb (check_timeout p (from_millis 0))) create_test_pacemaker.
Definition pk_test_pacemaker_reset : bool :=
  pk_test
    (unwrap (enter_new_round 10);;
     unwrap (record_ordered_round 5);;
     modify (reset 1);;
     p ← get;
     assert (eqb (pm_current_round p) 1);;
     assert (eqb (highest_ordered_round p) 0)).
Definition pk_test_pacemaker_reset_round_zero : bool :=
  pk_test
    (modify (reset 0);;
     p ← get;
     assert (eqb (pm_current_round p) 0);;
     assert (eqb (highest_ordered_round p) 0)).
Definition pk_test_pacemaker_interval_strategy : bool :=
  ok_and (λ p, duration_ms (interval_strategy p) 0 100) create_test_pacemaker.
Definition pk_test_exponential_interval_assertion_max_exponent : bool :=
  is_panic (pk_strategy 100 (f64_of_N 2) 32).
Definition pk_test_new_round_event_new : bool :=
  let event := NewRoundEvent_new 5 (NrTimeout 2) (from_millis 500) in
  eqb (ev_round event) 5 && eqb (ev_timeout_duration event) (from_millis 500).
Definition pk_test_enter_new_round_with_qc_reason : bool :=
  pk_test
    (unwrap (record_ordered_round 1);;
     event ← unwrap (enter_new_round 2);
     assert (eqb (ev_reason event) NrQuorumCertificate)).
Definition pk_test_enter_new_round_with_timeout_reason : bool :=
  pk_test
    (event ← unwrap (enter_new_round 10);
     assert (eqb (ev_reason event) (NrTimeout 9))).
Definition pk_test_pacemaker_builder_default : bool :=
  ok_and (λ p, eqb (pm_current_round p) 1 && eqb (highest_ordered_round p) 0)
    (build_exponential (E:=Error) exact_powf PacemakerBuilder_new).
Definition pk_test_pacemaker_builder_chaining : bool :=
  ok_and (λ p, eqb (pm_current_round p) 1)
    (build_exponential (E:=Error) exact_powf
       (with_max_exponent 3 (with_exponent_base (f64_lit 3 2)
          (with_base_duration_ms 100 PacemakerBuilder_new)))).
Definition pk_test_exponential_interval_large_multiplier : bool :=
  ok_and (λ s, 0 <? as_millis (exponential_duration exact_powf s 5))
    (pk_strategy 1 (f64_of_N 2) 10).
Definition pk_test_pacemaker_initial_round_zero : bool :=
  ok_and (λ s, let p := Pacemaker_new s (pk_config 0) in
               eqb (pm_current_round p) 0 && eqb (highest_ordered_round p) 0)
    (pk_fixed 100).

Definition pacemaker_tests : Suite := [
  ("creation"%string, pk_test_pacemaker_creation);
  ("enter_new_round"%string, pk_test_enter_new_round);
  ("cannot_enter_past_round"%string, pk_test_cannot_enter_past_round);
  ("record_ordered_round"%string, pk_test_record_ordered_round);
  ("exponential_interval"%string, pk_test_exponential_interval);
  ("capped"%string, pk_test_exponential_interval_capped);
  ("reason_display"%string, pk_test_new_round_reason_display);
  ("builder"%string, pk_test_pacemaker_builder);
  ("config_default"%string, pk_test_pacemaker_config_default);
  ("config_new"%string, pk_test_pacemaker_config_new);
  ("config_base_duration"%string, pk_test_pacemaker_config_base_duration);
  ("fixed"%string, pk_test_exponential_interval_fixed);
  ("can_enter_round"%string, pk_test_pacemaker_can_enter_round);
  ("record_error"%string, pk_test_record_ordered_round_error);
  ("current_round_timeout"%string, pk_test_current_round_timeout);
  ("check_timeout"%string, pk_test_check_timeout);
  ("reset"%string, pk_test_pacemaker_reset);
  ("reset_round_zero"%string, pk_test_pacemaker_reset_round_zero);
  ("interval_strategy"%string, pk_test_pacemaker_interval_strategy);
  ("max_exponent"%string, pk_test_exponential_interval_assertion_max_exponent);
  ("event_new"%string, pk_test_new_round_event_new);
  ("qc_reason"%string, pk_test_enter_new_round_with_qc_reason);
  ("timeout_reason"%string, pk_test_enter_new_round_with_timeout_reason);
  ("builder_default"%string, pk_test_pacemaker_builder_default);
  ("builder_chaining"%string, pk_test_pacemaker_builder_chaining);
  ("large_multiplier"%string, pk_test_exponential_interval_large_multiplier);
  ("initial_round_zero"%string, pk_test_pacemaker_initial_round_zero)].
End pacemaker.

(** ** consensus-traits/src/proposer.rs: the default methods *)

(** [TestRound] and [TestAuthor] wrap integers. *)
Definition pt_TestAuthor_hash : HashTrait N := const_hash 0.
Record TestProposerElection := mkTestProposerElection {}.
Definition pt_valid_proposer (_ : TestProposerElection) (round : Round) :
    res Error (option N) := Ok (if 0 <? round then Some 1 else None).
Definition pt_participation_ratio (_ : TestProposerElection) (round : Round) : f64 :=
  if 0 <? round then f64_one else f64_zero.
#[local] Instance TestProposerElection_impl :
    ProposerElection TestProposerElection N := {|
  get_valid_proposer := pt_valid_proposer;
  get_voting_power_participation_ratio := pt_participation_ratio;
|}.
Definition pt_test_is_valid_proposer : bool :=
  let election := mkTestProposerElection in
  ok_and id (is_valid_proposer election 1 1) &&
  ok_and negb (is_valid_proposer election 2 1).
Definition pt_test_proposer_info : bool :=
  ok_and (λ info, eqb (proposer info) (Some 1) &&
                  f64_eq (participation_ratio info) f64_one &&
                  has_proposer info && is_healthy info)
    (get_proposer_info mkTestProposerElection 1).
Definition pt_test_proposer_info_no_proposer : bool :=
  ok_and (λ info, is_none (proposer info) && negb (has_proposer info) &&
                  negb (is_healthy info))
    (get_proposer_info mkTestProposerElection 0).
Definition proposer_trait_tests : Suite := [
  ("is_valid_proposer"%string, pt_test_is_valid_proposer);
  ("proposer_info"%string, pt_test_proposer_info);
  ("no_proposer"%string, pt_test_proposer_info_no_proposer)].

(** ** liveness/proposer.rs *)
Section proposer.
Context `{OV : OverflowMode}.
Definition pr_TestAuthor_hash : HashTrait N := const_hash 0.
Abbreviation Tracker := (ReputationTracker N).

(** [assert_eq!(election.get_valid_proposer(&round), expected)]. *)
Definition elects {PE} `{!ProposerElection PE N} (e : PE) (round : Round)
    (expected : option N) : bool := ok_and (eqb expected) (get_valid_proposer e round).
Definition three_validators : RoundRobinProposer N :=
  mkRoundRobin [1; 2; 3] ProposerElectionConfig_default.
Definition two_weighted (initial_round : Round) : res Error (WeightedProposer N) :=
  WeightedProposer_new [(1, 30); (2, 70)] (mkElectionConfig 4 initial_round).
(** How often author [a] is elected in rounds 1 to 100. *)
Definition elections_of (wp : WeightedProposer N) (a : N) : N :=
  sumN ((λ n, if elects wp (N.of_nat n) (Some a) then 1 else 0) <$> seq 1 100).

Definition pr_test_round_robin_proposer : bool :=
  elects three_validators 1 (Some 1) && elects three_validators 2 (Some 2) &&
  elects three_validators 3 (Some 3) && elects three_validators 4 (Some 1).
Definition pr_test_weighted_proposer : bool :=
  ok_and (λ wp, elections_of wp 1 <? elections_of wp 2) (two_weighted 1).
Definition pr_test_reputation_tracker : bool :=
  test (ReputationTracker_new [1; 2; 3] half : Tracker)
    (t ← get;
     assert (f64_eq (get_reputation t 1) half);;
     record_success 1;;
     t ← get;
     assert (f64_lt half (get_reputation t 1));;
     record_failure 1;;
     t ← get;
     assert (f64_lt (get_reputation t 1) (f64_lit 6 10));;
     modify reset_reputation;;
     t ← get;
     assert (f64_eq (get_reputation t 1) half)).
Definition pr_test_reputation_clamped : bool :=
  test (ReputationTracker_new [1] half : Tracker)
    (for_each (seq 0 100) (λ _, record_success 1);;
     t ← get;
     assert (f64_eq (get_reputation t 1) f64_one);;
     for_each (seq 0 100) (λ _, record_failure 1);;
     t ← get;
     assert (f64_eq (get_reputation t 1) f64_zero)).
Definition pr_test_proposer_election_config_default : bool :=
  eqb (num_validators_cfg ProposerElectionConfig_default) 4 &&
  eqb (pe_initial_round ProposerElectionConfig_default) 1.
Definition pr_test_proposer_election_config_custom : bool :=
  let config := mkElectionConfig 10 5 in
  eqb (num_validators_cfg config) 10 && eqb (pe_initial_round config) 5.
Definition pr_test_round_robin_empty_validators : bool :=
  elects (mkRoundRobin [] ProposerElectionConfig_default) 1 None.
Definition pr_test_round_robin_before_initial_round : bool :=
  let election := mkRoundRobin [1; 2; 3] (mkElectionConfig 3 5) in
  elects election 3 None && elects election 4 None && elects election 5 (Some 1).
Definition pr_test_round_robin_num_validators : bool :=
  eqb (num_validators three_validators) 3%nat.
Definition pr_test_round_robin_get_validator : bool :=
  eqb (get_validator three_validators 0) (Some 1) &&
  eqb (get_validator three_validators 1) (Some 2) &&
  eqb (get_validator three_validators 2) (Some 3) &&
  eqb (get_validator three_validators 3) None &&
  eqb (get_validator three_validators 100) None.
Definition pr_test_weighted_proposer_empty_validators : bool :=
  ok_and (λ wp, elects wp 1 None)
    (WeightedProposer_new (E:=Error) [] ProposerElectionConfig_default).
Definition pr_test_weighted_proposer_before_initial_round : bool :=
  ok_and (λ wp, elects wp 5 None && ok_and is_some (get_valid_proposer wp 10))
    (WeightedProposer_new (E:=Error) [(1, 30); (2, 70)] (mkElectionConfig 2 10)).
Definition pr_test_weighted_proposer_participation_ratio : bool :=
  ok_and (λ wp, f64_eq (get_voting_power_participation_ratio wp 1) f64_one &&
                f64_eq (get_voting_power_participation_ratio wp 100) f64_one)
    (two_weighted 1).
Definition pr_test_reputation_tracker_unknown_validator : bool :=
  f64_eq (get_reputation (ReputationTracker_new [1] half : Tracker) 99) half.
Definition pr_test_reputation_tracker_new_validator_after_tracking : bool :=
  test (ReputationTracker_new [1] half : Tracker)
    (record_failure 99;;
     t ← get;
     let rep := get_reputation t 99 in
     assert (f64_lt rep half && f64_le f64_zero rep);;
     record_success 88;;
     t ← get;
     let rep2 := get_reputation t 88 in
     assert (f64_lt half rep2 && f64_le rep2 f64_one)).
Definition pr_test_proposer_election_impl_new : bool :=
  let base := mkRoundRobin [1; 2] ProposerElectionConfig_default in
  elects (ProposerElectionImpl_new base (Some (ReputationTracker_new [1; 2] half)))
    1 (Some 1).
Definition pr_test_proposer_election_impl_without_reputation : bool :=
  elects (without_reputation (mkRoundRobin [1; 2] ProposerElectionConfig_default))
    1 (Some 1).
Definition pr_test_proposer_election_impl_get_valid_proposer : bool :=
  let impl_election := without_reputation three_validators in
  elects impl_election 1 (Some 1) && elects impl_election 2 (Some 2) &&
  elects impl_election 3 (Some 3) && elects impl_election 4 (Some 1).
Definition pr_test_proposer_election_impl_voting_power_participation : bool :=
  ok_and (λ wp, f64_eq (get_voting_power_participation_ratio
                          (without_reputation (A:=N) wp) 1) f64_one)
    (two_weighted 1).
Definition pr_test_weighted_proposer_fallback : bool :=
  ok_and (λ wp, elects wp 1 (Some 1) && elects wp 1000 (Some 1))
    (WeightedProposer_new (E:=Error) [(1, 1)] ProposerElectionConfig_default).
Definition pr_test_round_robin_large_round : bool :=
  elects three_validators 1000000 (Some 1).
Definition pr_test_reputation_tracker_multiple_validators : bool :=
  test (ReputationTracker_new [1; 2; 3] half : Tracker)
    (record_success 1;;
     record_failure 2;;
     record_success 3;;
     t ← get;
     assert (f64_lt half (get_reputation t 1));;
     assert (f64_lt (get_reputation t 2) half);;
     assert (f64_lt half (get_reputation t 3))).

Definition proposer_tests : Suite := [
  ("round_robin"%string, pr_test_round_robin_proposer);
  ("weighted"%string, pr_test_weighted_proposer);
  ("reputation"%string, pr_test_reputation_tracker);
  ("clamped"%string, pr_test_reputation_clamped);
  ("config_default"%string, pr_test_proposer_election_config_default);
  ("config_custom"%string, pr_test_proposer_election_config_custom);
  ("robin_empty"%string, pr_test_round_robin_empty_validators);
  ("robin_before"%string, pr_test_round_robin_before_initial_round);
  ("num_validators"%string, pr_test_round_robin_num_validators);
  ("get_validator"%string, pr_test_round_robin_get_validator);
  ("weighted_empty"%string, pr_test_weighted_proposer_empty_validators);
  ("weighted_before"%string, pr_test_weighted_proposer_before_initial_round);
  ("ratio"%string, pr_test_weighted_proposer_participation_ratio);
  ("unknown_validator"%string, pr_test_reputation_tracker_unknown_validator);
  ("new_validator"%string, pr_test_reputation_tracker_new_validator_after_tracking);
  ("impl_new"%string, pr_test_proposer_election_impl_new);
  ("without_reputation"%string, pr_test_proposer_election_impl_without_reputation);
  ("impl_proposer"%string, pr_test_proposer_election_impl_get_valid_proposer);
  ("impl_ratio"%string, pr_test_proposer_election_impl_voting_power_participation);
  ("fallback"%string, pr_test_weighted_proposer_fallback);
  ("large_round"%string, pr_test_round_robin_large_round);
  ("multiple_validators"%string, pr_test_reputation_tracker_multiple_validators)].
End proposer.

(** ** epoch_manager/mod.rs: the clock reads 0 *)
Section epoch_manager.
Context `{OV : OverflowMode}.

Definition ep_start (epoch : Epoch) : M EpochManager EpochTransitionError unit :=
  start_new_epoch epoch (Some 0).
Definition ep_new : EpochManager := EpochManager_new EpochManagerConfig_default.

Definition ep_test_epoch_manager_new : bool := eqb (em_epoch ep_new) 0.
Definition ep_test_epoch_state_new : bool :=
  let state := EpochState_new 5 12345 in
  eqb (es_epoch state) 5 && eqb (start_time state) 12345.
Definition ep_test_start_new_epoch : bool :=
  test ep_new
    (unwrap (ep_start 1);;
     e ← gets em_epoch;
     assert (eqb e 1);;
     unwrap (ep_start 2);;
     e ← gets em_epoch;
     assert (eqb e 2)).
Definition ep_test_start_new_epoch_rejects_old : bool :=
  test ep_new
    (unwrap (ep_start 1);;
     result ← attempt (ep_start 0);
     assert (err_and (eqb (OldEpoch 1 0)) result)).
Definition ep_test_start_new_epoch_rejects_skip : bool :=
  test ep_new
    (result ← attempt (ep_start 2);
     assert (err_and (eqb (SkippedEpoch 0 2)) result)).
Definition ep_test_force_next_epoch : bool :=
  test ep_new
    (unwrap (force_next_epoch (Some 0));;
     e ← gets em_epoch;
     assert (eqb e 1);;
     unwrap (force_next_epoch (Some 0));;
     e ← gets em_epoch;
     assert (eqb e 2)).
Definition ep_test_epoch_transition_error_display : bool :=
  eqb (EpochTransitionError_to_string (OldEpoch 5 3))
    "Cannot transition to epoch 3: already at epoch 5"%string &&
  eqb (EpochTransitionError_to_string (SkippedEpoch 1 3))
    "Cannot skip epochs: current=1, proposed=3"%string.

Definition epoch_tests : Suite := [
  ("manager_new"%string, ep_test_epoch_manager_new);
  ("state_new"%string, ep_test_epoch_state_new);
  ("start_new_epoch"%string, ep_test_start_new_epoch);
  ("rejects_old"%string, ep_test_start_new_epoch_rejects_old);
  ("rejects_skip"%string, ep_test_start_new_epoch_rejects_skip);
  ("force_next_epoch"%string, ep_test_force_next_epoch);
  ("error_display"%string, ep_test_epoch_transition_error_display)].
End epoch_manager.

(** Every translated test passes, in both builds. *)
Theorem liveness_unit_tests_pass `{OV : OverflowMode} :
  passes (pacemaker_tests ++ proposer_trait_tests ++ proposer_tests ++ epoch_tests).
Proof. destruct OV; apply (bool_decide_unpack _); vm_compute; exact I. Qed.
