(* ===== verification/UnitTestsConsensus.v ===== *)
(** * The unit tests of the consensus directory, run on the model

    The tests of consensus/mod.rs, consensus/runtime.rs, consensus/state_sync.rs
    and consensus/reconfig.rs, over the crate's mock chain.  The back-off is run
    with [exact_powf]. *)
From S2P Require Import Prelude.
From S2P Require Import Traits.
From S2P Require Import CommonTypes.
From S2P Require Import Mocks.
From S2P Require Import PendingVotes.
From S2P Require Import RoundManager.
From S2P Require Import Float64.
From S2P Require Import Pacemaker.
From S2P Require Import Proposer.
From S2P Require Import EpochManager.
From S2P Require Import Pipeline.
From S2P Require Import Consensus.
From S2P Require Import Runtime.
From S2P Require Import StateSync.
From S2P Require Import Reconfig.
From S2P Require Import Testing.
#[local] Existing Instance mock_chain.

(** [TestAuthor(u8)], a byte. *)
Definition TestAuthor_from_bytes (bytes : list N) : res Error N :=
  Ok (default 0 (bytes !! 0%nat)).
Definition TestAuthor_hash : HashTrait N := {|
  hash_zero := 0; hash_from_bytes := TestAuthor_from_bytes; hash_as_bytes _ := [];
|}.

(** ** consensus/mod.rs *)
Module CoordinatorTests.
Record TestProposerElection := mkTestProposerElection { tpe_validators : list N }.
Definition tpe_valid_proposer (e : TestProposerElection) (round : Round) :
    res Error (option N) :=
  if decide (tpe_validators e = []) then Ok None
  else let index := round mod N.of_nat (length (tpe_validators e)) in
       Ok (tpe_validators e !! N.to_nat index).
#[export] Instance TestProposerElection_impl :
    ProposerElection TestProposerElection N := {|
  get_valid_proposer := tpe_valid_proposer;
  get_voting_power_participation_ratio _ _ := default_participation_ratio;
|}.
Definition make_qc (round epoch : N) (id : MockHash) : MockQuorumCert :=
  mkQC (mkMeta epoch round (mkHash 0) id (round * 1000)) id.
(** Every signer counts 1 and every check succeeds. *)
Definition MockVerifier : Verifier := {|
  verify_vote _ := Ok tt;
  verify_block _ := Ok tt;
  get_voting_power _ := Some 1;
  total_voting_power := 100;
  quorum_voting_power := 67;
  check_voting_power _ _ := Ok tt;
  aggregate_signatures _ := Ok mkAgg;
|}.

Section tests.
Context `{OV : OverflowMode} `{HO : HashOrder}.
Abbreviation TestConsensus := (Consensus TestProposerElection N).

Definition test_proposer : TestProposerElection := mkTestProposerElection [1; 2].
Definition builder : ConsensusBuilder (PE := TestProposerElection) (A := N) :=
  with_proposer_election test_proposer ConsensusBuilder_new.
Definition built : res Error TestConsensus := build_consensus exact_powf builder.
Definition built_as (id : N) : res Error TestConsensus :=
  build_consensus exact_powf (with_self_validator_id id builder).
(** A test on the consensus so built. *)
Definition cs_run (c : res Error TestConsensus) (m : M TestConsensus Error unit) : bool :=
  ok_and (λ c, test c m) c.
Definition not_running {X} (r : res Error X) : bool :=
  err_and (says "Not in running state") r.
Definition reason_says (pat : string) (r : RejectReason) : bool :=
  match r with
  | RrText s => contains pat s
  | RrNotRunning st =>
      contains pat ("Not in running state: " +:+ ConsensusState_to_string st)
  | RrPipeline _ => false
  end.

Definition cs_test_consensus_state_display : bool :=
  eqb (ConsensusState_to_string Running) "running"%string &&
  eqb (ConsensusState_to_string Stopped) "stopped"%string.
Definition cs_test_consensus_config_default : bool :=
  eqb (cc_initial_round ConsensusConfig_default) 1 &&
  eqb (cc_initial_epoch ConsensusConfig_default) 0.
Definition cs_test_consensus_builder : bool :=
  ok_and (λ c, eqb (c_state c) Bootstrapping) built.
Definition cs_test_consensus_start_stop : bool :=
  cs_run built
    (r ← attempt start;
     st ← gets c_state;
     assert (is_ok r && eqb st Running);;
     r ← attempt stop;
     st ← gets c_state;
     assert (is_ok r && eqb st Stopped)).
Definition cs_test_consensus_start_twice_fails : bool :=
  cs_run built
    (r1 ← attempt start;
     r2 ← attempt start;
     assert (is_ok r1 && is_err r2)).
Definition cs_test_consensus_getters : bool :=
  ok_and (λ c, eqb (c_epoch c) 0 && eqb (c_round c) 0) built.
Definition cs_test_consensus_get_highest_quorum_cert_none : bool :=
  ok_and (λ c, is_none (get_highest_quorum_cert c)) built.
Definition cs_test_process_proposal_not_running : bool :=
  cs_run built
    (result ← unwrap (consensus_process_proposal MockBlock_genesis);
     assert (negb (pr_accepted result));;
     assert (is_some (pr_reason result));;
     assert (none_or (reason_says "Not in running state") (pr_reason result))).
Definition cs_test_stop_when_not_running : bool :=
  cs_run built
    (result ← attempt stop;
     assert (err_and (says "Cannot stop consensus") result)).
Definition cs_test_start_when_running_fails : bool :=
  cs_run built
    (unwrap start;;
     result ← attempt start;
     assert (err_and (says "Cannot start consensus") result)).
Definition cs_test_process_vote_not_running : bool :=
  cs_run (built_as 1)
    (result ← attempt (consensus_process_vote (MockVote_new (mkHash 1) (mkHash 2) 5)
                         MockVerifier);
     assert (not_running result)).
Definition cs_test_process_qc_not_running : bool :=
  cs_run built
    (result ← attempt (consensus_process_qc (make_qc 0 1 (mkHash 0)));
     assert (not_running result)).
Definition cs_test_process_timeout_not_running : bool :=
  cs_run built
    (result ← attempt (consensus_process_timeout exact_powf 5);
     assert (not_running result)).
Definition cs_test_generate_proposal_not_running : bool :=
  cs_run (built_as 1)
    (result ← attempt consensus_generate_proposal;
     assert (not_running result)).
Definition cs_test_generate_proposal_not_proposer : bool :=
  cs_run (built_as 1)
    (unwrap start;;
     result ← attempt consensus_generate_proposal;
     assert (ok_and is_none result)).
Definition cs_test_generate_proposal_no_parent_qc : bool :=
  cs_run (built_as 1)
    (unwrap start;;
     result ← attempt consensus_generate_proposal;
     assert (ok_and is_none result)).
Definition cs_test_process_qc_running : bool :=
  cs_run built
    (unwrap start;;
     attempt (consensus_process_qc (make_qc 1 1 (mkHash 0)));;
     mret tt).
Definition cs_test_process_timeout_running : bool :=
  cs_run built
    (unwrap start;;
     result ← attempt (consensus_process_timeout exact_powf 5);
     assert (is_ok result)).
Definition cs_test_consensus_state_display_all : bool :=
  eqb (ConsensusState_to_string Bootstrapping) "bootstrapping"%string &&
  eqb (ConsensusState_to_string Running) "running"%string &&
  eqb (ConsensusState_to_string CatchingUp) "catching_up"%string &&
  eqb (ConsensusState_to_string Stopping) "stopping"%string &&
  eqb (ConsensusState_to_string Stopped) "stopped"%string.
Definition cs_test_consensus_builder_with_config : bool :=
  let config := mkConsensusConfig 10 5 PacemakerConfig_default RoundManagerConfig_default
                  PipelineConfig_default 1000 in
  ok_and (λ c : TestConsensus, eqb (c_epoch c) 5)
    (build_consensus exact_powf
       (with_proposer_election test_proposer (with_config config ConsensusBuilder_new))).
Definition cs_test_consensus_builder_missing_proposer : bool :=
  let result : res Error TestConsensus := build_consensus exact_powf ConsensusBuilder_new in
  is_err result && err_and (says "Proposer election strategy required") result.
Definition cs_test_consensus_builder_with_validator_id : bool :=
  cs_run (built_as 1)
    (unwrap start;;
     attempt consensus_generate_proposal;;
     mret tt).
Definition cs_test_stop_from_catching_up : bool :=
  cs_run built
    (modify (Consensus.set_state CatchingUp);;
     result ← attempt stop;
     st ← gets c_state;
     assert (is_ok result && eqb st Stopped)).
Definition cs_test_consensus_config_new : bool :=
  let config := ConsensusConfig_new 5 2 PacemakerConfig_default RoundManagerConfig_default
                  PipelineConfig_default in
  eqb (cc_initial_round config) 5 && eqb (cc_initial_epoch config) 2 &&
  eqb (max_rounds_per_epoch config) 1000.

Definition coordinator_tests : Suite := [
  ("state_display"%string, cs_test_consensus_state_display);
  ("config_default"%string, cs_test_consensus_config_default);
  ("builder"%string, cs_test_consensus_builder);
  ("start_stop"%string, cs_test_consensus_start_stop);
  ("start_twice_fails"%string, cs_test_consensus_start_twice_fails);
  ("getters"%string, cs_test_consensus_getters);
  ("no_highest_qc"%string, cs_test_consensus_get_highest_quorum_cert_none);
  ("proposal_not_running"%string, cs_test_process_proposal_not_running);
  ("stop_when_not_running"%string, cs_test_stop_when_not_running);
  ("start_when_running"%string, cs_test_start_when_running_fails);
  ("vote_not_running"%string, cs_test_process_vote_not_running);
  ("qc_not_running"%string, cs_test_process_qc_not_running);
  ("timeout_not_running"%string, cs_test_process_timeout_not_running);
  ("generate_not_running"%string, cs_test_generate_proposal_not_running);
  ("generate_not_proposer"%string, cs_test_generate_proposal_not_proposer);
  ("generate_no_parent_qc"%string, cs_test_generate_proposal_no_parent_qc);
  ("qc_running"%string, cs_test_process_qc_running);
  ("timeout_running"%string, cs_test_process_timeout_running);
  ("state_display_all"%string, cs_test_consensus_state_display_all);
  ("builder_with_config"%string, cs_test_consensus_builder_with_config);
  ("missing_proposer"%string, cs_test_consensus_builder_missing_proposer);
  ("with_validator_id"%string, cs_test_consensus_builder_with_validator_id);
  ("stop_from_catching_up"%string, cs_test_stop_from_catching_up);
  ("config_new"%string, cs_test_consensus_config_new)].
End tests.
End CoordinatorTests.

(** The election of the runtime's and the reconfiguration's tests: author 1. *)
Record FixedElection := mkFixedElection {}.
Definition fixed_valid_proposer (_ : FixedElection) (_ : Round) : res Error (option N) :=
  Ok (Some 1).
#[export] Instance FixedElection_impl : ProposerElection FixedElection N := {|
  get_valid_proposer := fixed_valid_proposer;
  get_voting_power_participation_ratio _ _ := default_participation_ratio;
|}.

(** ** consensus/runtime.rs *)
Module RuntimeTests.
Section tests.
Context `{OV : OverflowMode} `{HO : HashOrder}.
Abbreviation TestRuntime := (ConsensusRuntime FixedElection N).

Definition rn_consensus : res Error (Consensus FixedElection N) :=
  build_consensus exact_powf (with_proposer_election mkFixedElection ConsensusBuilder_new).
Definition rn_runtime : res Error TestRuntime :=
  consensus ← rn_consensus; Ok (ConsensusRuntime_new consensus RuntimeConfig_default).

Definition rn_test_runtime_config_default : bool :=
  eqb (process_interval_ms RuntimeConfig_default) 100 &&
  eqb (max_concurrent_tasks RuntimeConfig_default) 10.
Definition rn_test_runtime_config_new : bool :=
  let config := RuntimeConfig_new 50 5 2000 2048 in
  eqb (process_interval_ms config) 50 && eqb (max_concurrent_tasks config) 5 &&
  eqb (rt_network_timeout_ms config) 2000 && eqb (network_buffer_size config) 2048.
Definition rn_test_execution_result : bool :=
  er_is_success ErSuccess && negb (er_is_success (ErFailed (Msg "test error" []))) &&
  negb (er_is_success ErTimeout) && negb (er_is_success (ErSkipped "test skip")).
Definition rn_test_network_message_display : bool :=
  contains "Proposal" (RtMessage_to_string (RmProposal MockBlock_genesis)).
Definition rn_test_runtime_new : bool :=
  ok_and (λ r, negb (rt_is_running r) && eqb (pending_message_count r) 0%nat) rn_runtime.
Definition rn_test_runtime_add_message : bool :=
  ok_and (λ r, eqb (pending_message_count
                      (add_network_message (RmProposal MockBlock_genesis) r)) 1%nat)
    rn_runtime.
Definition rn_test_runtime_start_stop : bool :=
  ok_and (λ r, test r
    (r ← attempt rt_start;
     b ← gets rt_is_running;
     assert (is_ok r && b);;
     r ← attempt shutdown;
     b ← gets rt_is_running;
     assert (is_ok r && negb b))) rn_runtime.
Definition rn_test_runtime_getters : bool :=
  ok_and (λ r, eqb (c_epoch (consensus r)) 0 && eqb (c_round (consensus r)) 0 &&
               eqb (length (active_tasks r)) 0%nat) rn_runtime.

Definition runtime_tests : Suite := [
  ("config_default"%string, rn_test_runtime_config_default);
  ("config_new"%string, rn_test_runtime_config_new);
  ("execution_result"%string, rn_test_execution_result);
  ("message_display"%string, rn_test_network_message_display);
  ("new"%string, rn_test_runtime_new);
  ("add_message"%string, rn_test_runtime_add_message);
  ("start_stop"%string, rn_test_runtime_start_stop);
  ("getters"%string, rn_test_runtime_getters)].
End tests.
End RuntimeTests.

(** ** consensus/state_sync.rs *)
Module StateSyncTests.
Section tests.
Context `{OV : OverflowMode} `{HO : HashOrder}.

Definition create_test_block (round : N) : MockBlock :=
  mkBlock (mkMeta 1 round (mkHash 1) (mkHash (as_u8 (round - 1))) (round * 1000)) [].
Definition sync_at_50 : StateSync := StateSync_new StateSyncConfig_default 50.
Definition sy_blocks (rounds : list N) : list MockBlock := create_test_block <$> rounds.
Definition sy_received (rounds : list N) : SyncResponse :=
  mkSyncResponse (sy_blocks rounds) 1 false.
Definition sy_round (b : MockBlock) : N := mm_round (mb_metadata b).
(** [sync.received_blocks.insert(round, create_test_block(round))]. *)
Definition sy_insert (round : N) (s : StateSync) : StateSync :=
  set_received (<[round := create_test_block round]> (received_blocks s)) s.

Definition sy_test_state_sync_config_default : bool :=
  let config := StateSyncConfig_default in
  eqb (max_batch_size config) 100 && eqb (sync_timeout_ms config) 5000 &&
  eqb (max_retries config) 3.
Definition sy_test_sync_status : bool :=
  let status := SyInProgress 100 50 50 in
  negb (sy_is_in_progress SyIdle) && negb (sy_is_completed SyIdle) &&
  negb (sy_is_failed SyIdle) && sy_is_in_progress status &&
  eqb (sy_target_round status) (Some 100) && eqb (sy_current_round status) (Some 50) &&
  sy_is_completed (SyCompleted 100) && sy_is_failed (SyFailed "test error").
Definition sy_test_sync_request : bool :=
  let request := mkSyncRequest 100 50 1 in
  covers_round request 75 && negb (covers_round request 49) &&
  negb (covers_round request 101) && ok_and (eqb 51) (round_count (E:=Error) request).
Definition sy_test_sync_response : bool :=
  let response := sy_received [10; 11; 12] in
  negb (rp_is_empty response) && eqb (rp_len response) 3%nat &&
  eqb (highest_round response) (Some 12) && eqb (lowest_round response) (Some 10) &&
  is_ok (verify_sequential response) && is_err (verify_sequential (sy_received [10; 15])).
Definition sy_test_state_sync_new : bool :=
  eqb (sync_status sync_at_50) SyIdle && eqb (sync_current_round sync_at_50) 50 &&
  is_none (highest_known_round sync_at_50) && negb (needs_sync sync_at_50).
Definition sy_test_state_sync_start : bool :=
  test sync_at_50
    (r ← attempt (start_sync 100 1);
     s ← get;
     assert (is_ok r && sy_is_in_progress (sync_status s));;
     assert (eqb (length (pending_requests s)) 1%nat)).
Definition sy_test_state_sync_already_caught_up : bool :=
  test sync_at_50
    (r ← attempt (start_sync 40 1);
     s ← get;
     assert (is_ok r && sy_is_completed (sync_status s))).
Definition sy_test_state_sync_double_start_fails : bool :=
  test sync_at_50
    (r1 ← attempt (start_sync 100 1);
     r2 ← attempt (start_sync 200 1);
     assert (is_ok r1 && is_err r2)).
Definition sy_test_state_sync_add_response : bool :=
  test sync_at_50
    (unwrap (start_sync 100 1);;
     r ← attempt (add_sync_response (sy_received [51; 52; 53]));
     s ← get;
     assert (is_ok r && eqb (pending_block_count s) 3%nat);;
     assert (has_block s 51 && has_block s 52 && has_block s 53)).
Definition sy_test_state_sync_ready_blocks : bool :=
  test sync_at_50
    (unwrap (start_sync 100 1);;
     unwrap (add_sync_response (sy_received [51; 52; 53]));;
     ready ← ready_blocks;
     assert (eqb (sy_round <$> ready) [51; 52; 53]);;
     s ← get;
     assert (eqb (sync_current_round s) 53)).
Definition sy_test_state_sync_gap_in_ready_blocks : bool :=
  test sync_at_50
    (unwrap (start_sync 100 1);;
     modify (sy_insert 51);;
     modify (sy_insert 53);;
     ready ← ready_blocks;
     assert (eqb (sy_round <$> ready) [51]);;
     s ← get;
     assert (eqb (sync_current_round s) 51);;
     assert (has_block s 53)).
Definition sy_test_state_sync_needs_sync : bool :=
  test sync_at_50
    (modify (update_highest_known_round 100);;
     s ← get;
     assert (needs_sync s);;
     unwrap (start_sync 100 1);;
     s ← get;
     assert (negb (needs_sync s))).
Definition sy_test_state_sync_cancel : bool :=
  test sync_at_50
    (unwrap (start_sync 100 1);;
     s ← get;
     assert (sy_is_in_progress (sync_status s));;
     modify sync_cancel;;
     s ← get;
     assert (eqb (sync_status s) SyIdle && eqb (pending_block_count s) 0%nat)).
Definition sy_test_state_sync_reset : bool :=
  test sync_at_50
    (modify (update_highest_known_round 100);;
     unwrap (start_sync 100 1);;
     modify (sy_insert 51);;
     modify sync_reset;;
     s ← get;
     assert (eqb (sync_status s) SyIdle && eqb (pending_block_count s) 0%nat);;
     assert (is_none (highest_known_round s))).

Definition state_sync_tests : Suite := [
  ("config_default"%string, sy_test_state_sync_config_default);
  ("status"%string, sy_test_sync_status);
  ("request"%string, sy_test_sync_request);
  ("response"%string, sy_test_sync_response);
  ("new"%string, sy_test_state_sync_new);
  ("start"%string, sy_test_state_sync_start);
  ("already_caught_up"%string, sy_test_state_sync_already_caught_up);
  ("double_start_fails"%string, sy_test_state_sync_double_start_fails);
  ("add_response"%string, sy_test_state_sync_add_response);
  ("ready_blocks"%string, sy_test_state_sync_ready_blocks);
  ("gap_in_ready_blocks"%string, sy_test_state_sync_gap_in_ready_blocks);
  ("needs_sync"%string, sy_test_state_sync_needs_sync);
  ("cancel"%string, sy_test_state_sync_cancel);
  ("reset"%string, sy_test_state_sync_reset)].
End tests.
End StateSyncTests.

(** ** consensus/reconfig.rs: the clock reads 0 *)
Module ReconfigTests.
Section tests.
Context `{OV : OverflowMode} `{HO : HashOrder}.
Abbreviation TestReconfigHandler := (ReconfigHandler N FixedElection).
Abbreviation RT := (M TestReconfigHandler Error).

Definition create_test_validator_set (epoch count : N) : res Error (ValidatorSet N) :=
  ValidatorSet_new epoch
    (list_to_map ((λ i, (N.of_nat i, 100)) <$> seq 0 (N.to_nat count))).
Definition handler_at_1 : TestReconfigHandler :=
  ReconfigHandler_new ReconfigConfig_default
    (EpochManager_new (mkEpochManagerConfig 1 false)).
Definition prepare (epoch : Epoch) : RT unit := prepare_reconfig epoch.
Definition begin (epoch count : N) : RT unit :=
  vs ← lift (create_test_validator_set epoch count); begin_reconfig vs.

Definition rg_test_reconfig_config_default : bool :=
  let config := ReconfigConfig_default in
  eqb (preparation_window config) 5 && verify_signatures config &&
  eqb (reconfig_timeout_ms config) 30000.
Definition rg_test_reconfig_status : bool :=
  let preparing := RcPreparing 1 2 in
  let completed := RcCompleted 2 100 in
  negb (rc_is_in_progress RcIdle) && negb (rc_is_completed RcIdle) &&
  negb (rc_is_failed RcIdle) && rc_is_in_progress preparing &&
  ok_and (eqb (Some 1)) (rc_current_epoch preparing) &&
  eqb (rc_new_epoch preparing) (Some 2) && rc_is_completed completed &&
  ok_and (eqb (Some 2)) (rc_current_epoch completed) &&
  eqb (rc_new_epoch completed) (Some 2).
Definition rg_test_validator_set : bool :=
  ok_and (λ vs,
    eqb (vs_len vs) 3 && negb (vs_is_empty vs) &&
    eqb (vs_get_voting_power vs 1) (Some 100) && eqb (vs_total_voting_power vs) 450 &&
    vs_contains vs 2 && negb (vs_contains vs 99) &&
    ok_and negb (has_quorum vs [1; 2]) && ok_and id (has_quorum vs [1; 2; 3]))
    (ValidatorSet_new 1 (<[3 := 150]> (<[2 := 200]> {[1 := 100]}))).
Definition rg_test_reconfig_handler_new : bool :=
  eqb (rc_status handler_at_1) RcIdle && eqb (current_epoch handler_at_1) 1 &&
  is_none (current_validator_set handler_at_1) &&
  eqb (pending_event_count handler_at_1) 0%nat.
Definition rg_test_prepare_reconfig : bool :=
  test handler_at_1
    (r ← attempt (prepare 2);
     h ← get;
     assert (is_ok r && rc_is_in_progress (rc_status h));;
     r ← attempt (prepare 3);
     assert (is_err r);;
     modify rc_cancel;;
     r ← attempt (prepare 3);
     assert (is_err r)).
Definition rg_test_set_validator_set : bool :=
  ok_and (λ vs, none_or (λ vs, eqb (vs_len vs) 4)
                  (validator_set (set_validator_set 2 vs handler_at_1) 2))
    (create_test_validator_set 2 4).
Definition rg_test_begin_reconfig : bool :=
  test handler_at_1
    (r ← attempt (begin 2 4);
     assert (is_err r);;
     unwrap (prepare 2);;
     r ← attempt (begin 2 4);
     assert (is_ok r);;
     modify rc_cancel;;
     unwrap (prepare 2);;
     r ← attempt (begin 2 0);
     assert (is_err r)).
Definition rg_test_complete_reconfig : bool :=
  test handler_at_1
    (unwrap (prepare 2);;
     unwrap (begin 2 4);;
     modify (update_progress 4);;
     r ← attempt (complete_reconfig (Some 0));
     h ← get;
     assert (is_ok r && eqb (current_epoch h) 2 && eqb (rc_status h) RcIdle)).
Definition rg_test_should_reconfigure : bool :=
  negb (should_reconfigure handler_at_1 90 100) &&
  should_reconfigure handler_at_1 96 100 && should_reconfigure handler_at_1 100 100.
Definition rg_test_pending_events : bool :=
  test handler_at_1
    (h ← get;
     assert (eqb (pending_event_count h) 0%nat);;
     modify (add_event (ReNewEpoch 2 100));;
     h ← get;
     assert (eqb (pending_event_count h) 1%nat);;
     let '(h', events) := take_pending_events h in
     assert (eqb (length events) 1%nat && eqb (pending_event_count h') 0%nat)).
Definition rg_test_cancel : bool :=
  test handler_at_1
    (unwrap (prepare 2);;
     h ← get;
     assert (rc_is_in_progress (rc_status h));;
     modify rc_cancel;;
     h ← get;
     assert (eqb (rc_status h) RcIdle && eqb (pending_event_count h) 0%nat)).
Definition rg_test_update_progress : bool :=
  test handler_at_1
    (unwrap (prepare 2);;
     unwrap (begin 2 10);;
     modify (update_progress 5);;
     h ← get;
     match rc_status h with
     | RcInProgress _ validators_processed _ => assert (eqb validators_processed 5)
     | _ => assert false
     end).

Definition reconfig_tests : Suite := [
  ("config_default"%string, rg_test_reconfig_config_default);
  ("status"%string, rg_test_reconfig_status);
  ("validator_set"%string, rg_test_validator_set);
  ("handler_new"%string, rg_test_reconfig_handler_new);
  ("prepare"%string, rg_test_prepare_reconfig);
  ("set_validator_set"%string, rg_test_set_validator_set);
  ("begin"%string, rg_test_begin_reconfig);
  ("complete"%string, rg_test_complete_reconfig);
  ("should_reconfigure"%string, rg_test_should_reconfigure);
  ("pending_events"%string, rg_test_pending_events);
  ("cancel"%string, rg_test_cancel);
  ("update_progress"%string, rg_test_update_progress)].
End tests.
End ReconfigTests.

(** Every translated test passes, in both builds and both iteration orders. *)
Theorem consensus_unit_tests_pass `{OV : OverflowMode} :
  Forall (λ HO : HashOrder,
    passes (CoordinatorTests.coordinator_tests ++ RuntimeTests.runtime_tests ++
            StateSyncTests.state_sync_tests ++ ReconfigTests.reconfig_tests))
    [canonical_order; reversed_order].
Proof. destruct OV; repeat constructor; vm_compute; reflexivity. Qed.
