(* ===== verification/UnitTestsPipeline.v ===== *)
(** * The unit tests of pipeline/mod.rs and network/mod.rs, run on the model

    Over the crate's mock blocks and votes. *)
From S2P Require Import Prelude.
From S2P Require Import Traits.
From S2P Require Import Mocks.
From S2P Require Import Pacemaker.
From S2P Require Import Pipeline.
From S2P Require Import Network.
From S2P Require Import Testing.

(** ** pipeline/mod.rs *)
Section pipeline.
Context `{OV : OverflowMode}.

Definition pl_new : Pipeline := Pipeline_new PipelineConfig_default.
Definition pl_process (block : MockBlock) : M Pipeline Error PipelineResult :=
  unwrap (process_block block).
(** [stats().stage_counts[i]]. *)
Definition pl_count (p : Pipeline) (i : nat) (n : N) : bool :=
  eqb (stage_counts (pl_stats p) !! i) (Some n).
Definition pl_config_is (p : Pipeline) (timeout concurrent : N) (validate parallel : bool) :
    bool :=
  let c := pl_config p in
  eqb (stage_timeout_ms c) timeout && eqb (max_concurrent c) concurrent &&
  eqb (pl_validate_immediately c) validate && eqb (parallel_processing c) parallel.

Definition pl_test_stage_ordering : bool :=
  eqb (Stage_next Receiving) (Some Validation) &&
  eqb (Stage_next Validation) (Some Processing) &&
  eqb (Stage_next Processing) (Some SCommit) && is_none (Stage_next SCommit).
Definition pl_test_stage_display : bool := eqb (Stage_name Validation) "validation"%string.
Definition pl_test_stage_result : bool :=
  should_continue SrContinue && negb (should_continue (SrStop "test")) &&
  negb (should_continue (SrSkip "test")).
Definition pl_test_pipeline_config : bool :=
  let config := PipelineConfig_default in
  eqb (stage_timeout_ms config) 5000 && eqb (max_concurrent config) 10 &&
  pl_validate_immediately config.
Definition pl_test_pipeline_stats : bool :=
  let d := PipelineStats_default in
  let stats := mkPipelineStats (<[0%nat := 10]> (stage_counts d)) 10 (pl_failed d)
                 (pl_skipped d) in
  eqb (stage_counts stats !! 0%nat) (Some 10) && eqb (pl_total_processed stats) 10.
Definition pl_test_pipeline : bool :=
  test pl_new
    (result ← pl_process MockBlock_genesis;
     assert (is_completed result);;
     p ← get;
     assert (eqb (pl_total_processed (pl_stats p)) 4);;
     assert (pl_count p 0 1)).
Definition pl_test_pipeline_builder : bool :=
  pl_config_is
    (build_pipeline (with_parallel_processing true (with_validate_immediately false
       (with_max_concurrent 5 (with_stage_timeout_ms 1000 PipelineBuilder_new)))))
    1000 5 false true.
Definition pl_test_pipeline_reset : bool :=
  let pipeline := mkPipeline (pl_config pl_new) SCommit (pl_stats pl_new) in
  eqb (pl_current_stage (pipeline_reset pipeline)) Receiving.
Definition pl_test_stage_name : bool :=
  eqb (Stage_name Receiving) "receiving"%string &&
  eqb (Stage_name Validation) "validation"%string &&
  eqb (Stage_name Processing) "processing"%string &&
  eqb (Stage_name SCommit) "commit"%string.
Definition pl_test_pipeline_config_stage_timeout : bool :=
  eqb (as_millis (stage_timeout PipelineConfig_default)) 5000.
Definition pl_test_pipeline_config_new : bool :=
  pl_config_is (Pipeline_new (mkPipelineConfig 2000 20 false true)) 2000 20 false true.
Definition pl_test_pipeline_result_constructors : bool :=
  let stopped := PlStopped Validation "invalid" in
  let skipped := PlSkipped Processing "old" in
  is_completed PlCompleted && is_none (final_stage PlCompleted) &&
  negb (is_completed stopped) && eqb (final_stage stopped) (Some Validation) &&
  negb (is_completed skipped) && eqb (final_stage skipped) (Some Processing).
Definition pl_test_process_vote : bool :=
  test pl_new
    (result ← unwrap (pipeline_process_vote (MockVote_new (mkHash 0) (mkHash 0) 0));
     assert (is_completed result)).
Definition pl_test_process_qc : bool :=
  test pl_new
    (result ← unwrap pipeline_process_qc;
     assert (is_completed result)).
Definition pl_test_process_all_stages : bool :=
  test pl_new
    (result ← pl_process MockBlock_genesis;
     assert (is_completed result);;
     p ← get;
     assert (pl_count p 0 1 && pl_count p 1 1 && pl_count p 2 1 && pl_count p 3 1)).
Definition pl_test_pipeline_builder_default : bool :=
  pl_config_is (build_pipeline PipelineBuilder_new) 5000 10 true false.
Definition pl_test_pipeline_builder_all_methods : bool :=
  pl_config_is
    (build_pipeline (with_parallel_processing true (with_validate_immediately false
       (with_max_concurrent 5 (with_stage_timeout_ms 2000 PipelineBuilder_new)))))
    2000 5 false true.
Definition pl_test_pipeline_current_stage_accessor : bool :=
  eqb (pl_current_stage pl_new) Receiving.
Definition pl_test_pipeline_stats_accessor : bool :=
  let stats := pl_stats pl_new in
  eqb (pl_total_processed stats) 0 && eqb (pl_failed stats) 0 && eqb (pl_skipped stats) 0.

Definition pipeline_tests : Suite := [
  ("stage_ordering"%string, pl_test_stage_ordering);
  ("stage_display"%string, pl_test_stage_display);
  ("stage_result"%string, pl_test_stage_result);
  ("config"%string, pl_test_pipeline_config);
  ("stats"%string, pl_test_pipeline_stats);
  ("pipeline"%string, pl_test_pipeline);
  ("builder"%string, pl_test_pipeline_builder);
  ("reset"%string, pl_test_pipeline_reset);
  ("stage_name"%string, pl_test_stage_name);
  ("stage_timeout"%string, pl_test_pipeline_config_stage_timeout);
  ("config_new"%string, pl_test_pipeline_config_new);
  ("result_constructors"%string, pl_test_pipeline_result_constructors);
  ("process_vote"%string, pl_test_process_vote);
  ("process_qc"%string, pl_test_process_qc);
  ("process_all_stages"%string, pl_test_process_all_stages);
  ("builder_default"%string, pl_test_pipeline_builder_default);
  ("builder_all_methods"%string, pl_test_pipeline_builder_all_methods);
  ("current_stage"%string, pl_test_pipeline_current_stage_accessor);
  ("stats_accessor"%string, pl_test_pipeline_stats_accessor)].
End pipeline.

(** ** network/mod.rs *)
Section network.
Context `{OV : OverflowMode}.
Abbreviation Message := (NetworkMessage MockBlock MockVote).
Abbreviation Router := (MessageRouter (Hd := SimpleMessageHandler)).

Definition nw_handler : SimpleMessageHandler := SimpleMessageHandler_new NetworkConfig_default.
Definition nw_process (m : Message) : M SimpleMessageHandler Error ProcessResult :=
  unwrap (process_message m).
Definition nw_vote : MockVote := MockVote_new (mkHash 0) (mkHash 0) 0.
Definition nw_router : Router := MessageRouter_new NetworkConfig_default.

Definition nw_test_process_result : bool :=
  is_success PrSuccess && negb (is_success (PrValidationFailed "test")) &&
  negb (is_success (PrIgnored "test")) && negb (is_success (PrNeedsAction "test")).
Definition nw_test_message_handler_stats : bool :=
  test MessageHandlerStats_default
    (record_success;;
     record_validation_failure;;
     record_ignored;;
     record_needs_action;;
     s ← get;
     assert (eqb (total_processed s) 4 && eqb (successful s) 1 &&
             eqb (validation_failures s) 1 && eqb (ignored s) 1 &&
             eqb (needs_action s) 1)).
Definition nw_test_message_handler_stats_mut : bool :=
  test nw_handler
    (on_handler_stats (modify (λ s, mkHandlerStats 100 (successful s)
       (validation_failures s) (ignored s) (needs_action s)));;
     t ← gets (λ h, total_processed (smh_stats h));
     assert (eqb t 100)).
Definition nw_test_simple_message_handler : bool :=
  test nw_handler
    (result ← nw_process (NmProposal MockBlock_genesis);
     assert (is_success result);;
     s ← gets smh_stats;
     assert (eqb (total_processed s) 1 && eqb (successful s) 1)).
Definition nw_test_message_router : bool :=
  eqb (get_message_type (NmTimeout 10 : Message)) "timeout"%string.
Definition nw_test_network_message_display : bool :=
  eqb (NetworkMessage_to_string (NmTimeout 10 : Message)) "Timeout(round=10)"%string.
Definition nw_test_network_message_display_proposal : bool :=
  eqb (NetworkMessage_to_string (NmProposal MockBlock_genesis : Message)) "Proposal"%string.
Definition nw_test_network_message_display_vote : bool :=
  eqb (NetworkMessage_to_string (NmVote nw_vote : Message)) "Vote"%string.
Definition nw_test_network_message_display_sync_request : bool :=
  eqb (NetworkMessage_to_string (NmSyncRequest 5 : Message)) "SyncRequest(round=5)"%string.
Definition nw_test_network_message_display_sync_response : bool :=
  eqb (NetworkMessage_to_string (NmSyncResponse [] : Message)) "SyncResponse(count=0)"%string.
Definition nw_test_network_message_display_epoch_change : bool :=
  eqb (NetworkMessage_to_string (NmEpochChange 2 : Message)) "EpochChange(epoch=2)"%string.
Definition nw_test_simple_message_handler_with_validation_disabled : bool :=
  let d := NetworkConfig_default in
  let config := mkNetworkConfig (max_message_size d) (network_timeout_ms d)
                  (max_pending_syncs d) false in
  test (SimpleMessageHandler_new config)
    (result ← nw_process (NmProposal MockBlock_genesis);
     assert (is_success result)).
Definition nw_test_simple_message_handler_vote : bool :=
  test nw_handler (result ← nw_process (NmVote nw_vote); assert (is_success result)).
Definition nw_test_simple_message_handler_timeout : bool :=
  test nw_handler
    (result ← nw_process (NmTimeout 5);
     assert (negb (is_success result));;
     s ← gets smh_stats;
     assert (eqb (needs_action s) 1)).
Definition nw_test_simple_message_handler_sync_request : bool :=
  test nw_handler
    (result ← nw_process (NmSyncRequest 10); assert (negb (is_success result))).
Definition nw_test_simple_message_handler_sync_response : bool :=
  test nw_handler (result ← nw_process (NmSyncResponse []); assert (is_success result)).
Definition nw_test_simple_message_handler_epoch_change : bool :=
  test nw_handler
    (result ← nw_process (NmEpochChange 2); assert (negb (is_success result))).
Definition nw_test_message_router_register_handler : bool :=
  eqb (get_message_type (NmProposal MockBlock_genesis : Message)) "proposal"%string.
Definition nw_test_message_router_get_message_type_vote : bool :=
  eqb (get_message_type (NmVote nw_vote : Message)) "vote"%string.
Definition nw_test_message_router_get_message_type_sync_request : bool :=
  eqb (get_message_type (NmSyncRequest 5 : Message)) "sync_request"%string.
Definition nw_test_message_router_get_message_type_sync_response : bool :=
  eqb (get_message_type (NmSyncResponse [] : Message)) "sync_response"%string.
Definition nw_test_message_router_get_message_type_epoch_change : bool :=
  eqb (get_message_type (NmEpochChange 1 : Message)) "epoch_change"%string.
Definition nw_test_message_router_route_message : bool :=
  let result := route_message nw_router (NmTimeout 10 : Message) in
  is_ok result && ok_and is_none result.
Definition nw_test_network_config_default : bool :=
  let config := NetworkConfig_default in
  eqb (max_message_size config) (10 * 1024 * 1024) &&
  eqb (network_timeout_ms config) 5000 && eqb (max_pending_syncs config) 10 &&
  validate_immediately config.
Definition nw_test_simple_message_handler_config_accessor : bool :=
  eqb (max_message_size (smh_config nw_handler)) (max_message_size NetworkConfig_default).

Definition network_tests : Suite := [
  ("process_result"%string, nw_test_process_result);
  ("handler_stats"%string, nw_test_message_handler_stats);
  ("handler_stats_mut"%string, nw_test_message_handler_stats_mut);
  ("handler"%string, nw_test_simple_message_handler);
  ("router"%string, nw_test_message_router);
  ("display"%string, nw_test_network_message_display);
  ("display_proposal"%string, nw_test_network_message_display_proposal);
  ("display_vote"%string, nw_test_network_message_display_vote);
  ("display_sync_request"%string, nw_test_network_message_display_sync_request);
  ("display_sync_response"%string, nw_test_network_message_display_sync_response);
  ("display_epoch_change"%string, nw_test_network_message_display_epoch_change);
  ("validation_disabled"%string, nw_test_simple_message_handler_with_validation_disabled);
  ("handler_vote"%string, nw_test_simple_message_handler_vote);
  ("handler_timeout"%string, nw_test_simple_message_handler_timeout);
  ("handler_sync_request"%string, nw_test_simple_message_handler_sync_request);
  ("handler_sync_response"%string, nw_test_simple_message_handler_sync_response);
  ("handler_epoch_change"%string, nw_test_simple_message_handler_epoch_change);
  ("register_handler"%string, nw_test_message_router_register_handler);
  ("type_vote"%string, nw_test_message_router_get_message_type_vote);
  ("type_sync_request"%string, nw_test_message_router_get_message_type_sync_request);
  ("type_sync_response"%string, nw_test_message_router_get_message_type_sync_response);
  ("type_epoch_change"%string, nw_test_message_router_get_message_type_epoch_change);
  ("route_message"%string, nw_test_message_router_route_message);
  ("config_default"%string, nw_test_network_config_default);
  ("config_accessor"%string, nw_test_simple_message_handler_config_accessor)].
End network.

(** Every translated test passes, in both builds. *)
Theorem pipeline_unit_tests_pass `{OV : OverflowMode} :
  passes (pipeline_tests ++ network_tests).
Proof. destruct OV; apply (bool_decide_unpack _); vm_compute; exact I. Qed.
