(* ===== verification/UnitTestsDag.v ===== *)
(** * The unit tests of the dag directory, run on the model

    The tests of dag/types.rs, dag/store.rs, dag/ordering.rs, dag/driver.rs and
    dag/testing.rs.  The newtypes of the first two files are their integers. *)
From S2P Require Import Prelude.
From S2P Require Import Traits.
From S2P Require Import CommonTypes.
From S2P Require Import DagTypes.
From S2P Require Import DagStore.
From S2P Require Import DagOrdering.
From S2P Require Import DagDriver.
From S2P Require Import DebugFmt.
From S2P Require Import Testing.

(** [u64::from_be_bytes(bytes.try_into().unwrap_or([0u8; 8]))]. *)
Definition u64_from_be_bytes (bytes : list N) : res Error N :=
  Ok (if decide (length bytes = 8%nat) then foldl (λ n b, n * 256 + b) 0 bytes else 0).
Definition first_byte_or_zero (bytes : list N) : res Error N :=
  Ok (default 0 (bytes !! 0%nat)).

(** ** dag/types.rs *)
Definition dt_TestEpoch_hash : HashTrait N := {|
  hash_zero := 0; hash_from_bytes := u64_from_be_bytes; hash_as_bytes _ := [];
|}.
Definition dt_TestRound_hash : HashTrait N := {|
  hash_zero := 0; hash_from_bytes := u64_from_be_bytes; hash_as_bytes _ := [];
|}.
Definition dt_TestAuthor_hash : HashTrait N := {|
  hash_zero := 0; hash_from_bytes := first_byte_or_zero; hash_as_bytes _ := [];
|}.
Definition dt_TestHash_hash : HashTrait N := {|
  hash_zero := 0; hash_from_bytes := first_byte_or_zero; hash_as_bytes _ := [];
|}.
Definition TestDagNodeId : Type := DagNodeId N N N.
Definition dt_id (epoch round author : N) : TestDagNodeId := mkNodeId epoch round author.
(** The metadata most tests use. *)
Definition dt_metadata : DagNodeMetadataImpl TestDagNodeId N :=
  mkNodeMetadata (dt_id 1 1 1) 100 1.
Definition dt_cmp : TestDagNodeId → TestDagNodeId → comparison := DagNodeId_cmp N.compare.
Definition dt_partial_cmp : TestDagNodeId → TestDagNodeId → option comparison :=
  DagNodeId_partial_cmp (λ r s, Some (N.compare r s)).
#[export] Instance comparison_eq_dec : EqDecision comparison.
Proof. solve_decision. Defined.

Definition dt_test_dag_node_id_creation : bool :=
  let id := dt_id 1 2 3 in
  eqb (nid_epoch id) 1 && eqb (nid_round id) 2 && eqb (nid_author id) 3.
Definition dt_test_dag_node_id_ord : bool := eqb (dt_cmp (dt_id 1 1 1) (dt_id 1 2 1)) Lt.
Definition dt_test_parent_certificates_empty : bool :=
  let parents : ParentCertificatesImpl (DagNodeMetadataImpl TestDagNodeId N) :=
    ParentCertificatesImpl_empty in
  pcs_is_empty parents && eqb (pcs_len parents) 0.
Definition dt_test_parent_certificates_add : bool :=
  let parents := mkParents [] in
  let parents' := pcs_add dt_metadata parents in
  pcs_is_empty parents && eqb (pcs_len parents') 1 && negb (pcs_is_empty parents').
Definition dt_test_dag_payload_empty : bool :=
  let payload := @DagPayloadImpl_empty N dt_TestHash_hash in
  dp_is_empty payload && eqb (dp_size payload) 0.
Definition dt_test_dag_payload_hash : bool :=
  let payload := mkPayload [1; 2; 3] 42 in
  eqb (dp_hash payload) 42 && negb (dp_is_empty payload) && eqb (dp_size payload) 3.
Definition dt_test_dag_node_metadata_impl : bool :=
  let id := dt_id 5 10 3 in
  let metadata := mkNodeMetadata id 12345 99 in
  bool_decide (dm_node_id metadata = id) && eqb (dm_timestamp metadata) 12345 &&
  eqb (dm_digest metadata) 99.
Definition dt_test_dag_node_metadata_impl_display : bool :=
  let metadata : DagNodeMetadataImpl (DagNodeId N N N) N :=
    mkNodeMetadata (dt_id 5 10 3) 12345 99 in
  contains "DagNodeMetadataImpl" (debug metadata).
Definition dt_test_parent_certificates_iter : bool :=
  let parents := mkParents [dt_metadata] in
  forallb (λ p, eqb (dm_timestamp p) 100) (pcs_iter parents) &&
  eqb (length (pcs_iter parents)) 1%nat.
Definition dt_test_parent_certificates_parents : bool :=
  let parents := mkParents [dt_metadata] in
  eqb (length (pi_parents parents)) 1%nat &&
  none_or (λ p, eqb (dm_timestamp p) 100) (pi_parents parents !! 0%nat).
Definition dt_test_parent_certificates_add_via_trait : bool :=
  eqb (pcs_len (pcs_add dt_metadata (mkParents []))) 1.
Definition dt_node : DagNodeImpl (DagNodeMetadataImpl TestDagNodeId N)
    (DagPayloadImpl N) (ParentCertificatesImpl (DagNodeMetadataImpl TestDagNodeId N)) :=
  mkDagNode dt_metadata (mkPayload [1; 2] 42) ParentCertificatesImpl_empty.
Definition dt_test_dag_node_impl : bool :=
  eqb (dm_timestamp (nd_metadata dt_node)) 100 && eqb (dp_hash (nd_payload dt_node)) 42.
Definition dt_test_node_certificate_impl : bool :=
  let cert := mkNodeCertificate dt_metadata 42 in
  eqb (dm_timestamp (nc_metadata cert)) 100 && eqb (nc_signatures cert) 42.
Definition dt_test_certified_node_impl : bool :=
  let certified := mkCertifiedNode dt_node (mkNodeCertificate dt_metadata 99) in
  eqb (nc_signatures (cn_certificate certified)) 99.
Definition dt_test_dag_vote_impl : bool :=
  let vote := mkDagVote dt_metadata 42 in
  eqb (dm_timestamp (dv_metadata vote)) 100 && eqb (dv_signature vote) 42.
Definition dt_test_dag_node_id_display : bool :=
  let display := DagNodeId_to_string pretty pretty pretty (dt_id 5 10 3) in
  contains "epoch=5" display && contains "round=10" display && contains "author=3" display.
(** For every hasher; a list of the words fed to it determines them all. *)
Definition dt_test_dag_node_id_hash : bool :=
  let hash := λ id : TestDagNodeId, DagNodeId_hash cons cons cons id [] in
  bool_decide (hash (dt_id 5 10 3) = hash (dt_id 5 10 3)).
Definition dt_test_dag_node_id_clone : bool :=
  let id1 := dt_id 5 10 3 in
  let id2 := id1 in
  eqb (nid_epoch id1) (nid_epoch id2) && eqb (nid_round id1) (nid_round id2) &&
  eqb (nid_author id1) (nid_author id2).
Definition dt_test_dag_node_id_partial_ord_different_rounds : bool :=
  eqb (dt_partial_cmp (dt_id 1 5 1) (dt_id 1 10 1)) (Some Lt) &&
  eqb (dt_partial_cmp (dt_id 1 10 1) (dt_id 1 5 1)) (Some Gt).
Definition dt_test_dag_node_id_partial_ord_same_round : bool :=
  eqb (dt_partial_cmp (dt_id 1 5 1) (dt_id 1 5 2)) (Some Eq).
Definition dt_test_dag_node_id_cmp : bool :=
  eqb (dt_cmp (dt_id 1 5 1) (dt_id 1 10 1)) Lt &&
  eqb (dt_cmp (dt_id 1 10 1) (dt_id 1 5 1)) Gt.

Definition dag_types_tests : Suite := [
  ("metadata_display"%string, dt_test_dag_node_metadata_impl_display);
  ("node_id_creation"%string, dt_test_dag_node_id_creation);
  ("node_id_ord"%string, dt_test_dag_node_id_ord);
  ("parents_empty"%string, dt_test_parent_certificates_empty);
  ("parents_add"%string, dt_test_parent_certificates_add);
  ("payload_empty"%string, dt_test_dag_payload_empty);
  ("payload_hash"%string, dt_test_dag_payload_hash);
  ("metadata"%string, dt_test_dag_node_metadata_impl);
  ("parents_iter"%string, dt_test_parent_certificates_iter);
  ("parents_parents"%string, dt_test_parent_certificates_parents);
  ("parents_add_via_trait"%string, dt_test_parent_certificates_add_via_trait);
  ("node"%string, dt_test_dag_node_impl);
  ("node_certificate"%string, dt_test_node_certificate_impl);
  ("certified_node"%string, dt_test_certified_node_impl);
  ("vote"%string, dt_test_dag_vote_impl);
  ("node_id_display"%string, dt_test_dag_node_id_display);
  ("node_id_hash"%string, dt_test_dag_node_id_hash);
  ("node_id_clone"%string, dt_test_dag_node_id_clone);
  ("different_rounds"%string, dt_test_dag_node_id_partial_ord_different_rounds);
  ("same_round"%string, dt_test_dag_node_id_partial_ord_same_round);
  ("node_id_cmp"%string, dt_test_dag_node_id_cmp)].

(** ** dag/store.rs *)
Definition ds_TestEpoch_hash : HashTrait N := dt_TestEpoch_hash.
Definition ds_TestRound_hash : HashTrait N := dt_TestRound_hash.
Definition ds_TestAuthor_hash : HashTrait N := dt_TestAuthor_hash.
Definition ds_TestMetadata : Type := DagNodeMetadataImpl (DagNodeId N N N) N.
Definition ds_TestNode : Type :=
  DagNodeImpl ds_TestMetadata (DagPayloadImpl N) (ParentCertificatesImpl ds_TestMetadata).
Definition ds_TestCertifiedNode : Type :=
  CertifiedNodeImpl ds_TestNode (NodeCertificateImpl ds_TestMetadata N).
Definition create_test_node (round author : N) : ds_TestCertifiedNode :=
  let metadata := mkNodeMetadata (mkNodeId round round author) 0 round in
  let node := mkDagNode metadata (mkPayload [] round) ParentCertificatesImpl_empty in
  mkCertifiedNode node (mkNodeCertificate (ni_metadata node) author).
Definition ds_node_id (n : ds_TestCertifiedNode) : DagNodeId N N N :=
  mi_node_id (ni_metadata (cni_node n)).
Abbreviation Store := (InMemDag N N ds_TestCertifiedNode).
Definition ds_store (authors : list N) : Store := InMemDag_new authors DagStoreConfig_default.
Definition ds_add (round author : N) : M Store Error unit :=
  add_node ds_node_id (create_test_node round author).
Definition ds_mark (round author : N) : M Store Error unit := mark_ordered round author.

Definition ds_test_dag_store_new : bool :=
  let store := ds_store [1; 2; 3] in
  dag_is_empty N.le store && eqb (num_authors store) 3%nat && eqb (dag_len N.le store) 0%nat.
Definition ds_test_dag_store_add_node : bool :=
  test (ds_store [1; 2; 3])
    (r ← attempt (ds_add 1 1);
     assert (is_ok r);;
     d ← get;
     assert (negb (dag_is_empty N.le d) && eqb (dag_len N.le d) 1%nat)).
Definition ds_test_dag_store_get_node : bool :=
  test (ds_store [1; 2; 3])
    (unwrap (ds_add 1 1);;
     d ← get;
     assert (is_some (get_node d 1 1))).
Definition ds_test_dag_store_get_round : bool :=
  test (ds_store [1; 2; 3])
    (unwrap (ds_add 1 1);;
     unwrap (ds_add 1 2);;
     unwrap (ds_add 2 1);;
     d ← get;
     assert (eqb (length (get_round d 1)) 2%nat && eqb (length (get_round d 2)) 1%nat)).
Definition ds_test_dag_store_exists : bool :=
  test (ds_store [1; 2; 3])
    (unwrap (ds_add 1 1);;
     d ← get;
     assert (dag_exists d 1 1 && negb (dag_exists d 1 2) && negb (dag_exists d 2 1))).
Definition ds_test_dag_store_mark_ordered : bool :=
  test (ds_store [1; 2; 3])
    (unwrap (ds_add 1 1);;
     d ← get;
     assert (none_or (λ st, negb (DagStore.is_ordered st)) (get_node_status d 1 1));;
     unwrap (ds_mark 1 1);;
     d ← get;
     assert (none_or (λ st, DagStore.is_ordered st) (get_node_status d 1 1))).
Definition ds_test_dag_store_add_duplicate_fails : bool :=
  test (ds_store [1; 2; 3])
    (unwrap (ds_add 1 1);;
     result ← attempt (ds_add 1 1);
     assert (is_err result)).
Definition ds_test_dag_store_unknown_author_fails : bool :=
  test (ds_store [1; 2])
    (result ← attempt (ds_add 1 3);
     assert (is_err result)).
Definition ds_test_dag_store_clear : bool :=
  test (ds_store [1; 2; 3])
    (unwrap (ds_add 1 1);;
     unwrap (ds_add 2 2);;
     d ← get;
     assert (eqb (dag_len N.le d) 2%nat);;
     modify dag_clear;;
     d ← get;
     assert (dag_is_empty N.le d)).

Definition dag_store_tests : Suite := [
  ("new"%string, ds_test_dag_store_new);
  ("add_node"%string, ds_test_dag_store_add_node);
  ("get_node"%string, ds_test_dag_store_get_node);
  ("get_round"%string, ds_test_dag_store_get_round);
  ("exists"%string, ds_test_dag_store_exists);
  ("mark_ordered"%string, ds_test_dag_store_mark_ordered);
  ("add_duplicate"%string, ds_test_dag_store_add_duplicate_fails);
  ("unknown_author"%string, ds_test_dag_store_unknown_author_fails);
  ("clear"%string, ds_test_dag_store_clear)].

(** ** The shared test types of dag/testing.rs *)
Definition node_at (round author : N) : TestCertifiedNode :=
  tb_build (tb_with_author author (tb_with_round round (tb_with_epoch 1 TestNodeBuilder_new))).
Definition authors_to (n : nat) : list TestAuthor :=
  (λ i, mkTestAuthor (N.of_nat i)) <$> seq 1 n.

(** ** dag/ordering.rs *)
Abbreviation TestOrderRule :=
  (OrderRule TestRound TestAuthor TestCertifiedNode (RoundRobinAnchorElection TestAuthor)).
Definition rule_from (round : N) : TestOrderRule :=
  OrderRule_new (InMemDag_new (authors_to 2) DagStoreConfig_default)
    (mkAnchorElection (authors_to 2)) (mkTestRound round) OrderingConfig_default.
Definition ot_test_ordering_config_new : bool :=
  let config := mkOrderingConfig 200 5 in
  eqb (oc_window_size config) 200 && eqb (oc_anchor_interval config) 5.
Definition ot_test_order_rule_new : bool :=
  eqb (lowest_unordered_round (rule_from 5)) (mkTestRound 5).
Definition ot_test_order_rule_lowest_unordered_round : bool :=
  eqb (lowest_unordered_round (rule_from 10)) (mkTestRound 10) &&
  eqb (lowest_unordered_round (rule_from 20)) (mkTestRound 20).
Definition ot_test_order_rule_process_new_node : bool :=
  test (rule_from 5)
    (result ← attempt (process_new_node (node_at 5 1));
     assert (is_ok result && ok_and is_none result)).
Definition ot_test_order_rule_process_all : bool :=
  test (rule_from 5)
    (result ← attempt process_all;
     assert (is_ok result && ok_and (λ l, eqb (length l) 0%nat) result)).
Definition ot_test_order_rule_try_order_from_round : bool :=
  test (rule_from 5)
    (result ← attempt (try_order_from_round (mkTestRound 10));
     assert (is_ok result && ok_and is_none result)).
Definition ot_test_order_rule_find_anchor_with_enough_votes : bool :=
  ok_and is_none (find_anchor_with_enough_votes (rule_from 5) (mkTestRound 10)).
Definition ot_test_order_rule_order_anchor : bool :=
  test (rule_from 5)
    (result ← attempt (order_anchor (node_at 5 1));
     assert (is_ok result && ok_and (λ l, eqb (length l) 0%nat) result)).
Definition ot_test_order_rule_create_commit_event : bool :=
  let event := create_commit_event (rule_from 5) [] in
  eqb (length (ce_parents event)) 0%nat && eqb (length (failed_authors event)) 0%nat.
Definition ot_test_order_rule_can_trigger_ordering : bool :=
  negb (can_trigger_ordering (rule_from 5) (mkTestRound 5)) &&
  negb (can_trigger_ordering (rule_from 5) (mkTestRound 10)).
Definition ot_test_order_rule_compare_rounds : bool :=
  eqb (compare_rounds (rule_from 5) (mkTestRound 5) (mkTestRound 5)) Eq &&
  eqb (compare_rounds (rule_from 5) (mkTestRound 5) (mkTestRound 10)) Eq.
Definition ot_test_order_rule_next_round : bool :=
  eqb (or_next_round (rule_from 5) (mkTestRound 5)) (mkTestRound 5) &&
  eqb (or_next_round (rule_from 5) (mkTestRound 10)) (mkTestRound 10).
Definition ot_test_round_robin_get_author_index : bool :=
  let election := mkAnchorElection (authors_to 3) in
  eqb (get_author_index election (mkTestAuthor 1)) (Some 0%nat) &&
  eqb (get_author_index election (mkTestAuthor 2)) (Some 1%nat) &&
  eqb (get_author_index election (mkTestAuthor 3)) (Some 2%nat) &&
  is_none (get_author_index election (mkTestAuthor 99)).

Definition dag_ordering_tests : Suite := [
  ("config_new"%string, ot_test_ordering_config_new);
  ("rule_new"%string, ot_test_order_rule_new);
  ("lowest_unordered_round"%string, ot_test_order_rule_lowest_unordered_round);
  ("process_new_node"%string, ot_test_order_rule_process_new_node);
  ("process_all"%string, ot_test_order_rule_process_all);
  ("try_order_from_round"%string, ot_test_order_rule_try_order_from_round);
  ("find_anchor"%string, ot_test_order_rule_find_anchor_with_enough_votes);
  ("order_anchor"%string, ot_test_order_rule_order_anchor);
  ("create_commit_event"%string, ot_test_order_rule_create_commit_event);
  ("can_trigger_ordering"%string, ot_test_order_rule_can_trigger_ordering);
  ("compare_rounds"%string, ot_test_order_rule_compare_rounds);
  ("next_round"%string, ot_test_order_rule_next_round);
  ("author_index"%string, ot_test_round_robin_get_author_index)].

(** ** dag/driver.rs *)
Record TestAnchorElection := mkTestAnchorElection {}.
#[export] Instance TestAnchorElection_impl :
    AnchorElection TestAnchorElection TestRound TestAuthor := {|
  get_anchor _ _ := Ok (mkTestAuthor 1);
  ae_update_reputation e _ := e;
|}.
Abbreviation TestDriver :=
  (DagDriver TestRound TestAuthor TestCertifiedNode TestAnchorElection).
Definition driver_from (round : N) : TestDriver :=
  DagDriver_new (authors_to 3) mkTestAnchorElection (mkTestRound round)
    DagDriverConfig_default.
Definition dv_enter (round : N) : M TestDriver Error unit :=
  dd_enter_new_round TestRound_le (mkTestRound round).
Definition dv_config_is (c : DagDriverConfig) (window interval rounds : N) : bool :=
  eqb (dd_window_size c) window && eqb (dd_anchor_interval c) interval &&
  eqb (max_concurrent_rounds c) rounds.
Definition dv_pending (n : nat) : M TestDriver Error unit :=
  v ← get; assert (eqb (pending_count v) n).
Definition dv_at (round : N) : M TestDriver Error unit :=
  v ← get; assert (eqb (dd_current_round v) (mkTestRound round)).

Definition dv_test_dag_driver_config_default : bool :=
  dv_config_is DagDriverConfig_default 100 2 10.
Definition dv_test_dag_driver_config_new : bool :=
  dv_config_is (mkDriverConfig 200 5 20) 200 5 20.
Definition dv_test_dag_driver_enter_new_round : bool :=
  test (driver_from 1)
    (r ← attempt (dv_enter 2);
     assert (is_ok r);;
     dv_at 2;;
     r ← attempt (dv_enter 5);
     assert (is_ok r);;
     dv_at 5;;
     r ← attempt (dv_enter 3);
     assert (is_err r)).
Definition dv_test_dag_driver_get_strong_links : bool :=
  eqb (length (get_strong_links (driver_from 1) (mkTestRound 1))) 0%nat &&
  eqb (length (get_strong_links (driver_from 1) (mkTestRound 10))) 0%nat.
Definition dv_test_dag_driver_create_proposal : bool :=
  is_ok (create_proposal (driver_from 1)).
Definition dv_test_dag_driver_add_pending : bool :=
  test (driver_from 1)
    (dv_pending 0;;
     modify (add_pending (node_at 1 1));;
     dv_pending 1;;
     modify (add_pending (node_at 1 2));;
     dv_pending 2).
Definition dv_test_dag_driver_process_pending : bool :=
  test (driver_from 1)
    (modify (add_pending (node_at 1 1));;
     modify (add_pending (node_at 1 2));;
     dv_pending 2;;
     r ← attempt process_pending;
     assert (is_ok r);;
     dv_pending 0).
Definition dv_test_dag_driver_process_pending_when_processing : bool :=
  test (driver_from 1)
    (modify (add_pending (node_at 1 1));;
     dv_pending 1;;
     modify (set_processing true);;
     r ← attempt process_pending;
     assert (is_ok r);;
     dv_pending 1).
Definition dv_test_dag_driver_prune : bool :=
  test (driver_from 1) (r ← attempt dd_prune; assert (is_ok r)).
Definition dv_test_dag_driver_config_all_fields : bool :=
  dv_config_is (mkDriverConfig 150 3 15) 150 3 15.
Definition dv_test_dag_driver_current_round : bool := test (driver_from 42) (dv_at 42).
Definition dv_test_dag_driver_with_custom_start_round : bool :=
  test (driver_from 100) (dv_at 100;; dv_pending 0).
Definition dv_test_dag_driver_multiple_rounds : bool :=
  test (driver_from 1)
    (for_each [2; 3; 4] (λ n, r ← attempt (dv_enter n); assert (is_ok r));;
     dv_at 4).

Definition dag_driver_tests : Suite := [
  ("config_default"%string, dv_test_dag_driver_config_default);
  ("config_new"%string, dv_test_dag_driver_config_new);
  ("enter_new_round"%string, dv_test_dag_driver_enter_new_round);
  ("get_strong_links"%string, dv_test_dag_driver_get_strong_links);
  ("create_proposal"%string, dv_test_dag_driver_create_proposal);
  ("add_pending"%string, dv_test_dag_driver_add_pending);
  ("process_pending"%string, dv_test_dag_driver_process_pending);
  ("when_processing"%string, dv_test_dag_driver_process_pending_when_processing);
  ("prune"%string, dv_test_dag_driver_prune);
  ("config_all_fields"%string, dv_test_dag_driver_config_all_fields);
  ("current_round"%string, dv_test_dag_driver_current_round);
  ("custom_start_round"%string, dv_test_dag_driver_with_custom_start_round);
  ("multiple_rounds"%string, dv_test_dag_driver_multiple_rounds)].

(** ** dag/testing.rs *)
Section testing.
Context `{OV : OverflowMode}.
Definition id_of (n : TestCertifiedNode) : TestNodeId :=
  mi_node_id (ni_metadata (cni_node n)).
Definition id_is (id : TestNodeId) (epoch round author : N) : bool :=
  eqb (di_epoch id) (mkTestEpoch epoch) && eqb (di_round id) (mkTestRound round) &&
  eqb (di_author id) (mkTestAuthor author).
Definition timestamp_of (n : TestCertifiedNode) : N := mi_timestamp (ni_metadata (cni_node n)).

Definition dx_test_test_round_all_trait_methods : bool :=
  eqb (hash_zero : TestRound) (mkTestRound 0) &&
  eqb (length (hash_as_bytes (mkTestRound 42))) 0%nat &&
  eqb (TestRound_to_string (mkTestRound 42)) "42"%string &&
  bool_decide (strict TestRound_le (mkTestRound 10) (mkTestRound 20)) &&
  bool_decide (TestRound_le (mkTestRound 10) (mkTestRound 10)).
Definition dx_test_test_author_all_trait_methods : bool :=
  eqb (hash_zero : TestAuthor) (mkTestAuthor 0) &&
  eqb (length (hash_as_bytes (mkTestAuthor 42))) 0%nat &&
  eqb (TestAuthor_to_string (mkTestAuthor 42)) "42"%string.
Definition dx_test_test_round_default : bool := eqb (tr_inner TestRound_default) 0.
Definition dx_test_test_epoch_all_trait_methods : bool :=
  eqb (hash_zero : TestEpoch) (mkTestEpoch 0) &&
  eqb (length (hash_as_bytes (mkTestEpoch 42))) 0%nat &&
  eqb (TestEpoch_to_string (mkTestEpoch 42)) "42"%string &&
  bool_decide (strict TestEpoch_le (mkTestEpoch 10) (mkTestEpoch 20)) &&
  bool_decide (TestEpoch_le (mkTestEpoch 10) (mkTestEpoch 10)).
Definition dx_test_test_node_builder_chaining : bool :=
  let node := tb_build (tb_with_timestamp 5000 (tb_with_author 7 (tb_with_round 15
                (tb_with_epoch 2 TestNodeBuilder_new)))) in
  id_is (id_of node) 2 15 7 && eqb (timestamp_of node) 5000.
Definition dx_test_test_node_builder_default : bool :=
  let node := tb_build TestNodeBuilder_new in
  id_is (id_of node) 1 1 1 && eqb (timestamp_of node) 0.
Definition dx_test_create_test_dag_multiple_rounds : bool :=
  ok_and (λ nodes : list TestCertifiedNode,
      eqb (length nodes) 6%nat &&
      none_or (λ n, eqb (di_round (id_of n)) (mkTestRound 1)) (nodes !! 0%nat) &&
      none_or (λ n, eqb (di_round (id_of n)) (mkTestRound 2)) (nodes !! 2%nat) &&
      none_or (λ n, eqb (di_round (id_of n)) (mkTestRound 3)) (nodes !! 4%nat))
    (create_test_dag 3 (create_test_authors 2)).
Definition dx_test_create_test_dag_single_author : bool :=
  ok_and (λ nodes, eqb (length nodes) 5%nat &&
                   forallb (λ n, eqb (di_author (id_of n)) (mkTestAuthor 1)) nodes)
    (create_test_dag 5 (create_test_authors 1)).
Definition dx_test_create_test_authors_count : bool :=
  eqb (length (create_test_authors 3)) 3%nat &&
  eqb (length (create_test_authors 10)) 10%nat.
Definition dx_test_test_node_id_components : bool :=
  id_is (nid_new (mkTestEpoch 5) (mkTestRound 10) (mkTestAuthor 7)) 5 10 7.
Definition dx_test_test_metadata_type : bool :=
  let id : TestNodeId := mkNodeId (mkTestEpoch 1) (mkTestRound 5) (mkTestAuthor 3) in
  let metadata := mkNodeMetadata id 12345 (mkTestRound 5) in
  bool_decide (dm_node_id metadata = id) && eqb (dm_timestamp metadata) 12345 &&
  eqb (dm_round metadata) (mkTestRound 5).
Definition dx_test_test_payload_type : bool :=
  eqb (length (pi_data (mkPayload [] (mkTestRound 10)))) 0%nat.
Definition dx_test_test_parents_type : bool :=
  pcs_is_empty (ParentCertificatesImpl_empty : TestParents).
Definition dx_test_test_certificate_type : bool :=
  let node := node_at 5 3 in
  eqb (di_round (mi_node_id (nc_metadata (cn_certificate node)))) (mkTestRound 5).
Definition dx_test_test_certified_node_type : bool :=
  let certified_node := node_at 5 3 in
  eqb (di_round (id_of certified_node)) (mkTestRound 5) &&
  eqb (di_round (mi_node_id (nc_metadata (cn_certificate certified_node)))) (mkTestRound 5).
Definition dx_test_test_types_zero_values : bool :=
  eqb (tr_inner hash_zero) 0 && eqb (ta_inner hash_zero) 0 && eqb (te_inner hash_zero) 0 &&
  id_is (nid_new hash_zero hash_zero hash_zero) 0 0 0.
Definition dx_test_create_test_dag_timestamps : bool :=
  ok_and (λ nodes : list TestCertifiedNode,
      none_or (λ n, eqb (timestamp_of n) 1000) (nodes !! 0%nat) &&
      none_or (λ n, eqb (timestamp_of n) 1001) (nodes !! 1%nat))
    (create_test_dag 2 (create_test_authors 2)).
Definition dx_test_create_test_authors_sequence : bool :=
  eqb (create_test_authors 5) (mkTestAuthor <$> [1; 2; 3; 4; 5]).

Definition dag_testing_tests : Suite := [
  ("round_trait_methods"%string, dx_test_test_round_all_trait_methods);
  ("round_default"%string, dx_test_test_round_default);
  ("author_trait_methods"%string, dx_test_test_author_all_trait_methods);
  ("epoch_trait_methods"%string, dx_test_test_epoch_all_trait_methods);
  ("builder_chaining"%string, dx_test_test_node_builder_chaining);
  ("builder_default"%string, dx_test_test_node_builder_default);
  ("dag_multiple_rounds"%string, dx_test_create_test_dag_multiple_rounds);
  ("dag_single_author"%string, dx_test_create_test_dag_single_author);
  ("authors_count"%string, dx_test_create_test_authors_count);
  ("node_id_components"%string, dx_test_test_node_id_components);
  ("metadata"%string, dx_test_test_metadata_type);
  ("payload"%string, dx_test_test_payload_type);
  ("parents"%string, dx_test_test_parents_type);
  ("certificate"%string, dx_test_test_certificate_type);
  ("certified_node"%string, dx_test_test_certified_node_type);
  ("zero_values"%string, dx_test_test_types_zero_values);
  ("timestamps"%string, dx_test_create_test_dag_timestamps);
  ("authors_sequence"%string, dx_test_create_test_authors_sequence)].
End testing.

(** Every translated test passes, in both builds. *)
Theorem dag_unit_tests_pass `{OV : OverflowMode} :
  passes (dag_types_tests ++ dag_store_tests ++ dag_ordering_tests ++ dag_driver_tests ++
          dag_testing_tests).
Proof. destruct OV; apply (bool_decide_unpack _); vm_compute; exact I. Qed.
