(* ===== verification/UnitTestsMocks.v ===== *)
(** * The unit tests of the shared types and of the testing directory, run on the model

    The tests of types.rs, testing/mod.rs and testing/mock_*.rs; those that only
    call an accessor and assert nothing are left out. *)
From S2P Require Import Prelude.
From S2P Require Import Traits.
From S2P Require Import CommonTypes.
From S2P Require Import Mocks.
From S2P Require Import Testing.
#[local] Existing Instance mock_chain.

(** ** types.rs *)
Definition ct_test_timeout_reason_display : bool :=
  eqb (TimeoutReason_to_string NoQuorum) "no_quorum"%string &&
  eqb (TimeoutReason_to_string SlowLeader) "slow_leader"%string &&
  eqb (TimeoutReason_to_string NetworkDelay) "network_delay"%string &&
  eqb (TimeoutReason_to_string ResourceConstraints) "resource_constraints"%string.
Definition ct_test_constants : bool := eqb GENESIS_ROUND 0 && eqb GENESIS_EPOCH 0.
Definition types_tests : Suite := [
  ("timeout_reason_display"%string, ct_test_timeout_reason_display);
  ("constants"%string, ct_test_constants)].

(** ** testing/mock_types.rs *)
Definition hash_of_bytes : list N → res Error MockHash := hash_from_bytes.
Definition node_of_bytes : list N → res Error MockNodeId := node_id_from_bytes.
Definition sig_of_bytes : list N → res Error MockSignature := sig_from_bytes.

Definition my_test_mock_hash_zero : bool := eqb (hash_zero : MockHash) (mkHash 0).
Definition my_test_mock_hash_from_bytes : bool := ok_and (eqb (mkHash 42)) (hash_of_bytes [42]).
Definition my_test_mock_hash_from_bytes_empty : bool := is_err (hash_of_bytes []).
Definition my_test_mock_signature_to_bytes : bool := eqb (sig_to_bytes (mkSig 42)) [42].
Definition my_test_mock_signature_from_bytes : bool :=
  ok_and (eqb (mkSig 42)) (sig_of_bytes [42]).
Definition my_test_mock_signature_verify : bool := is_ok (sig_verify (mkSig 0) [] mkPK).
Definition my_test_mock_signature_aggregate : bool :=
  is_ok (sig_aggregate [mkSig 1; mkSig 2; mkSig 3]).
Definition my_test_mock_node_id_from_bytes : bool :=
  ok_and (eqb (mkHash 99)) (node_of_bytes [99]).
Definition my_test_mock_node_id_from_bytes_empty : bool := is_err (node_of_bytes []).
Definition my_test_mock_node_id_as_bytes : bool := eqb (node_id_as_bytes (mkHash 42)) [].
Definition my_test_mock_hash_inner : bool := eqb (inner (mkHash 123)) 123.
Definition my_test_mock_signature_from_bytes_empty : bool := is_err (sig_of_bytes []).
Definition my_test_mock_public_key_to_bytes : bool := eqb (pk_to_bytes mkPK) [].
Definition my_test_mock_public_key_from_bytes : bool :=
  is_ok (pk_from_bytes (PK := MockPublicKey) [1; 2; 3]).
Definition mock_types_tests : Suite := [
  ("hash_zero"%string, my_test_mock_hash_zero);
  ("hash_from_bytes"%string, my_test_mock_hash_from_bytes);
  ("hash_from_bytes_empty"%string, my_test_mock_hash_from_bytes_empty);
  ("signature_to_bytes"%string, my_test_mock_signature_to_bytes);
  ("signature_from_bytes"%string, my_test_mock_signature_from_bytes);
  ("signature_verify"%string, my_test_mock_signature_verify);
  ("signature_aggregate"%string, my_test_mock_signature_aggregate);
  ("node_id_from_bytes"%string, my_test_mock_node_id_from_bytes);
  ("node_id_from_bytes_empty"%string, my_test_mock_node_id_from_bytes_empty);
  ("node_id_as_bytes"%string, my_test_mock_node_id_as_bytes);
  ("hash_inner"%string, my_test_mock_hash_inner);
  ("signature_from_bytes_empty"%string, my_test_mock_signature_from_bytes_empty);
  ("public_key_to_bytes"%string, my_test_mock_public_key_to_bytes);
  ("public_key_from_bytes"%string, my_test_mock_public_key_from_bytes)].

(** ** testing/mock_block.rs *)
Definition metadata_12345 : MockBlockMetadata := mkMeta 1 2 (mkHash 3) (mkHash 4) 5.

Definition mb_test_mock_block_metadata_new : bool :=
  let metadata := metadata_12345 in
  eqb (md_epoch metadata) 1 && eqb (md_round metadata) 2 &&
  eqb (md_author metadata) (mkHash 3) && eqb (md_parent_id metadata) (mkHash 4) &&
  eqb (md_timestamp metadata) 5.
Definition mb_test_mock_block_metadata_genesis : bool :=
  let metadata := meta_genesis in
  eqb (md_epoch metadata) 0 && eqb (md_round metadata) 0 &&
  eqb (md_author metadata) (mkHash 0) && eqb (md_parent_id metadata) (mkHash 0) &&
  eqb (md_timestamp metadata) 0.
Definition mb_test_mock_block_new : bool :=
  let block := mkBlock metadata_12345 [mkTxn; mkTxn] in
  eqb (block_metadata block) metadata_12345 &&
  eqb (length (block_transactions block)) 2%nat &&
  eqb (md_epoch (block_metadata block)) 1 && eqb (md_round (block_metadata block)) 2.
Definition mb_test_mock_block_genesis : bool :=
  block_is_genesis MockBlock_genesis &&
  eqb (length (block_transactions MockBlock_genesis)) 0%nat.
Definition mb_test_mock_block_id_derivation : bool :=
  eqb (block_id (mkBlock (mkMeta 1 5 (mkHash 3) (mkHash 4) 0) [])) (mkHash 6).
Definition mb_test_mock_quorum_cert_new : bool :=
  eqb (qc_block_id (MockQuorumCert_new (mkHash 42))) (mkHash 42).
Definition mb_test_mock_quorum_cert_default : bool :=
  eqb (qc_block_id MockQuorumCert_default) (mkHash 0).
Definition mb_test_mock_transaction : bool :=
  eqb (tx_size mkTxn) 100 && eqb (tx_hash mkTxn) (mkHash 0).
Definition mb_test_mock_quorum_cert_with_metadata : bool :=
  let qc := mkQC metadata_12345 (mkHash 42) in
  eqb (qc_block_id qc) (mkHash 42) && eqb (qc_certified_block qc) metadata_12345.
Definition mb_test_mock_quorum_cert_verify : bool :=
  is_ok (qc_verify (MockQuorumCert_new (mkHash 42))).
Definition mb_test_mock_quorum_cert_from_votes : bool :=
  is_ok (MockQuorumCert_from_votes [MockVote_new (mkHash 1) (mkHash 0) 0] mkAgg).
Definition mb_test_mock_block_is_nil : bool := negb (block_is_nil MockBlock_genesis).
Definition mb_test_mock_block_new_genesis : bool :=
  block_is_genesis (block_new_genesis : MockBlock).
Definition mb_test_mock_block_parent_id : bool :=
  eqb (block_parent_id (mkBlock (mkMeta 1 2 (mkHash 3) (mkHash 99) 5) [])) (mkHash 99).
Definition mb_test_mock_block_verify_signature : bool :=
  is_ok (block_verify_signature MockBlock_genesis).
Definition mb_test_mock_block_signature_none : bool :=
  is_none (block_signature MockBlock_genesis).
Definition mock_block_tests : Suite := [
  ("metadata_new"%string, mb_test_mock_block_metadata_new);
  ("metadata_genesis"%string, mb_test_mock_block_metadata_genesis);
  ("block_new"%string, mb_test_mock_block_new);
  ("block_genesis"%string, mb_test_mock_block_genesis);
  ("id_derivation"%string, mb_test_mock_block_id_derivation);
  ("qc_new"%string, mb_test_mock_quorum_cert_new);
  ("qc_default"%string, mb_test_mock_quorum_cert_default);
  ("transaction"%string, mb_test_mock_transaction);
  ("qc_with_metadata"%string, mb_test_mock_quorum_cert_with_metadata);
  ("qc_verify"%string, mb_test_mock_quorum_cert_verify);
  ("qc_from_votes"%string, mb_test_mock_quorum_cert_from_votes);
  ("is_nil"%string, mb_test_mock_block_is_nil);
  ("new_genesis"%string, mb_test_mock_block_new_genesis);
  ("parent_id"%string, mb_test_mock_block_parent_id);
  ("verify_signature"%string, mb_test_mock_block_verify_signature);
  ("signature_none"%string, mb_test_mock_block_signature_none)].

(** ** testing/mock_validator.rs, testing/mock_vote.rs and testing/mod.rs *)
Section validators.
Context `{OV : OverflowMode} `{HO : HashOrder}.

(** [MockValidatorSet::new] of validators with ids 0, 1, ... and these powers. *)
Definition set_of (powers : list N) : res Error MockValidatorSet :=
  MockValidatorSet_new (imap (λ i p, MockValidator_new (N.of_nat i) p) powers).
Definition on_set (powers : list N) (p : MockValidatorSet → bool) : bool :=
  ok_and p (set_of powers).
Definition ids (l : list N) : list MockNodeId := mkHash <$> l.
Definition checks (set : MockValidatorSet) (signers : list N) (check_quorum : bool) :
    res VerifyError unit :=
  check_voting_power (mock_verifier set) (ids signers) check_quorum.

Definition mv_test_mock_validator_new : bool :=
  let validator := MockValidator_new 1 100 in
  eqb (vl_id validator) (mkHash 1) && eqb (vl_voting_power validator) 100.
Definition mv_test_mock_validator_set_new : bool :=
  on_set [100; 150; 200] (λ set,
    eqb (size (mvs_validators set)) 3%nat && eqb (mvs_total_voting_power set) 450 &&
    eqb (mvs_quorum_threshold set) 301).
Definition mv_test_mock_validator_set_quorum_calculation : bool :=
  on_set [100; 100; 100] (λ set,
    eqb (mvs_total_voting_power set) 300 && eqb (mvs_quorum_threshold set) 201).
Definition mv_test_mock_validator_set_get_validator : bool :=
  on_set [100; 150] (λ set,
    is_some (mvs_validators set !! mkHash 0) && is_some (mvs_validators set !! mkHash 1) &&
    is_none (mvs_validators set !! mkHash 2)).
Definition mv_test_mock_validator_set_check_voting_power : bool :=
  on_set [100; 100; 100] (λ set,
    is_err (checks set [0; 1] true) && is_ok (checks set [0; 1; 2] true) &&
    is_ok (checks set [0] false)).
Definition mv_test_mock_validator_set_verify_vote : bool :=
  on_set [100; 100] (λ set,
    is_ok (verify_vote (mock_verifier set) (MockVote_new (mkHash 0) (mkHash 0) 0)) &&
    is_err (verify_vote (mock_verifier set) (MockVote_new (mkHash 99) (mkHash 0) 0))).
Definition mv_test_mock_validator_set_is_empty : bool :=
  on_set [] (λ set, bool_decide (mvs_validators set = ∅)) &&
  on_set [100] (λ set, negb (bool_decide (mvs_validators set = ∅))).
Definition mv_test_mock_validator_set_validator_ids : bool :=
  on_set [100; 150] (λ set, eqb (length (hm_keys (mvs_validators set))) 2%nat).
Definition mv_test_mock_validator_set_verify_block : bool :=
  on_set [100] (λ set, is_ok (verify_block (mock_verifier set) MockBlock_genesis)).
Definition mv_test_mock_validator_set_get_voting_power : bool :=
  on_set [100; 150] (λ set,
    let power := get_voting_power (mock_verifier set) in
    eqb (power (mkHash 0)) (Some 100) && eqb (power (mkHash 1)) (Some 150) &&
    is_none (power (mkHash 99))).
Definition mv_test_mock_validator_set_total_voting_power_trait : bool :=
  on_set [100; 150] (λ set, eqb (total_voting_power (mock_verifier set)) 250).
Definition mv_test_mock_validator_set_quorum_voting_power : bool :=
  on_set [100; 150] (λ set, eqb (quorum_voting_power (mock_verifier set)) 167).
Definition mv_test_mock_validator_set_aggregate_signatures : bool :=
  on_set [100] (λ set, is_ok (aggregate_signatures (mock_verifier set) [mkSig 1; mkSig 2])).
Definition mock_validator_tests : Suite := [
  ("new"%string, mv_test_mock_validator_new);
  ("set_new"%string, mv_test_mock_validator_set_new);
  ("quorum_calculation"%string, mv_test_mock_validator_set_quorum_calculation);
  ("get_validator"%string, mv_test_mock_validator_set_get_validator);
  ("check_voting_power"%string, mv_test_mock_validator_set_check_voting_power);
  ("verify_vote"%string, mv_test_mock_validator_set_verify_vote);
  ("is_empty"%string, mv_test_mock_validator_set_is_empty);
  ("validator_ids"%string, mv_test_mock_validator_set_validator_ids);
  ("verify_block"%string, mv_test_mock_validator_set_verify_block);
  ("get_voting_power"%string, mv_test_mock_validator_set_get_voting_power);
  ("total_voting_power"%string, mv_test_mock_validator_set_total_voting_power_trait);
  ("quorum_voting_power"%string, mv_test_mock_validator_set_quorum_voting_power);
  ("aggregate_signatures"%string, mv_test_mock_validator_set_aggregate_signatures)].

Definition mo_test_mock_vote_new : bool :=
  let vote := MockVote_new (mkHash 1) (mkHash 2) 5 in
  eqb (vote_author vote) (mkHash 1) && eqb (vote_block_id vote) (mkHash 2) &&
  eqb (vote_round vote) 5.
Definition mo_test_mock_vote_with_signature : bool :=
  eqb (vote_signature (MockVote_with_signature (mkHash 1) (mkHash 2) 5 99)) (mkSig 99).
Definition mo_test_mock_vote_default_signature : bool :=
  eqb (vote_signature (MockVote_new (mkHash 5) (mkHash 0) 0)) (mkSig 5).
Definition mo_test_mock_vote_verify : bool :=
  ok_and (λ set, is_ok (vote_verify (MockVote_new (mkHash 1) (mkHash 2) 5)
                          (mock_verifier set)))
    (MockValidatorSet_new (E := Error) [MockValidator_new 1 100]).
Definition mo_test_mock_vote_data_verify : bool := is_ok (vd_verify mkVoteData).
Definition mo_test_mock_ledger_info_epoch : bool := eqb (li_epoch mkLedgerInfo) 0.
Definition mo_test_mock_ledger_info_round : bool := eqb (li_round mkLedgerInfo) 0.
Definition mo_test_mock_commit_info_block_id : bool :=
  eqb (ci_block_id mkCommitInfo) (mkHash 0).
Definition mo_test_mock_commit_info_epoch : bool := eqb (ci_epoch mkCommitInfo) 0.
Definition mo_test_mock_commit_info_round : bool := eqb (ci_round mkCommitInfo) 0.
Definition mo_test_mock_commit_info_version : bool := eqb (ci_version mkCommitInfo) 0.
Definition mo_test_mock_commit_info_timestamp : bool := eqb (ci_timestamp mkCommitInfo) 0.
Definition mock_vote_tests : Suite := [
  ("new"%string, mo_test_mock_vote_new);
  ("with_signature"%string, mo_test_mock_vote_with_signature);
  ("default_signature"%string, mo_test_mock_vote_default_signature);
  ("verify"%string, mo_test_mock_vote_verify);
  ("data_verify"%string, mo_test_mock_vote_data_verify);
  ("ledger_info_epoch"%string, mo_test_mock_ledger_info_epoch);
  ("ledger_info_round"%string, mo_test_mock_ledger_info_round);
  ("commit_info_block_id"%string, mo_test_mock_commit_info_block_id);
  ("commit_info_epoch"%string, mo_test_mock_commit_info_epoch);
  ("commit_info_round"%string, mo_test_mock_commit_info_round);
  ("commit_info_version"%string, mo_test_mock_commit_info_version);
  ("commit_info_timestamp"%string, mo_test_mock_commit_info_timestamp)].

Definition made (powers : list N) (n : nat) (total : N) : bool :=
  ok_and (λ validators, eqb (size (mvs_validators validators)) n &&
                        eqb (mvs_total_voting_power validators) total)
    (make_validator_set (E := Error) powers).
Definition mm_test_make_validator_set : bool := made [100; 150; 200; 250] 4 700.
Definition mm_test_make_validator_set_empty : bool := made [] 0 0.
Definition mm_test_make_validator_set_single : bool := made [1000] 1 1000.
Definition make_set_tests : Suite := [
  ("make"%string, mm_test_make_validator_set);
  ("make_empty"%string, mm_test_make_validator_set_empty);
  ("make_single"%string, mm_test_make_validator_set_single)].
End validators.

(** Every translated test passes, in both builds and both iteration orders. *)
Theorem mock_unit_tests_pass `{OV : OverflowMode} :
  Forall (λ HO : HashOrder,
    passes (types_tests ++ mock_types_tests ++ mock_block_tests ++ mock_validator_tests ++
            mock_vote_tests ++ make_set_tests)) [canonical_order; reversed_order].
Proof. destruct OV; repeat constructor; vm_compute; reflexivity. Qed.
