(* ===== verification/UnitTestsTraits.v ===== *)
(** * The unit tests of consensus-traits and proposal/generator.rs, run on the model

    The tests of core.rs, block.rs, dag.rs, safety.rs, network.rs and storage.rs
    (those of proposer.rs are in [UnitTestsLiveness]) and of the proposal
    generator, with their types. *)
From S2P Require Import Prelude.
From S2P Require Import Traits.
From S2P Require Import Interfaces.
From S2P Require Import CommonTypes.
From S2P Require Import ProposalGenerator.
From S2P Require Import Testing.

(** ** core.rs: 32-byte arrays *)
Definition tc_TestNodeId_hash : HashTrait (list N) := bytes32_hash.
Definition tc_TestNodeId_node_id : NodeIdTrait (list N) := bytes32_node_id.
Definition tc_TestHash_hash : HashTrait (list N) := bytes32_hash.
Definition tc_test_node_id_roundtrip : bool :=
  ok_and (λ id, eqb (@node_id_as_bytes _ tc_TestNodeId_node_id id) (bytes32 1))
    (@node_id_from_bytes _ tc_TestNodeId_node_id (bytes32 1)).
Definition tc_test_hash_zero : bool :=
  eqb (@hash_as_bytes _ tc_TestHash_hash (@hash_zero _ tc_TestHash_hash)) (bytes32 0).
Definition tc_test_hash_roundtrip : bool :=
  ok_and (λ h, eqb (@hash_as_bytes _ tc_TestHash_hash h) (bytes32 42))
    (@hash_from_bytes _ tc_TestHash_hash (bytes32 42)).
Definition core_tests : Suite := [
  ("node_id_roundtrip"%string, tc_test_node_id_roundtrip);
  ("hash_zero"%string, tc_test_hash_zero);
  ("hash_roundtrip"%string, tc_test_hash_roundtrip)].

(** ** block.rs *)
Record TestTransaction := mkTestTransaction { tt_data : list N }.
Definition tb_TestHash_hash : HashTrait (list N) := bytes32_hash.
Definition TestTransaction_impl : TransactionTrait TestTransaction (list N) := {|
  tx_hash _ := bytes32 0;
  tx_size t := N.of_nat (length (tt_data t));
|}.
Definition tb_test_transaction : bool :=
  eqb (@tx_size _ _ TestTransaction_impl (mkTestTransaction [1; 2; 3])) 3.
Definition block_tests : Suite := [("transaction"%string, tb_test_transaction)].

(** ** dag.rs *)
#[export] Instance NodeStatus_eq_dec : EqDecision NodeStatus.
Proof. solve_decision. Defined.
(** [assert_ne!]. *)
Definition neb {A} `{EqDecision A} (x y : A) : bool := negb (eqb x y).
Definition td_test_dag_error_display : bool :=
  eqb (DagError_to_string NodeNotFound) "Node not found in DAG"%string &&
  eqb (DagError_to_string InvalidNodeStructure) "Invalid node structure"%string.
Definition td_test_node_status_equality : bool :=
  eqb NsUnordered NsUnordered && neb NsUnordered NsOrdered.
(** The conversion to [anyhow::Error] keeps the [Display] rendering. *)
Definition td_test_node_status_copy_and_clone : bool :=
  let status1 := NsUnordered in
  let status2 := status1 in
  let status3 := NsOrdered in
  let status4 := status3 in
  eqb status1 NsUnordered && eqb status2 NsUnordered && eqb status3 status4.
Definition td_test_dag_error_into_anyhow : bool :=
  says "Node not found" (Msg (DagError_to_string NodeNotFound) []).
Definition td_test_dag_error_display_all_variants : bool :=
  eqb (DagError_to_string NodeNotFound) "Node not found in DAG"%string &&
  eqb (DagError_to_string InvalidNodeStructure) "Invalid node structure"%string &&
  eqb (DagError_to_string InvalidParents) "Invalid parent certificates"%string &&
  eqb (DagError_to_string CertificateVerificationFailed)
    "Certificate verification failed"%string &&
  eqb (DagError_to_string InsufficientVotingPower)
    "Insufficient voting power for quorum"%string &&
  eqb (DagError_to_string InvalidRound) "Invalid round number"%string &&
  eqb (DagError_to_string NodeAlreadyExists) "Node already exists"%string.
Definition td_test_node_status_all_variants : bool :=
  eqb NsUnordered NsUnordered && eqb NsOrdered NsOrdered && eqb NsCommitted NsCommitted &&
  neb NsUnordered NsOrdered && neb NsOrdered NsCommitted && neb NsUnordered NsCommitted.
Definition td_test_node_status_equality_reflexive : bool :=
  forallb (λ s, eqb s s) [NsUnordered; NsOrdered; NsCommitted].
Definition td_test_dag_error_clone_all_variants : bool :=
  forallb (λ e, eqb e e) [NodeNotFound; InvalidRound; InsufficientVotingPower].
Definition td_test_dag_error_partial_eq_all_variants : bool :=
  eqb NodeNotFound NodeNotFound && eqb InvalidNodeStructure InvalidNodeStructure &&
  eqb InvalidParents InvalidParents && neb NodeNotFound InvalidRound &&
  neb NodeAlreadyExists InvalidParents.
Definition dag_trait_tests : Suite := [
  ("error_display"%string, td_test_dag_error_display);
  ("status_copy_and_clone"%string, td_test_node_status_copy_and_clone);
  ("status_equality"%string, td_test_node_status_equality);
  ("into_anyhow"%string, td_test_dag_error_into_anyhow);
  ("display_all_variants"%string, td_test_dag_error_display_all_variants);
  ("status_all_variants"%string, td_test_node_status_all_variants);
  ("status_reflexive"%string, td_test_node_status_equality_reflexive);
  ("error_clone"%string, td_test_dag_error_clone_all_variants);
  ("error_partial_eq"%string, td_test_dag_error_partial_eq_all_variants)].

(** ** safety.rs *)
Definition tf_test_commit_decision : bool :=
  let no_commit : CommitDecision N := NoCommit in
  let commit := Commit 123 in
  negb (is_commit no_commit) && is_commit commit &&
  eqb (committed_id commit) (Some 123) && eqb (committed_id no_commit) None.
Definition safety_trait_tests : Suite := [("commit_decision"%string, tf_test_commit_decision)].

(** ** network.rs and storage.rs, whose instances are in [Interfaces] *)
Definition tn_test_validator_set `{OV : OverflowMode} : bool :=
  let set := mkTestValidatorSet
    [mkTestValidator (bytes32 1) [1; 2; 3] 100;
     mkTestValidator (bytes32 2) [4; 5; 6] 200] in
  ok_and (λ n, eqb n 300) (tvs_total_voting_power set) &&
  ok_and (λ n, eqb n 201) (tvs_quorum_threshold set).
Definition tg_test_state_view : bool :=
  let view := mkStateView in
  ok_and is_none (sv_get view [116; 101; 115; 116]) &&
  ok_and (λ l, eqb (length l) 2%nat) (sv_get_multi view [[1]; [2]]).
Definition interface_tests `{OV : OverflowMode} : Suite := [
  ("validator_set"%string, tn_test_validator_set);
  ("state_view"%string, tg_test_state_view)].

(** ** proposal/generator.rs: bytes for node ids and hashes, unit structs for
    transactions and signatures *)
Record TestMetadata := mkTestMetadata {
  pm_epoch : N; pm_round : N; pm_author : N; pm_parent_id : N; pm_timestamp : N;
}.
Record TestBlock := mkTestBlock {
  pb_metadata : TestMetadata; pb_transactions : list unit;
}.
Record TestQuorumCert := mkTestQuorumCert { pq_metadata : TestMetadata }.
Definition TestBlock_new (transactions : list unit) (metadata : TestMetadata) : TestBlock :=
  mkTestBlock metadata transactions.
Definition TestQuorumCert_new : TestQuorumCert :=
  mkTestQuorumCert (mkTestMetadata 0 0 0 0 0).
Definition gt_TestNodeId_hash : HashTrait N := const_hash 0.
Definition gt_TestNodeId_node_id : NodeIdTrait N := {|
  node_id_from_bytes _ := Ok 0; node_id_as_bytes _ := [];
|}.
Definition gt_TestHash_hash : HashTrait N := {|
  hash_zero := 0; hash_from_bytes := byte_from_bytes; hash_as_bytes _ := [];
|}.
Definition gt_TestMetadata_impl : BlockMetadata TestMetadata N N := {|
  md_epoch := pm_epoch; md_round := pm_round; md_author := pm_author;
  md_parent_id := pm_parent_id; md_timestamp := pm_timestamp;
|}.
Definition gt_TestQuorumCert_impl : QuorumCertificate TestQuorumCert TestMetadata N := {|
  qc_certified_block := pq_metadata; qc_block_id _ := 0; qc_verify _ := Ok tt;
|}.
(** [from_votes], for any vote type. *)
Definition gt_from_votes {V} : QcFromVotes TestQuorumCert V unit :=
  λ _ _, Ok TestQuorumCert_new.
Definition gt_TestTransaction_impl : TransactionTrait unit N := {|
  tx_hash _ := 0; tx_size _ := 100;
|}.
Definition gt_TestSignature_impl : SignatureTrait unit unit unit Empty_set := {|
  sig_verify _ _ _ := Ok tt; sig_to_bytes _ := []; sig_from_bytes _ := Ok tt;
  sig_aggregate _ := Ok tt;
|}.
Definition gt_TestPublicKey_impl : PublicKeyTrait unit := {|
  pk_to_bytes _ := []; pk_from_bytes _ := Ok tt;
|}.
Definition gt_TestBlock_impl : BlockTrait TestBlock unit TestMetadata unit N := {|
  block_id b := N.lxor (as_u8 (pm_round (pb_metadata b))) (pm_author (pb_metadata b));
  block_metadata := pb_metadata; block_transactions := pb_transactions;
  block_signature _ := None; block_parent_id b := pm_parent_id (pb_metadata b);
  block_is_genesis _ := false; block_is_nil _ := false;
  block_verify_signature _ := Ok tt;
  block_new_genesis := mkTestBlock (mkTestMetadata 0 0 0 0 0) [];
|}.
(** The tests have no votes; unit stands for the vote's types. *)
Definition gt_chain : Chain := {|
  Blk := TestBlock; Tx := unit; Meta := TestMetadata; BSig := unit; BHash := N;
  QCert := TestQuorumCert; QHash := N; MNode := N; MHash := N;
  Vot := unit; VData := unit; VMeta := unit; VMNode := N; VMHash := N;
  VNode := N; VSig := unit; VAgg := unit; VHash := N;
  LInfo := unit; CInfo := unit; LHash := N;
  chain_metadata := gt_TestMetadata_impl; chain_qc := gt_TestQuorumCert_impl;
  chain_from_votes := gt_from_votes; chain_block := gt_TestBlock_impl;
  chain_vmeta := const_metadata 0 0; chain_vote_data := const_vote_data tt;
  chain_ledger_info := const_ledger_info 0;
  chain_vote := {|
    vote_data _ := tt; vote_author _ := 0; vote_ledger_info _ := tt;
    vote_signature _ := tt; vote_block_id _ := 0; vote_round _ := 0;
    vote_verify _ _ := Ok tt;
  |};
|}.
#[local] Existing Instance gt_chain.
Definition gt_builder (gen : ProposalGenerator) (r : Round) (e : Epoch) (parent_id : N)
    (timestamp : N) (txns : list unit) : TestBlock :=
  TestBlock_new txns (mkTestMetadata e r (author_id gen) parent_id timestamp).

Definition gt_test_proposal_generator_new : bool :=
  let generator := ProposalGenerator_new ProposalConfig_default 1 in
  eqb (pg_config generator) ProposalConfig_default && eqb (author_id generator : N) 1.
(** At any reading of the clock; here one second after the epoch. *)
Definition gt_test_proposal_generator_generate_proposal : bool :=
  let generator := ProposalGenerator_new ProposalConfig_default 1 in
  ok_and (λ proposal, eqb (pm_epoch (pb_metadata proposal)) 2 &&
                      eqb (pm_round (pb_metadata proposal)) 5 &&
                      eqb (pm_author (pb_metadata proposal)) 1 &&
                      eqb (length (pb_transactions proposal)) 2%nat)
    (generate_proposal generator (Some 1000) TestQuorumCert_new 5 2 [tt; tt] gt_builder).
Definition gt_test_proposal_config_default : bool :=
  let config := ProposalConfig_default in
  eqb (max_block_txns config) 10000 && eqb (max_block_bytes config) (10 * 1024 * 1024) &&
  include_timestamp config.
Definition gt_test_proposal_generator_update_config : bool :=
  let generator := ProposalGenerator_new ProposalConfig_default 1 in
  let config := mkProposalConfig 5000 (max_block_bytes ProposalConfig_default) false in
  let generator := update_config config generator in
  eqb (max_block_txns (pg_config generator)) 5000 &&
  negb (include_timestamp (pg_config generator)).
Definition generator_tests : Suite := [
  ("new"%string, gt_test_proposal_generator_new);
  ("generate_proposal"%string, gt_test_proposal_generator_generate_proposal);
  ("config_default"%string, gt_test_proposal_config_default);
  ("update_config"%string, gt_test_proposal_generator_update_config)].

(** Every translated test passes, in both builds. *)
Theorem trait_unit_tests_pass `{OV : OverflowMode} :
  passes (core_tests ++ block_tests ++ dag_trait_tests ++ safety_trait_tests ++
          interface_tests ++ generator_tests).
Proof. destruct OV; apply (bool_decide_unpack _); vm_compute; exact I. Qed.
