(* ===== verification/IntegrationTests.v ===== *)
(** * The integration tests, run on the model

    The tests of consensus-core/tests that put components together:
    quorum_safety.rs, safety_comprehensive.rs, liveness_integration.rs,
    consensus_integration.rs and dag_integration.rs.  Left out are the tests that
    assert nothing. *)
From S2P Require Import Prelude.
From S2P Require Import Traits.
From S2P Require Import CommonTypes.
From S2P Require Import SafetyStateData.
From S2P Require Import Mocks.
From S2P Require Import TwoChain.
From S2P Require Import RoundState.
From S2P Require Import Aggregator.
From S2P Require Import PendingVotes.
From S2P Require Import RoundManager.
From S2P Require Import Float64.
From S2P Require Import Pacemaker.
From S2P Require Import Proposer.
From S2P Require Import EpochManager.
From S2P Require Import Pipeline.
From S2P Require Import Network.
From S2P Require Import Consensus.
From S2P Require Import Runtime.
From S2P Require Import DagTypes.
From S2P Require Import DagStore.
From S2P Require Import DagOrdering.
From S2P Require Import DagDriver.
From S2P Require Import Wire.
From S2P Require Import Testing.
#[local] Existing Instance mock_chain.

(** Both safety suites serialize a state and read it back. *)
Definition survives_serialization (state : SafetyStateData) : bool :=
  ok_and (λ serialized, ok_and (eqb state) (deserialize fixint serialized))
    (serialize fixint state).

(** ** quorum_safety.rs *)
Module QuorumSafety.
Section tests.
Context `{OV : OverflowMode} `{HO : HashOrder}.

(** [MockValidatorSet::new] on validators 0, 1, ... of the given powers. *)
Definition set_of (voting_powers : list N) : res Error MockValidatorSet :=
  MockValidatorSet_new (imap (λ i p, MockValidator_new (N.of_nat i) p) voting_powers).
(** [check_voting_power(signers, true)] on that set. *)
Definition check_signers (voting_powers signers : list N) : res VerifyError unit :=
  match set_of voting_powers with
  | Ok set => check_voting_power (mock_verifier set) (mkHash <$> signers) true
  | _ => Panic
  end.
Definition hundreds (n : nat) : list N := replicate n 100.
Abbreviation AT := (M SignatureAggregator Error unit).
Definition sign (id sig power : N) : AT := add_signature (mkHash id) (mkSig sig) power.
Definition qs_aggregator (power count : N) : AT :=
  a ← get; assert (eqb (ag_voting_power a) power && eqb (ag_signer_count a) count).

Definition qs_test_quorum_threshold_calculation : bool :=
  forallb (λ '(voting_powers, expected_total, expected_quorum),
      ok_and (λ set, eqb (mvs_total_voting_power set) expected_total &&
                     eqb (mvs_quorum_threshold set) expected_quorum) (set_of voting_powers))
    [(hundreds 3, 300, 201); (hundreds 4, 400, 267); (replicate 10 50, 500, 334);
     (hundreds 10, 1000, 667)].
Definition qs_test_quorum_rejection_insufficient_power : bool :=
  forallb (λ signers, is_err (check_signers (hundreds 4) signers)) [[0]; [0; 1]].
Definition qs_test_quorum_acceptance_sufficient_power : bool :=
  forallb (λ signers, is_ok (check_signers (hundreds 4) signers)) [[0; 1; 2]; [0; 1; 2; 3]].
Definition qs_test_duplicate_votes_not_counted : bool :=
  test aggregator_new
    (sign 0 1 100;;
     qs_aggregator 100 1;;
     sign 0 2 100;;
     qs_aggregator 100 1;;
     a ← get;
     assert (has_signed a (mkHash 0))).
Definition qs_test_voting_power_accumulation : bool :=
  test aggregator_new
    (sign 0 0 150;; sign 1 1 200;; sign 2 2 250;; qs_aggregator 600 3).
Definition qs_test_empty_aggregator_zero_power : bool :=
  test aggregator_new
    (qs_aggregator 0 0;; a ← get; assert (negb (has_signed a (mkHash 0)))).
Definition qs_test_quorum_threshold_edge_cases : bool :=
  is_err (check_signers (hundreds 3) [0; 1]) &&
  is_ok (check_signers (hundreds 3) [0; 1; 2]).
Definition qs_test_zero_voting_power_validators : bool :=
  test aggregator_new (sign 0 0 0;; sign 1 1 100;; qs_aggregator 100 2).
Definition qs_test_signature_aggregation_preserves_signers : bool :=
  test aggregator_new
    (sign 0 0 100;; sign 1 1 150;; sign 2 2 200;;
     a ← get;
     assert (eqb (length (signers a)) 3%nat);;
     assert (forallb (λ i, existsb (λ s, eqb (inner s) i) (signers a)) [0; 1; 2])).
Definition qs_test_quorum_threshold_monotonic : bool :=
  forallb (λ count,
      match set_of (hundreds count), set_of (hundreds (count - 1)) with
      | Ok set, Ok prev_set =>
          (count <=? 1)%nat || (mvs_quorum_threshold prev_set <=? mvs_quorum_threshold set)
      | _, _ => false
      end) (seq 1 20).
Definition qs_test_voting_power_bounded_by_total : bool :=
  ok_and (λ set,
      test aggregator_new
        (for_each [(0, 100); (1, 150); (2, 200); (3, 250)] (λ '(idx, power),
           sign idx idx power;;
           a ← get;
           assert (ag_voting_power a <=? mvs_total_voting_power set))))
    (set_of [100; 150; 200; 250]).
Definition qs_test_single_validator_cannot_form_quorum : bool :=
  forallb (λ i, is_err (check_signers [100; 150; 200; 250] [i])) [0; 1; 2; 3].

Definition quorum_safety : Suite := [
  ("threshold_calculation"%string, qs_test_quorum_threshold_calculation);
  ("insufficient_power"%string, qs_test_quorum_rejection_insufficient_power);
  ("sufficient_power"%string, qs_test_quorum_acceptance_sufficient_power);
  ("duplicates"%string, qs_test_duplicate_votes_not_counted);
  ("accumulation"%string, qs_test_voting_power_accumulation);
  ("empty"%string, qs_test_empty_aggregator_zero_power);
  ("edge_cases"%string, qs_test_quorum_threshold_edge_cases);
  ("zero_power"%string, qs_test_zero_voting_power_validators);
  ("preserves_signers"%string, qs_test_signature_aggregation_preserves_signers);
  ("monotonic"%string, qs_test_quorum_threshold_monotonic);
  ("bounded_by_total"%string, qs_test_voting_power_bounded_by_total);
  ("single_validator"%string, qs_test_single_validator_cannot_form_quorum)].
End tests.
End QuorumSafety.

(** ** safety_comprehensive.rs *)
Module SafetyComprehensive.
Section tests.
Context `{OV : OverflowMode}.
Abbreviation TT := (M TwoChainSafetyRules Error).

(** [round * 1000] and [(round - 1) % 256] of the tests do not overflow. *)
Definition make_block (round epoch author : N) (parent_id : MockHash) : MockBlock :=
  mkBlock (mkMeta epoch round (mkHash author) parent_id (round * 1000)) [].
Definition make_qc (round epoch : N) (id : MockHash) : MockQuorumCert :=
  mkQC (mkMeta epoch round id id (round * 1000)) id.
Definition sc_id (b : MockBlock) : MockHash := block_id b.
(** [observe_qc(..).unwrap()] and the like. *)
Definition observe (round : N) : TT unit := unwrap (observe_qc (make_qc round 1 (mkHash round))).
Definition record (round : N) : TT unit := unwrap (record_vote round).
Definition may_vote (b : MockBlock) : TT bool :=
  r ← get; mret (is_ok (safe_to_vote r b None)).
Definition one_chain : TT N := gets (λ r, one_chain_round (state r)).
Definition last_voted : TT N := gets (λ r, last_voted_round (state r)).
Definition commit_on (b : MockBlock) : TT (option MockHash) := gets (λ r, should_commit r b).
Definition state_is (s : SafetyStateData) (e lv p oc ht : N) : bool :=
  eqb (epoch s) e && eqb (last_voted_round s) lv && eqb (preferred_round s) p &&
  eqb (one_chain_round s) oc && eqb (highest_timeout_round s) ht.

Definition sc_test_safe_to_vote_normal_progression : bool :=
  test (rules_new 1) (observe 4;; b ← may_vote (make_block 5 1 1 (mkHash 4)); assert b).
Definition sc_test_safe_to_vote_consecutive_rounds : bool :=
  test (rules_new 1) (b ← may_vote (make_block 10 1 1 (mkHash 9)); assert b).
Definition sc_test_safe_to_timeout_normal : bool :=
  test (rules_new 1) (observe 3;; r ← get; assert (is_ok (safe_to_timeout r 4 3 None))).
Definition sc_test_unsafe_to_timeout_qc_below_one_chain : bool :=
  test (rules_new 1) (observe 5;; r ← get; assert (is_err (safe_to_timeout r 6 3 None))).
Definition sc_test_safe_to_timeout_qc_equals_one_chain : bool :=
  test (rules_new 1) (observe 5;; r ← get; assert (is_ok (safe_to_timeout r 6 5 None))).

Definition sc_genesis : MockBlock := make_block 0 1 0 (mkHash 0).
Definition sc_b1 : MockBlock := make_block 1 1 1 (sc_id sc_genesis).
Definition sc_b2 : MockBlock := make_block 2 1 1 (sc_id sc_b1).
Definition sc_b3 : MockBlock := make_block 3 1 1 (sc_id sc_b2).
Definition observe_block (round : N) (b : MockBlock) : TT unit :=
  unwrap (observe_qc (make_qc round 1 (sc_id b))).
Definition sc_test_commit_with_two_chain : bool :=
  test (rules_new 1)
    (observe_block 1 sc_b1;; h ← commit_on sc_b2; assert (eqb h (Some (sc_id sc_b1)))).
Definition sc_test_no_commit_without_two_chain : bool :=
  test (rules_new 1) (observe_block 2 sc_b2;; h ← commit_on sc_b1; assert (is_none h)).
Definition sc_test_commit_from_genesis : bool :=
  test (rules_new 1)
    (observe_block 1 sc_b1;; h ← commit_on sc_b2; assert (eqb h (Some (sc_id sc_b1)))).
Definition sc_test_three_chain_commits_middle : bool :=
  test (rules_new 1)
    (observe_block 1 sc_b1;; observe_block 2 sc_b2;; observe_block 3 sc_b3) &&
  test (rules_new 1)
    (observe_block 1 sc_b1;; observe_block 2 sc_b2;;
     h ← commit_on sc_b3;
     assert (eqb h (Some (sc_id sc_b2)))).

Definition sc_test_double_vote_prevention : bool :=
  test (rules_new 1)
    (record 10;;
     lv ← last_voted;
     assert (eqb lv 10);;
     r ← attempt (record_vote 5);
     assert (is_err r);;
     r ← attempt (record_vote 10);
     assert (is_ok r);;
     record 15;;
     lv ← last_voted;
     assert (eqb lv 15)).
Definition sc_test_qc_updates_one_chain_round : bool :=
  test (rules_new 1)
    (o ← one_chain;
     assert (eqb o 0);;
     for_each [(3, 3); (7, 7); (5, 7)] (λ '(round, expected),
       observe round;; o ← one_chain; assert (eqb o expected))).
Definition sc_test_state_recovery : bool :=
  state_is (state (with_state (mkSafetyState 5 100 100 98 50))) 5 100 100 98 50.
Definition sc_test_safety_state_invariants : bool :=
  let s := mkSafetyState 1 10 10 8 5 in
  let s2 := (update_preferred_round 15 s).1 in
  (one_chain_round s <=? preferred_round s) && eqb (preferred_round s2) 15 &&
  eqb (one_chain_round (update_one_chain_round 12 s2).1) 12.
Definition sc_test_preferred_round_monotonicity : bool :=
  let s := (update_preferred_round 10 (mkSafetyState 1 0 5 3 0)).1 in
  eqb (preferred_round s) 10 && eqb (preferred_round (update_preferred_round 8 s).1) 10.
Definition sc_test_one_chain_round_monotonicity : bool :=
  let s := (update_one_chain_round 5 (mkSafetyState 1 0 3 3 0)).1 in
  eqb (one_chain_round s) 5 && eqb (one_chain_round (update_one_chain_round 2 s).1) 5.
Definition sc_test_epoch_transition : bool :=
  test (rules_new 1)
    (b ← may_vote (make_block 10 1 1 (mkHash 9));
     assert b;;
     record 10;;
     modify (λ _, with_state (mkSafetyState 2 0 0 0 0));;
     b ← may_vote (make_block 1 2 1 (mkHash 0));
     assert b;;
     e ← gets (λ r, epoch (state r));
     assert (eqb e 2)).
Definition sc_test_epochs_maintain_separate_state : bool :=
  eqb (epoch (state (rules_new 1))) 1 && eqb (epoch (state (rules_new 2))) 2.
Definition sc_test_vote_same_round_idempotent : bool :=
  test (rules_new 1) (record 5;; record 5;; record 5;; lv ← last_voted; assert (eqb lv 5)).
Definition sc_test_large_round_numbers : bool :=
  test (rules_new 1)
    (unwrap (observe_qc (make_qc 999999 1 (mkHash 1)));;
     b ← may_vote (mkBlock (mkMeta 1 1000000 (mkHash 1) (mkHash 0) 1000) []);
     assert b).
Definition sc_test_genesis_round : bool :=
  test (rules_new 1) (h ← commit_on sc_genesis; assert (is_none h)).
Definition sc_test_consecutive_rounds : bool :=
  test (rules_new 1)
    (for_each (N.of_nat <$> seq 1 20) (λ round,
       b ← may_vote (make_block round 1 1 (mkHash ((round - 1) mod 256)));
       assert b;;
       record round);;
     lv ← last_voted;
     assert (eqb lv 20)).
Definition sc_block (round : N) : MockBlock :=
  make_block round 1 1 (mkHash ((round - 1) mod 256)).
Definition sc_test_multiple_consecutive_qcs : bool :=
  test (rules_new 1)
    (for_each (N.of_nat <$> seq 0 11) (λ round,
       observe_block round (sc_block round);; o ← one_chain; assert (eqb o round))) &&
  test (rules_new 1)
    (for_each (N.of_nat <$> seq 1 10) (λ i,
       observe_block i (sc_block i);;
       if i <? 10 then h ← commit_on (sc_block (i + 1)); assert (is_some h) else mret tt)).
(** [SafetyStateData::default()], which is derived. *)
Definition SafetyStateData_default : SafetyStateData := mkSafetyState 0 0 0 0 0.
Definition sc_test_safety_state_serialization : bool :=
  survives_serialization (mkSafetyState 5 100 100 98 50).
Definition sc_test_empty_safety_state : bool := state_is SafetyStateData_default 0 0 0 0 0.
Definition sc_test_voting_with_uninitialized_state : bool :=
  test (rules_new 1) (observe 0;; b ← may_vote (make_block 1 1 1 (mkHash 0)); assert b).

Definition safety_comprehensive : Suite := [
  ("normal_progression"%string, sc_test_safe_to_vote_normal_progression);
  ("consecutive"%string, sc_test_safe_to_vote_consecutive_rounds);
  ("timeout_normal"%string, sc_test_safe_to_timeout_normal);
  ("timeout_below_one_chain"%string, sc_test_unsafe_to_timeout_qc_below_one_chain);
  ("timeout_at_one_chain"%string, sc_test_safe_to_timeout_qc_equals_one_chain);
  ("commit_two_chain"%string, sc_test_commit_with_two_chain);
  ("no_commit"%string, sc_test_no_commit_without_two_chain);
  ("commit_from_genesis"%string, sc_test_commit_from_genesis);
  ("three_chain"%string, sc_test_three_chain_commits_middle);
  ("double_vote"%string, sc_test_double_vote_prevention);
  ("qc_updates_one_chain"%string, sc_test_qc_updates_one_chain_round);
  ("state_recovery"%string, sc_test_state_recovery);
  ("invariants"%string, sc_test_safety_state_invariants);
  ("preferred_monotone"%string, sc_test_preferred_round_monotonicity);
  ("one_chain_monotone"%string, sc_test_one_chain_round_monotonicity);
  ("epoch_transition"%string, sc_test_epoch_transition);
  ("epochs_separate"%string, sc_test_epochs_maintain_separate_state);
  ("same_round"%string, sc_test_vote_same_round_idempotent);
  ("large_rounds"%string, sc_test_large_round_numbers);
  ("genesis"%string, sc_test_genesis_round);
  ("consecutive_rounds"%string, sc_test_consecutive_rounds);
  ("consecutive_qcs"%string, sc_test_multiple_consecutive_qcs);
  ("serialization"%string, sc_test_safety_state_serialization);
  ("empty_state"%string, sc_test_empty_safety_state);
  ("uninitialized"%string, sc_test_voting_with_uninitialized_state)].
End tests.
End SafetyComprehensive.

(** ** liveness_integration.rs *)
Module LivenessIntegration.
Section tests.
Context `{OV : OverflowMode}.
#[local] Instance exponential_strategy : RoundIntervalStrategy ExponentialIntervalStrategy :=
  exponential_duration exact_powf.
Abbreviation PT := (M (Pacemaker ExponentialIntervalStrategy) Error unit).

(** [ExponentialIntervalStrategy::new(100ms, 2.0, 4)] and a test on a pacemaker
    with it. *)
Definition lv_strategy : res Error ExponentialIntervalStrategy :=
  ExponentialIntervalStrategy_new exact_powf (from_millis 100) (f64_of_N 2) 4.
Definition lv_pacemaker (config : PacemakerConfig) (m : PT) : bool :=
  ok_and (λ s, test (Pacemaker_new s config) m) lv_strategy.
Definition lv_config : PacemakerConfig := mkPacemakerConfig 100 (f64_of_N 2) 4 1.
Definition lv_round (n : Round) : PT := p ← get; assert (eqb (pm_current_round p) n).
Definition lv_elects {PE} `{!ProposerElection PE TestAuthor} (e : PE) (round author : N) :
    bool := ok_and (λ a, eqb (ta_inner <$> a) (Some author)) (get_valid_proposer e round).
Definition lv_authors : RoundRobinProposer TestAuthor :=
  mkRoundRobin (create_test_authors 3) ProposerElectionConfig_default.
(** How often author [a] is elected in rounds 1 to 100. *)
Definition lv_count (wp : WeightedProposer TestAuthor) (a : N) : nat :=
  length (filter (λ n, lv_elects wp (N.of_nat n) a = true) (seq 1 100)).

Definition lv_test_pacemaker_round_progression : bool :=
  lv_pacemaker lv_config
    (unwrap (record_ordered_round 1);;
     event1 ← unwrap (enter_new_round 2);
     assert (eqb (ev_round event1) 2 && eqb (ev_reason event1) NrQuorumCertificate);;
     event2 ← unwrap (enter_new_round 3);
     assert (eqb (ev_round event2) 3);;
     lv_round 3).
Definition lv_test_pacemaker_timeout : bool :=
  lv_pacemaker PacemakerConfig_default
    (unwrap (record_ordered_round 1);;
     p ← get;
     timeout ← lift (current_round_timeout p);
     assert (eqb timeout (from_millis 100))).
Definition lv_test_exponential_interval_strategy : bool :=
  ok_and (λ s, forallb (λ '(n, ms), eqb (exponential_duration exact_powf s n) (from_millis ms))
    [(0, 100); (1, 200); (2, 400); (10, 1600)]) lv_strategy.
Definition lv_test_round_robin_proposer : bool :=
  lv_elects lv_authors 1 1 && lv_elects lv_authors 2 2 && lv_elects lv_authors 3 3 &&
  lv_elects lv_authors 4 1.
Definition lv_test_weighted_proposer : bool :=
  ok_and (λ election,
      let count1 := lv_count election 1 in
      let count2 := lv_count election 2 in
      (count1 <? count2)%nat && eqb (count1 + count2)%nat 100%nat)
    (WeightedProposer_new (E:=Error) [(mkTestAuthor 1, 30); (mkTestAuthor 2, 70)]
       ProposerElectionConfig_default).
Definition lv_test_network_message_processing : bool :=
  test (SimpleMessageHandler_new NetworkConfig_default)
    (result ← unwrap (process_message (NmTimeout 10 : NetworkMessage MockBlock MockVote));
     assert (eqb result (PrNeedsAction "Process timeout"));;
     s ← gets smh_stats;
     assert (eqb (total_processed s) 1 && eqb (needs_action s) 1)).
Definition lv_process : M Pipeline Error PipelineResult :=
  unwrap (process_block MockBlock_genesis).
Definition lv_test_pipeline_stages : bool :=
  test (Pipeline_new PipelineConfig_default)
    (result ← lv_process;
     assert (is_completed result);;
     p ← get;
     assert (eqb (pl_total_processed (pl_stats p)) 4)).
Definition lv_test_pipeline_stopped : bool :=
  eqb (pl_current_stage (Pipeline_new PipelineConfig_default)) Receiving.
Definition lv_test_new_round_reason_display : bool :=
  eqb (NewRoundReason_to_string NrQuorumCertificate) "QCReady"%string &&
  eqb (NewRoundReason_to_string (NrTimeout 5)) "Timeout(rounds_since_ordered=5)"%string.
Definition lv_test_stage_progression : bool :=
  eqb (Stage_next Receiving) (Some Validation) &&
  eqb (Stage_next Validation) (Some Processing) &&
  eqb (Stage_next Processing) (Some SCommit) && is_none (Stage_next SCommit).
Definition lv_test_integration_end_to_end : bool :=
  lv_pacemaker lv_config (lv_round 1;; unwrap (enter_new_round 2);; lv_round 2) &&
  lv_elects lv_authors 1 1 &&
  eqb (total_processed (smh_stats (SimpleMessageHandler_new NetworkConfig_default))) 0 &&
  test (Pipeline_new PipelineConfig_default)
    (p ← get;
     assert (eqb (pl_total_processed (pl_stats p)) 0);;
     lv_process;;
     p ← get;
     assert (eqb (pl_total_processed (pl_stats p)) 4)).

Definition liveness_integration : Suite := [
  ("round_progression"%string, lv_test_pacemaker_round_progression);
  ("pacemaker_timeout"%string, lv_test_pacemaker_timeout);
  ("interval_strategy"%string, lv_test_exponential_interval_strategy);
  ("round_robin"%string, lv_test_round_robin_proposer);
  ("weighted"%string, lv_test_weighted_proposer);
  ("network_message"%string, lv_test_network_message_processing);
  ("pipeline_stages"%string, lv_test_pipeline_stages);
  ("pipeline_stopped"%string, lv_test_pipeline_stopped);
  ("reason_display"%string, lv_test_new_round_reason_display);
  ("stage_progression"%string, lv_test_stage_progression);
  ("end_to_end"%string, lv_test_integration_end_to_end)].
End tests.
End LivenessIntegration.

(** ** consensus_integration.rs: [TestAuthor(u8)] is its byte *)
Module ConsensusIntegration.
Section tests.
Context `{OV : OverflowMode} `{HO : HashOrder}.
#[local] Instance exponential_strategy : RoundIntervalStrategy ExponentialIntervalStrategy :=
  exponential_duration exact_powf.
Abbreviation TestProposerElection := (RoundRobinProposer N).
Abbreviation TestConsensus := (Consensus TestProposerElection N).
Abbreviation TestRuntime := (ConsensusRuntime TestProposerElection N).
Abbreviation CT := (M TestConsensus Error).

Definition create_test_block (round epoch author : N) : MockBlock :=
  mkBlock (mkMeta epoch round (mkHash author) (mkHash (as_u8 (round - 1))) (round * 1000)) [].
Definition cg_proposer (n : N) : TestProposerElection :=
  mkRoundRobin (N.of_nat <$> seq 1 (N.to_nat n)) (mkElectionConfig n 1).
Definition cg_config : ConsensusConfig :=
  let d := ConsensusConfig_default in
  mkConsensusConfig 1 1 (pacemaker_config d) (round_manager_config d) (pipeline_config d)
    (max_rounds_per_epoch d).
Definition setup_consensus : res Error TestConsensus :=
  build_consensus exact_powf
    (with_proposer_election (cg_proposer 4) (with_config cg_config ConsensusBuilder_new)).
Definition setup_runtime : res Error TestRuntime :=
  consensus ← setup_consensus; Ok (ConsensusRuntime_new consensus RuntimeConfig_default).
Definition cg_run (m : CT unit) : bool := ok_and (λ c, test c m) setup_consensus.
Definition cg_started (m : CT unit) : bool := cg_run (unwrap start;; m).
Definition cg_runtime (m : M TestRuntime Error unit) : bool :=
  ok_and (λ r, test r m) setup_runtime.
Definition cg_state_is (name : string) : CT unit :=
  st ← gets c_state; assert (eqb (ConsensusState_to_string st) name).
Definition cg_epoch_is (e : N) : CT unit := c ← get; assert (eqb (c_epoch c) e).
Definition cg_proposal_ok : CT unit :=
  proposal ← attempt consensus_generate_proposal; assert (is_ok proposal).
Definition cg_timeout (round : Round) : CT unit :=
  attempt (consensus_process_timeout exact_powf round);; mret tt.

Definition cg_test_consensus_lifecycle : bool :=
  cg_run
    (r ← attempt start;
     assert (is_ok r);;
     cg_epoch_is 1;;
     c ← get;
     assert (eqb (c_round c) 0);;
     r ← attempt stop;
     assert (is_ok r)).
Definition cg_test_consensus_round_progression : bool :=
  cg_started (c ← get; cg_timeout (c_round c)).
Definition cg_test_consensus_generate_proposal : bool := cg_started cg_proposal_ok.
Definition cg_test_consensus_epoch_transition : bool := cg_started (cg_epoch_is 1).
Definition cg_test_runtime_lifecycle : bool :=
  cg_runtime
    (r ← attempt rt_start;
     b ← gets rt_is_running;
     assert (is_ok r && b);;
     r ← attempt shutdown;
     b ← gets rt_is_running;
     assert (is_ok r && negb b)).
Definition cg_test_runtime_message_handling : bool :=
  cg_runtime
    (unwrap rt_start;;
     modify (add_network_message (RmProposal (create_test_block 1 1 1)));;
     n ← gets pending_message_count;
     assert (eqb n 1%nat);;
     results ← unwrap (process_pending_messages exact_powf);
     assert (eqb (length results) 1%nat)).
Definition cg_test_runtime_message_display : bool :=
  let display := RtMessage_to_string (RmProposal (create_test_block 1 1 1)) in
  contains "Proposal" display && contains "1" display.
Definition cg_test_execution_result : bool :=
  er_is_success ErSuccess && negb (er_is_success (ErFailed (Msg "test" []))) &&
  negb (er_is_success ErTimeout) && negb (er_is_success (ErSkipped "test")).
Definition cg_test_epoch_manager_integration : bool :=
  test (EpochManager_new (mkEpochManagerConfig 1 false))
    (e ← gets em_epoch;
     assert (eqb e 1);;
     r ← attempt (start_new_epoch 2 (Some 0));
     e ← gets em_epoch;
     assert (is_ok r && eqb e 2)).
Definition cg_test_round_manager_integration : bool :=
  test (RoundManager_new RoundManagerConfig_default (rules_new 0))
    (r ← attempt (RoundManager.start_round 1);
     m ← get;
     assert (is_ok r && eqb (rm_round m) 1)).
Definition cg_test_pacemaker_integration : bool :=
  ok_and (λ s,
      let pacemaker := Pacemaker_new s PacemakerConfig_default in
      let should_timeout := check_timeout pacemaker (from_millis 150) in
      eqb (pm_current_round pacemaker) 1 && (should_timeout || negb should_timeout))
    (ExponentialIntervalStrategy_new (E:=Error) exact_powf (from_millis 100) (f64_of_N 2) 10).
Definition cg_test_pipeline_integration : bool :=
  eqb (pl_current_stage (Pipeline_new PipelineConfig_default)) Receiving.
Definition cg_test_full_consensus_flow : bool :=
  cg_started
    (cg_proposal_ok;;
     unwrap (consensus_process_timeout exact_powf 1);;
     unwrap stop).
Definition cg_test_multiple_rounds_flow : bool :=
  cg_started
    (c ← get;
     for_each [0; 1; 2; 3; 4] (λ i, cg_timeout (c_round c + i));;
     cg_state_is "running").
Definition cg_test_epoch_boundary : bool := cg_started (cg_epoch_is 1;; cg_proposal_ok).
Definition cg_test_consensus_state : bool :=
  cg_run
    (cg_state_is "bootstrapping";;
     unwrap start;;
     cg_state_is "running";;
     unwrap stop;;
     cg_state_is "stopped").
Definition cg_test_runtime_config : bool :=
  let config := RuntimeConfig_default in
  eqb (process_interval_ms config) 100 && eqb (max_concurrent_tasks config) 10 &&
  eqb (process_interval config) (from_millis 100).
Definition cg_test_consensus_config : bool :=
  eqb (cc_initial_round ConsensusConfig_default) 1 &&
  eqb (cc_initial_epoch ConsensusConfig_default) 0.
Definition cg_test_proposer_rotation : bool :=
  forallb (λ '(round, author), ok_and (eqb (Some author))
             (get_valid_proposer (cg_proposer 3) round))
    [(1, 1); (2, 2); (3, 3); (4, 1)].
Definition cg_test_block_sequence : bool :=
  let block1 := create_test_block 1 1 1 in
  let block2 := create_test_block 2 1 1 in
  eqb (block_round block1) 1 && eqb (md_epoch (block_metadata block1)) 1 &&
  eqb (block_round block2) 2 && eqb (block_id block1) (mkHash (N.lxor 1 1)) &&
  eqb (block_id block2) (mkHash (N.lxor 2 1)) &&
  eqb (md_parent_id (block_metadata block2)) (mkHash 1).
Definition cg_test_consensus_restart : bool :=
  cg_run
    (unwrap start;;
     round1 ← gets c_round;
     unwrap stop;;
     unwrap start;;
     round2 ← gets c_round;
     unwrap stop;;
     assert (round1 <=? round2)).
Definition cg_test_concurrent_operations : bool :=
  cg_started
    (attempt consensus_generate_proposal;;
     r ← attempt stop;
     assert (is_ok r)).
(** The tests of the safety rules; [1 * 1000] and the like do not overflow. *)
Definition cg_test_safety_state_persistence_across_restart : bool :=
  test (rules_new 1)
    (unwrap (record_vote 5);;
     state1 ← gets state;
     modify (λ _, with_state state1);;
     s ← gets state;
     assert (eqb (last_voted_round s) 5 && eqb (epoch s) 1);;
     r ← attempt (record_vote 3);
     assert (is_err r);;
     r ← attempt (record_vote 6);
     assert (is_ok r)).
Definition cg_test_two_chain_commit_rule_enforcement : bool :=
  test (rules_new 1)
    (rules ← get;
     assert (is_ok (safe_to_vote rules (create_test_block 5 1 1) None));;
     unwrap (record_vote 5);;
     s ← gets state;
     assert (eqb (last_voted_round s) 5)).
Definition cg_test_double_vote_prevention : bool :=
  test (rules_new 1)
    (rules ← get;
     assert (is_ok (safe_to_vote rules (create_test_block 5 1 1) None));;
     unwrap (record_vote 5);;
     r ← attempt (record_vote 5);
     assert (is_ok r)).
Definition cg_test_one_chain_round_progression : bool :=
  eqb (one_chain_round (update_one_chain_round 5 (mkSafetyState 1 0 3 3 0)).1) 5.
Definition cg_test_preferred_round_progression : bool :=
  let s := (update_preferred_round 10 (mkSafetyState 1 0 5 3 0)).1 in
  eqb (preferred_round s) 10 && eqb (preferred_round (update_preferred_round 8 s).1) 10.
Definition cg_test_safety_state_invariants : bool :=
  let s := mkSafetyState 1 10 10 8 5 in
  (one_chain_round s <=? preferred_round s) && (0 <=? highest_timeout_round s).
Definition cg_test_safety_state_serialization : bool :=
  survives_serialization (mkSafetyState 5 10 10 8 3).

Definition consensus_integration : Suite := [
  ("lifecycle"%string, cg_test_consensus_lifecycle);
  ("round_progression"%string, cg_test_consensus_round_progression);
  ("generate_proposal"%string, cg_test_consensus_generate_proposal);
  ("epoch_transition"%string, cg_test_consensus_epoch_transition);
  ("runtime_lifecycle"%string, cg_test_runtime_lifecycle);
  ("runtime_messages"%string, cg_test_runtime_message_handling);
  ("runtime_display"%string, cg_test_runtime_message_display);
  ("execution_result"%string, cg_test_execution_result);
  ("epoch_manager"%string, cg_test_epoch_manager_integration);
  ("round_manager"%string, cg_test_round_manager_integration);
  ("pacemaker"%string, cg_test_pacemaker_integration);
  ("pipeline"%string, cg_test_pipeline_integration);
  ("full_flow"%string, cg_test_full_consensus_flow);
  ("multiple_rounds"%string, cg_test_multiple_rounds_flow);
  ("epoch_boundary"%string, cg_test_epoch_boundary);
  ("state"%string, cg_test_consensus_state);
  ("runtime_config"%string, cg_test_runtime_config);
  ("consensus_config"%string, cg_test_consensus_config);
  ("rotation"%string, cg_test_proposer_rotation);
  ("block_sequence"%string, cg_test_block_sequence);
  ("restart"%string, cg_test_consensus_restart);
  ("operations"%string, cg_test_concurrent_operations);
  ("persistence"%string, cg_test_safety_state_persistence_across_restart);
  ("commit_rule"%string, cg_test_two_chain_commit_rule_enforcement);
  ("double_vote"%string, cg_test_double_vote_prevention);
  ("serialization"%string, cg_test_safety_state_serialization);
  ("one_chain"%string, cg_test_one_chain_round_progression);
  ("preferred"%string, cg_test_preferred_round_progression);
  ("invariants"%string, cg_test_safety_state_invariants)].
End tests.
End ConsensusIntegration.

(** ** dag_integration.rs *)
Module DagIntegration.
Section tests.
Context `{OV : OverflowMode}.
Record TestAnchorElection := mkTestAnchorElection {}.
#[local] Instance TestAnchorElection_impl :
    AnchorElection TestAnchorElection TestRound TestAuthor := {|
  get_anchor _ _ := Ok (mkTestAuthor 1);
  ae_update_reputation e _ := e;
|}.
Definition dg_metadata (n : TestCertifiedNode) := ni_metadata (cni_node n).
Definition dg_round_of (n : TestCertifiedNode) : N :=
  tr_inner (nid_round (mi_node_id (dg_metadata n))).

Definition dg_test_dag_storage_basic : bool :=
  let store : InMemDag TestRound TestAuthor TestCertifiedNode :=
    InMemDag_new (create_test_authors 3) DagStoreConfig_default in
  dag_is_empty TestRound_le store && eqb (num_authors store) 3%nat &&
  eqb (dag_len TestRound_le store) 0%nat.
Definition dg_test_dag_driver_creation : bool :=
  let driver : DagDriver TestRound TestAuthor TestCertifiedNode TestAnchorElection :=
    DagDriver_new (create_test_authors 3) mkTestAnchorElection (mkTestRound 1)
      DagDriverConfig_default in
  eqb (tr_inner (dd_current_round driver)) 1 && eqb (pending_count driver) 0%nat.
Definition dg_test_test_node_builder : bool :=
  let node := tb_build (tb_with_timestamp 1000 (tb_with_author 5 (tb_with_round 10
                (tb_with_epoch 1 TestNodeBuilder_new)))) in
  let node_id := mi_node_id (dg_metadata node) in
  eqb (te_inner (nid_epoch node_id)) 1 && eqb (tr_inner (nid_round node_id)) 10 &&
  eqb (ta_inner (nid_author node_id)) 5 && eqb (mi_timestamp (dg_metadata node)) 1000.
Definition dg_test_create_test_dag : bool :=
  ok_and (λ nodes, eqb (length nodes) 6%nat &&
                   none_or (λ n, eqb (dg_round_of n) 1) (nodes !! 0%nat))
    (create_test_dag 2 (create_test_authors 3)).
Definition dg_test_ordering_config_default : bool :=
  let config := OrderingConfig_default in
  eqb (oc_window_size config) 100 && eqb (oc_anchor_interval config) 2.
Definition dg_test_dag_driver_config_default : bool :=
  let config := DagDriverConfig_default in
  eqb (dd_window_size config) 100 && eqb (dd_anchor_interval config) 2 &&
  eqb (max_concurrent_rounds config) 10.
Definition dg_test_round_robin_anchor_election : bool :=
  ok_and (λ a, eqb (ta_inner a) 1)
    (get_anchor (mkAnchorElection (mkTestAuthor <$> [1; 2; 3])) (mkTestRound 0)).

Definition dag_integration : Suite := [
  ("storage_basic"%string, dg_test_dag_storage_basic);
  ("driver_creation"%string, dg_test_dag_driver_creation);
  ("node_builder"%string, dg_test_test_node_builder);
  ("test_dag"%string, dg_test_create_test_dag);
  ("ordering_config"%string, dg_test_ordering_config_default);
  ("driver_config"%string, dg_test_dag_driver_config_default);
  ("anchor_election"%string, dg_test_round_robin_anchor_election)].
End tests.
End DagIntegration.

(** Every translated test passes, in both builds and two iteration orders. *)
Theorem integration_tests_pass `{OV : OverflowMode} :
  Forall (λ HO : HashOrder,
    passes (QuorumSafety.quorum_safety ++ SafetyComprehensive.safety_comprehensive ++
            LivenessIntegration.liveness_integration ++
            ConsensusIntegration.consensus_integration ++ DagIntegration.dag_integration))
    [canonical_order; reversed_order].
Proof. destruct OV; repeat constructor; vm_compute; reflexivity. Qed.
