(* ===== verification/CoverageTests.v ===== *)
(** * The coverage suite of the DAG, network and pipeline modules, run on the model

    consensus-core/tests/dag_network_pipeline_coverage.rs, without the two tests
    that only construct messages. *)
From S2P Require Import Prelude.
From S2P Require Import Traits.
From S2P Require Import Mocks.
From S2P Require Import Pacemaker.
From S2P Require Import Pipeline.
From S2P Require Import Network.
From S2P Require Import DagTypes.
From S2P Require Import DagStore.
From S2P Require Import DagOrdering.
From S2P Require Import Testing.

(** ** dag/ordering.rs: its own newtypes are the ones of dag/testing.rs *)
Definition dc_id (epoch round author : N) : DagNodeId N TestRound TestAuthor :=
  mkNodeId epoch (mkTestRound round) (mkTestAuthor author).
#[export] Instance dc_id_eq_dec : EqDecision (DagNodeId N TestRound TestAuthor).
Proof. solve_decision. Defined.
Definition dc_authors (l : list N) : list TestAuthor := mkTestAuthor <$> l.

Definition dc_test_ordering_config_all_fields : bool :=
  let config := mkOrderingConfig 200 5 in
  eqb (oc_window_size config) 200 && eqb (oc_anchor_interval config) 5.
Definition dc_test_ordering_config_default : bool :=
  let config := OrderingConfig_default in
  eqb (oc_window_size config) 100 && eqb (oc_anchor_interval config) 2.
Definition dc_test_commit_event_new_and_fields : bool :=
  let id := dc_id 1 10 5 in
  let parents := dc_authors [1; 2; 3] in
  let failed := dc_authors [4] in
  let event := mkCommitEvent id parents failed in
  eqb (anchor_id event) id && eqb (ce_parents event) parents &&
  eqb (failed_authors event) failed && eqb (length (ce_parents event)) 3%nat &&
  eqb (length (failed_authors event)) 1%nat.
Definition dc_test_round_robin_anchor_methods : bool :=
  let election := mkAnchorElection (dc_authors [1; 2; 3]) in
  ok_and (λ a, eqb a (mkTestAuthor 1)) (get_anchor election (mkTestRound 0)) &&
  eqb (get_author_index election (mkTestAuthor 1)) (Some 0%nat) &&
  eqb (get_author_index election (mkTestAuthor 2)) (Some 1%nat) &&
  is_none (get_author_index election (mkTestAuthor 99)).

Section tests.
Context `{OV : OverflowMode}.

(** ** network/mod.rs *)
Abbreviation Message := (NetworkMessage MockBlock MockVote).
Definition dc_block : MockBlock := MockBlock_genesis.
Definition dc_vote : MockVote := MockVote_new (mkHash 1) (mkHash 0) 0.
Definition dc_shows (m : Message) (s : string) : bool := eqb (NetworkMessage_to_string m) s.
Definition dc_handler : SimpleMessageHandler := SimpleMessageHandler_new NetworkConfig_default.
(** [handler.process_message(m).unwrap().is_success()]. *)
Definition dc_succeeds (m : Message) : M SimpleMessageHandler Error bool :=
  r ← unwrap (process_message m); mret (is_success r).
Definition dc_recorded (total : N) (field : MessageHandlerStats → N) :
    M MessageHandlerStats Error unit :=
  s ← get; assert (eqb (total_processed s) total && eqb (field s) 1).

Definition dc_test_network_message_display_all : bool :=
  dc_shows (NmProposal dc_block) "Proposal" && dc_shows (NmVote dc_vote) "Vote" &&
  dc_shows (NmTimeout 10) "Timeout(round=10)" &&
  dc_shows (NmSyncRequest 5) "SyncRequest(round=5)" &&
  dc_shows (NmSyncResponse []) "SyncResponse(count=0)" &&
  dc_shows (NmSyncResponse []) "SyncResponse(count=0)" &&
  dc_shows (NmEpochChange 2) "EpochChange(epoch=2)".
Definition dc_test_process_result_all_constructors : bool :=
  is_success PrSuccess && negb (is_success (PrValidationFailed "bad signature")) &&
  negb (is_success (PrIgnored "duplicate message")) &&
  negb (is_success (PrNeedsAction "process timeout")).
Definition dc_test_network_config_default : bool :=
  let config := NetworkConfig_default in
  eqb (max_message_size config) (10 * 1024 * 1024) && eqb (network_timeout_ms config) 5000 &&
  eqb (max_pending_syncs config) 10 && validate_immediately config.
Definition dc_test_message_handler_stats_new : bool :=
  let stats := MessageHandlerStats_default in
  eqb (total_processed stats) 0 && eqb (successful stats) 0 &&
  eqb (validation_failures stats) 0 && eqb (ignored stats) 0 && eqb (needs_action stats) 0.
Definition dc_test_message_handler_stats_record_all : bool :=
  test MessageHandlerStats_default
    (record_success;; dc_recorded 1 successful;;
     record_validation_failure;; dc_recorded 2 validation_failures;;
     record_ignored;; dc_recorded 3 ignored;;
     record_needs_action;; dc_recorded 4 needs_action).
Definition dc_test_simple_message_handler_all_message_types : bool :=
  test dc_handler
    (b ← dc_succeeds (NmProposal dc_block); assert b;;
     b ← dc_succeeds (NmVote dc_vote); assert b;;
     b ← dc_succeeds (NmTimeout 10); assert (negb b);;
     b ← dc_succeeds (NmSyncRequest 5); assert (negb b);;
     b ← dc_succeeds (NmSyncResponse []); assert b;;
     b ← dc_succeeds (NmEpochChange 2); assert (negb b)).
Definition dc_test_simple_message_handler_validation : bool :=
  let d := NetworkConfig_default in
  let config := mkNetworkConfig (max_message_size d) (network_timeout_ms d)
                  (max_pending_syncs d) false in
  test (SimpleMessageHandler_new config) (b ← dc_succeeds (NmProposal dc_block); assert b).
Definition dc_test_message_handler_validate_message : bool :=
  validate_message dc_handler (NmProposal dc_block : Message).
Definition dc_test_simple_message_handler_config : bool :=
  eqb (max_message_size (smh_config dc_handler)) (10 * 1024 * 1024).
Definition dc_test_message_router_new : bool :=
  let router : MessageRouter (Hd := SimpleMessageHandler) :=
    MessageRouter_new NetworkConfig_default in
  ok_and is_none (route_message router (NmProposal dc_block : Message)).

(** ** pipeline/mod.rs *)
Definition dc_pipeline : Pipeline := Pipeline_new PipelineConfig_default.
Definition dc_completes (m : M Pipeline Error PipelineResult) (total : option N) : bool :=
  test dc_pipeline
    (r ← unwrap m; assert (is_completed r);;
     n ← gets (λ p, pl_total_processed (pl_stats p));
     assert (default true (eqb n <$> total))).
Definition dc_test_stage_next_all : bool :=
  eqb (Stage_next Receiving) (Some Validation) &&
  eqb (Stage_next Validation) (Some Processing) &&
  eqb (Stage_next Processing) (Some SCommit) && eqb (Stage_next SCommit) None.
Definition dc_test_stage_name_all : bool :=
  eqb (Stage_name <$> [Receiving; Validation; Processing; SCommit])
    ["receiving"; "validation"; "processing"; "commit"]%string.
(** [Display] writes the name. *)
Definition dc_test_stage_display_all : bool := dc_test_stage_name_all.
Definition dc_test_stage_result_continue : bool := should_continue SrContinue.
Definition dc_test_stage_result_stop : bool :=
  negb (should_continue (SrStop "validation failed")).
Definition dc_test_stage_result_skip : bool :=
  negb (should_continue (SrSkip "duplicate message")).
Definition dc_test_pipeline_config_default : bool :=
  let config := PipelineConfig_default in
  eqb (stage_timeout_ms config) 5000 && eqb (max_concurrent config) 10 &&
  pl_validate_immediately config && negb (parallel_processing config).
Definition dc_test_pipeline_config_stage_timeout : bool :=
  eqb (stage_timeout PipelineConfig_default) (from_millis 5000).
Definition dc_test_pipeline_stats_default : bool :=
  let stats := PipelineStats_default in
  eqb (pl_total_processed stats) 0 && eqb (pl_failed stats) 0 && eqb (pl_skipped stats) 0 &&
  eqb (length (stage_counts stats)) 4%nat.
Definition dc_test_pipeline_result_completed : bool :=
  is_completed PlCompleted && eqb (final_stage PlCompleted) None.
Definition dc_test_pipeline_result_stopped : bool :=
  let result := PlStopped Validation "bad signature" in
  negb (is_completed result) && eqb (final_stage result) (Some Validation).
Definition dc_test_pipeline_result_skipped : bool :=
  let result := PlSkipped Processing "duplicate" in
  negb (is_completed result) && eqb (final_stage result) (Some Processing).
Definition dc_test_pipeline_new : bool :=
  eqb (pl_current_stage dc_pipeline) Receiving &&
  eqb (pl_total_processed (pl_stats dc_pipeline)) 0.
Definition dc_test_pipeline_process_block_completed : bool :=
  dc_completes (process_block dc_block) (Some 4).
Definition dc_test_pipeline_process_vote : bool :=
  dc_completes (pipeline_process_vote dc_vote) None.
Definition dc_test_pipeline_process_qc : bool := dc_completes pipeline_process_qc None.
Definition dc_test_pipeline_reset : bool :=
  eqb (pl_current_stage (pipeline_reset dc_pipeline)) Receiving.
Definition dc_test_pipeline_config : bool :=
  eqb (stage_timeout_ms (pl_config dc_pipeline)) 5000.
Definition dc_test_pipeline_stats : bool :=
  let stats := pl_stats dc_pipeline in
  eqb (pl_total_processed stats) 0 && eqb (pl_failed stats) 0 && eqb (pl_skipped stats) 0.
Definition dc_test_pipeline_builder_all_methods : bool :=
  let config := pl_config (build_pipeline
    (with_parallel_processing true (with_validate_immediately false
       (with_max_concurrent 5 (with_stage_timeout_ms 1000 PipelineBuilder_new))))) in
  eqb (stage_timeout_ms config) 1000 && eqb (max_concurrent config) 5 &&
  negb (pl_validate_immediately config) && parallel_processing config.
Definition dc_test_pipeline_builder_default : bool :=
  eqb (pl_current_stage (build_pipeline PipelineBuilder_new)) Receiving.
(** The derived order and hash of [Stage] are those of its discriminant. *)
Definition stage_lt (s t : Stage) : bool := bool_decide (Stage_index s < Stage_index t)%nat.
Definition dc_test_stage_ord : bool :=
  stage_lt Receiving Validation && stage_lt Validation Processing &&
  stage_lt Processing SCommit.
Definition dc_test_stage_hash : bool :=
  eqb (length (remove_dups [Receiving; Validation; Processing; SCommit])) 4%nat.

Definition coverage_tests : Suite := [
  ("ordering_config"%string, dc_test_ordering_config_all_fields);
  ("ordering_config_default"%string, dc_test_ordering_config_default);
  ("commit_event"%string, dc_test_commit_event_new_and_fields);
  ("anchor_methods"%string, dc_test_round_robin_anchor_methods);
  ("message_display"%string, dc_test_network_message_display_all);
  ("process_result"%string, dc_test_process_result_all_constructors);
  ("network_config"%string, dc_test_network_config_default);
  ("stats_new"%string, dc_test_message_handler_stats_new);
  ("stats_record_all"%string, dc_test_message_handler_stats_record_all);
  ("handler_all_types"%string, dc_test_simple_message_handler_all_message_types);
  ("handler_validation"%string, dc_test_simple_message_handler_validation);
  ("validate_message"%string, dc_test_message_handler_validate_message);
  ("handler_config"%string, dc_test_simple_message_handler_config);
  ("router_new"%string, dc_test_message_router_new);
  ("stage_next"%string, dc_test_stage_next_all);
  ("stage_name"%string, dc_test_stage_name_all);
  ("stage_display"%string, dc_test_stage_display_all);
  ("stage_continue"%string, dc_test_stage_result_continue);
  ("stage_stop"%string, dc_test_stage_result_stop);
  ("stage_skip"%string, dc_test_stage_result_skip);
  ("pipeline_config"%string, dc_test_pipeline_config_default);
  ("stage_timeout"%string, dc_test_pipeline_config_stage_timeout);
  ("stats_default"%string, dc_test_pipeline_stats_default);
  ("result_completed"%string, dc_test_pipeline_result_completed);
  ("result_stopped"%string, dc_test_pipeline_result_stopped);
  ("result_skipped"%string, dc_test_pipeline_result_skipped);
  ("pipeline_new"%string, dc_test_pipeline_new);
  ("process_block"%string, dc_test_pipeline_process_block_completed);
  ("process_vote"%string, dc_test_pipeline_process_vote);
  ("process_qc"%string, dc_test_pipeline_process_qc);
  ("reset"%string, dc_test_pipeline_reset);
  ("config"%string, dc_test_pipeline_config);
  ("stats"%string, dc_test_pipeline_stats);
  ("builder_all"%string, dc_test_pipeline_builder_all_methods);
  ("builder_default"%string, dc_test_pipeline_builder_default);
  ("stage_ord"%string, dc_test_stage_ord);
  ("stage_hash"%string, dc_test_stage_hash)].
End tests.

(** Every translated test passes, in both builds. *)
Theorem coverage_tests_pass `{OV : OverflowMode} : passes coverage_tests.
Proof. destruct OV; apply (bool_decide_unpack _); vm_compute; exact I. Qed.
