(* ===== verification/CoverageComprehensive.v ===== *)
(** * The comprehensive coverage suite, run on the model

    consensus-core/tests/coverage_comprehensive.rs over the crate's mock chain.
    Left out are the tests that assert nothing and three on the [Debug] output of
    enums. *)
From S2P Require Import Prelude.
From S2P Require Import Traits.
From S2P Require Import CommonTypes.
From S2P Require Import SafetyStateData.
From S2P Require Import Timeout.
From S2P Require Import Mocks.
From S2P Require Import TwoChain.
From S2P Require Import RoundState.
From S2P Require Import PendingVotes.
From S2P Require Import RoundManager.
From S2P Require Import Float64.
From S2P Require Import Pacemaker.
From S2P Require Import Proposer.
From S2P Require Import EpochManager.
From S2P Require Import Pipeline.
From S2P Require Import Consensus.
From S2P Require Import Runtime.
From S2P Require Import DagTypes.
From S2P Require Import DagOrdering.
From S2P Require Import DagDriver.
From S2P Require Import DebugFmt.
From S2P Require Import Testing.
#[local] Existing Instance mock_chain.

(** ** The suite's own types and helpers *)
Definition make_vote (epoch round author_id : N) (block_id : MockHash) : MockVote :=
  MockVote_new (mkHash author_id) block_id round.
Definition make_block (epoch round author_id : N) (parent_id : MockHash) : MockBlock :=
  mkBlock (mkMeta epoch round (mkHash author_id) parent_id (round * 1000)) [].
Definition make_qc (round epoch : N) (block_id : MockHash) : MockQuorumCert :=
  mkQC (mkMeta epoch round (mkHash 0) block_id (round * 1000)) block_id.

(** [TestAuthor(u8)], whose [Display] is [Author({})]. *)
Record Author := mkAuthor { au_inner : N }.
#[export] Instance Author_eq_dec : EqDecision Author.
Proof. solve_decision. Defined.
Definition Author_from_bytes (bytes : list N) : res Error Author :=
  Ok (mkAuthor (default 0 (bytes !! 0%nat))).
#[export] Instance Author_hash : HashTrait Author := {|
  hash_zero := mkAuthor 0; hash_from_bytes := Author_from_bytes; hash_as_bytes _ := [];
|}.
#[export] Instance Author_node_id : NodeIdTrait Author := {|
  node_id_from_bytes := Author_from_bytes; node_id_as_bytes _ := [];
|}.
Definition Author_to_string (a : Author) : string := "Author(" +:+ pretty (au_inner a) +:+ ")".

Record TestProposerElection := mkTestProposerElection { tpe_validators : list Author }.
Definition tpe_valid_proposer (e : TestProposerElection) (round : Round) :
    res Error (option Author) :=
  if decide (tpe_validators e = []) then Ok None
  else let index := round mod N.of_nat (length (tpe_validators e)) in
       Ok (tpe_validators e !! N.to_nat index).
#[export] Instance TestProposerElection_impl :
    ProposerElection TestProposerElection Author := {|
  get_valid_proposer := tpe_valid_proposer;
  get_voting_power_participation_ratio _ _ := f64_one;
|}.

Section tests.
Context `{OV : OverflowMode} `{HO : HashOrder}.
#[local] Instance exponential_strategy : RoundIntervalStrategy ExponentialIntervalStrategy :=
  exponential_duration exact_powf.

(** Every signer has power 100; 267 are a quorum. *)
Definition TestVerifier : Verifier := {|
  verify_vote _ := Ok tt;
  verify_block _ := Ok tt;
  get_voting_power _ := Some 100;
  total_voting_power := 400;
  quorum_voting_power := 267;
  check_voting_power signers check_quorum :=
    power ← count_power 0 signers;
    if check_quorum && (power <? 267) then Err (TooLittleVotingPower power 267) else Ok tt;
  aggregate_signatures _ := Ok mkAgg;
|}.

(** ** consensus/mod.rs *)
Abbreviation TestConsensus := (Consensus TestProposerElection Author).
Abbreviation CT := (M TestConsensus Error).
Definition two_authors : TestProposerElection :=
  mkTestProposerElection [mkAuthor 1; mkAuthor 2].
Definition builder : ConsensusBuilder (PE := TestProposerElection) (A := Author) :=
  with_proposer_election two_authors ConsensusBuilder_new.
Definition on_built (m : CT unit) : bool :=
  ok_and (λ c, test c m) (build_consensus exact_powf builder).
Definition on_built_as (id : N) (m : CT unit) : bool :=
  ok_and (λ c, test c m)
    (build_consensus exact_powf (with_self_validator_id (mkAuthor id) builder)).
Definition not_running {X} (r : res Error X) : bool :=
  err_and (says "Not in running state") r.
Definition state_is (st : ConsensusState) : CT unit :=
  s ← gets c_state; assert (eqb s st).

Definition co_test_consensus_process_proposal_when_not_running : bool :=
  on_built
    (result ← unwrap (consensus_process_proposal MockBlock_genesis);
     assert (negb (pr_accepted result));;
     assert (is_some (pr_reason result));;
     assert (negb (pr_voted result));;
     state_is Bootstrapping).
Definition co_test_consensus_process_vote_when_not_running : bool :=
  on_built
    (result ← attempt (consensus_process_vote (make_vote 0 0 0 (mkHash 0)) TestVerifier);
     assert (not_running result)).
Definition co_test_consensus_process_qc_when_not_running : bool :=
  on_built
    (result ← attempt (consensus_process_qc (make_qc 0 0 (mkHash 0)));
     assert (not_running result)).
Definition co_test_consensus_process_timeout_when_not_running : bool :=
  on_built
    (result ← attempt (consensus_process_timeout exact_powf 5);
     assert (not_running result)).
Definition co_test_consensus_generate_proposal_when_not_running : bool :=
  on_built_as 1
    (result ← attempt consensus_generate_proposal; assert (not_running result)).
Definition co_test_consensus_generate_proposal_when_not_proposer : bool :=
  on_built_as 3
    (unwrap start;; result ← unwrap consensus_generate_proposal; assert (is_none result)).
Definition co_test_consensus_stop_when_not_running : bool :=
  on_built
    (result ← attempt stop;
     assert (err_and (says "Cannot stop consensus from state") result)).
Definition co_test_consensus_stop_when_already_stopped : bool :=
  on_built
    (unwrap start;; unwrap stop;;
     result ← attempt stop;
     assert (err_and (says "Cannot stop consensus from state") result)).
Definition co_test_consensus_builder_with_custom_config : bool :=
  let config := ConsensusConfig_default in
  ok_and (λ c : TestConsensus, eqb (c_epoch c) (cc_initial_epoch config))
    (build_consensus exact_powf
       (with_self_validator_id (mkAuthor 1)
          (with_proposer_election two_authors (with_config config ConsensusBuilder_new)))).
Definition co_test_consensus_builder_missing_proposer_election : bool :=
  is_err (build_consensus exact_powf ConsensusBuilder_new : res Error TestConsensus).
Definition co_test_consensus_full_lifecycle : bool :=
  on_built_as 1
    (r ← attempt start; assert (is_ok r);;
     state_is Running;;
     result ← unwrap (consensus_process_proposal (make_block 0 0 0 (mkHash 0)));
     assert (pr_accepted result);;
     vote_result ←
       unwrap (consensus_process_vote (make_vote 0 0 1 (mkHash 0)) TestVerifier);
     assert (vr_accepted vote_result);;
     attempt (consensus_process_qc (make_qc 0 0 (mkHash 0)));;
     r ← attempt (consensus_process_timeout exact_powf 1); assert (is_ok r);;
     r ← attempt stop; assert (is_ok r);;
     state_is Stopped).
Definition co_test_consensus_config_new : bool :=
  let config := ConsensusConfig_new 5 1 PacemakerConfig_default RoundManagerConfig_default
                  PipelineConfig_default in
  eqb (cc_initial_round config) 5 && eqb (cc_initial_epoch config) 1.
Definition co_test_consensus_state_display_all : bool :=
  eqb (ConsensusState_to_string <$> [Bootstrapping; Running; CatchingUp; Stopping; Stopped])
    ["bootstrapping"; "running"; "catching_up"; "stopping"; "stopped"]%string.
Definition co_test_proposal_result_all_variants : bool :=
  let accepted := mkProposalResult true None 5 true in
  let rejected := mkProposalResult false (Some (RrText "bad block")) 3 false in
  pr_accepted accepted && pr_voted accepted && eqb (pr_round accepted) 5 &&
  is_none (pr_reason accepted) && negb (pr_accepted rejected) && negb (pr_voted rejected) &&
  eqb (pr_round rejected) 3 && is_some (pr_reason rejected).
Definition co_test_vote_result_all_fields : bool :=
  let result := mkVoteResult true 10 in vr_accepted result && eqb (vr_round result) 10.
Definition consensus_coverage : Suite := [
  ("proposal_not_running"%string, co_test_consensus_process_proposal_when_not_running);
  ("vote_not_running"%string, co_test_consensus_process_vote_when_not_running);
  ("qc_not_running"%string, co_test_consensus_process_qc_when_not_running);
  ("timeout_not_running"%string, co_test_consensus_process_timeout_when_not_running);
  ("generate_not_running"%string, co_test_consensus_generate_proposal_when_not_running);
  ("generate_not_proposer"%string, co_test_consensus_generate_proposal_when_not_proposer);
  ("stop_not_running"%string, co_test_consensus_stop_when_not_running);
  ("stop_stopped"%string, co_test_consensus_stop_when_already_stopped);
  ("builder_config"%string, co_test_consensus_builder_with_custom_config);
  ("builder_missing"%string, co_test_consensus_builder_missing_proposer_election);
  ("full_lifecycle"%string, co_test_consensus_full_lifecycle);
  ("config_new"%string, co_test_consensus_config_new);
  ("state_display"%string, co_test_consensus_state_display_all);
  ("proposal_result"%string, co_test_proposal_result_all_variants);
  ("vote_result"%string, co_test_vote_result_all_fields)].

(** ** consensus/runtime.rs *)
Abbreviation TestRuntime := (ConsensusRuntime TestProposerElection Author).
Definition runtime_of (started : bool) : res Error TestRuntime :=
  c ← build_consensus exact_powf builder;
  let c := if started then (start c).1 else c in
  Ok (ConsensusRuntime_new c RuntimeConfig_default).
Definition on_runtime (m : M TestRuntime Error unit) : bool :=
  ok_and (λ r, test r m) (runtime_of false).
(** Whether handling the message on a fresh runtime succeeds. *)
Definition handles (started : bool) (m : RtMessage) (expected : bool) : bool :=
  ok_and (λ r, test r
    (result ← unwrap (handle_network_message exact_powf m);
     assert (eqb (er_is_success result) expected))) (runtime_of started).
Definition shows (m : RtMessage) (pats : list string) : bool :=
  forallb (λ p, contains p (RtMessage_to_string m)) pats.
Definition a_block : MockBlock := MockBlock_genesis.

Definition co_test_runtime_config_durations : bool :=
  let config := RuntimeConfig_new 100 10 5000 2048 in
  eqb (process_interval config) (from_millis 100) &&
  eqb (network_timeout config) (from_millis 5000).
Definition co_test_execution_result_variants : bool :=
  er_is_success ErSuccess && negb (er_is_success (ErFailed (Msg "error" []))) &&
  negb (er_is_success ErTimeout) && negb (er_is_success (ErSkipped "skip")).
Definition co_test_network_message_vote_display : bool :=
  shows (RmVote (make_vote 0 5 1 (mkHash 5))) ["Vote"]%string.
Definition co_test_network_message_qc_display : bool :=
  shows (RmQuorumCertificate (make_qc 10 0 (mkHash 10))) ["QC"; "10"]%string.
Definition co_test_network_message_timeout_display : bool :=
  shows (RmTimeout 7) ["Timeout"; "7"]%string.
Definition co_test_network_message_sync_request_display : bool :=
  shows (RmSyncRequest 100) ["SyncRequest"; "100"]%string.
Definition co_test_network_message_sync_response_display : bool :=
  shows (RmSyncResponse [a_block; a_block]) ["SyncResponse"; "2"]%string.
Definition co_test_runtime_process_pending_messages : bool :=
  on_runtime
    (for_each [RmProposal a_block; RmVote (make_vote 0 0 1 (mkHash 0));
               RmQuorumCertificate (make_qc 0 0 (mkHash 0)); RmTimeout 1; RmSyncRequest 5;
               RmSyncResponse [a_block]] (λ m, modify (add_network_message m));;
     results ← unwrap (process_pending_messages exact_powf);
     assert (eqb (length results) 6%nat);;
     assert (none_or (λ r, negb (er_is_success r.2)) (results !! 4%nat));;
     assert (none_or (λ r, negb (er_is_success r.2)) (results !! 5%nat))).
Definition co_test_runtime_handle_network_message_proposal : bool :=
  handles false (RmProposal a_block) true.
Definition co_test_runtime_handle_network_message_vote : bool :=
  handles false (RmVote (make_vote 0 0 1 (mkHash 0))) true.
Definition co_test_runtime_handle_network_message_timeout : bool :=
  handles true (RmTimeout 1) true.
Definition co_test_runtime_handle_network_message_sync_request : bool :=
  handles false (RmSyncRequest 5) false.
Definition co_test_runtime_handle_network_message_sync_response : bool :=
  handles false (RmSyncResponse [a_block]) false.
Definition co_test_runtime_execute_block : bool :=
  on_runtime (result ← unwrap (execute_block a_block); assert (er_is_success result)).
Definition co_test_runtime_broadcast_proposal : bool :=
  ok_and (λ r, er_is_success (broadcast_proposal r a_block)) (runtime_of false).
Definition co_test_runtime_broadcast_vote : bool :=
  ok_and (λ r, er_is_success (broadcast_vote r (make_vote 0 0 1 (mkHash 0))))
    (runtime_of false).
Definition co_test_runtime_shutdown_when_not_running : bool :=
  on_runtime
    (result ← attempt shutdown; assert (err_and (says "Runtime is not running") result)).
Definition co_test_runtime_start_when_already_running : bool :=
  on_runtime
    (unwrap rt_start;;
     result ← attempt rt_start; assert (err_and (says "Runtime is already running") result)).
Definition co_test_runtime_config_clone : bool :=
  let config := RuntimeConfig_new 100 10 2000 2048 in
  let cloned := config in
  eqb (process_interval_ms cloned) 100 && eqb (max_concurrent_tasks cloned) 10.
Definition co_test_execution_result_clone : bool :=
  let result1 := ErSuccess in let cloned := result1 in er_is_success cloned.
Definition co_test_runtime_config_default : bool :=
  eqb (process_interval_ms RuntimeConfig_default) 100 &&
  eqb (max_concurrent_tasks RuntimeConfig_default) 10.
Definition co_test_execution_result_error : bool :=
  negb (er_is_success (ErFailed (Msg "Test error" []))).
Definition runtime_coverage : Suite := [
  ("config_durations"%string, co_test_runtime_config_durations);
  ("result_variants"%string, co_test_execution_result_variants);
  ("vote_display"%string, co_test_network_message_vote_display);
  ("qc_display"%string, co_test_network_message_qc_display);
  ("timeout_display"%string, co_test_network_message_timeout_display);
  ("sync_request_display"%string, co_test_network_message_sync_request_display);
  ("sync_response_display"%string, co_test_network_message_sync_response_display);
  ("pending_messages"%string, co_test_runtime_process_pending_messages);
  ("handle_proposal"%string, co_test_runtime_handle_network_message_proposal);
  ("handle_vote"%string, co_test_runtime_handle_network_message_vote);
  ("handle_timeout"%string, co_test_runtime_handle_network_message_timeout);
  ("handle_sync_request"%string, co_test_runtime_handle_network_message_sync_request);
  ("handle_sync_response"%string, co_test_runtime_handle_network_message_sync_response);
  ("execute_block"%string, co_test_runtime_execute_block);
  ("broadcast_proposal"%string, co_test_runtime_broadcast_proposal);
  ("broadcast_vote"%string, co_test_runtime_broadcast_vote);
  ("shutdown_not_running"%string, co_test_runtime_shutdown_when_not_running);
  ("start_running"%string, co_test_runtime_start_when_already_running);
  ("config_clone"%string, co_test_runtime_config_clone);
  ("result_clone"%string, co_test_execution_result_clone);
  ("config_default"%string, co_test_runtime_config_default);
  ("result_error"%string, co_test_execution_result_error)].

(** ** timeout/two_chain.rs *)
Definition certificate (epoch round hqc_round highest_tc_round : N)
    (timeout : TwoChainTimeout) : TwoChainTimeoutCertificate MockSignature :=
  TC_new epoch round hqc_round highest_tc_round timeout (mkSig 0).
Definition advances (tc : TwoChainTimeoutCertificate MockSignature) (expected : bool) : bool :=
  ok_and (eqb expected) (allows_advance (E:=Error) tc).

Definition co_test_timeout_verify_invalid_hqc_round_equals : bool :=
  err_and (says "hqc_round") (timeout_verify (TwoChainTimeout_new 0 5 5)).
Definition co_test_timeout_verify_invalid_hqc_round_greater : bool :=
  err_and (says "hqc_round") (timeout_verify (TwoChainTimeout_new 0 5 10)).
Definition co_test_timeout_certificate_verify_invalid_hqc : bool :=
  is_err (tcc_verify (certificate 0 5 5 0 (TwoChainTimeout_new 0 5 5))).
Definition co_test_timeout_certificate_verify_invalid_highest_tc : bool :=
  is_err (tcc_verify (certificate 0 10 5 10 (TwoChainTimeout_new 0 10 5))).
Definition co_test_timeout_certificate_allows_advance_true_via_hqc : bool :=
  advances (certificate 0 5 4 0 (TwoChainTimeout_new 0 5 4)) true.
Definition co_test_timeout_certificate_allows_advance_true_via_highest_tc : bool :=
  advances (certificate 0 10 5 9 (TwoChainTimeout_new 0 10 5)) true.
Definition co_test_timeout_certificate_allows_advance_false : bool :=
  advances (certificate 0 10 5 7 (TwoChainTimeout_new 0 10 5)) false.
Definition co_test_timeout_certificate_effective_hqc_round_uses_hqc : bool :=
  eqb (effective_hqc_round (certificate 0 10 8 5 (TwoChainTimeout_new 0 10 8))) 8.
Definition co_test_timeout_certificate_effective_hqc_round_uses_highest_tc : bool :=
  eqb (effective_hqc_round (certificate 0 10 5 8 (TwoChainTimeout_new 0 10 5))) 8.
Definition co_test_timeout_certificate_timeout_certificate_trait : bool :=
  let tc := certificate 1 10 5 8 (TwoChainTimeout_new 1 10 5) in
  eqb (tc_epoch tc) 1 && eqb (tc_round tc) 10 && eqb (tc_highest_qc_round tc) 5 &&
  eqb (tc_highest_tc_round tc) 8.
Definition co_test_two_chain_timeout_display : bool :=
  let debug_str := debug (TwoChainTimeout_new 1 10 9) in
  contains "epoch" debug_str || contains "1" debug_str.
#[local] Instance MockSignature_debug : Debug MockSignature :=
  λ s, debug_newtype "MockSignature" (sig_byte s).
Definition co_test_two_chain_timeout_certificate_debug : bool :=
  contains "TwoChainTimeoutCertificate"
    (debug (certificate 1 5 4 0 (TwoChainTimeout_new 1 5 4))).

(** ** round_manager/mod.rs *)
Abbreviation RMT := (M (RoundManager TwoChainSafetyRules) Error).
Definition on_manager (m : RMT unit) : bool :=
  test (RoundManager_new RoundManagerConfig_default (rules_new 0)) m.
Definition rm_record_vote (round : Round) : RMT unit :=
  unwrap (on_safety_rules (record_vote round)).
Definition rm_try_vote (proposal : MockBlock) : RMT unit :=
  try_vote_for_proposal proposal
    (None : option (TwoChainTimeoutCertificate (@BSig mock_chain))).
Definition rm_timeout : RMT unit :=
  RoundManager.process_timeout (TC := TwoChainTimeoutCertificate (@BSig mock_chain)) NoQuorum.

Definition co_test_round_manager_try_vote_for_proposal_older_round : bool :=
  on_manager
    (rm_record_vote 10;;
     result ← attempt (rm_try_vote MockBlock_genesis);
     assert (err_and (says "already voted") result)).
Definition co_test_round_manager_process_proposal_old_round : bool :=
  on_manager
    (unwrap (RoundManager.start_round 5);;
     result ← unwrap (process_proposal (make_block 0 3 0 (mkHash 0)));
     assert (eqb result PpOldRound)).
Definition co_test_round_manager_process_proposal_future_round : bool :=
  on_manager
    (unwrap (RoundManager.start_round 5);;
     result ← unwrap (process_proposal (make_block 0 10 0 (mkHash 0)));
     assert (eqb result PpFutureRound)).
Definition co_test_round_manager_process_timeout_safety_check : bool :=
  on_manager
    (rm_record_vote 0;;
     result ← attempt rm_timeout;
     m ← get;
     assert (is_ok result && eqb (rm_round m) 1)).
Definition co_test_round_manager_getters : bool :=
  on_manager (m ← get; assert (eqb (rm_epoch m) 0 && eqb (rm_round m) 0)).
Definition co_test_try_vote_for_proposal_safety_rule_violation : bool :=
  on_manager
    (rm_record_vote 10;;
     result ← attempt (rm_try_vote (make_block 0 5 0 (mkHash 5)));
     assert (is_err result)).
Definition co_test_round_manager_config_default : bool :=
  eqb (rmc_max_buffered_rounds RoundManagerConfig_default) 10.
Definition co_test_round_state_config_default : bool :=
  eqb (rsc_max_buffered_rounds RoundStateConfig_default) 10.

(** ** safety_rules/ *)
Definition co_test_safety_state_all_accessors : bool :=
  let s := state (rules_new 0) in
  eqb (ss_last_voted_round s) 0 && eqb (ss_one_chain_round s) 0 &&
  eqb (ss_preferred_round s) 0 && eqb (ss_highest_timeout_round s) 0.
Definition co_test_safety_state_round_progression : bool :=
  test (rules_new 0)
    (unwrap (record_vote 5);;
     unwrap (observe_qc (make_qc 10 0 (mkHash 10)));;
     s ← gets state;
     assert (eqb (ss_last_voted_round s) 5 && eqb (ss_one_chain_round s) 10)).
Definition co_test_safety_state_data_new_epoch : bool :=
  let state2 := new_epoch (mkSafetyState 5 100 100 99 80) 6 in
  eqb (epoch state2) 6 && eqb (last_voted_round state2) 0 &&
  eqb (preferred_round state2) 100 && eqb (one_chain_round state2) 0 &&
  eqb (highest_timeout_round state2) 0.
Definition co_test_safety_state_data_display : bool :=
  let display := SafetyStateData_to_string (mkSafetyState 5 10 10 9 8) in
  contains "epoch" display && contains "5" display.
Definition rules_coverage : Suite := [
  ("hqc_equals"%string, co_test_timeout_verify_invalid_hqc_round_equals);
  ("hqc_greater"%string, co_test_timeout_verify_invalid_hqc_round_greater);
  ("tc_invalid_hqc"%string, co_test_timeout_certificate_verify_invalid_hqc);
  ("tc_invalid_tc"%string, co_test_timeout_certificate_verify_invalid_highest_tc);
  ("advance_hqc"%string, co_test_timeout_certificate_allows_advance_true_via_hqc);
  ("advance_tc"%string, co_test_timeout_certificate_allows_advance_true_via_highest_tc);
  ("advance_false"%string, co_test_timeout_certificate_allows_advance_false);
  ("effective_hqc"%string, co_test_timeout_certificate_effective_hqc_round_uses_hqc);
  ("effective_tc"%string, co_test_timeout_certificate_effective_hqc_round_uses_highest_tc);
  ("tc_trait"%string, co_test_timeout_certificate_timeout_certificate_trait);
  ("timeout_debug"%string, co_test_two_chain_timeout_display);
  ("tc_debug"%string, co_test_two_chain_timeout_certificate_debug);
  ("vote_older_round"%string, co_test_round_manager_try_vote_for_proposal_older_round);
  ("proposal_old"%string, co_test_round_manager_process_proposal_old_round);
  ("proposal_future"%string, co_test_round_manager_process_proposal_future_round);
  ("timeout_check"%string, co_test_round_manager_process_timeout_safety_check);
  ("getters"%string, co_test_round_manager_getters);
  ("vote_violation"%string, co_test_try_vote_for_proposal_safety_rule_violation);
  ("manager_config"%string, co_test_round_manager_config_default);
  ("round_config"%string, co_test_round_state_config_default);
  ("state_accessors"%string, co_test_safety_state_all_accessors);
  ("state_progression"%string, co_test_safety_state_round_progression);
  ("state_new_epoch"%string, co_test_safety_state_data_new_epoch);
  ("state_display"%string, co_test_safety_state_data_display)].

(** ** liveness/pacemaker.rs and epoch_manager/mod.rs *)
Abbreviation PMT := (M (Pacemaker ExponentialIntervalStrategy) Error).
Definition strategy : res Error ExponentialIntervalStrategy :=
  ExponentialIntervalStrategy_new exact_powf (from_millis 100) (f64_of_N 2) 5.
Definition on_pacemaker (m : PMT unit) : bool :=
  ok_and (λ s, test (Pacemaker_new s PacemakerConfig_default) m) strategy.
Definition enters (round : Round) : PMT unit :=
  r ← attempt (enter_new_round round); assert (is_ok r).
Definition orders (round : Round) : PMT unit :=
  r ← attempt (record_ordered_round round); assert (is_ok r).
Definition round_is (round : Round) : PMT unit :=
  r ← gets pm_current_round; assert (eqb r round).
Definition on_epochs (initial : Epoch) (m : M EpochManager Error unit) : bool :=
  test (EpochManager_new (mkEpochManagerConfig initial false)) m.
Definition next_epoch_is (epoch : Epoch) : M EpochManager Error unit :=
  r ← attempt (force_next_epoch (Some 0));
  e ← gets em_epoch;
  assert (is_ok r && eqb e epoch).

Definition co_test_pacemaker_exponential_strategy : bool :=
  ok_and (λ s, forallb
    (λ '(n, ms), eqb (exponential_duration exact_powf s n) (from_millis ms))
    [(0, 100); (1, 200); (3, 800); (10, 3200)]) strategy.
Definition co_test_pacemaker_lifecycle : bool :=
  on_pacemaker (enters 2;; round_is 2;; orders 2;; enters 3;; round_is 3).
Definition co_test_pacemaker_cannot_decrease_round : bool :=
  on_pacemaker
    (enters 5;; result ← attempt (enter_new_round 3); assert (is_err result)).
Definition co_test_pacemaker_cannot_order_past_round : bool :=
  on_pacemaker
    (enters 10;; orders 10;;
     result ← attempt (record_ordered_round 5); assert (is_err result)).
Definition co_test_pacemaker_config_default : bool :=
  eqb (base_duration_ms PacemakerConfig_default) 1000.
Definition co_test_epoch_manager_new : bool :=
  on_epochs 5 (e ← gets em_epoch; assert (eqb e 5)).
Definition co_test_epoch_manager_advance_epoch : bool :=
  on_epochs 0 (next_epoch_is 1;; next_epoch_is 2;; next_epoch_is 3).

(** ** dag/: identifiers are over [u64], the suite's [TestRound] (the crate's
    own, of the same name and definition) and its [TestAuthor] *)
Abbreviation Id R := (DagNodeId N R Author).
Definition compare_ids (x y : Id N) : comparison := DagNodeId_cmp N.compare x y.
#[local] Instance comparison_eq_dec : EqDecision comparison.
Proof. solve_decision. Defined.
Definition ident {R} (epoch : N) (round : R) (author : N) : Id R :=
  mkNodeId epoch round (mkAuthor author).
Definition id_string (id : Id N) : string :=
  DagNodeId_to_string pretty pretty Author_to_string id.
Definition node_string (id : Id TestRound) : string :=
  DagNodeId_to_string pretty TestRound_to_string Author_to_string id.

Definition co_test_dag_node_id_new_and_accessors : bool :=
  let id := ident 1 10 5 in
  eqb (nid_epoch id) 1 && eqb (nid_round id) 10 && eqb (nid_author id) (mkAuthor 5).
Definition co_test_dag_node_id_ord : bool :=
  let id1 := ident 1 10 5 in
  let id2 := ident 1 10 5 in
  let id3 := ident 1 11 5 in
  eqb id1 id2 && eqb (compare_ids id1 id3) Lt && negb (eqb (compare_ids id1 id3) Gt).
Definition co_test_dag_node_id_ord_different_rounds : bool :=
  eqb (compare_ids (ident 1 5 5) (ident 1 10 5)) Lt.
Definition co_test_dag_node_id_ord_different_epochs : bool :=
  let id1 := ident 1 10 5 in
  let id2 := ident 2 10 5 in
  negb (eqb id1 id2) && eqb (compare_ids id1 id2) Eq.
Definition co_test_dag_node_id_display : bool := negb (eqb (id_string (ident 1 10 5)) "").
Definition co_test_dag_driver_config_default : bool :=
  let config := DagDriverConfig_default in
  eqb (dd_window_size config) 100 && eqb (dd_anchor_interval config) 2 &&
  eqb (max_concurrent_rounds config) 10.
Definition co_test_dag_driver_config_new : bool :=
  let config := mkDriverConfig 200 5 20 in
  eqb (dd_window_size config) 200 && eqb (dd_anchor_interval config) 5 &&
  eqb (max_concurrent_rounds config) 20.
Definition co_test_commit_event_clone : bool :=
  let id := ident 1 (mkTestRound 10) 5 in
  let event := mkCommitEvent id ([] : list Author) [] in
  let cloned := event in
  eqb (anchor_id cloned) id && eqb (length (ce_parents cloned)) 0%nat &&
  eqb (length (failed_authors cloned)) 0%nat.
Definition co_test_test_round_hash : bool :=
  eqb (tr_inner hash_zero) 0 && eqb (hash_as_bytes (mkTestRound 42)) [] &&
  eqb (TestRound_to_string (mkTestRound 42)) "42"%string.
Definition co_test_test_author_hash : bool :=
  eqb (au_inner hash_zero) 0 && eqb (node_id_as_bytes (mkAuthor 7)) [] &&
  eqb (Author_to_string (mkAuthor 7)) "Author(7)"%string.
Definition co_test_test_nodeid_hash : bool :=
  let zero_id : Id TestRound := mkNodeId 0 hash_zero hash_zero in
  negb (eqb (node_string (ident 1 (mkTestRound 10) 5)) "") &&
  eqb (nid_epoch zero_id) 0 && eqb (nid_round zero_id) (mkTestRound 0) &&
  eqb (nid_author zero_id) (mkAuthor 0).
Definition co_test_dag_payload_impl_empty : bool :=
  eqb (length (pi_data (DagPayloadImpl_empty : DagPayloadImpl TestRound))) 0%nat.

(** ** testing/ and the traits *)
Definition co_test_mock_block_all_methods : bool :=
  is_none (block_signature MockBlock_genesis).
Definition co_test_mock_vote_all_methods : bool :=
  let vote := MockVote_new (mkHash 1) (mkHash 0) 0 in
  eqb (vote_round vote) 0 && eqb (vote_block_id vote) (mkHash 0).
Definition co_test_mock_quorum_cert_methods : bool :=
  let qc := MockQuorumCert_new (mkHash 10) in
  eqb (qc_block_id qc) (mkHash 10) && is_ok (qc_verify qc).
Definition co_test_mock_hash_trait_methods : bool :=
  let hash1 := mkHash 5 in
  let hash2 := mkHash 10 in
  let zero : MockHash := hash_zero in
  eqb (inner hash1) 5 && eqb (inner hash2) 10 && negb (eqb hash1 hash2) &&
  eqb (inner zero) 0.
Definition co_test_mock_validator_set_quorum_calculation : bool :=
  ok_and (λ set, eqb (length (hm_keys (mvs_validators set))) 1%nat)
    (MockValidatorSet_new (E:=Error) [MockValidator_new 1 100]).
Definition co_test_mock_signature_aggregation : bool :=
  let bytes := sig_to_bytes (mkSig 42) in
  returns (sig_aggregate [mkSig 1; mkSig 2]) && eqb bytes [42] &&
  ok_and (eqb (mkSig 42)) (sig_from_bytes bytes).
(** The bytes of [test]. *)
Definition co_test_mock_signature_verify : bool :=
  is_ok (sig_verify (mkSig 42) [116; 101; 115; 116] mkPK).
Definition co_test_timeout_reason_display : bool :=
  eqb (TimeoutReason_to_string NoQuorum) "no_quorum"%string.
Definition co_test_commit_decision_fields : bool :=
  let commit := Commit (mkHash 100) in
  negb (is_commit (NoCommit (H := MockHash))) &&
  eqb (committed_id (NoCommit (H := MockHash))) None && is_commit commit &&
  eqb (committed_id commit) (Some (mkHash 100)).
Definition co_test_pipeline_config_default : bool :=
  eqb (stage_timeout_ms PipelineConfig_default) 5000 &&
  eqb (max_concurrent PipelineConfig_default) 10.
Definition data_coverage : Suite := [
  ("exponential"%string, co_test_pacemaker_exponential_strategy);
  ("lifecycle"%string, co_test_pacemaker_lifecycle);
  ("cannot_decrease"%string, co_test_pacemaker_cannot_decrease_round);
  ("cannot_order_past"%string, co_test_pacemaker_cannot_order_past_round);
  ("pacemaker_config"%string, co_test_pacemaker_config_default);
  ("epoch_new"%string, co_test_epoch_manager_new);
  ("epoch_advance"%string, co_test_epoch_manager_advance_epoch);
  ("id_accessors"%string, co_test_dag_node_id_new_and_accessors);
  ("id_ord"%string, co_test_dag_node_id_ord);
  ("id_ord_rounds"%string, co_test_dag_node_id_ord_different_rounds);
  ("id_ord_epochs"%string, co_test_dag_node_id_ord_different_epochs);
  ("id_display"%string, co_test_dag_node_id_display);
  ("driver_default"%string, co_test_dag_driver_config_default);
  ("driver_new"%string, co_test_dag_driver_config_new);
  ("commit_event"%string, co_test_commit_event_clone);
  ("round_hash"%string, co_test_test_round_hash);
  ("author_hash"%string, co_test_test_author_hash);
  ("nodeid_hash"%string, co_test_test_nodeid_hash);
  ("payload_empty"%string, co_test_dag_payload_impl_empty);
  ("mock_block"%string, co_test_mock_block_all_methods);
  ("mock_vote"%string, co_test_mock_vote_all_methods);
  ("mock_qc"%string, co_test_mock_quorum_cert_methods);
  ("mock_hash"%string, co_test_mock_hash_trait_methods);
  ("mock_set"%string, co_test_mock_validator_set_quorum_calculation);
  ("mock_aggregate"%string, co_test_mock_signature_aggregation);
  ("mock_verify"%string, co_test_mock_signature_verify);
  ("timeout_reason"%string, co_test_timeout_reason_display);
  ("commit_decision"%string, co_test_commit_decision_fields);
  ("pipeline_config"%string, co_test_pipeline_config_default)].
End tests.

(** Every translated test passes, in both builds and two iteration orders. *)
Theorem comprehensive_coverage_tests_pass `{OV : OverflowMode} :
  Forall (λ HO : HashOrder,
    passes (consensus_coverage ++ runtime_coverage ++ rules_coverage ++ data_coverage))
    [canonical_order; reversed_order].
Proof. destruct OV; repeat constructor; vm_compute; reflexivity. Qed.
